(** * YachtsTrader listing import: extraction and scoring pipeline

    A shallow embedding of [docs/list-yacht.js] (the "Yacht Listing Import
    System v2.0") and the properties of its price parser, spec extractor,
    strategy dispatch, scoring, filtering and deduplication.

    Conventions of the embedding.
    - A JavaScript string is the list of its UTF-16 code units ([jsstring]);
      [js "..."] writes an ASCII literal.  Case conversion follows the
      tables of Unicode.
    - A value that need not be a string, such as the [href] of a link, is
      a [jsval]: [undefined], [null], a string or an object.
    - A JavaScript number is modelled by the exact decimal it denotes
      ([jsnum]); [NaN] is the [None] of an [option jsnum].  Binary rounding
      of doubles is not modelled: every comparison in the program is against
      an integer constant, which rounding to nearest preserves.
    - The parsed document is external.  An element is modelled by the
      answers it gives to the queries the program asks ([node]).
    - [Date.now()] is an effect: the readings come from a [Clock] that is
      threaded through every function that creates a record. *)

From Stdlib Require Import ZArith NArith List Ascii String Decimal DecimalString DecimalN Lia Bool Sorted.
From stdpp Require Import base decidable list gmap.

Import ListNotations.
Local Open Scope N_scope.
Local Open Scope list_scope.

(* ====================================================================== *)
(** * JavaScript strings *)
(* ====================================================================== *)

Definition jsstring := list N.

(** An ASCII literal as a sequence of code units. *)
Definition js (s : string) : jsstring :=
  List.map N_of_ascii (list_ascii_of_string s).

(** The source file stores the euro sign as the three code units
    U+201A U+00C7 U+00A8 and the pound sign as the two code units
    U+00AC U+00A3 (the UTF-8 bytes of the signs, re-read in Mac Roman).
    The literals below are the ones of the file; [EURO_SIGN] and
    [POUND_SIGN] are the signs themselves, as they occur in page text. *)
Definition EURO_LIT : jsstring := [0x201A; 0xC7; 0xA8].
Definition POUND_LIT : jsstring := [0xAC; 0xA3].
Definition EURO_SIGN : jsstring := [0x20AC].
Definition POUND_SIGN : jsstring := [0xA3].

Definition jsstring_eqb (a b : jsstring) : bool := bool_decide (a = b).

(** Truthiness of a string, and of a possibly absent string. *)
Definition truthy_str (s : jsstring) : bool :=
  match s with [] => false | _ => true end.

Definition truthy_ostr (s : option jsstring) : bool :=
  match s with Some (_ :: _) => true | _ => false end.

(** [a || b] on possibly absent strings. *)
Definition or_ostr (a b : option jsstring) : option jsstring :=
  if truthy_ostr a then a else b.

(** What reading a property or an attribute gives: [undefined], [null], a
    string, or an object that is not a string and has none of its
    methods, such as the [SVGAnimatedString] that the [href] of an SVG
    anchor is.  [shown] is the text the object converts to. *)
Inductive jsval : Type :=
| JUndefined
| JNull
| JStr (s : jsstring)
| JObj (shown : jsstring).

Definition truthy_val (v : jsval) : bool :=
  match v with JStr (_ :: _) | JObj _ => true | _ => false end.

(** [a || b] on values. *)
Definition or_val (a b : jsval) : jsval := if truthy_val a then a else b.

(** A property that holds a string when it is there, and the result of
    [getAttribute], as values. *)
Definition of_prop (v : option jsstring) : jsval :=
  match v with Some s => JStr s | None => JUndefined end.

Definition of_attr (v : option jsstring) : jsval :=
  match v with Some s => JStr s | None => JNull end.

(** [String(v)], the conversion a pattern test and [new URL] apply to
    their argument. *)
Definition String_of (v : jsval) : jsstring :=
  match v with
  | JUndefined => js "undefined"
  | JNull => js "null"
  | JStr s => s
  | JObj shown => shown
  end.

(** The string a value is, when it is one.  The adapters and the card
    extractor are modelled on title links whose [href] is a string or
    absent, as it is for every HTML anchor; where the link gives an object
    the program throws in [resolveUrl] or stores the object, and the model
    keeps no address. *)
Definition address_value (v : jsval) : option jsstring :=
  match v with JStr s => Some s | _ => None end.

(** White space of [\s] and [String.prototype.trim]. *)
Definition is_space (c : N) : bool :=
  ((9 <=? c) && (c <=? 13)) || (c =? 32) || (c =? 0xA0) || (c =? 0x1680)
  || ((0x2000 <=? c) && (c <=? 0x200A)) || (c =? 0x2028) || (c =? 0x2029)
  || (c =? 0x202F) || (c =? 0x205F) || (c =? 0x3000) || (c =? 0xFEFF).

Definition is_digit (c : N) : bool := (48 <=? c) && (c <=? 57).
Definition is_upper (c : N) : bool := (65 <=? c) && (c <=? 90).
Definition is_lower (c : N) : bool := (97 <=? c) && (c <=? 122).
Definition is_word (c : N) : bool :=
  is_digit c || is_upper c || is_lower c || (c =? 95).

Definition in_range (lo hi c : N) : bool := (lo <=? c) && (c <=? hi).

(** ** Case conversion *)

(** [String.prototype.toLowerCase] reads the string as code points, maps
    them by the default case conversion of Unicode and writes the result
    as code units again.  The three tables below are those of Unicode
    14.0: the lowercase mappings to one code point, and the properties
    [Cased] and [Case_Ignorable]. *)

(** The lowercase mappings: [(first, last, step, image)] stands for the
    code points [first], [first + step], ... up to [last], each as far
    from [image] after the mapping as it is from [first] before.  The
    entries are in increasing order. *)
Definition lowercase_ranges : list (N * N * N * N) :=
  [
    (0x41, 0x5A, 1, 0x61); (0xC0, 0xD6, 1, 0xE0); (0xD8, 0xDE, 1, 0xF8);
    (0x100, 0x12E, 2, 0x101); (0x132, 0x136, 2, 0x133); (0x139, 0x147, 2, 0x13A);
    (0x14A, 0x176, 2, 0x14B); (0x178, 0x178, 1, 0xFF); (0x179, 0x17D, 2, 0x17A);
    (0x181, 0x181, 1, 0x253); (0x182, 0x184, 2, 0x183); (0x186, 0x186, 1, 0x254);
    (0x187, 0x187, 1, 0x188); (0x189, 0x18A, 1, 0x256); (0x18B, 0x18B, 1, 0x18C);
    (0x18E, 0x18E, 1, 0x1DD); (0x18F, 0x18F, 1, 0x259); (0x190, 0x190, 1, 0x25B);
    (0x191, 0x191, 1, 0x192); (0x193, 0x193, 1, 0x260); (0x194, 0x194, 1, 0x263);
    (0x196, 0x196, 1, 0x269); (0x197, 0x197, 1, 0x268); (0x198, 0x198, 1, 0x199);
    (0x19C, 0x19C, 1, 0x26F); (0x19D, 0x19D, 1, 0x272); (0x19F, 0x19F, 1, 0x275);
    (0x1A0, 0x1A4, 2, 0x1A1); (0x1A6, 0x1A6, 1, 0x280); (0x1A7, 0x1A7, 1, 0x1A8);
    (0x1A9, 0x1A9, 1, 0x283); (0x1AC, 0x1AC, 1, 0x1AD); (0x1AE, 0x1AE, 1, 0x288);
    (0x1AF, 0x1AF, 1, 0x1B0); (0x1B1, 0x1B2, 1, 0x28A); (0x1B3, 0x1B5, 2, 0x1B4);
    (0x1B7, 0x1B7, 1, 0x292); (0x1B8, 0x1B8, 1, 0x1B9); (0x1BC, 0x1BC, 1, 0x1BD);
    (0x1C4, 0x1C4, 1, 0x1C6); (0x1C5, 0x1C5, 1, 0x1C6); (0x1C7, 0x1C7, 1, 0x1C9);
    (0x1C8, 0x1C8, 1, 0x1C9); (0x1CA, 0x1CA, 1, 0x1CC); (0x1CB, 0x1DB, 2, 0x1CC);
    (0x1DE, 0x1EE, 2, 0x1DF); (0x1F1, 0x1F1, 1, 0x1F3); (0x1F2, 0x1F4, 2, 0x1F3);
    (0x1F6, 0x1F6, 1, 0x195); (0x1F7, 0x1F7, 1, 0x1BF); (0x1F8, 0x21E, 2, 0x1F9);
    (0x220, 0x220, 1, 0x19E); (0x222, 0x232, 2, 0x223); (0x23A, 0x23A, 1, 0x2C65);
    (0x23B, 0x23B, 1, 0x23C); (0x23D, 0x23D, 1, 0x19A); (0x23E, 0x23E, 1, 0x2C66);
    (0x241, 0x241, 1, 0x242); (0x243, 0x243, 1, 0x180); (0x244, 0x244, 1, 0x289);
    (0x245, 0x245, 1, 0x28C); (0x246, 0x24E, 2, 0x247); (0x370, 0x372, 2, 0x371);
    (0x376, 0x376, 1, 0x377); (0x37F, 0x37F, 1, 0x3F3); (0x386, 0x386, 1, 0x3AC);
    (0x388, 0x38A, 1, 0x3AD); (0x38C, 0x38C, 1, 0x3CC); (0x38E, 0x38F, 1, 0x3CD);
    (0x391, 0x3A1, 1, 0x3B1); (0x3A3, 0x3AB, 1, 0x3C3); (0x3CF, 0x3CF, 1, 0x3D7);
    (0x3D8, 0x3EE, 2, 0x3D9); (0x3F4, 0x3F4, 1, 0x3B8); (0x3F7, 0x3F7, 1, 0x3F8);
    (0x3F9, 0x3F9, 1, 0x3F2); (0x3FA, 0x3FA, 1, 0x3FB); (0x3FD, 0x3FF, 1, 0x37B);
    (0x400, 0x40F, 1, 0x450); (0x410, 0x42F, 1, 0x430); (0x460, 0x480, 2, 0x461);
    (0x48A, 0x4BE, 2, 0x48B); (0x4C0, 0x4C0, 1, 0x4CF); (0x4C1, 0x4CD, 2, 0x4C2);
    (0x4D0, 0x52E, 2, 0x4D1); (0x531, 0x556, 1, 0x561); (0x10A0, 0x10C5, 1, 0x2D00);
    (0x10C7, 0x10C7, 1, 0x2D27); (0x10CD, 0x10CD, 1, 0x2D2D); (0x13A0, 0x13EF, 1, 0xAB70);
    (0x13F0, 0x13F5, 1, 0x13F8); (0x1C90, 0x1CBA, 1, 0x10D0); (0x1CBD, 0x1CBF, 1, 0x10FD);
    (0x1E00, 0x1E94, 2, 0x1E01); (0x1E9E, 0x1E9E, 1, 0xDF); (0x1EA0, 0x1EFE, 2, 0x1EA1);
    (0x1F08, 0x1F0F, 1, 0x1F00); (0x1F18, 0x1F1D, 1, 0x1F10); (0x1F28, 0x1F2F, 1, 0x1F20);
    (0x1F38, 0x1F3F, 1, 0x1F30); (0x1F48, 0x1F4D, 1, 0x1F40); (0x1F59, 0x1F5F, 2, 0x1F51);
    (0x1F68, 0x1F6F, 1, 0x1F60); (0x1F88, 0x1F8F, 1, 0x1F80); (0x1F98, 0x1F9F, 1, 0x1F90);
    (0x1FA8, 0x1FAF, 1, 0x1FA0); (0x1FB8, 0x1FB9, 1, 0x1FB0); (0x1FBA, 0x1FBB, 1, 0x1F70);
    (0x1FBC, 0x1FBC, 1, 0x1FB3); (0x1FC8, 0x1FCB, 1, 0x1F72); (0x1FCC, 0x1FCC, 1, 0x1FC3);
    (0x1FD8, 0x1FD9, 1, 0x1FD0); (0x1FDA, 0x1FDB, 1, 0x1F76); (0x1FE8, 0x1FE9, 1, 0x1FE0);
    (0x1FEA, 0x1FEB, 1, 0x1F7A); (0x1FEC, 0x1FEC, 1, 0x1FE5); (0x1FF8, 0x1FF9, 1, 0x1F78);
    (0x1FFA, 0x1FFB, 1, 0x1F7C); (0x1FFC, 0x1FFC, 1, 0x1FF3); (0x2126, 0x2126, 1, 0x3C9);
    (0x212A, 0x212A, 1, 0x6B); (0x212B, 0x212B, 1, 0xE5); (0x2132, 0x2132, 1, 0x214E);
    (0x2160, 0x216F, 1, 0x2170); (0x2183, 0x2183, 1, 0x2184); (0x24B6, 0x24CF, 1, 0x24D0);
    (0x2C00, 0x2C2F, 1, 0x2C30); (0x2C60, 0x2C60, 1, 0x2C61); (0x2C62, 0x2C62, 1, 0x26B);
    (0x2C63, 0x2C63, 1, 0x1D7D); (0x2C64, 0x2C64, 1, 0x27D); (0x2C67, 0x2C6B, 2, 0x2C68);
    (0x2C6D, 0x2C6D, 1, 0x251); (0x2C6E, 0x2C6E, 1, 0x271); (0x2C6F, 0x2C6F, 1, 0x250);
    (0x2C70, 0x2C70, 1, 0x252); (0x2C72, 0x2C72, 1, 0x2C73); (0x2C75, 0x2C75, 1, 0x2C76);
    (0x2C7E, 0x2C7F, 1, 0x23F); (0x2C80, 0x2CE2, 2, 0x2C81); (0x2CEB, 0x2CED, 2, 0x2CEC);
    (0x2CF2, 0x2CF2, 1, 0x2CF3); (0xA640, 0xA66C, 2, 0xA641); (0xA680, 0xA69A, 2, 0xA681);
    (0xA722, 0xA72E, 2, 0xA723); (0xA732, 0xA76E, 2, 0xA733); (0xA779, 0xA77B, 2, 0xA77A);
    (0xA77D, 0xA77D, 1, 0x1D79); (0xA77E, 0xA786, 2, 0xA77F); (0xA78B, 0xA78B, 1, 0xA78C);
    (0xA78D, 0xA78D, 1, 0x265); (0xA790, 0xA792, 2, 0xA791); (0xA796, 0xA7A8, 2, 0xA797);
    (0xA7AA, 0xA7AA, 1, 0x266); (0xA7AB, 0xA7AB, 1, 0x25C); (0xA7AC, 0xA7AC, 1, 0x261);
    (0xA7AD, 0xA7AD, 1, 0x26C); (0xA7AE, 0xA7AE, 1, 0x26A); (0xA7B0, 0xA7B0, 1, 0x29E);
    (0xA7B1, 0xA7B1, 1, 0x287); (0xA7B2, 0xA7B2, 1, 0x29D); (0xA7B3, 0xA7B3, 1, 0xAB53);
    (0xA7B4, 0xA7C2, 2, 0xA7B5); (0xA7C4, 0xA7C4, 1, 0xA794); (0xA7C5, 0xA7C5, 1, 0x282);
    (0xA7C6, 0xA7C6, 1, 0x1D8E); (0xA7C7, 0xA7C9, 2, 0xA7C8); (0xA7D0, 0xA7D0, 1, 0xA7D1);
    (0xA7D6, 0xA7D8, 2, 0xA7D7); (0xA7F5, 0xA7F5, 1, 0xA7F6); (0xFF21, 0xFF3A, 1, 0xFF41);
    (0x10400, 0x10427, 1, 0x10428); (0x104B0, 0x104D3, 1, 0x104D8); (0x10570, 0x1057A, 1, 0x10597);
    (0x1057C, 0x1058A, 1, 0x105A3); (0x1058C, 0x10592, 1, 0x105B3); (0x10594, 0x10595, 1, 0x105BB);
    (0x10C80, 0x10CB2, 1, 0x10CC0); (0x118A0, 0x118BF, 1, 0x118C0); (0x16E40, 0x16E5F, 1, 0x16E60);
    (0x1E900, 0x1E921, 1, 0x1E922) ].

(** The code points with the property [Cased]: first and last of each run,
    in increasing order. *)
Definition cased_ranges : list (N * N) :=
  [
    (0x41, 0x5A); (0x61, 0x7A); (0xAA, 0xAA); (0xB5, 0xB5); (0xBA, 0xBA);
    (0xC0, 0xD6); (0xD8, 0xF6); (0xF8, 0x1BA); (0x1BC, 0x1BF); (0x1C4, 0x293);
    (0x295, 0x2B8); (0x2C0, 0x2C1); (0x2E0, 0x2E4); (0x345, 0x345); (0x370, 0x373);
    (0x376, 0x377); (0x37A, 0x37D); (0x37F, 0x37F); (0x386, 0x386); (0x388, 0x38A);
    (0x38C, 0x38C); (0x38E, 0x3A1); (0x3A3, 0x3F5); (0x3F7, 0x481); (0x48A, 0x52F);
    (0x531, 0x556); (0x560, 0x588); (0x10A0, 0x10C5); (0x10C7, 0x10C7); (0x10CD, 0x10CD);
    (0x10D0, 0x10FA); (0x10FD, 0x10FF); (0x13A0, 0x13F5); (0x13F8, 0x13FD); (0x1C80, 0x1C88);
    (0x1C90, 0x1CBA); (0x1CBD, 0x1CBF); (0x1D00, 0x1DBF); (0x1E00, 0x1F15); (0x1F18, 0x1F1D);
    (0x1F20, 0x1F45); (0x1F48, 0x1F4D); (0x1F50, 0x1F57); (0x1F59, 0x1F59); (0x1F5B, 0x1F5B);
    (0x1F5D, 0x1F5D); (0x1F5F, 0x1F7D); (0x1F80, 0x1FB4); (0x1FB6, 0x1FBC); (0x1FBE, 0x1FBE);
    (0x1FC2, 0x1FC4); (0x1FC6, 0x1FCC); (0x1FD0, 0x1FD3); (0x1FD6, 0x1FDB); (0x1FE0, 0x1FEC);
    (0x1FF2, 0x1FF4); (0x1FF6, 0x1FFC); (0x2071, 0x2071); (0x207F, 0x207F); (0x2090, 0x209C);
    (0x2102, 0x2102); (0x2107, 0x2107); (0x210A, 0x2113); (0x2115, 0x2115); (0x2119, 0x211D);
    (0x2124, 0x2124); (0x2126, 0x2126); (0x2128, 0x2128); (0x212A, 0x212D); (0x212F, 0x2134);
    (0x2139, 0x2139); (0x213C, 0x213F); (0x2145, 0x2149); (0x214E, 0x214E); (0x2160, 0x217F);
    (0x2183, 0x2184); (0x24B6, 0x24E9); (0x2C00, 0x2CE4); (0x2CEB, 0x2CEE); (0x2CF2, 0x2CF3);
    (0x2D00, 0x2D25); (0x2D27, 0x2D27); (0x2D2D, 0x2D2D); (0xA640, 0xA66D); (0xA680, 0xA69D);
    (0xA722, 0xA787); (0xA78B, 0xA78E); (0xA790, 0xA7CA); (0xA7D0, 0xA7D1); (0xA7D3, 0xA7D3);
    (0xA7D5, 0xA7D9); (0xA7F5, 0xA7F6); (0xA7F8, 0xA7FA); (0xAB30, 0xAB5A); (0xAB5C, 0xAB68);
    (0xAB70, 0xABBF); (0xFB00, 0xFB06); (0xFB13, 0xFB17); (0xFF21, 0xFF3A); (0xFF41, 0xFF5A);
    (0x10400, 0x1044F); (0x104B0, 0x104D3); (0x104D8, 0x104FB); (0x10570, 0x1057A); (0x1057C, 0x1058A);
    (0x1058C, 0x10592); (0x10594, 0x10595); (0x10597, 0x105A1); (0x105A3, 0x105B1); (0x105B3, 0x105B9);
    (0x105BB, 0x105BC); (0x10780, 0x10780); (0x10783, 0x10785); (0x10787, 0x107B0); (0x107B2, 0x107BA);
    (0x10C80, 0x10CB2); (0x10CC0, 0x10CF2); (0x118A0, 0x118DF); (0x16E40, 0x16E7F); (0x1D400, 0x1D454);
    (0x1D456, 0x1D49C); (0x1D49E, 0x1D49F); (0x1D4A2, 0x1D4A2); (0x1D4A5, 0x1D4A6); (0x1D4A9, 0x1D4AC);
    (0x1D4AE, 0x1D4B9); (0x1D4BB, 0x1D4BB); (0x1D4BD, 0x1D4C3); (0x1D4C5, 0x1D505); (0x1D507, 0x1D50A);
    (0x1D50D, 0x1D514); (0x1D516, 0x1D51C); (0x1D51E, 0x1D539); (0x1D53B, 0x1D53E); (0x1D540, 0x1D544);
    (0x1D546, 0x1D546); (0x1D54A, 0x1D550); (0x1D552, 0x1D6A5); (0x1D6A8, 0x1D6C0); (0x1D6C2, 0x1D6DA);
    (0x1D6DC, 0x1D6FA); (0x1D6FC, 0x1D714); (0x1D716, 0x1D734); (0x1D736, 0x1D74E); (0x1D750, 0x1D76E);
    (0x1D770, 0x1D788); (0x1D78A, 0x1D7A8); (0x1D7AA, 0x1D7C2); (0x1D7C4, 0x1D7CB); (0x1DF00, 0x1DF09);
    (0x1DF0B, 0x1DF1E); (0x1E900, 0x1E943); (0x1F130, 0x1F149); (0x1F150, 0x1F169); (0x1F170, 0x1F189) ].

(** The code points with the property [Case_Ignorable]. *)
Definition case_ignorable_ranges : list (N * N) :=
  [
    (0x27, 0x27); (0x2E, 0x2E); (0x3A, 0x3A); (0x5E, 0x5E); (0x60, 0x60);
    (0xA8, 0xA8); (0xAD, 0xAD); (0xAF, 0xAF); (0xB4, 0xB4); (0xB7, 0xB8);
    (0x2B0, 0x36F); (0x374, 0x375); (0x37A, 0x37A); (0x384, 0x385); (0x387, 0x387);
    (0x483, 0x489); (0x559, 0x559); (0x55F, 0x55F); (0x591, 0x5BD); (0x5BF, 0x5BF);
    (0x5C1, 0x5C2); (0x5C4, 0x5C5); (0x5C7, 0x5C7); (0x5F4, 0x5F4); (0x600, 0x605);
    (0x610, 0x61A); (0x61C, 0x61C); (0x640, 0x640); (0x64B, 0x65F); (0x670, 0x670);
    (0x6D6, 0x6DD); (0x6DF, 0x6E8); (0x6EA, 0x6ED); (0x70F, 0x70F); (0x711, 0x711);
    (0x730, 0x74A); (0x7A6, 0x7B0); (0x7EB, 0x7F5); (0x7FA, 0x7FA); (0x7FD, 0x7FD);
    (0x816, 0x82D); (0x859, 0x85B); (0x888, 0x888); (0x890, 0x891); (0x898, 0x89F);
    (0x8C9, 0x902); (0x93A, 0x93A); (0x93C, 0x93C); (0x941, 0x948); (0x94D, 0x94D);
    (0x951, 0x957); (0x962, 0x963); (0x971, 0x971); (0x981, 0x981); (0x9BC, 0x9BC);
    (0x9C1, 0x9C4); (0x9CD, 0x9CD); (0x9E2, 0x9E3); (0x9FE, 0x9FE); (0xA01, 0xA02);
    (0xA3C, 0xA3C); (0xA41, 0xA42); (0xA47, 0xA48); (0xA4B, 0xA4D); (0xA51, 0xA51);
    (0xA70, 0xA71); (0xA75, 0xA75); (0xA81, 0xA82); (0xABC, 0xABC); (0xAC1, 0xAC5);
    (0xAC7, 0xAC8); (0xACD, 0xACD); (0xAE2, 0xAE3); (0xAFA, 0xAFF); (0xB01, 0xB01);
    (0xB3C, 0xB3C); (0xB3F, 0xB3F); (0xB41, 0xB44); (0xB4D, 0xB4D); (0xB55, 0xB56);
    (0xB62, 0xB63); (0xB82, 0xB82); (0xBC0, 0xBC0); (0xBCD, 0xBCD); (0xC00, 0xC00);
    (0xC04, 0xC04); (0xC3C, 0xC3C); (0xC3E, 0xC40); (0xC46, 0xC48); (0xC4A, 0xC4D);
    (0xC55, 0xC56); (0xC62, 0xC63); (0xC81, 0xC81); (0xCBC, 0xCBC); (0xCBF, 0xCBF);
    (0xCC6, 0xCC6); (0xCCC, 0xCCD); (0xCE2, 0xCE3); (0xD00, 0xD01); (0xD3B, 0xD3C);
    (0xD41, 0xD44); (0xD4D, 0xD4D); (0xD62, 0xD63); (0xD81, 0xD81); (0xDCA, 0xDCA);
    (0xDD2, 0xDD4); (0xDD6, 0xDD6); (0xE31, 0xE31); (0xE34, 0xE3A); (0xE46, 0xE4E);
    (0xEB1, 0xEB1); (0xEB4, 0xEBC); (0xEC6, 0xEC6); (0xEC8, 0xECD); (0xF18, 0xF19);
    (0xF35, 0xF35); (0xF37, 0xF37); (0xF39, 0xF39); (0xF71, 0xF7E); (0xF80, 0xF84);
    (0xF86, 0xF87); (0xF8D, 0xF97); (0xF99, 0xFBC); (0xFC6, 0xFC6); (0x102D, 0x1030);
    (0x1032, 0x1037); (0x1039, 0x103A); (0x103D, 0x103E); (0x1058, 0x1059); (0x105E, 0x1060);
    (0x1071, 0x1074); (0x1082, 0x1082); (0x1085, 0x1086); (0x108D, 0x108D); (0x109D, 0x109D);
    (0x10FC, 0x10FC); (0x135D, 0x135F); (0x1712, 0x1714); (0x1732, 0x1733); (0x1752, 0x1753);
    (0x1772, 0x1773); (0x17B4, 0x17B5); (0x17B7, 0x17BD); (0x17C6, 0x17C6); (0x17C9, 0x17D3);
    (0x17D7, 0x17D7); (0x17DD, 0x17DD); (0x180B, 0x180F); (0x1843, 0x1843); (0x1885, 0x1886);
    (0x18A9, 0x18A9); (0x1920, 0x1922); (0x1927, 0x1928); (0x1932, 0x1932); (0x1939, 0x193B);
    (0x1A17, 0x1A18); (0x1A1B, 0x1A1B); (0x1A56, 0x1A56); (0x1A58, 0x1A5E); (0x1A60, 0x1A60);
    (0x1A62, 0x1A62); (0x1A65, 0x1A6C); (0x1A73, 0x1A7C); (0x1A7F, 0x1A7F); (0x1AA7, 0x1AA7);
    (0x1AB0, 0x1ACE); (0x1B00, 0x1B03); (0x1B34, 0x1B34); (0x1B36, 0x1B3A); (0x1B3C, 0x1B3C);
    (0x1B42, 0x1B42); (0x1B6B, 0x1B73); (0x1B80, 0x1B81); (0x1BA2, 0x1BA5); (0x1BA8, 0x1BA9);
    (0x1BAB, 0x1BAD); (0x1BE6, 0x1BE6); (0x1BE8, 0x1BE9); (0x1BED, 0x1BED); (0x1BEF, 0x1BF1);
    (0x1C2C, 0x1C33); (0x1C36, 0x1C37); (0x1C78, 0x1C7D); (0x1CD0, 0x1CD2); (0x1CD4, 0x1CE0);
    (0x1CE2, 0x1CE8); (0x1CED, 0x1CED); (0x1CF4, 0x1CF4); (0x1CF8, 0x1CF9); (0x1D2C, 0x1D6A);
    (0x1D78, 0x1D78); (0x1D9B, 0x1DFF); (0x1FBD, 0x1FBD); (0x1FBF, 0x1FC1); (0x1FCD, 0x1FCF);
    (0x1FDD, 0x1FDF); (0x1FED, 0x1FEF); (0x1FFD, 0x1FFE); (0x200B, 0x200F); (0x2018, 0x2019);
    (0x2024, 0x2024); (0x2027, 0x2027); (0x202A, 0x202E); (0x2060, 0x2064); (0x2066, 0x206F);
    (0x2071, 0x2071); (0x207F, 0x207F); (0x2090, 0x209C); (0x20D0, 0x20F0); (0x2C7C, 0x2C7D);
    (0x2CEF, 0x2CF1); (0x2D6F, 0x2D6F); (0x2D7F, 0x2D7F); (0x2DE0, 0x2DFF); (0x2E2F, 0x2E2F);
    (0x3005, 0x3005); (0x302A, 0x302D); (0x3031, 0x3035); (0x303B, 0x303B); (0x3099, 0x309E);
    (0x30FC, 0x30FE); (0xA015, 0xA015); (0xA4F8, 0xA4FD); (0xA60C, 0xA60C); (0xA66F, 0xA672);
    (0xA674, 0xA67D); (0xA67F, 0xA67F); (0xA69C, 0xA69F); (0xA6F0, 0xA6F1); (0xA700, 0xA721);
    (0xA770, 0xA770); (0xA788, 0xA78A); (0xA7F2, 0xA7F4); (0xA7F8, 0xA7F9); (0xA802, 0xA802);
    (0xA806, 0xA806); (0xA80B, 0xA80B); (0xA825, 0xA826); (0xA82C, 0xA82C); (0xA8C4, 0xA8C5);
    (0xA8E0, 0xA8F1); (0xA8FF, 0xA8FF); (0xA926, 0xA92D); (0xA947, 0xA951); (0xA980, 0xA982);
    (0xA9B3, 0xA9B3); (0xA9B6, 0xA9B9); (0xA9BC, 0xA9BD); (0xA9CF, 0xA9CF); (0xA9E5, 0xA9E6);
    (0xAA29, 0xAA2E); (0xAA31, 0xAA32); (0xAA35, 0xAA36); (0xAA43, 0xAA43); (0xAA4C, 0xAA4C);
    (0xAA70, 0xAA70); (0xAA7C, 0xAA7C); (0xAAB0, 0xAAB0); (0xAAB2, 0xAAB4); (0xAAB7, 0xAAB8);
    (0xAABE, 0xAABF); (0xAAC1, 0xAAC1); (0xAADD, 0xAADD); (0xAAEC, 0xAAED); (0xAAF3, 0xAAF4);
    (0xAAF6, 0xAAF6); (0xAB5B, 0xAB5F); (0xAB69, 0xAB6B); (0xABE5, 0xABE5); (0xABE8, 0xABE8);
    (0xABED, 0xABED); (0xFB1E, 0xFB1E); (0xFBB2, 0xFBC2); (0xFE00, 0xFE0F); (0xFE13, 0xFE13);
    (0xFE20, 0xFE2F); (0xFE52, 0xFE52); (0xFE55, 0xFE55); (0xFEFF, 0xFEFF); (0xFF07, 0xFF07);
    (0xFF0E, 0xFF0E); (0xFF1A, 0xFF1A); (0xFF3E, 0xFF3E); (0xFF40, 0xFF40); (0xFF70, 0xFF70);
    (0xFF9E, 0xFF9F); (0xFFE3, 0xFFE3); (0xFFF9, 0xFFFB); (0x101FD, 0x101FD); (0x102E0, 0x102E0);
    (0x10376, 0x1037A); (0x10780, 0x10785); (0x10787, 0x107B0); (0x107B2, 0x107BA); (0x10A01, 0x10A03);
    (0x10A05, 0x10A06); (0x10A0C, 0x10A0F); (0x10A38, 0x10A3A); (0x10A3F, 0x10A3F); (0x10AE5, 0x10AE6);
    (0x10D24, 0x10D27); (0x10EAB, 0x10EAC); (0x10F46, 0x10F50); (0x10F82, 0x10F85); (0x11001, 0x11001);
    (0x11038, 0x11046); (0x11070, 0x11070); (0x11073, 0x11074); (0x1107F, 0x11081); (0x110B3, 0x110B6);
    (0x110B9, 0x110BA); (0x110BD, 0x110BD); (0x110C2, 0x110C2); (0x110CD, 0x110CD); (0x11100, 0x11102);
    (0x11127, 0x1112B); (0x1112D, 0x11134); (0x11173, 0x11173); (0x11180, 0x11181); (0x111B6, 0x111BE);
    (0x111C9, 0x111CC); (0x111CF, 0x111CF); (0x1122F, 0x11231); (0x11234, 0x11234); (0x11236, 0x11237);
    (0x1123E, 0x1123E); (0x112DF, 0x112DF); (0x112E3, 0x112EA); (0x11300, 0x11301); (0x1133B, 0x1133C);
    (0x11340, 0x11340); (0x11366, 0x1136C); (0x11370, 0x11374); (0x11438, 0x1143F); (0x11442, 0x11444);
    (0x11446, 0x11446); (0x1145E, 0x1145E); (0x114B3, 0x114B8); (0x114BA, 0x114BA); (0x114BF, 0x114C0);
    (0x114C2, 0x114C3); (0x115B2, 0x115B5); (0x115BC, 0x115BD); (0x115BF, 0x115C0); (0x115DC, 0x115DD);
    (0x11633, 0x1163A); (0x1163D, 0x1163D); (0x1163F, 0x11640); (0x116AB, 0x116AB); (0x116AD, 0x116AD);
    (0x116B0, 0x116B5); (0x116B7, 0x116B7); (0x1171D, 0x1171F); (0x11722, 0x11725); (0x11727, 0x1172B);
    (0x1182F, 0x11837); (0x11839, 0x1183A); (0x1193B, 0x1193C); (0x1193E, 0x1193E); (0x11943, 0x11943);
    (0x119D4, 0x119D7); (0x119DA, 0x119DB); (0x119E0, 0x119E0); (0x11A01, 0x11A0A); (0x11A33, 0x11A38);
    (0x11A3B, 0x11A3E); (0x11A47, 0x11A47); (0x11A51, 0x11A56); (0x11A59, 0x11A5B); (0x11A8A, 0x11A96);
    (0x11A98, 0x11A99); (0x11C30, 0x11C36); (0x11C38, 0x11C3D); (0x11C3F, 0x11C3F); (0x11C92, 0x11CA7);
    (0x11CAA, 0x11CB0); (0x11CB2, 0x11CB3); (0x11CB5, 0x11CB6); (0x11D31, 0x11D36); (0x11D3A, 0x11D3A);
    (0x11D3C, 0x11D3D); (0x11D3F, 0x11D45); (0x11D47, 0x11D47); (0x11D90, 0x11D91); (0x11D95, 0x11D95);
    (0x11D97, 0x11D97); (0x11EF3, 0x11EF4); (0x13430, 0x13438); (0x16AF0, 0x16AF4); (0x16B30, 0x16B36);
    (0x16B40, 0x16B43); (0x16F4F, 0x16F4F); (0x16F8F, 0x16F9F); (0x16FE0, 0x16FE1); (0x16FE3, 0x16FE4);
    (0x1AFF0, 0x1AFF3); (0x1AFF5, 0x1AFFB); (0x1AFFD, 0x1AFFE); (0x1BC9D, 0x1BC9E); (0x1BCA0, 0x1BCA3);
    (0x1CF00, 0x1CF2D); (0x1CF30, 0x1CF46); (0x1D167, 0x1D169); (0x1D173, 0x1D182); (0x1D185, 0x1D18B);
    (0x1D1AA, 0x1D1AD); (0x1D242, 0x1D244); (0x1DA00, 0x1DA36); (0x1DA3B, 0x1DA6C); (0x1DA75, 0x1DA75);
    (0x1DA84, 0x1DA84); (0x1DA9B, 0x1DA9F); (0x1DAA1, 0x1DAAF); (0x1E000, 0x1E006); (0x1E008, 0x1E018);
    (0x1E01B, 0x1E021); (0x1E023, 0x1E024); (0x1E026, 0x1E02A); (0x1E130, 0x1E13D); (0x1E2AE, 0x1E2AE);
    (0x1E2EC, 0x1E2EF); (0x1E8D0, 0x1E8D6); (0x1E944, 0x1E94B); (0x1F3FB, 0x1F3FF); (0xE0001, 0xE0001);
    (0xE0020, 0xE007F); (0xE0100, 0xE01EF) ].

Fixpoint range_image (ranges : list (N * N * N * N)) (c : N) : N :=
  match ranges with
  | [] => c
  | (first, last, step, image) :: rest =>
      if c <? first then c
      else if c <=? last
      then (if (c - first) mod step =? 0 then image + (c - first) else c)
      else range_image rest c
  end.

Fixpoint in_ranges (ranges : list (N * N)) (c : N) : bool :=
  match ranges with
  | [] => false
  | (first, last) :: rest =>
      if c <? first then false
      else if c <=? last then true
      else in_ranges rest c
  end.

Definition lower_code_point (c : N) : N := range_image lowercase_ranges c.
Definition is_cased (c : N) : bool := in_ranges cased_ranges c.
Definition is_case_ignorable (c : N) : bool := in_ranges case_ignorable_ranges c.

(** Code units and code points: a high surrogate followed by a low one is
    one code point, any other unit stands for itself. *)
Definition is_high_surrogate (c : N) : bool := in_range 0xD800 0xDBFF c.
Definition is_low_surrogate (c : N) : bool := in_range 0xDC00 0xDFFF c.

Definition code_point_of (h l : N) : N :=
  0x10000 + (h - 0xD800) * 0x400 + (l - 0xDC00).

Definition units_of (c : N) : jsstring :=
  if c <? 0x10000 then [c]
  else [0xD800 + (c - 0x10000) / 0x400; 0xDC00 + (c - 0x10000) mod 0x400].

Fixpoint code_points (s : jsstring) : list N :=
  match s with
  | [] => []
  | h :: t =>
      match t with
      | l :: r =>
          if is_high_surrogate h && is_low_surrogate l
          then code_point_of h l :: code_points r
          else h :: code_points t
      | [] => [h]
      end
  end.

(** Whether, case-ignorable code points skipped, the next one is cased. *)
Fixpoint cased_next (l : list N) : bool :=
  match l with
  | [] => false
  | c :: r => if is_case_ignorable c then cased_next r else is_cased c
  end.

(** The mapping of the code points [after], which come after the code
    points [before] (nearest first).  The capital sigma becomes the final
    small sigma when a cased letter comes before it and none comes after
    it, case-ignorable code points skipped on both sides; the capital I
    with a dot becomes a small i and a combining dot; every other code
    point has the image the table gives. *)
Fixpoint lower_code_points (before after : list N) : list N :=
  match after with
  | [] => []
  | c :: r =>
      (if c =? 0x3A3
       then [if cased_next before && negb (cased_next r) then 0x3C2 else 0x3C3]
       else if c =? 0x130 then [0x69; 0x307]
       else [lower_code_point c])
      ++ lower_code_points (c :: before) r
  end.

Definition toLowerCase (s : jsstring) : jsstring :=
  flat_map units_of (lower_code_points [] (code_points s)).

(** The uppercase mappings of the code units of the basic plane to one
    code unit, in the format of the table of lowercase mappings. *)
Definition uppercase_ranges : list (N * N * N * N) :=
  [
    (0x61, 0x7A, 1, 0x41); (0xB5, 0xB5, 1, 0x39C); (0xE0, 0xF6, 1, 0xC0);
    (0xF8, 0xFE, 1, 0xD8); (0xFF, 0xFF, 1, 0x178); (0x101, 0x12F, 2, 0x100);
    (0x131, 0x131, 1, 0x49); (0x133, 0x137, 2, 0x132); (0x13A, 0x148, 2, 0x139);
    (0x14B, 0x177, 2, 0x14A); (0x17A, 0x17E, 2, 0x179); (0x17F, 0x17F, 1, 0x53);
    (0x180, 0x180, 1, 0x243); (0x183, 0x185, 2, 0x182); (0x188, 0x188, 1, 0x187);
    (0x18C, 0x18C, 1, 0x18B); (0x192, 0x192, 1, 0x191); (0x195, 0x195, 1, 0x1F6);
    (0x199, 0x199, 1, 0x198); (0x19A, 0x19A, 1, 0x23D); (0x19E, 0x19E, 1, 0x220);
    (0x1A1, 0x1A5, 2, 0x1A0); (0x1A8, 0x1A8, 1, 0x1A7); (0x1AD, 0x1AD, 1, 0x1AC);
    (0x1B0, 0x1B0, 1, 0x1AF); (0x1B4, 0x1B6, 2, 0x1B3); (0x1B9, 0x1B9, 1, 0x1B8);
    (0x1BD, 0x1BD, 1, 0x1BC); (0x1BF, 0x1BF, 1, 0x1F7); (0x1C5, 0x1C5, 1, 0x1C4);
    (0x1C6, 0x1C6, 1, 0x1C4); (0x1C8, 0x1C8, 1, 0x1C7); (0x1C9, 0x1C9, 1, 0x1C7);
    (0x1CB, 0x1CB, 1, 0x1CA); (0x1CC, 0x1CC, 1, 0x1CA); (0x1CE, 0x1DC, 2, 0x1CD);
    (0x1DD, 0x1DD, 1, 0x18E); (0x1DF, 0x1EF, 2, 0x1DE); (0x1F2, 0x1F2, 1, 0x1F1);
    (0x1F3, 0x1F3, 1, 0x1F1); (0x1F5, 0x1F5, 1, 0x1F4); (0x1F9, 0x21F, 2, 0x1F8);
    (0x223, 0x233, 2, 0x222); (0x23C, 0x23C, 1, 0x23B); (0x23F, 0x240, 1, 0x2C7E);
    (0x242, 0x242, 1, 0x241); (0x247, 0x24F, 2, 0x246); (0x250, 0x250, 1, 0x2C6F);
    (0x251, 0x251, 1, 0x2C6D); (0x252, 0x252, 1, 0x2C70); (0x253, 0x253, 1, 0x181);
    (0x254, 0x254, 1, 0x186); (0x256, 0x257, 1, 0x189); (0x259, 0x259, 1, 0x18F);
    (0x25B, 0x25B, 1, 0x190); (0x25C, 0x25C, 1, 0xA7AB); (0x260, 0x260, 1, 0x193);
    (0x261, 0x261, 1, 0xA7AC); (0x263, 0x263, 1, 0x194); (0x265, 0x265, 1, 0xA78D);
    (0x266, 0x266, 1, 0xA7AA); (0x268, 0x268, 1, 0x197); (0x269, 0x269, 1, 0x196);
    (0x26A, 0x26A, 1, 0xA7AE); (0x26B, 0x26B, 1, 0x2C62); (0x26C, 0x26C, 1, 0xA7AD);
    (0x26F, 0x26F, 1, 0x19C); (0x271, 0x271, 1, 0x2C6E); (0x272, 0x272, 1, 0x19D);
    (0x275, 0x275, 1, 0x19F); (0x27D, 0x27D, 1, 0x2C64); (0x280, 0x280, 1, 0x1A6);
    (0x282, 0x282, 1, 0xA7C5); (0x283, 0x283, 1, 0x1A9); (0x287, 0x287, 1, 0xA7B1);
    (0x288, 0x288, 1, 0x1AE); (0x289, 0x289, 1, 0x244); (0x28A, 0x28B, 1, 0x1B1);
    (0x28C, 0x28C, 1, 0x245); (0x292, 0x292, 1, 0x1B7); (0x29D, 0x29D, 1, 0xA7B2);
    (0x29E, 0x29E, 1, 0xA7B0); (0x345, 0x345, 1, 0x399); (0x371, 0x373, 2, 0x370);
    (0x377, 0x377, 1, 0x376); (0x37B, 0x37D, 1, 0x3FD); (0x3AC, 0x3AC, 1, 0x386);
    (0x3AD, 0x3AF, 1, 0x388); (0x3B1, 0x3C1, 1, 0x391); (0x3C2, 0x3C2, 1, 0x3A3);
    (0x3C3, 0x3CB, 1, 0x3A3); (0x3CC, 0x3CC, 1, 0x38C); (0x3CD, 0x3CE, 1, 0x38E);
    (0x3D0, 0x3D0, 1, 0x392); (0x3D1, 0x3D1, 1, 0x398); (0x3D5, 0x3D5, 1, 0x3A6);
    (0x3D6, 0x3D6, 1, 0x3A0); (0x3D7, 0x3D7, 1, 0x3CF); (0x3D9, 0x3EF, 2, 0x3D8);
    (0x3F0, 0x3F0, 1, 0x39A); (0x3F1, 0x3F1, 1, 0x3A1); (0x3F2, 0x3F2, 1, 0x3F9);
    (0x3F3, 0x3F3, 1, 0x37F); (0x3F5, 0x3F5, 1, 0x395); (0x3F8, 0x3F8, 1, 0x3F7);
    (0x3FB, 0x3FB, 1, 0x3FA); (0x430, 0x44F, 1, 0x410); (0x450, 0x45F, 1, 0x400);
    (0x461, 0x481, 2, 0x460); (0x48B, 0x4BF, 2, 0x48A); (0x4C2, 0x4CE, 2, 0x4C1);
    (0x4CF, 0x4CF, 1, 0x4C0); (0x4D1, 0x52F, 2, 0x4D0); (0x561, 0x586, 1, 0x531);
    (0x10D0, 0x10FA, 1, 0x1C90); (0x10FD, 0x10FF, 1, 0x1CBD); (0x13F8, 0x13FD, 1, 0x13F0);
    (0x1C80, 0x1C80, 1, 0x412); (0x1C81, 0x1C81, 1, 0x414); (0x1C82, 0x1C82, 1, 0x41E);
    (0x1C83, 0x1C84, 1, 0x421); (0x1C85, 0x1C85, 1, 0x422); (0x1C86, 0x1C86, 1, 0x42A);
    (0x1C87, 0x1C87, 1, 0x462); (0x1C88, 0x1C88, 1, 0xA64A); (0x1D79, 0x1D79, 1, 0xA77D);
    (0x1D7D, 0x1D7D, 1, 0x2C63); (0x1D8E, 0x1D8E, 1, 0xA7C6); (0x1E01, 0x1E95, 2, 0x1E00);
    (0x1E9B, 0x1E9B, 1, 0x1E60); (0x1EA1, 0x1EFF, 2, 0x1EA0); (0x1F00, 0x1F07, 1, 0x1F08);
    (0x1F10, 0x1F15, 1, 0x1F18); (0x1F20, 0x1F27, 1, 0x1F28); (0x1F30, 0x1F37, 1, 0x1F38);
    (0x1F40, 0x1F45, 1, 0x1F48); (0x1F51, 0x1F57, 2, 0x1F59); (0x1F60, 0x1F67, 1, 0x1F68);
    (0x1F70, 0x1F71, 1, 0x1FBA); (0x1F72, 0x1F75, 1, 0x1FC8); (0x1F76, 0x1F77, 1, 0x1FDA);
    (0x1F78, 0x1F79, 1, 0x1FF8); (0x1F7A, 0x1F7B, 1, 0x1FEA); (0x1F7C, 0x1F7D, 1, 0x1FFA);
    (0x1FB0, 0x1FB1, 1, 0x1FB8); (0x1FBE, 0x1FBE, 1, 0x399); (0x1FD0, 0x1FD1, 1, 0x1FD8);
    (0x1FE0, 0x1FE1, 1, 0x1FE8); (0x1FE5, 0x1FE5, 1, 0x1FEC); (0x214E, 0x214E, 1, 0x2132);
    (0x2170, 0x217F, 1, 0x2160); (0x2184, 0x2184, 1, 0x2183); (0x24D0, 0x24E9, 1, 0x24B6);
    (0x2C30, 0x2C5F, 1, 0x2C00); (0x2C61, 0x2C61, 1, 0x2C60); (0x2C65, 0x2C65, 1, 0x23A);
    (0x2C66, 0x2C66, 1, 0x23E); (0x2C68, 0x2C6C, 2, 0x2C67); (0x2C73, 0x2C73, 1, 0x2C72);
    (0x2C76, 0x2C76, 1, 0x2C75); (0x2C81, 0x2CE3, 2, 0x2C80); (0x2CEC, 0x2CEE, 2, 0x2CEB);
    (0x2CF3, 0x2CF3, 1, 0x2CF2); (0x2D00, 0x2D25, 1, 0x10A0); (0x2D27, 0x2D27, 1, 0x10C7);
    (0x2D2D, 0x2D2D, 1, 0x10CD); (0xA641, 0xA66D, 2, 0xA640); (0xA681, 0xA69B, 2, 0xA680);
    (0xA723, 0xA72F, 2, 0xA722); (0xA733, 0xA76F, 2, 0xA732); (0xA77A, 0xA77C, 2, 0xA779);
    (0xA77F, 0xA787, 2, 0xA77E); (0xA78C, 0xA78C, 1, 0xA78B); (0xA791, 0xA793, 2, 0xA790);
    (0xA794, 0xA794, 1, 0xA7C4); (0xA797, 0xA7A9, 2, 0xA796); (0xA7B5, 0xA7C3, 2, 0xA7B4);
    (0xA7C8, 0xA7CA, 2, 0xA7C7); (0xA7D1, 0xA7D1, 1, 0xA7D0); (0xA7D7, 0xA7D9, 2, 0xA7D6);
    (0xA7F6, 0xA7F6, 1, 0xA7F5); (0xAB53, 0xAB53, 1, 0xA7B3); (0xAB70, 0xABBF, 1, 0x13A0);
    (0xFF41, 0xFF5A, 1, 0xFF21) ].

(** The unit that stands for a unit when a pattern without the [u] flag
    has the [i] flag: the unit [toUpperCase] gives for it when it gives
    one unit, unless that turns a unit outside ASCII into an ASCII one. *)
Definition upper_unit (c : N) : N :=
  let u := range_image uppercase_ranges c in
  if (128 <=? c) && (u <? 128) then c else u.

(** The small letter of a unit, for the case variants of a unit a class
    is asked about under the [i] flag. *)
Definition lower_unit (c : N) : N := lower_code_point c.

Fixpoint startsWith (s p : jsstring) : bool :=
  match p, s with
  | [], _ => true
  | x :: p', y :: s' => (x =? y) && startsWith s' p'
  | _ :: _, [] => false
  end.

(** [s.includes(p)] *)
Fixpoint includes (s p : jsstring) : bool :=
  startsWith s p ||
  match s with
  | [] => false
  | _ :: s' => includes s' p
  end.

(** [s.indexOf(c)] for a one-unit needle; [None] stands for -1. *)
Fixpoint indexOf (s : jsstring) (c : N) : option nat :=
  match s with
  | [] => None
  | x :: s' => if x =? c then Some O else option_map S (indexOf s' c)
  end.

Fixpoint drop_spaces (s : jsstring) : jsstring :=
  match s with
  | c :: s' => if is_space c then drop_spaces s' else s
  | [] => []
  end.

Definition trim (s : jsstring) : jsstring :=
  rev (drop_spaces (rev (drop_spaces s))).

(** [s.replace(/\s+/g, ' ')]: every maximal run of white space becomes one
    space.  [in_run] records that the previous unit was white space. *)
Fixpoint collapse_spaces (in_run : bool) (s : jsstring) : jsstring :=
  match s with
  | [] => []
  | c :: s' =>
      if is_space c
      then (if in_run then collapse_spaces true s'
            else 32 :: collapse_spaces true s')
      else c :: collapse_spaces false s'
  end.

Definition cleanText (text : jsstring) : jsstring :=
  trim
    (List.map (fun c => if (c =? 10) || (c =? 13) || (c =? 9) then 32 else c)
       (collapse_spaces false text)).

(* ====================================================================== *)
(** * JavaScript numbers *)
(* ====================================================================== *)

(** A number is its decimal expansion: sign, integer part and the digits
    after the point ([Nil] when there are none), or an infinity.  The
    expansion is exact: the rounding of a literal to the nearest double is
    not part of the model. *)
Inductive jsnum : Type :=
| Dec (neg : bool) (ip : N) (fp : uint)
| Infinity (neg : bool).

Definition num_of_N (n : N) : jsnum := Dec false n Nil.

Fixpoint frac_zero (u : uint) : bool :=
  match u with
  | Nil => true
  | D0 u' => frac_zero u'
  | _ => false
  end.

Definition num_is_zero (x : jsnum) : bool :=
  match x with
  | Dec _ ip fp => (ip =? 0) && frac_zero fp
  | Infinity _ => false
  end.

(** Truthiness of a number that is not [NaN]: everything but [0] and [-0]. *)
Definition truthy_num (x : jsnum) : bool := negb (num_is_zero x).

(** Truthiness of a number-or-null ([null] and [NaN] are both falsy). *)
Definition truthy_onum (x : option jsnum) : bool :=
  match x with Some v => truthy_num v | None => false end.

(** [x >= n] and [x <= n] against a non-negative integer constant. *)
Definition num_ge (x : jsnum) (n : N) : bool :=
  match x with
  | Dec false ip _ => n <=? ip
  | Dec true _ _ => num_is_zero x && (n =? 0)
  | Infinity neg => negb neg
  end.

Definition num_le (x : jsnum) (n : N) : bool :=
  match x with
  | Dec false ip fp => (ip <? n) || ((ip =? n) && frac_zero fp)
  | Dec true _ _ => true
  | Infinity neg => neg
  end.

Definition num_gt0 (x : jsnum) : bool :=
  match x with
  | Dec neg _ _ => negb neg && truthy_num x
  | Infinity neg => negb neg
  end.

(** Decimal digits. *)
Definition digit_val (c : N) : N := c - 48.

Definition digit_cons (d : N) (u : uint) : uint :=
  match d with
  | 0 => D0 u | 1 => D1 u | 2 => D2 u | 3 => D3 u | 4 => D4 u
  | 5 => D5 u | 6 => D6 u | 7 => D7 u | 8 => D8 u | _ => D9 u
  end.

Definition uint_of_digits (l : list N) : uint := fold_right digit_cons Nil l.

Definition N_of_digits (l : list N) : N :=
  fold_left (fun acc d => acc * 10 + d) l 0.

Fixpoint drop_zeros (l : list N) : list N :=
  match l with
  | 0 :: l' => drop_zeros l'
  | _ => l
  end.

Definition strip_trailing_zeros (l : list N) : list N :=
  rev (drop_zeros (rev l)).

(** The longest prefix of decimal digits (as digit values) and the rest. *)
Fixpoint span_digits (s : jsstring) : list N * jsstring :=
  match s with
  | c :: s' =>
      if is_digit c
      then let '(ds, r) := span_digits s' in (digit_val c :: ds, r)
      else ([], s)
  | [] => ([], [])
  end.

(** [m * 10^e] on a mantissa given by the digits before and after the
    point: the point moves by [e] places. *)
Definition shift_point (int_ds frac_ds : list N) (e : Z) : list N * list N :=
  if (0 <=? e)%Z then
    let k := Z.to_nat e in
    (int_ds ++ take k (frac_ds ++ repeat 0 k), drop k frac_ds)
  else
    let k := Z.to_nat (- e) in
    let padded := repeat 0 k ++ int_ds in
    let n := (length padded - k)%nat in
    (take n padded, drop n padded ++ frac_ds).

(** The exponent part of a decimal literal, when there is one. *)
Definition exponent_part (s : jsstring) : Z :=
  match s with
  | c :: s' =>
      if (c =? 101) || (c =? 69) then
        let '(neg, s'') :=
          match s' with
          | 45 :: t => (true, t)
          | 43 :: t => (false, t)
          | _ => (false, s')
          end in
        match fst (span_digits s'') with
        | [] => 0%Z
        | ds => let v := Z.of_N (N_of_digits ds) in if neg then (- v)%Z else v
        end
      else 0%Z
  | [] => 0%Z
  end.

(** [parseFloat]: leading white space, a sign, then [Infinity] or the
    longest decimal literal; [None] is [NaN]. *)
Definition parseFloat (s : jsstring) : option jsnum :=
  let s0 := drop_spaces s in
  let '(neg, s1) :=
    match s0 with
    | 45 :: t => (true, t)
    | 43 :: t => (false, t)
    | _ => (false, s0)
    end in
  if startsWith s1 (js "Infinity") then Some (Infinity neg)
  else
    let '(int_ds, s2) := span_digits s1 in
    let '(frac_ds, s3) :=
      match s2 with
      | 46 :: t => span_digits t
      | _ => ([], s2)
      end in
    match int_ds, frac_ds with
    | [], [] => None
    | _, _ =>
        let '(i, f) := shift_point int_ds frac_ds (exponent_part s3) in
        Some (Dec neg (N_of_digits i) (uint_of_digits (strip_trailing_zeros f)))
    end.

(** The value of a hexadecimal digit. *)
Definition hex_val (c : N) : option N :=
  if is_digit c then Some (c - 48)
  else if in_range 97 102 c then Some (c - 87)
  else if in_range 65 70 c then Some (c - 55)
  else None.

Fixpoint span_hex (s : jsstring) : list N :=
  match s with
  | c :: s' => match hex_val c with Some v => v :: span_hex s' | None => [] end
  | [] => []
  end.

(** [parseInt] with the default radix: leading white space, a sign, then
    decimal digits, or hexadecimal digits after [0x]; [None] is [NaN]. *)
Definition parseInt (s : jsstring) : option Z :=
  let s0 := drop_spaces s in
  let '(neg, s1) :=
    match s0 with
    | 45 :: t => (true, t)
    | 43 :: t => (false, t)
    | _ => (false, s0)
    end in
  let signed (v : N) : Z := if neg then (- Z.of_N v)%Z else Z.of_N v in
  match s1 with
  | 48 :: x :: t =>
      if (x =? 120) || (x =? 88) then
        match span_hex t with
        | [] => None
        | ds => Some (signed (fold_left (fun acc v => acc * 16 + v) ds 0))
        end
      else Some (signed (N_of_digits (fst (span_digits s1))))
  | _ =>
      match fst (span_digits s1) with
      | [] => None
      | ds => Some (signed (N_of_digits ds))
      end
  end.

(** Digits of a [uint] as code units. *)
Definition print_uint (u : uint) : jsstring := js (NilEmpty.string_of_uint u).

Definition print_N (n : N) : jsstring := print_uint (N.to_uint n).

(** [String(x)] in plain decimal notation; both zeros print as [0]. *)
Definition num_to_string (x : jsnum) : jsstring :=
  match x with
  | Dec neg ip fp =>
      if num_is_zero x then js "0"
      else (if neg then [45] else []) ++ print_N ip
           ++ match fp with Nil => [] | _ => 46 :: print_uint fp end
  | Infinity neg => (if neg then [45] else []) ++ js "Infinity"
  end.

(** Whether the fraction is one half or more. *)
Definition first_frac_ge5 (fp : uint) : bool :=
  match fp with
  | D5 _ | D6 _ | D7 _ | D8 _ | D9 _ => true
  | _ => false
  end.

(** Thousands grouping of a digit string, as [toLocaleString('en-US')]. *)
Fixpoint group3_rev (ds : jsstring) : jsstring :=
  match ds with
  | a :: b :: c :: ((_ :: _) as rest) => a :: b :: c :: 44 :: group3_rev rest
  | _ => ds
  end.

Definition group_thousands (n : N) : jsstring :=
  rev (group3_rev (rev (print_N n))).

(** [x.toLocaleString('en-US', { maximumFractionDigits: 0 })]: rounded half
    away from zero, grouped by thousands. *)
Definition toLocaleString0 (x : jsnum) : jsstring :=
  match x with
  | Dec neg ip fp =>
      let r := if first_frac_ge5 fp then ip + 1 else ip in
      (if neg then [45] else []) ++ group_thousands r
  | Infinity neg => (if neg then [45] else []) ++ [0x221E]
  end.

(* ====================================================================== *)
(** * Regular expressions *)
(* ====================================================================== *)

(** The fragment of JavaScript regular expressions the program uses: one
    capturing group at most, greedy and lazy repetition, alternation,
    classes, [\b], [^] and [$]. *)
Inductive regex : Type :=
| Empty
| Char (c : N)
| Class (p : N -> bool)
| Seq (r1 r2 : regex)
| Alt (r1 r2 : regex)
| Star (greedy : bool) (r : regex)
| Group (r : regex)
| WordB
| Bol
| Eol.

Definition Plus (r : regex) : regex := Seq r (Star true r).
Definition PlusLazy (r : regex) : regex := Seq r (Star false r).
Definition Opt (r : regex) : regex := Alt r Empty.
Definition Lit (s : jsstring) : regex := fold_right (fun c r => Seq (Char c) r) Empty s.
Definition Alts (rs : list regex) : regex :=
  match rs with
  | [] => Empty
  | r :: rs' => fold_left Alt rs' r
  end.

(** A position in the subject: the units before it, nearest first, and the
    units from it on. *)
Record cursor : Type := { before : jsstring; after : jsstring }.

Definition advance (c : cursor) : cursor :=
  match after c with
  | [] => c
  | x :: t => {| before := x :: before c; after := t |}
  end.

Definition at_word_boundary (c : cursor) : bool :=
  let a := match before c with x :: _ => is_word x | [] => false end in
  let b := match after c with x :: _ => is_word x | [] => false end in
  xorb a b.

(** Comparison of a pattern unit with a subject unit, under the [i] flag
    or not. *)
Definition unit_matches (ci : bool) (p x : N) : bool :=
  if ci then upper_unit p =? upper_unit x else p =? x.

Definition class_matches (ci : bool) (p : N -> bool) (x : N) : bool :=
  if ci then p x || p (upper_unit x) || p (lower_unit x) else p x.

Definition mresult : Type := cursor * option jsstring.

(** Backtracking matcher in continuation-passing style.  [g] is the text
    of the capturing group so far; [k] is the rest of the pattern.  A
    repetition gives up an iteration that consumed nothing, as the
    language prescribes. *)
Fixpoint rmatch (ci : bool) (r : regex) (c : cursor) (g : option jsstring)
    (k : cursor -> option jsstring -> option mresult) : option mresult :=
  match r with
  | Empty => k c g
  | Char p =>
      match after c with
      | x :: _ => if unit_matches ci p x then k (advance c) g else None
      | [] => None
      end
  | Class p =>
      match after c with
      | x :: _ => if class_matches ci p x then k (advance c) g else None
      | [] => None
      end
  | Seq r1 r2 => rmatch ci r1 c g (fun c' g' => rmatch ci r2 c' g' k)
  | Alt r1 r2 =>
      match rmatch ci r1 c g k with
      | Some m => Some m
      | None => rmatch ci r2 c g k
      end
  | Star greedy r1 =>
      (fix loop (fuel : nat) (c : cursor) (g : option jsstring) {struct fuel}
         : option mresult :=
         match fuel with
         | O => k c g
         | S fuel' =>
             let again :=
               rmatch ci r1 c g
                 (fun c' g' =>
                    if (length (after c') <? length (after c))%nat
                    then loop fuel' c' g' else None) in
             if greedy
             then match again with Some m => Some m | None => k c g end
             else match k c g with Some m => Some m | None => again end
         end) (S (length (after c))) c g
  | Group r1 =>
      rmatch ci r1 c g
        (fun c' _ =>
           k c' (Some (take (length (after c) - length (after c'))%nat (after c))))
  | WordB => if at_word_boundary c then k c g else None
  | Bol => match before c with [] => k c g | _ => None end
  | Eol => match after c with [] => k c g | _ => None end
  end.

(** The result of [String.prototype.match] with a non-global pattern:
    where the match starts, its text, and the text of group 1. *)
Record match_result : Type :=
  { m_index : nat; m_text : jsstring; m_group1 : option jsstring }.

Fixpoint search_from (ci : bool) (r : regex) (bef aft : jsstring)
  : option match_result :=
  let c := {| before := bef; after := aft |} in
  match rmatch ci r c None (fun c' g' => Some (c', g')) with
  | Some (c', g') =>
      Some {| m_index := length bef;
              m_text := take (length aft - length (after c'))%nat aft;
              m_group1 := g' |}
  | None =>
      match aft with
      | [] => None
      | x :: aft' => search_from ci r (x :: bef) aft'
      end
  end.

(** A pattern with its [i] flag. *)
Record pattern : Type := { pat_re : regex; pat_ci : bool }.

Definition str_match (text : jsstring) (p : pattern) : option match_result :=
  search_from (pat_ci p) (pat_re p) [] text.

Definition regex_test (p : pattern) (text : jsstring) : bool :=
  match str_match text p with Some _ => true | None => false end.

(** Classes of the patterns below. *)
Definition cls_d : N -> bool := is_digit.
Definition cls_s : N -> bool := is_space.
Definition cls_of (s : jsstring) (c : N) : bool := existsb (N.eqb c) s.
Definition cls_or (p q : N -> bool) (c : N) : bool := p c || q c.
Definition cls_not (p : N -> bool) (c : N) : bool := negb (p c).
Definition cls_range (lo hi : N) : N -> bool := in_range lo hi.

Definition Seqs (rs : list regex) : regex := fold_right Seq Empty rs.

(** A literal whose last unit is optional: what [abc?] means. *)
Definition LitOptLast (s : jsstring) : regex :=
  match rev s with
  | [] => Empty
  | c :: pre => Seq (Lit (rev pre)) (Opt (Char c))
  end.

Definition re_d : regex := Class cls_d.
Definition re_ws : regex := Star true (Class cls_s).
Definition re_ws1 : regex := Plus (Class cls_s).

(* ====================================================================== *)
(** * Configuration *)
(* ====================================================================== *)

Module CONFIG.
Definition MIN_LISTING_CONFIDENCE : Z := 40.
Definition MIN_YACHT_KEYWORDS : nat := 3.
Definition MIN_YACHT_PRICE : N := 5000.
Definition MAX_YACHT_PRICE : N := 100000000.
Definition MIN_IMAGE_WIDTH : Z := 200.
Definition MIN_IMAGE_HEIGHT : Z := 150.
Definition MAX_LISTINGS_DISPLAY : nat := 10.
End CONFIG.

Definition YACHT_KEYWORDS : list jsstring :=
  List.map js
    [ "yacht"; "yachts"; "boat"; "boats"; "vessel"; "vessels"; "marine";
      "sailing"; "sailboat"; "motor yacht"; "catamaran"; "trimaran";
      "brokerage"; "broker"; "for sale"; "buy"; "sell";
      "length overall"; "loa"; "beam"; "draft"; "hull";
      "engine"; "knots"; "nautical"; "marina"; "cruiser";
      "sportfish"; "trawler"; "express"; "flybridge"; "cockpit";
      "galley"; "cabin"; "berth"; "stateroom"; "helm" ]%string.

(* ====================================================================== *)
(** * Price parser *)
(* ====================================================================== *)

Inductive Currency : Type := USD | EUR | GBP.

Record price_pattern : Type :=
  { pp_regex : pattern; pp_currency : Currency }.

Definition digits_commas : regex := Plus (Class (cls_or cls_d (cls_of (js ",")))).
Definition digits_commas_dots_ws : regex :=
  Plus (Class (cls_or cls_d (cls_or (cls_of (js ",.")) cls_s))).

(** [PRICE_PATTERNS], with the euro and pound literals of the file as
    parameters. *)
Definition PRICE_PATTERNS_with (euro pound : jsstring) : list price_pattern :=
  [ (* /\$\s*([\d,]+(?:\.\d{2})?)\s*(?:USD|usd)?/ *)
    {| pp_regex :=
         {| pat_re := Seqs [ Char 36; re_ws;
                             Group (Seq digits_commas
                                        (Opt (Seqs [Char 46; re_d; re_d])));
                             re_ws;
                             Opt (Alt (Lit (js "USD")) (Lit (js "usd"))) ];
            pat_ci := false |};
       pp_currency := USD |};
    (* /USD\s*\$?\s*([\d,]+)/i *)
    {| pp_regex :=
         {| pat_re := Seqs [ Lit (js "USD"); re_ws; Opt (Char 36); re_ws;
                             Group digits_commas ];
            pat_ci := true |};
       pp_currency := USD |};
    (* /([\d,]+)\s*(?:USD|dollars?)/i *)
    {| pp_regex :=
         {| pat_re := Seqs [ Group digits_commas; re_ws;
                             Alt (Lit (js "USD")) (LitOptLast (js "dollars")) ];
            pat_ci := true |};
       pp_currency := USD |};
    (* /<euro>\s*([\d,.\s]+)/ *)
    {| pp_regex :=
         {| pat_re := Seqs [ Lit euro; re_ws; Group digits_commas_dots_ws ];
            pat_ci := false |};
       pp_currency := EUR |};
    (* /EUR\s*<euro>?\s*([\d,.\s]+)/i *)
    {| pp_regex :=
         {| pat_re := Seqs [ Lit (js "EUR"); re_ws; LitOptLast euro; re_ws;
                             Group digits_commas_dots_ws ];
            pat_ci := true |};
       pp_currency := EUR |};
    (* /([\d,.\s]+)\s*(?:EUR|euros?)/i *)
    {| pp_regex :=
         {| pat_re := Seqs [ Group digits_commas_dots_ws; re_ws;
                             Alt (Lit (js "EUR")) (LitOptLast (js "euros")) ];
            pat_ci := true |};
       pp_currency := EUR |};
    (* /<pound>\s*([\d,]+)/ *)
    {| pp_regex :=
         {| pat_re := Seqs [ Lit pound; re_ws; Group digits_commas ];
            pat_ci := false |};
       pp_currency := GBP |};
    (* /GBP\s*<pound>?\s*([\d,]+)/i *)
    {| pp_regex :=
         {| pat_re := Seqs [ Lit (js "GBP"); re_ws; LitOptLast pound; re_ws;
                             Group digits_commas ];
            pat_ci := true |};
       pp_currency := GBP |};
    (* /(?:price|asking)[:\s]*\$?\s*([\d,]+)/i *)
    {| pp_regex :=
         {| pat_re := Seqs [ Alt (Lit (js "price")) (Lit (js "asking"));
                             Star true (Class (cls_or (cls_of (js ":")) cls_s));
                             Opt (Char 36); re_ws; Group digits_commas ];
            pat_ci := true |};
       pp_currency := USD |} ].

Definition PRICE_PATTERNS : list price_pattern :=
  PRICE_PATTERNS_with EURO_LIT POUND_LIT.

Definition currency_symbol_with (euro pound : jsstring) (c : Currency) : jsstring :=
  match c with
  | USD => js "$"
  | EUR => euro
  | GBP => pound
  end.

Definition formatPrice_with (euro pound : jsstring) (num : jsnum) (c : Currency)
  : jsstring :=
  if negb (truthy_num num) then []
  else currency_symbol_with euro pound c ++ toLocaleString0 num.

Definition formatPrice : jsnum -> Currency -> jsstring :=
  formatPrice_with EURO_LIT POUND_LIT.

Record price_data : Type :=
  { raw : option jsnum; formatted : jsstring; currency : option Currency }.

Definition no_price : price_data :=
  {| raw := None; formatted := []; currency := None |}.

(** The cleaning of the captured amount in [extractPrice]: white space and
    commas go; then, when the first dot has more than two units after it,
    every dot goes. *)
Definition clean_amount (captured : jsstring) : jsstring :=
  let numStr :=
    List.filter (fun c => negb (c =? 44))
      (List.filter (fun c => negb (is_space c)) captured) in
  match indexOf numStr 46 with
  | Some i =>
      if (Z.of_nat i <? Z.of_nat (length numStr) - 3)%Z
      then List.filter (fun c => negb (c =? 46)) numStr
      else numStr
  | None => numStr
  end.

Fixpoint extractPrice_from (euro pound : jsstring) (pats : list price_pattern)
    (text : jsstring) : price_data :=
  match pats with
  | [] => no_price
  | p :: rest =>
      match str_match text (pp_regex p) with
      | Some m =>
          let numStr := clean_amount (default [] (m_group1 m)) in
          match parseFloat numStr with
          | Some r =>
              if num_ge r 1000
              then {| raw := Some r;
                      formatted := formatPrice_with euro pound r (pp_currency p);
                      currency := Some (pp_currency p) |}
              else extractPrice_from euro pound rest text
          | None => extractPrice_from euro pound rest text
          end
      | None => extractPrice_from euro pound rest text
      end
  end.

Definition extractPrice_with (euro pound : jsstring) (text : jsstring) : price_data :=
  extractPrice_from euro pound (PRICE_PATTERNS_with euro pound) text.

Definition extractPrice : jsstring -> price_data :=
  extractPrice_with EURO_LIT POUND_LIT.

(* ====================================================================== *)
(** * The host: clock, calendar and URL parser *)
(* ====================================================================== *)

(** The readings [Date.now()] returns, in call order. *)
Definition Clock : Type := nat -> N.

(** Computations that read the clock. *)
Definition M (A : Type) : Type := Clock -> A * Clock.

Definition ret {A : Type} (a : A) : M A := fun clk => (a, clk).

Definition bind {A B : Type} (f : A -> M B) (m : M A) : M B :=
  fun clk => let '(a, clk') := m clk in f a clk'.

#[global] Instance M_ret : MRet M := @ret.
#[global] Instance M_bind : MBind M := @bind.

Definition Date_now : M N := fun clk => (clk O, fun n => clk (S n)).

(** [xs.forEach((x, i) => ...)] collecting what each step yields. *)
Fixpoint forEachM {A B : Type} (f : A -> nat -> M (list B)) (xs : list A)
    (i : nat) : M (list B) :=
  match xs with
  | [] => ret []
  | x :: xs' =>
      ys ← f x i;
      zs ← forEachM f xs' (S i);
      ret (ys ++ zs)
  end.

(** A statement either completes with a value or throws. *)
Inductive completion (A : Type) : Type :=
| Normal (a : A)
| Throw.
Arguments Normal {A} a.
Arguments Throw {A}.

Definition try_catch {A : Type} (body : completion A) (handler : completion A)
  : completion A :=
  match body with
  | Normal a => Normal a
  | Throw => handler
  end.

(** What the program reads of a parsed [URL]. *)
Record url_record : Type :=
  { protocol : jsstring; origin : jsstring; href_of : jsstring }.

(** The host functions the program calls: the calendar year of
    [new Date().getFullYear()], [new URL(u)] and [new URL(u, base)], the
    last two throwing on input they cannot parse. *)
Record Host : Type :=
  { thisYear : Z;
    new_URL : jsstring -> completion url_record;
    new_URL_rel : jsstring -> jsstring -> completion url_record }.

(* ====================================================================== *)
(** * Data model *)
(* ====================================================================== *)

Record confidence_t : Type :=
  { overall : Z; conf_title : Z; conf_price : Z; conf_images : Z; conf_specs : Z }.

Inductive severity_t : Type := error | warning.

Record issue : Type :=
  { field : jsstring; severity : severity_t; message : jsstring }.

(** A listing record.  [detailUrl] is absent on a fresh record; an entry of
    [images] is an address or [null]. *)
Record yacht : Type :=
  { yid : jsstring;
    title : jsstring;
    price : jsstring;
    priceRaw : option jsnum;
    year : jsstring;
    ylength : jsstring;
    lengthUnit : jsstring;
    ytype : jsstring;
    make : jsstring;
    model : jsstring;
    location : jsstring;
    description : jsstring;
    images : list (option jsstring);
    detailUrl : option jsstring;
    sourceUrl : jsstring;
    source : jsstring;
    confidence : confidence_t;
    issues : list issue }.

(** Field assignments. *)
Definition set_title (v : jsstring) (y : yacht) : yacht :=
  {| yid := yid y; title := v; price := price y; priceRaw := priceRaw y;
     year := year y; ylength := ylength y; lengthUnit := lengthUnit y;
     ytype := ytype y; make := make y; model := model y;
     location := location y; description := description y;
     images := images y; detailUrl := detailUrl y; sourceUrl := sourceUrl y;
     source := source y; confidence := confidence y; issues := issues y |}.

Definition set_price (v : jsstring) (y : yacht) : yacht :=
  {| yid := yid y; title := title y; price := v; priceRaw := priceRaw y;
     year := year y; ylength := ylength y; lengthUnit := lengthUnit y;
     ytype := ytype y; make := make y; model := model y;
     location := location y; description := description y;
     images := images y; detailUrl := detailUrl y; sourceUrl := sourceUrl y;
     source := source y; confidence := confidence y; issues := issues y |}.

Definition set_priceRaw (v : option jsnum) (y : yacht) : yacht :=
  {| yid := yid y; title := title y; price := price y; priceRaw := v;
     year := year y; ylength := ylength y; lengthUnit := lengthUnit y;
     ytype := ytype y; make := make y; model := model y;
     location := location y; description := description y;
     images := images y; detailUrl := detailUrl y; sourceUrl := sourceUrl y;
     source := source y; confidence := confidence y; issues := issues y |}.

Definition set_year (v : jsstring) (y : yacht) : yacht :=
  {| yid := yid y; title := title y; price := price y; priceRaw := priceRaw y;
     year := v; ylength := ylength y; lengthUnit := lengthUnit y;
     ytype := ytype y; make := make y; model := model y;
     location := location y; description := description y;
     images := images y; detailUrl := detailUrl y; sourceUrl := sourceUrl y;
     source := source y; confidence := confidence y; issues := issues y |}.

Definition set_length (v unit : jsstring) (y : yacht) : yacht :=
  {| yid := yid y; title := title y; price := price y; priceRaw := priceRaw y;
     year := year y; ylength := v; lengthUnit := unit;
     ytype := ytype y; make := make y; model := model y;
     location := location y; description := description y;
     images := images y; detailUrl := detailUrl y; sourceUrl := sourceUrl y;
     source := source y; confidence := confidence y; issues := issues y |}.

Definition set_type (v : jsstring) (y : yacht) : yacht :=
  {| yid := yid y; title := title y; price := price y; priceRaw := priceRaw y;
     year := year y; ylength := ylength y; lengthUnit := lengthUnit y;
     ytype := v; make := make y; model := model y;
     location := location y; description := description y;
     images := images y; detailUrl := detailUrl y; sourceUrl := sourceUrl y;
     source := source y; confidence := confidence y; issues := issues y |}.

Definition set_location (v : jsstring) (y : yacht) : yacht :=
  {| yid := yid y; title := title y; price := price y; priceRaw := priceRaw y;
     year := year y; ylength := ylength y; lengthUnit := lengthUnit y;
     ytype := ytype y; make := make y; model := model y;
     location := v; description := description y;
     images := images y; detailUrl := detailUrl y; sourceUrl := sourceUrl y;
     source := source y; confidence := confidence y; issues := issues y |}.

Definition set_description (v : jsstring) (y : yacht) : yacht :=
  {| yid := yid y; title := title y; price := price y; priceRaw := priceRaw y;
     year := year y; ylength := ylength y; lengthUnit := lengthUnit y;
     ytype := ytype y; make := make y; model := model y;
     location := location y; description := v;
     images := images y; detailUrl := detailUrl y; sourceUrl := sourceUrl y;
     source := source y; confidence := confidence y; issues := issues y |}.

Definition set_images (v : list (option jsstring)) (y : yacht) : yacht :=
  {| yid := yid y; title := title y; price := price y; priceRaw := priceRaw y;
     year := year y; ylength := ylength y; lengthUnit := lengthUnit y;
     ytype := ytype y; make := make y; model := model y;
     location := location y; description := description y;
     images := v; detailUrl := detailUrl y; sourceUrl := sourceUrl y;
     source := source y; confidence := confidence y; issues := issues y |}.

Definition set_detailUrl (v : option jsstring) (y : yacht) : yacht :=
  {| yid := yid y; title := title y; price := price y; priceRaw := priceRaw y;
     year := year y; ylength := ylength y; lengthUnit := lengthUnit y;
     ytype := ytype y; make := make y; model := model y;
     location := location y; description := description y;
     images := images y; detailUrl := v; sourceUrl := sourceUrl y;
     source := source y; confidence := confidence y; issues := issues y |}.

Definition set_sourceUrl (v : jsstring) (y : yacht) : yacht :=
  {| yid := yid y; title := title y; price := price y; priceRaw := priceRaw y;
     year := year y; ylength := ylength y; lengthUnit := lengthUnit y;
     ytype := ytype y; make := make y; model := model y;
     location := location y; description := description y;
     images := images y; detailUrl := detailUrl y; sourceUrl := v;
     source := source y; confidence := confidence y; issues := issues y |}.

Definition set_source (v : jsstring) (y : yacht) : yacht :=
  {| yid := yid y; title := title y; price := price y; priceRaw := priceRaw y;
     year := year y; ylength := ylength y; lengthUnit := lengthUnit y;
     ytype := ytype y; make := make y; model := model y;
     location := location y; description := description y;
     images := images y; detailUrl := detailUrl y; sourceUrl := sourceUrl y;
     source := v; confidence := confidence y; issues := issues y |}.

Definition set_confidence (v : confidence_t) (y : yacht) : yacht :=
  {| yid := yid y; title := title y; price := price y; priceRaw := priceRaw y;
     year := year y; ylength := ylength y; lengthUnit := lengthUnit y;
     ytype := ytype y; make := make y; model := model y;
     location := location y; description := description y;
     images := images y; detailUrl := detailUrl y; sourceUrl := sourceUrl y;
     source := source y; confidence := v; issues := issues y |}.

Definition set_issues (v : list issue) (y : yacht) : yacht :=
  {| yid := yid y; title := title y; price := price y; priceRaw := priceRaw y;
     year := year y; ylength := ylength y; lengthUnit := lengthUnit y;
     ytype := ytype y; make := make y; model := model y;
     location := location y; description := description y;
     images := images y; detailUrl := detailUrl y; sourceUrl := sourceUrl y;
     source := source y; confidence := confidence y; issues := v |}.

Definition set_overall (v : Z) (y : yacht) : yacht :=
  let c := confidence y in
  set_confidence {| overall := v; conf_title := conf_title c;
                    conf_price := conf_price c; conf_images := conf_images c;
                    conf_specs := conf_specs c |} y.

Definition set_conf_title (v : Z) (y : yacht) : yacht :=
  let c := confidence y in
  set_confidence {| overall := overall c; conf_title := v;
                    conf_price := conf_price c; conf_images := conf_images c;
                    conf_specs := conf_specs c |} y.

Definition set_conf_price (v : Z) (y : yacht) : yacht :=
  let c := confidence y in
  set_confidence {| overall := overall c; conf_title := conf_title c;
                    conf_price := v; conf_images := conf_images c;
                    conf_specs := conf_specs c |} y.

Definition set_conf_images (v : Z) (y : yacht) : yacht :=
  let c := confidence y in
  set_confidence {| overall := overall c; conf_title := conf_title c;
                    conf_price := conf_price c; conf_images := v;
                    conf_specs := conf_specs c |} y.

Definition add_conf_specs (v : Z) (y : yacht) : yacht :=
  let c := confidence y in
  set_confidence {| overall := overall c; conf_title := conf_title c;
                    conf_price := conf_price c; conf_images := conf_images c;
                    conf_specs := (conf_specs c + v)%Z |} y.

(** An element of the parsed document, as the answers it gives to what the
    program asks of it: its properties, its attributes, its children, and
    the elements each selector finds under it, in document order. *)
#[local] Unset Elimination Schemes.
Inductive node : Type :=
  Node {
      textContent : jsstring;
      className : jsstring;
      attributes : list (jsstring * jsstring);
      href : jsval;
      closest_a_href : jsval;
      src : option jsstring;
      content : option jsstring;
      dataset_src : option jsstring;
      dataset_lazySrc : option jsstring;
      naturalWidth : Z;
      width : Z;
      naturalHeight : Z;
      height : Z;
      children : list node;
      selected : list (jsstring * list node) }.
#[local] Set Elimination Schemes.

Definition assoc {A : Type} (k : jsstring) (l : list (jsstring * A)) : option A :=
  option_map snd (List.find (fun kv => jsstring_eqb (fst kv) k) l).

Definition getAttribute (n : node) (name : jsstring) : option jsstring :=
  assoc name (attributes n).

Definition querySelectorAll (n : node) (selector : jsstring) : list node :=
  default [] (assoc selector (selected n)).

Definition querySelector (n : node) (selector : jsstring) : option node :=
  head (querySelectorAll n selector).

(* ====================================================================== *)
(** * Generic extraction helpers *)
(* ====================================================================== *)

Definition print_Z (z : Z) : jsstring :=
  (if (z <? 0)%Z then [45] else []) ++ print_N (Z.abs_N z).

(** The object literal of [createEmptyYacht], given the clock reading. *)
Definition blank_yacht (now : N) (index : nat) : yacht :=
  {| yid := js "yacht-" ++ print_N now ++ js "-" ++ print_N (N.of_nat index);
     title := []; price := []; priceRaw := None; year := [];
     ylength := []; lengthUnit := js "ft"; ytype := []; make := [];
     model := []; location := []; description := []; images := [];
     detailUrl := None; sourceUrl := []; source := js "generic";
     confidence := {| overall := 50; conf_title := 0; conf_price := 0;
                      conf_images := 0; conf_specs := 0 |};
     issues := [] |}.

(** [createEmptyYacht(index = 0)] *)
Definition createEmptyYacht (index : nat) : M yacht :=
  now ← Date_now;
  mret (blank_yacht now index).

(** The first truthy number of [a || b || c || d], the third being
    possibly [NaN]. *)
Definition first_truthy (a b : Z) (c : option Z) (dflt : Z) : Z :=
  if negb (a =? 0)%Z then a
  else if negb (b =? 0)%Z then b
  else match c with
       | Some v => if negb (v =? 0)%Z then v else dflt
       | None => dflt
       end.

Definition excludePatterns : list jsstring :=
  List.map js
    [ "logo"; "icon"; "placeholder"; "loading"; "spinner"; "avatar";
      "banner"; "header"; "footer"; "social"; "facebook"; "twitter";
      "linkedin"; "instagram"; "pinterest"; "youtube"; "button";
      "1x1"; "pixel"; "tracking"; "beacon"; "spacer" ]%string.

(** The denylist test of [isValidImage] on a source address. *)
Definition excluded_src (s : jsstring) : bool :=
  existsb (fun pat => includes (toLowerCase s) pat) excludePatterns.

(** [parseInt(img.getAttribute(name))]; a missing attribute reads as
    [null], which does not parse. *)
Definition parseInt_attr (img : node) (name : jsstring) : option Z :=
  match getAttribute img name with
  | Some v => parseInt v
  | None => None
  end.

Definition isValidImage (img : node) : bool :=
  let s := default [] (or_ostr (or_ostr (src img) (dataset_src img)) (Some [])) in
  if excluded_src s then false
  else
    let w := first_truthy (naturalWidth img) (width img)
               (parseInt_attr img (js "width")) 300 in
    let h := first_truthy (naturalHeight img) (height img)
               (parseInt_attr img (js "height")) 200 in
    (CONFIG.MIN_IMAGE_WIDTH <=? w)%Z && (CONFIG.MIN_IMAGE_HEIGHT <=? h)%Z.

Definition type_keywords : list (jsstring * jsstring) :=
  List.map (fun kv => (js (fst kv), js (snd kv)))
    [ ("motor yacht", "motor"); ("motoryacht", "motor"); ("power boat", "motor");
      ("sailing yacht", "sail"); ("sailboat", "sail"); ("sloop", "sail");
      ("ketch", "sail");
      ("catamaran", "catamaran"); ("multihull", "catamaran");
      ("superyacht", "superyacht"); ("megayacht", "superyacht");
      ("mega yacht", "superyacht");
      ("sportfish", "motor"); ("sport fish", "motor");
      ("express cruiser", "motor");
      ("trawler", "motor"); ("flybridge", "motor"); ("sedan", "motor") ]%string.

(** /\b(19[5-9]\d|20[0-2]\d)\b/ *)
Definition year_pattern : pattern :=
  {| pat_re :=
       Seqs [ WordB;
              Group (Alt (Seqs [Lit (js "19"); Class (cls_range 53 57); re_d])
                         (Seqs [Lit (js "20"); Class (cls_range 48 50); re_d]));
              WordB ];
     pat_ci := false |}.

(** /\b(19[89]\d|20[0-2]\d)\b/ *)
Definition recent_year_pattern : pattern :=
  {| pat_re :=
       Seqs [ WordB;
              Group (Alt (Seqs [Lit (js "19"); Class (cls_of (js "89")); re_d])
                         (Seqs [Lit (js "20"); Class (cls_range 48 50); re_d]));
              WordB ];
     pat_ci := false |}.

Definition re_number : regex := Seq (Plus re_d) (Opt (Seq (Char 46) (Plus re_d))).
Definition re_length_word : regex := Alt (Lit (js "length")) (Lit (js "loa")).
Definition re_colon_ws : N -> bool := cls_or (cls_of (js ":")) cls_s.
Definition re_feet : regex := Alts [Lit (js "ft"); Lit (js "feet"); Char 39].
Definition re_metres : regex :=
  Alts [Lit (js "m"); LitOptLast (js "meters"); LitOptLast (js "metres")].

(** The length patterns, each with its source text ([pattern.toString()]). *)
Definition lengthPatterns : list (jsstring * pattern) :=
  [ (js "/(?:length|loa)[:\s]*(\d+(?:\.\d+)?)\s*(?:ft|feet|')/i",
     {| pat_re := Seqs [ re_length_word; Star true (Class re_colon_ws);
                         Group re_number; re_ws; re_feet ];
        pat_ci := true |});
    (js "/(\d+(?:\.\d+)?)\s*(?:ft|feet|')\s*(?:length|loa)?/i",
     {| pat_re := Seqs [ Group re_number; re_ws; re_feet; re_ws;
                         Opt re_length_word ];
        pat_ci := true |});
    (js "/(?:length|loa)[:\s]*(\d+(?:\.\d+)?)\s*(?:m|meters?|metres?)/i",
     {| pat_re := Seqs [ re_length_word; Star true (Class re_colon_ws);
                         Group re_number; re_ws; re_metres ];
        pat_ci := true |});
    (js "/(\d+(?:\.\d+)?)\s*(?:m|meters?|metres?)\s*(?:length|loa)?/i",
     {| pat_re := Seqs [ Group re_number; re_ws; re_metres; re_ws;
                         Opt re_length_word ];
        pat_ci := true |}) ].

Definition cls_AZ : N -> bool := cls_range 65 90.
Definition cls_az : N -> bool := cls_range 97 122.
Definition re_cap_word : regex := Seq (Class cls_AZ) (Plus (Class cls_az)).
Definition re_cap_words : regex :=
  Seq re_cap_word (Star true (Seq re_ws1 re_cap_word)).

Definition locationPatterns : list pattern :=
  [ (* /(?:location|located|port)[:\s]+([A-Za-z][A-Za-z\s,]+?)(?:\.|$|\n|<)/i *)
    {| pat_re :=
         Seqs [ Alts [Lit (js "location"); Lit (js "located"); Lit (js "port")];
                Plus (Class re_colon_ws);
                Group (Seq (Class (cls_or cls_AZ cls_az))
                           (PlusLazy (Class (cls_or (cls_or cls_AZ cls_az)
                                                    (cls_or cls_s (cls_of (js ",")))))));
                Alts [Char 46; Eol; Char 10; Char 60] ];
       pat_ci := true |};
    (* /\b([A-Z][a-z]+(?:\s+[A-Z][a-z]+)*,\s*[A-Z]{2})\b/ *)
    {| pat_re :=
         Seqs [ WordB;
                Group (Seqs [ re_cap_words; Char 44; re_ws;
                              Class cls_AZ; Class cls_AZ ]);
                WordB ];
       pat_ci := false |};
    (* /\b(W,\s*W)\b/ where W is [A-Z][a-z]+(?:\s+[A-Z][a-z]+)* *)
    {| pat_re :=
         Seqs [ WordB;
                Group (Seqs [ re_cap_words; Char 44; re_ws; re_cap_words ]);
                WordB ];
       pat_ci := false |} ].

Section WithHost.

Context (host : Host).

(** [resolveUrl(url, baseUrl)].  The guard lets every truthy value
    through; on an object that is not a string [url.startsWith] is not a
    function and the call throws, outside the [try] block. *)
Definition resolveUrl (url : jsval) (baseUrl : jsstring)
  : completion (option jsstring) :=
  match url with
  | JUndefined | JNull => Normal None
  | JObj _ => Throw
  | JStr u =>
      if negb (truthy_str u) then Normal None
      else if startsWith u (js "data:") then Normal None
      else if startsWith u (js "http") then Normal (Some u)
      else
        try_catch
          (match new_URL host baseUrl with
           | Throw => Throw
           | Normal base =>
               if startsWith u (js "//") then Normal (Some (protocol base ++ u))
               else if startsWith u (js "/") then Normal (Some (origin base ++ u))
               else match new_URL_rel host u baseUrl with
                    | Throw => Throw
                    | Normal r => Normal (Some (href_of r))
                    end
           end)
          (Normal None)
  end.

(** The value of a call of [resolveUrl] on a string or an absent value in
    an expression.  Such a call completes normally, so the second case is
    never taken. *)
Definition resolveUrl_value (url : option jsstring) (baseUrl : jsstring)
  : option jsstring :=
  match resolveUrl (of_prop url) baseUrl with
  | Normal v => v
  | Throw => None
  end.

(** The year step of [extractSpecs]. *)
Definition extractSpecs_year (text : jsstring) (y : yacht) : yacht :=
  match str_match text year_pattern with
  | Some m =>
      let y1 := default [] (m_group1 m) in
      match parseInt y1 with
      | Some yr =>
          if (1950 <=? yr)%Z && (yr <=? thisYear host + 1)%Z
          then add_conf_specs 20 (set_year y1 y)
          else y
      | None => y
      end
  | None => y
  end.

(** The length step: the first pattern that matches with a length in
    range wins. *)
Fixpoint extractSpecs_length (pats : list (jsstring * pattern))
    (text : jsstring) (y : yacht) : yacht :=
  match pats with
  | [] => y
  | (source_text, p) :: rest =>
      match str_match text p with
      | Some m =>
          let m1 := default [] (m_group1 m) in
          match parseFloat m1 with
          | Some len =>
              if num_ge len 15 && num_le len 500
              then add_conf_specs 20
                     (set_length m1
                        (if includes source_text (js "meter") then js "m"
                         else js "ft") y)
              else extractSpecs_length rest text y
          | None => extractSpecs_length rest text y
          end
      | None => extractSpecs_length rest text y
      end
  end.

(** The type step: the first keyword found wins. *)
Fixpoint extractSpecs_type (kws : list (jsstring * jsstring))
    (lowerText : jsstring) (y : yacht) : yacht :=
  match kws with
  | [] => y
  | (keyword, type) :: rest =>
      if includes lowerText keyword
      then add_conf_specs 15 (set_type type y)
      else extractSpecs_type rest lowerText y
  end.

(** The location step. *)
Fixpoint extractSpecs_location (pats : list pattern) (text : jsstring)
    (y : yacht) : yacht :=
  match pats with
  | [] => y
  | p :: rest =>
      match str_match text p with
      | Some m =>
          let m1 := default [] (m_group1 m) in
          if (3 <=? length m1)%nat && (length m1 <=? 50)%nat
          then add_conf_specs 15 (set_location (cleanText m1) y)
          else extractSpecs_location rest text y
      | None => extractSpecs_location rest text y
      end
  end.

(** [extractSpecs(element, yacht)]: the record after the assignments. *)
Definition extractSpecs (element : node) (y : yacht) : yacht :=
  let text := textContent element in
  let y1 := extractSpecs_year text y in
  let y2 := extractSpecs_length lengthPatterns text y1 in
  let y3 := extractSpecs_type type_keywords (toLowerCase text) y2 in
  extractSpecs_location locationPatterns text y3.

End WithHost.

(** Selector texts.  [dq s] is [s] in double quotes. *)
Definition dq (s : string) : jsstring := [34] ++ js s ++ [34].

Definition SEL_HEADINGS : jsstring :=
  js "h1, h2, h3, h4, h5, a[href*=" ++ dq "boat" ++ js "], a[href*="
  ++ dq "yacht" ++ js "]".
Definition SEL_IMG : jsstring := js "img".
Definition SEL_BACKGROUND : jsstring := js "[style*=" ++ dq "background" ++ js "]".
Definition SEL_LOCATION : jsstring :=
  js "[class*=" ++ dq "location" ++ js "], [class*=" ++ dq "port"
  ++ js "], [class*=" ++ dq "city" ++ js "]".
Definition SEL_JSON_LD : jsstring :=
  js "script[type=" ++ dq "application/ld+json" ++ js "]".
Definition SEL_MICRODATA : jsstring :=
  js "[itemtype*=" ++ dq "schema.org/Product" ++ js "], [itemtype*="
  ++ dq "schema.org/Vehicle" ++ js "]".
Definition SEL_ITEMPROP (prop : string) : jsstring :=
  js "[itemprop=" ++ dq prop ++ js "]".
Definition SEL_BLOCKS : jsstring := js "div, article, section, li".

Definition candidateSelectors : list jsstring :=
  [ js "article"; js ".item"; js ".card"; js ".product"; js ".result";
    js "[class*=" ++ dq "listing" ++ js "]";
    js "[class*=" ++ dq "yacht" ++ js "]";
    js "[class*=" ++ dq "boat" ++ js "]";
    js "[class*=" ++ dq "product" ++ js "]";
    js "[class*=" ++ dq "result" ++ js "]";
    js "[class*=" ++ dq "item" ++ js "]" ].

(** /^[\$<euro><pound>]/ with the literals of the file: a class of six
    units. *)
Definition starts_with_currency : pattern :=
  {| pat_re := Seq Bol (Class (cls_of (js "$" ++ EURO_LIT ++ POUND_LIT)));
     pat_ci := false |}.

(** The pattern of a [url(...)] in a style attribute: [url(], an optional
    quote, a run of units that are neither quotes, [)] nor white space
    (group 1), an optional quote, [)]. *)
Definition background_url : pattern :=
  let quote := cls_of [39; 34] in
  {| pat_re :=
       Seqs [ Lit (js "url("); Opt (Class quote);
              Group (Plus (Class (cls_not (cls_or (cls_of [39; 34; 41]) cls_s))));
              Opt (Class quote); Char 41 ];
     pat_ci := false |}.

(** /\$[\d,]+|<euro>[\d,]+|<pound>[\d,]+/ *)
Definition currency_amount : pattern :=
  {| pat_re := Alts [ Seq (Char 36) digits_commas;
                      Seq (Lit EURO_LIT) digits_commas;
                      Seq (Lit POUND_LIT) digits_commas ];
     pat_ci := false |}.

(** [.filter(Boolean)] on possibly absent strings. *)
Definition filter_Boolean (l : list (option jsstring)) : list (option jsstring) :=
  List.filter truthy_ostr l.

(** /sold/i and /poa|price on application|contact/i *)
Definition sold_pattern : pattern :=
  {| pat_re := Lit (js "sold"); pat_ci := true |}.

Definition poa_pattern : pattern :=
  {| pat_re := Alts [ Lit (js "poa"); Lit (js "price on application");
                      Lit (js "contact") ];
     pat_ci := true |}.

(** The adapter interface. *)
Record adapter : Type :=
  { name : jsstring;
    detect : node -> jsstring -> bool;
    parse : node -> jsstring -> M (list yacht) }.

(** The test on a candidate title: [t.length >= 5 && t.length <= 150 &&
    !t.match(...)]. *)
Definition acceptable_title (t : jsstring) : bool :=
  (5 <=? length t)%nat && (length t <=? 150)%nat
  && negb (regex_test starts_with_currency t).

Section Strategies.

Context (host : Host).

(** The title step of [extractFromGenericCard]: the first heading or
    link whose cleaned text is acceptable. *)
Fixpoint pick_title (headings : list node) (y : yacht) : yacht :=
  match headings with
  | [] => y
  | h :: rest =>
      let t := cleanText (textContent h) in
      if acceptable_title t
      then set_detailUrl (address_value (or_val (href h) (closest_a_href h)))
             (set_conf_title 65 (set_title t y))
      else pick_title rest y
  end.

(** The background-image fallback: at most three addresses. *)
Fixpoint background_images (baseUrl : jsstring) (bgElements : list node)
    (acc : list (option jsstring)) : list (option jsstring) :=
  match bgElements with
  | [] => acc
  | el :: rest =>
      let style := default [] (or_ostr (getAttribute el (js "style")) (Some [])) in
      let acc' :=
        match str_match style background_url with
        | Some m =>
            if (length acc <? 3)%nat then
              match resolveUrl_value host (m_group1 m) baseUrl with
              | Some imgUrl =>
                  if truthy_str imgUrl && negb (includes imgUrl (js "placeholder"))
                  then acc ++ [Some imgUrl] else acc
              | None => acc
              end
            else acc
        | None => acc
        end in
      background_images baseUrl rest acc'
  end.

(** [extractFromGenericCard(card, baseUrl, index)]; [None] is [null]. *)
Definition extractFromGenericCard (card : node) (baseUrl : jsstring)
    (index : nat) : M (option yacht) :=
  let text := textContent card in
  fresh ← createEmptyYacht index;
  if (length text <? 20)%nat || (5000 <? length text)%nat then mret None
  else
    let priceData := extractPrice text in
    let y1 :=
      match raw priceData with
      | Some r =>
          if truthy_num r && num_ge r CONFIG.MIN_YACHT_PRICE
             && num_le r CONFIG.MAX_YACHT_PRICE
          then set_conf_price 70
                 (set_priceRaw (Some r) (set_price (formatted priceData) fresh))
          else fresh
      | None => fresh
      end in
    let y2 := pick_title (querySelectorAll card SEL_HEADINGS) y1 in
    let imgs :=
      filter_Boolean
        (List.map
           (fun img =>
              resolveUrl_value host
                (or_ostr (or_ostr (src img) (dataset_src img)) (dataset_lazySrc img))
                baseUrl)
           (List.filter isValidImage (querySelectorAll card SEL_IMG))) in
    let imgs' :=
      match imgs with
      | [] => background_images baseUrl (querySelectorAll card SEL_BACKGROUND) []
      | _ => imgs
      end in
    let y3 :=
      set_conf_images (if (0 <? length imgs')%nat then 70 else 0)
        (set_images imgs' y2) in
    let y4 :=
      match querySelector card SEL_LOCATION with
      | Some locationEl =>
          add_conf_specs 20 (set_location (cleanText (textContent locationEl)) y3)
      | None => y3
      end in
    let y5 := extractSpecs host card y4 in
    if negb (truthy_str (title y5)) then mret None
    else mret (Some y5).

(** Splitting on single spaces, sorting by code units and joining with
    a bar: the signature of a class attribute. *)
Fixpoint split_on (sep : N) (s cur : jsstring) : list jsstring :=
  match s with
  | [] => [rev cur]
  | c :: s' =>
      if c =? sep then rev cur :: split_on sep s' []
      else split_on sep s' (c :: cur)
  end.

Fixpoint js_ltb (a b : jsstring) : bool :=
  match a, b with
  | [], [] => false
  | [], _ :: _ => true
  | _ :: _, [] => false
  | x :: a', y :: b' => (x <? y) || ((x =? y) && js_ltb a' b')
  end.

Fixpoint sort_insert (x : jsstring) (l : list jsstring) : list jsstring :=
  match l with
  | [] => [x]
  | h :: t => if js_ltb x h then x :: l else h :: sort_insert x t
  end.

Definition js_sort (l : list jsstring) : list jsstring :=
  fold_left (fun acc x => sort_insert x acc) l [].

Fixpoint join (sep : jsstring) (l : list jsstring) : jsstring :=
  match l with
  | [] => []
  | [x] => x
  | x :: rest => x ++ sep ++ join sep rest
  end.

Definition class_signature (classes : jsstring) : jsstring :=
  join (js "|") (js_sort (split_on 32 classes [])).

(** [seen.get(key).push(el)] on a [Map] kept in insertion order. *)
Fixpoint group_insert (key : jsstring) (el : node)
    (seen : list (jsstring * list node)) : list (jsstring * list node) :=
  match seen with
  | [] => [(key, [el])]
  | (k, els) :: rest =>
      if jsstring_eqb k key then (k, els ++ [el]) :: rest
      else (k, els) :: group_insert key el rest
  end.

Fixpoint first_priced_group (groups : list (jsstring * list node)) : list node :=
  match groups with
  | [] => []
  | (_, elements) :: rest =>
      if (2 <=? length elements)%nat && (length elements <=? 50)%nat then
        let priceCount :=
          length (List.filter
                    (fun el => regex_test currency_amount (textContent el))
                    elements) in
        if (length elements <=? 2 * priceCount)%nat then elements
        else first_priced_group rest
      else first_priced_group rest
  end.

(** [findRepeatedStructures(doc)] *)
Definition findRepeatedStructures (doc : node) : list node :=
  let seen :=
    fold_left
      (fun seen el =>
         let classes := className el in
         if truthy_str classes && (5 <? length classes)%nat
         then group_insert (class_signature classes) el seen
         else seen)
      (querySelectorAll doc SEL_BLOCKS) [] in
  first_priced_group seen.

Fixpoint first_plausible (doc : node) (selectors : list jsstring) : list node :=
  match selectors with
  | [] => []
  | selector :: rest =>
      let found := querySelectorAll doc selector in
      if (2 <=? length found)%nat && (length found <=? 100)%nat then found
      else first_plausible doc rest
  end.

(** [genericHeuristicParse(doc, sourceUrl)] *)
Definition genericHeuristicParse (doc : node) (sourceUrl : jsstring)
  : M (list yacht) :=
  let candidates :=
    match first_plausible doc candidateSelectors with
    | [] => findRepeatedStructures doc
    | found => found
    end in
  forEachM
    (fun el i =>
       r ← extractFromGenericCard el sourceUrl i;
       mret (match r with Some y => [y] | None => [] end))
    candidates O.


(** ** The adapter registry *)

(** [priceEl.textContent] read by an adapter that knows the [Sold] label,
    and the [POA] labels when [poa] is set. *)
Definition adapter_price (poa : bool) (priceText : jsstring) (y : yacht) : yacht :=
  if regex_test sold_pattern priceText
  then set_priceRaw (Some (num_of_N 0)) (set_price (js "Sold") y)
  else if poa && regex_test poa_pattern priceText
  then set_priceRaw (Some (num_of_N 0)) (set_price (js "POA") y)
  else
    let parsed := extractPrice priceText in
    if truthy_onum (raw parsed)
    then set_conf_price 90 (set_priceRaw (raw parsed) (set_price (formatted parsed) y))
    else y.

(** [if (imgEl && isValidImage(imgEl)) { yacht.images = [resolveUrl(...)] }] *)
Definition adapter_image (url : jsstring) (imgEl : option node) (conf : Z)
    (y : yacht) : yacht :=
  match imgEl with
  | Some el =>
      if isValidImage el
      then set_conf_images conf
             (set_images [resolveUrl_value host (or_ostr (src el) (dataset_src el)) url] y)
      else y
  | None => y
  end.

Definition wp_listing_theme : adapter :=
  {| name := js "wp-listing-theme";
     detect := fun d url =>
       bool_decide (is_Some (querySelector d
         (js ".listing_wrapper, .property_listing, .listing-unit-img-wrapper, .listing_unit_price_wrapper")));
     parse := fun d url =>
       forEachM
         (fun card i =>
            fresh ← createEmptyYacht i;
            let y0 := set_source (js "wp-listing-theme") fresh in
            let y1 :=
              match querySelector card (js "h4 a, .listing-title a, .property-title a") with
              | Some titleEl =>
                  set_detailUrl (resolveUrl_value host (address_value (href titleEl)) url)
                    (set_conf_title 90 (set_title (cleanText (textContent titleEl)) y0))
              | None => y0
              end in
            let y2 :=
              match querySelector card
                      (js ".price_wrapper, .listing_unit_price_wrapper span, .price, [class*="
                       ++ dq "price" ++ js "]") with
              | Some priceEl => adapter_price false (textContent priceEl) y1
              | None => y1
              end in
            let y3 :=
              adapter_image url
                (querySelector card (js ".listing-unit-img-wrapper img, .property-img img, img"))
                85 y2 in
            let y4 :=
              match querySelector card (js ".property_location, .listing-meta, .property-meta") with
              | Some metaEl => extractSpecs host metaEl y3
              | None => y3
              end in
            let y5 := extractSpecs host card y4 in
            ret (if truthy_str (title y5) then [y5] else []))
         (querySelectorAll d (js ".listing_wrapper, .property_listing")) O |}.

Definition nyb_style : adapter :=
  {| name := js "nyb-style";
     detect := fun d url =>
       bool_decide (is_Some (querySelector d
         (js ".outline, .ltboats-details-title, .ltboats-img, [class*=" ++ dq "ltboats" ++ js "]")))
       || includes url (js "networkyachtbrokers");
     parse := fun d url =>
       forEachM
         (fun card i =>
            fresh ← createEmptyYacht i;
            let y0 := set_source (js "nyb-style") fresh in
            let y1 :=
              match querySelector card
                      (js ".ltboats-details-title, .boat-title, h3 a, h4 a, a[href*="
                       ++ dq "/boats" ++ js "]") with
              | Some titleEl =>
                  set_detailUrl
                    (resolveUrl_value host
                       (address_value (or_val (href titleEl) (closest_a_href titleEl))) url)
                    (set_conf_title 90 (set_title (cleanText (textContent titleEl)) y0))
              | None => y0
              end in
            let y2 :=
              match querySelector card
                      (js ".ltboats-details-year, .boat-year, [class*=" ++ dq "year" ++ js "]") with
              | Some yearEl =>
                  match str_match (textContent yearEl) year_pattern with
                  | Some m => set_year (default [] (m_group1 m)) y1
                  | None => y1
                  end
              | None => y1
              end in
            let y3 :=
              match querySelector card
                      (js ".ltboats-details-price, .boat-price, [class*=" ++ dq "price" ++ js "]") with
              | Some priceEl => adapter_price true (textContent priceEl) y2
              | None => y2
              end in
            let y4 :=
              match querySelector card
                      (js ".ltboats-details-location, .boat-location, [class*="
                       ++ dq "location" ++ js "]") with
              | Some locationEl =>
                  add_conf_specs 20 (set_location (cleanText (textContent locationEl)) y3)
              | None => y3
              end in
            let y5 :=
              match querySelector card
                      (js ".ltboats-img, [class*=" ++ dq "boat-img" ++ js "], [style*="
                       ++ dq "background" ++ js "]") with
              | Some bgImgEl =>
                  let style :=
                    default [] (or_ostr (getAttribute bgImgEl (js "style")) (Some [])) in
                  match str_match style background_url with
                  | Some m =>
                      set_conf_images 85
                        (set_images [resolveUrl_value host (m_group1 m) url] y4)
                  | None => y4
                  end
              | None => y4
              end in
            let y6 :=
              match images y5 with
              | [] => adapter_image url (querySelector card (js "img")) 80 y5
              | _ => y5
              end in
            let y7 := extractSpecs host card y6 in
            ret (if truthy_str (title y7) then [y7] else []))
         (querySelectorAll d (js ".outline, .boat-card, .yacht-card")) O |}.

Definition yachtworld_style : adapter :=
  {| name := js "yachtworld-style";
     detect := fun d url =>
       includes url (js "yachtworld")
       || bool_decide (is_Some (querySelector d
            (js ".listing-card, .yacht-listing, .boat-listing, .search-result-item")));
     parse := fun d url =>
       forEachM
         (fun card i =>
            fresh ← createEmptyYacht i;
            let y0 := set_source (js "yachtworld-style") fresh in
            let y1 :=
              match querySelector card
                      (js "h2, h3, .title, .listing-title, [class*=" ++ dq "title"
                       ++ js "], a[class*=" ++ dq "name" ++ js "]") with
              | Some titleEl => set_title (cleanText (textContent titleEl)) y0
              | None => y0
              end in
            let y2 :=
              match querySelector card
                      (js ".price, [class*=" ++ dq "price" ++ js "], .amount") with
              | Some priceEl =>
                  let parsed := extractPrice (textContent priceEl) in
                  set_conf_price 85
                    (set_priceRaw (raw parsed) (set_price (formatted parsed) y1))
              | None => y1
              end in
            let y3 :=
              adapter_image url
                (querySelector card
                   (js "img[src*=" ++ dq "yacht" ++ js "], img[src*=" ++ dq "boat"
                    ++ js "], img.primary, img.main, img:first-of-type"))
                80 y2 in
            let y4 := extractSpecs host card y3 in
            ret (if truthy_str (title y4) || truthy_onum (priceRaw y4) then [y4] else []))
         (querySelectorAll d
            (js ".listing-card, .yacht-listing, .boat-listing, .search-result-item, [class*="
             ++ dq "listing-card" ++ js "], [class*=" ++ dq "boat-card" ++ js "]")) O |}.

(** The loop of the card-grid adapter over the containers: the records
    accumulate, and the first container after which there are two or more
    ends the loop. *)
Fixpoint card_grid_containers (url : jsstring) (containers : list node)
    (yachts : list yacht) : M (list yacht) :=
  match containers with
  | [] => ret yachts
  | container :: rest =>
      let cards := children container in
      if (2 <=? length cards)%nat && (length cards <=? 50)%nat then
        found ←
          forEachM
            (fun card i =>
               r ← extractFromGenericCard card url i;
               ret (match r with
                    | Some y =>
                        if truthy_str (title y) || truthy_onum (priceRaw y)
                        then [set_source (js "card-grid") y] else []
                    | None => []
                    end))
            cards O;
        if (2 <=? length (yachts ++ found))%nat then ret (yachts ++ found)
        else card_grid_containers url rest (yachts ++ found)
      else card_grid_containers url rest yachts
  end.

Definition card_grid : adapter :=
  {| name := js "card-grid";
     detect := fun d url =>
       (0 <? length (querySelectorAll d
          (js ".grid, .cards, .listings, .inventory, .results, .outline, [class*="
           ++ dq "grid" ++ js "], [class*=" ++ dq "cards" ++ js "], [class*="
           ++ dq "boats" ++ js "], [class*=" ++ dq "yachts" ++ js "]")))%nat;
     parse := fun d url =>
       card_grid_containers url
         (querySelectorAll d (js ".grid, .cards, .listings, .inventory, .results")
          ++ querySelectorAll d
               (js "[class*=" ++ dq "grid" ++ js "], [class*=" ++ dq "cards"
                ++ js "], [class*=" ++ dq "listing" ++ js "], [class*="
                ++ dq "boats-list" ++ js "], [class*=" ++ dq "yacht-list" ++ js "]"))
         [] |}.

(** The price step of the detail-page adapter: the first selector whose
    element holds a price of at least the minimum. *)
Fixpoint detail_page_price (d : node) (priceSelectors : list jsstring) (y : yacht)
  : yacht :=
  match priceSelectors with
  | [] => y
  | sel :: rest =>
      match querySelector d sel with
      | Some el =>
          let parsed := extractPrice (textContent el) in
          match raw parsed with
          | Some r =>
              if truthy_num r && num_ge r CONFIG.MIN_YACHT_PRICE
              then set_conf_price 85
                     (set_priceRaw (Some r) (set_price (formatted parsed) y))
              else detail_page_price d rest y
          | None => detail_page_price d rest y
          end
      | None => detail_page_price d rest y
      end
  end.

(** The images of a list of [img] elements: the valid ones, resolved, the
    [null]s dropped. *)
Definition valid_resolved (url : jsstring) (imgs : list node)
  : list (option jsstring) :=
  filter_Boolean
    (List.map (fun img => resolveUrl_value host (or_ostr (src img) (dataset_src img)) url)
       (List.filter isValidImage imgs)).

Definition detail_page : adapter :=
  {| name := js "detail-page";
     detect := fun d url =>
       let hasDetailMarkers :=
         querySelector d
           (js ".yacht-detail, .boat-detail, .vessel-detail, .product-detail, #yacht, #boat") in
       let hasSpecs :=
         querySelector d
           (js ".specifications, .specs, .details, [class*=" ++ dq "spec" ++ js "]") in
       let hasGallery :=
         (3 <=? length (querySelectorAll d
                          (js ".gallery img, .carousel img, .slider img")))%nat in
       bool_decide (is_Some hasDetailMarkers)
       || (bool_decide (is_Some hasSpecs) && hasGallery);
     parse := fun d url =>
       fresh ← createEmptyYacht 0;
       let y0 := set_source (js "detail-page") fresh in
       let y1 :=
         match querySelector d (js "h1") with
         | Some h1 => set_title (cleanText (textContent h1)) y0
         | None => y0
         end in
       let y2 :=
         detail_page_price d
           [ js ".price"; js "[class*=" ++ dq "price" ++ js "]"; js ".amount";
             js "[class*=" ++ dq "amount" ++ js "]" ] y1 in
       let gallery :=
         take 20
           (valid_resolved url
              (querySelectorAll d
                 (js ".gallery img, .carousel img, .slider img, .photos img, [class*="
                  ++ dq "gallery" ++ js "] img"))) in
       let imgs :=
         match gallery with
         | [] => take 10 (valid_resolved url (querySelectorAll d (js "img")))
         | _ => gallery
         end in
       let y3 :=
         set_conf_images (if (0 <? length imgs)%nat then 80 else 0) (set_images imgs y2) in
       (* [doc.body]: the element the selector [body] finds *)
       let y4 :=
         match querySelector d (js "body") with
         | Some body => extractSpecs host body y3
         | None => y3
         end in
       let y5 :=
         match querySelector d
                 (js ".description, [class*=" ++ dq "description"
                  ++ js "], .details p, article p") with
         | Some descEl =>
             set_description (take 2000 (cleanText (textContent descEl))) y4
         | None => y4
         end in
       ret (if truthy_str (title y5) || truthy_onum (priceRaw y5) then [y5] else []) |}.

(** [SITE_ADAPTERS], in registration order. *)
Definition SITE_ADAPTERS : list adapter :=
  [wp_listing_theme; nyb_style; yachtworld_style; card_grid; detail_page].

End Strategies.

(* ====================================================================== *)
(** * Site validation *)
(* ====================================================================== *)

Record keyword_count : Type := { count : nat; found : list jsstring }.

Definition countYachtKeywords (html : jsstring) : keyword_count :=
  let lowerHtml := toLowerCase html in
  let hits := List.filter (fun keyword => includes lowerHtml keyword) YACHT_KEYWORDS in
  {| count := length hits; found := hits |}.

Record validation_t : Type :=
  { valid : bool; reason : option jsstring; keywordsFound : list jsstring }.

Definition validateYachtSite (html : jsstring) : validation_t :=
  let kc := countYachtKeywords html in
  if (count kc <? CONFIG.MIN_YACHT_KEYWORDS)%nat then
    {| valid := false;
       reason :=
         Some (js "This doesn't appear to be a yacht or boat sales website. Found only "
               ++ print_N (N.of_nat (count kc))
               ++ js " yacht-related terms (minimum: "
               ++ print_N (N.of_nat CONFIG.MIN_YACHT_KEYWORDS) ++ js ").");
       keywordsFound := found kc |}
  else
    let lowerHtml := toLowerCase html in
    let hasInventoryMarkers :=
      includes lowerHtml (js "/boats/") || includes lowerHtml (js "/yachts/")
      || includes lowerHtml (js "/inventory/") || includes lowerHtml (js "/listings/")
      || includes lowerHtml (js "for sale") || includes lowerHtml (js "brokerage") in
    if negb hasInventoryMarkers then
      {| valid := false;
         reason :=
           Some (js "This doesn't appear to be a yacht listings page. Please navigate to the inventory or boats for sale page.");
         keywordsFound := found kc |}
    else {| valid := true; reason := None; keywordsFound := found kc |}.

(* ====================================================================== *)
(** * Structured data *)
(* ====================================================================== *)

(** Linked-data values, at the types schema.org gives their members.  An
    image is a string, an object with an optional [url], or [null]; an
    offer is given by its [price] member as [parseFloat] reads it. *)
Inductive ld_image : Type :=
| ImgString (s : jsstring)
| ImgObject (url : option jsstring)
| ImgNull.

Inductive ld_images : Type :=
| NoImage
| OneImage (i : ld_image)
| ManyImages (l : list ld_image).

Record ld_offer : Type := { offer_price : option jsstring }.

Inductive ld_offers : Type :=
| NoOffers
| OneOffer (o : ld_offer)
| ManyOffers (l : list ld_offer).

#[local] Unset Elimination Schemes.
Inductive ld_node : Type :=
  LdNode {
      ld_type : option jsstring;
      ld_graph : option (list ld_node);
      ld_name : option jsstring;
      ld_description : option jsstring;
      ld_offers_of : ld_offers;
      ld_image_of : ld_images }.
#[local] Set Elimination Schemes.

(** What [JSON.parse] returns on a script: one object or an array. *)
Inductive ld_data : Type :=
| LdOne (n : ld_node)
| LdMany (l : list ld_node).

(** A page: the raw text, the document [DOMParser] makes of it, and what
    [JSON.parse] makes of each linked-data script of the document, in
    document order ([None] when it throws). *)
Record page : Type :=
  { html : jsstring;
    doc : node;
    ld_scripts : list (option ld_data) }.

(** [img => typeof img === 'string' ? img : img.url]; reading [url] of
    [null] throws. *)
Fixpoint image_urls (l : list ld_image) : completion (list (option jsstring)) :=
  match l with
  | [] => Normal []
  | ImgString s :: rest =>
      match image_urls rest with
      | Normal r => Normal (Some s :: r)
      | Throw => Throw
      end
  | ImgObject u :: rest =>
      match image_urls rest with
      | Normal r => Normal (u :: r)
      | Throw => Throw
      end
  | ImgNull :: _ => Throw
  end.

(** The [if (data.offers) { ... }] block of [parseJsonLdProduct]; reading
    [price] of the first element of an empty array throws. *)
Definition ld_read_offers (data : ld_node) (y : yacht) : completion yacht :=
  let offer : option (option ld_offer) :=
    match ld_offers_of data with
    | NoOffers => None
    | OneOffer o => Some (Some o)
    | ManyOffers l => Some (head l)
    end in
  match offer with
  | None => Normal y
  | Some None => Throw
  | Some (Some o) =>
      let p :=
        match offer_price o with
        | Some text =>
            match parseFloat text with
            | Some v => if truthy_num v then Some v else None
            | None => None
            end
        | None => None
        end in
      Normal
        (set_conf_price 90
           (set_price (match p with Some v => formatPrice v USD | None => [] end)
              (set_priceRaw p y)))
  end.

(** The [if (data.image) { ... }] block. *)
Definition ld_read_images (data : ld_node) (y : yacht) : completion yacht :=
  let imgs : option (list ld_image) :=
    match ld_image_of data with
    | NoImage | OneImage ImgNull | OneImage (ImgString []) => None
    | OneImage i => Some [i]
    | ManyImages l => Some l
    end in
  match imgs with
  | None => Normal y
  | Some l =>
      match image_urls l with
      | Normal urls => Normal (set_conf_images 90 (set_images (filter_Boolean urls) y))
      | Throw => Throw
      end
  end.

(** The year, from the name and the description. *)
Definition ld_read_year (y : yacht) : yacht :=
  match str_match (title y ++ js " " ++ description y) recent_year_pattern with
  | Some m => set_year (default [] (m_group1 m)) y
  | None => y
  end.

(** [parseJsonLdProduct(data)] *)
Definition parseJsonLdProduct (data : ld_node) : M (completion yacht) :=
  fresh ← createEmptyYacht 0;
  let y0 := set_overall 85 (set_source (js "json-ld") fresh) in
  let y1 :=
    set_description (default [] (or_ostr (ld_description data) (Some [])))
      (set_title (default [] (or_ostr (ld_name data) (Some []))) y0) in
  mret
    match ld_read_offers data y1 with
    | Throw => Throw
    | Normal y2 =>
        match ld_read_images data y2 with
        | Throw => Throw
        | Normal y3 => Normal (ld_read_year y3)
        end
    end.

(** [parseMicrodataProduct(element)] *)
Definition parseMicrodataProduct (element : node) : M yacht :=
  fresh ← createEmptyYacht 0;
  let getProp (prop : string) : jsstring :=
    match querySelector element (SEL_ITEMPROP prop) with
    | Some el =>
        trim (default []
                (or_ostr (or_ostr (content el) (Some (textContent el))) (Some [])))
    | None => []
    end in
  let y0 := set_overall 80 (set_source (js "microdata") fresh) in
  let y1 :=
    set_price (let p := getProp "price"%string in
               if truthy_str p then p else getProp "lowPrice"%string)
      (set_description (getProp "description"%string)
         (set_title (getProp "name"%string) y0)) in
  mret
    match querySelector element (SEL_ITEMPROP "image") with
    | Some imgEl => set_images (filter_Boolean [or_ostr (src imgEl) (content imgEl)]) y1
    | None => y1
    end.

Definition is_product_type (t : option jsstring) : bool :=
  match t with
  | Some s => jsstring_eqb s (js "Product") || jsstring_eqb s (js "Vehicle")
  | None => false
  end.

Definition is_item_type (t : option jsstring) : bool :=
  is_product_type t ||
  match t with Some s => jsstring_eqb s (js "Offer") | None => false end.

(** The inner loop over the products of one item.  The flag tells that a
    [TypeError] ended the loop; the records pushed before it stay. *)
Fixpoint push_products (products : list ld_node) : M (list yacht * bool) :=
  match products with
  | [] => mret ([], false)
  | p :: rest =>
      if is_product_type (ld_type p) then
        r ← parseJsonLdProduct p;
        match r with
        | Normal y =>
            '(ys, threw) ← push_products rest;
            ret (y :: ys, threw)
        | Throw => ret ([], true)
        end
      else push_products rest
  end.

Fixpoint push_items (items : list ld_node) : M (list yacht * bool) :=
  match items with
  | [] => mret ([], false)
  | item :: rest =>
      if is_item_type (ld_type item)
         || match ld_graph item with Some _ => true | None => false end
      then
        let products := match ld_graph item with Some g => g | None => [item] end in
        '(ys, threw) ← push_products products;
        if (threw : bool) then ret (ys, true)
        else
          '(zs, threw') ← push_items rest;
          ret (ys ++ zs, threw')
      else push_items rest
  end.

(** [extractStructuredData]: the linked-data scripts, each in its own
    [try], then the microdata items. *)
Definition extractStructuredData (p : page) : M (list yacht) :=
  fromScripts ←
    forEachM
      (fun script (_ : nat) =>
         match script with
         | None => mret []
         | Some data =>
             let items := match data with LdOne n => [n] | LdMany l => l end in
             '(ys, _) ← push_items items;
             ret ys
         end)
      (ld_scripts p) O;
  fromMicrodata ←
    forEachM (fun item (_ : nat) => y ← parseMicrodataProduct item; mret [y])
      (querySelectorAll (doc p) SEL_MICRODATA) O;
  mret (fromScripts ++ fromMicrodata).

(* ====================================================================== *)
(** * Scoring, validation, deduplication *)
(* ====================================================================== *)

(** [Math.round((score / maxScore) * 100)], on the exact quotient. *)
Definition round_percent (score maxScore : Z) : Z :=
  ((200 * score + maxScore) / (2 * maxScore))%Z.

Definition has_bonus_source (y : yacht) : bool :=
  jsstring_eqb (source y) (js "json-ld")
  || jsstring_eqb (source y) (js "microdata")
  || jsstring_eqb (source y) (js "red-ensign").

Definition calculateConfidence (y : yacht) : Z :=
  let score := 0%Z in
  let maxScore := 0%Z in
  let score := if truthy_str (title y) then (score + 35)%Z else score in
  let maxScore := (maxScore + 35)%Z in
  let score := if (0 <? length (images y))%nat then (score + 25)%Z else score in
  let maxScore := (maxScore + 25)%Z in
  let score :=
    if truthy_onum (priceRaw y)
       && match priceRaw y with Some v => num_gt0 v | None => false end
    then (score + 15)%Z else score in
  let maxScore := (maxScore + 15)%Z in
  let score := if truthy_str (year y) then (score + 10)%Z else score in
  let maxScore := (maxScore + 10)%Z in
  let score := if truthy_str (ylength y) then (score + 5)%Z else score in
  let maxScore := (maxScore + 5)%Z in
  let score := if truthy_str (ytype y) then (score + 5)%Z else score in
  let maxScore := (maxScore + 5)%Z in
  let score := if truthy_str (location y) then (score + 5)%Z else score in
  let maxScore := (maxScore + 5)%Z in
  let score := if has_bonus_source y then (score + 10)%Z else score in
  round_percent score maxScore.

Definition mk_issue (f : string) (s : severity_t) (m : string) : issue :=
  {| field := js f; severity := s; message := js m |}.

Definition validateYacht (y : yacht) : list issue :=
  (if negb (truthy_str (title y)) then [mk_issue "title" error "Missing title"] else [])
  ++ (if negb (truthy_str (price y))
      then [mk_issue "price" error "Missing price"]
      else if jsstring_eqb (price y) (js "See Details")
              || jsstring_eqb (price y) (js "POA")
              || match priceRaw y with Some v => num_is_zero v | None => false end
           then [mk_issue "price" warning "Price not shown"]
           else [])
  ++ (if (length (images y) =? 0)%nat then [mk_issue "images" warning "No images"] else [])
  ++ (if negb (truthy_str (year y)) then [mk_issue "year" warning "Missing year"] else [])
  ++ (if negb (truthy_str (ylength y)) then [mk_issue "length" warning "Missing length"] else [])
  ++ (if negb (truthy_str (ytype y)) then [mk_issue "type" warning "Missing type"] else [])
  ++ (if negb (truthy_str (location y))
      then [mk_issue "location" warning "Missing location"] else []).

(** [yacht.priceRaw || 0] *)
Definition priceRaw_or_0 (y : yacht) : jsnum :=
  match priceRaw y with
  | Some v => if truthy_num v then v else num_of_N 0
  | None => num_of_N 0
  end.

(** The fallback key: lower-cased trimmed title, a bar, the price. *)
Definition title_price_key (y : yacht) : jsstring :=
  trim (toLowerCase (title y)) ++ js "|" ++ num_to_string (priceRaw_or_0 y).

(** The [filter] of [deduplicateYachts], with the two [Set]s as state. *)
Fixpoint dedupe_from (seenUrls seenTitles : gset jsstring) (yachts : list yacht)
  : list yacht :=
  match yachts with
  | [] => []
  | y :: rest =>
      match detailUrl y with
      | Some (c :: u) =>
          if bool_decide ((c :: u) ∈ seenUrls)
          then dedupe_from seenUrls seenTitles rest
          else y :: dedupe_from ({[ c :: u ]} ∪ seenUrls) seenTitles rest
      | _ =>
          let key := title_price_key y in
          if bool_decide (key ∈ seenTitles)
          then dedupe_from seenUrls seenTitles rest
          else y :: dedupe_from seenUrls ({[ key ]} ∪ seenTitles) rest
      end
  end.

Definition deduplicateYachts (yachts : list yacht) : list yacht :=
  dedupe_from ∅ ∅ yachts.

(* ====================================================================== *)
(** * Adapters and the orchestrator *)
(* ====================================================================== *)

(** Step 3 of [parseYachtListings]: the loop over the adapters. *)
Fixpoint dispatch (adapters : list adapter) (d : node) (sourceUrl : jsstring)
  : M (list yacht) :=
  match adapters with
  | [] => ret []
  | a :: rest =>
      if detect a d sourceUrl then
        yachts ← parse a d sourceUrl;
        match yachts with
        | _ :: _ => ret yachts
        | [] => dispatch rest d sourceUrl
        end
      else dispatch rest d sourceUrl
  end.

Record debug_t : Type :=
  { attempted : nat; accepted : nat; rejected : nat;
    rejectionReasons : list jsstring }.

(** Step 5: the filter, with the counters it updates. *)
Fixpoint filter_step (sourceUrl : jsstring) (yachts : list yacht) (dbg : debug_t)
  : list yacht * debug_t :=
  match yachts with
  | [] => ([], dbg)
  | y :: rest =>
      let y1 := set_overall (calculateConfidence y) y in
      let y2 := set_issues (validateYacht y1) y1 in
      let y3 := set_sourceUrl sourceUrl y2 in
      if (overall (confidence y3) <? CONFIG.MIN_LISTING_CONFIDENCE)%Z then
        filter_step sourceUrl rest
          {| attempted := attempted dbg; accepted := accepted dbg;
             rejected := S (rejected dbg);
             rejectionReasons :=
               rejectionReasons dbg ++
               [ js "Low confidence (" ++ print_Z (overall (confidence y3))
                 ++ js "): "
                 ++ (if truthy_str (title y3) then title y3 else js "No title") ] |}
      else if negb (truthy_str (title y3)) && negb (truthy_onum (priceRaw y3)) then
        filter_step sourceUrl rest
          {| attempted := attempted dbg; accepted := accepted dbg;
             rejected := S (rejected dbg);
             rejectionReasons := rejectionReasons dbg ++ [js "No title or price"] |}
      else
        let '(kept, dbg') :=
          filter_step sourceUrl rest
            {| attempted := attempted dbg; accepted := S (accepted dbg);
               rejected := rejected dbg;
               rejectionReasons := rejectionReasons dbg |} in
        (y3 :: kept, dbg')
  end.

Record parse_debug : Type :=
  { pd_url : jsstring; pd_validation : validation_t;
    pd_yachts : list yacht; pd_debug : debug_t }.

(** What a run returns, with the report it leaves in [lastParseDebug]. *)
Record parse_result : Type :=
  { yachts_of : list yacht; error_of : option jsstring;
    lastParseDebug : parse_debug }.

Section Orchestrator.

Context (host : Host) (adapters : list adapter).

(** [parseYachtListings(html, sourceUrl)], over a registry of adapters. *)
Definition parseYachtListings_with (p : page) (sourceUrl : jsstring) : M parse_result :=
  let debug :=
    {| attempted := 0; accepted := 0; rejected := 0; rejectionReasons := [] |} in
  let validation := validateYachtSite (html p) in
  if negb (valid validation) then
    ret {| yachts_of := []; error_of := reason validation;
           lastParseDebug := {| pd_url := sourceUrl; pd_validation := validation;
                                pd_yachts := []; pd_debug := debug |} |}
  else
    structuredYachts ← extractStructuredData p;
    yachts1 ←
      match structuredYachts with
      | _ :: _ => ret structuredYachts
      | [] => dispatch adapters (doc p) sourceUrl
      end;
    yachts2 ←
      match yachts1 with
      | _ :: _ => ret yachts1
      | [] => genericHeuristicParse host (doc p) sourceUrl
      end;
    let debug1 :=
      {| attempted := length yachts2; accepted := 0; rejected := 0;
         rejectionReasons := [] |} in
    let '(kept, debug2) := filter_step sourceUrl yachts2 debug1 in
    let yachts3 := deduplicateYachts kept in
    ret {| yachts_of := yachts3; error_of := None;
           lastParseDebug := {| pd_url := sourceUrl; pd_validation := validation;
                                pd_yachts := yachts3; pd_debug := debug2 |} |}.

End Orchestrator.

(** [parseYachtListings(html, sourceUrl)] *)
Definition parseYachtListings (host : Host) (p : page) (sourceUrl : jsstring)
  : M parse_result :=
  parseYachtListings_with host (SITE_ADAPTERS host) p sourceUrl.

(* ====================================================================== *)
(** * A host and pages for examples *)
(* ====================================================================== *)

(** The text before the first occurrence of [sep], and the text after it. *)
Fixpoint split_at (sep s : jsstring) (acc : jsstring)
  : option (jsstring * jsstring) :=
  if startsWith s sep then Some (rev acc, drop (length sep) s)
  else match s with
       | [] => None
       | c :: s' => split_at sep s' (c :: acc)
       end.

(** A small URL parser for [http] and [https] addresses: enough of
    [new URL] for the examples. *)
Definition simple_new_URL (u : jsstring) : completion url_record :=
  match split_at (js "://") u [] with
  | Some (scheme, rest) =>
      if jsstring_eqb scheme (js "http") || jsstring_eqb scheme (js "https") then
        let '(hostname, path) :=
          match split_at (js "/") rest [] with
          | Some (h, p) => (h, js "/" ++ p)
          | None => (rest, js "/")
          end in
        match hostname with
        | [] => Throw
        | _ => Normal {| protocol := scheme ++ js ":";
                         origin := scheme ++ js "://" ++ hostname;
                         href_of := scheme ++ js "://" ++ hostname ++ path |}
        end
      else Throw
  | None => Throw
  end.

Fixpoint drop_until_slash (s : jsstring) : jsstring :=
  match s with
  | [] => []
  | c :: s' => if c =? 47 then s else drop_until_slash s'
  end.

(** The directory of a path: up to and including its last slash. *)
Definition dirname (path : jsstring) : jsstring :=
  rev (drop_until_slash (rev path)).

(** [new URL(u, base)]: an address that parses on its own stands for
    itself, any other is taken as a path from the directory of the
    base. *)
Definition simple_new_URL_rel (u base : jsstring) : completion url_record :=
  match simple_new_URL base with
  | Normal b =>
      match simple_new_URL u with
      | Normal r => Normal r
      | Throw => simple_new_URL (dirname (href_of b) ++ u)
      end
  | Throw => Throw
  end.

Definition simple_host (year_now : Z) : Host :=
  {| thisYear := year_now;
     new_URL := simple_new_URL;
     new_URL_rel := simple_new_URL_rel |}.

(** A clock that stands still at [t], and one that ticks from [t]. *)
Definition still_clock (t : N) : Clock := fun _ => t.
Definition ticking_clock (t : N) : Clock := fun n => t + N.of_nat n.

(** An element with the given text and nothing else. *)
Definition text_node (t : jsstring) : node :=
  {| textContent := t; className := []; attributes := []; href := JUndefined;
     closest_a_href := JUndefined; src := None; content := None;
     dataset_src := None; dataset_lazySrc := None;
     naturalWidth := 0; width := 0; naturalHeight := 0; height := 0;
     children := []; selected := [] |}.

(** An element with a text and the answers to some selectors. *)
Definition container (t : jsstring) (sel : list (jsstring * list node)) : node :=
  {| textContent := t; className := []; attributes := []; href := JUndefined;
     closest_a_href := JUndefined; src := None; content := None;
     dataset_src := None; dataset_lazySrc := None;
     naturalWidth := 0; width := 0; naturalHeight := 0; height := 0;
     children := []; selected := sel |}.

(** A fresh record as [createEmptyYacht] makes it at time [t]. *)
Definition empty_yacht (t : N) (index : nat) : yacht :=
  fst (createEmptyYacht index (still_clock t)).

(** A linked-data product with a name, a price and image addresses, and
    the JSON text it is parsed from. *)
Record product_text : Type :=
  { pt_name : jsstring; pt_price : jsstring; pt_images : list jsstring }.

Definition ld_product (t : product_text) : ld_node :=
  {| ld_type := Some (js "Product"); ld_graph := None;
     ld_name := Some (pt_name t); ld_description := None;
     ld_offers_of := OneOffer {| offer_price := Some (pt_price t) |};
     ld_image_of := ManyImages (List.map ImgString (pt_images t)) |}.

Definition quoted (s : jsstring) : jsstring := [34] ++ s ++ [34].

Definition product_json (t : product_text) : jsstring :=
  js "{" ++ dq "@type" ++ js ":" ++ dq "Product" ++ js ","
  ++ dq "name" ++ js ":" ++ quoted (pt_name t) ++ js ","
  ++ dq "offers" ++ js ":{" ++ dq "price" ++ js ":" ++ quoted (pt_price t) ++ js "},"
  ++ dq "image" ++ js ":[" ++ join (js ",") (List.map quoted (pt_images t)) ++ js "]}".

(** A page that passes site validation and whose only listings are the
    linked-data products of one script. *)
Definition ld_page (products : list product_text) : page :=
  let text :=
    js "<html><head><script type=" ++ dq "application/ld+json" ++ js ">["
    ++ join (js ",") (List.map product_json products)
    ++ js "]</script></head>"
    ++ js "<body><h1>Yacht brokerage</h1><p>Boats for sale</p></body></html>" in
  {| html := text;
     doc := container (js "Yacht brokerageBoats for sale") [];
     ld_scripts := [Some (LdMany (List.map ld_product products))] |}.

Definition page_url : jsstring := js "https://broker.example/boats/".

Definition inline_image : jsstring := js "data:image/png;base64,AAAA".
Definition logo_image : jsstring := js "https://broker.example/assets/logo.png".

Definition sunseeker_2020 (imgs : list jsstring) : product_text :=
  {| pt_name := js "2020 Sunseeker 68"; pt_price := js "2850000";
     pt_images := imgs |}.

Definition princess_2018 : product_text :=
  {| pt_name := js "2018 Princess 55"; pt_price := js "1200000";
     pt_images := [js "https://broker.example/b.jpg"] |}.

Definition page_inline_image : page :=
  ld_page [sunseeker_2020 [inline_image; logo_image]].

Definition page_two_products : page :=
  ld_page [sunseeker_2020 [js "https://broker.example/a.jpg"]; princess_2018].

(** A linked-data record of [page_inline_image], after the length, type
    and location have been filled in (as [saveYachtEdit] lets a user do). *)
Definition completed_json_ld_record : yacht :=
  match fst (parseJsonLdProduct
               (ld_product (sunseeker_2020 [js "https://broker.example/a.jpg"]))
               (still_clock 1700000000000)) with
  | Normal y => set_location (js "Palma") (set_type (js "motor") (set_length (js "68") (js "ft") y))
  | Throw => empty_yacht 0 0
  end.

(** Records for the examples of deduplication. *)
Definition listed (t : string) (url : option jsstring) (p : option jsnum) : yacht :=
  set_priceRaw p (set_detailUrl url (set_title (js t) (blank_yacht 0 0))).

Definition duplicates : list yacht :=
  [ listed "Sea Breeze" (Some (js "https://broker.example/boats/1")) None;
    listed "Another name" (Some (js "https://broker.example/boats/1")) None;
    listed "  SEA Breeze " None None;
    listed "sea breeze" (Some []) (Some (num_of_N 0));
    listed "sea breeze" None (Some (num_of_N 5000)) ].

(** The page of the end-to-end example of the specification. *)
Definition page_sunseeker : page :=
  ld_page [{| pt_name := js "2023 Sunseeker 68"; pt_price := js "2850000";
              pt_images := [js "http://x/a.jpg"] |}].

(** An [img] element with a source address and rendered dimensions. *)
Definition img_node (address : jsstring) (w h : Z) : node :=
  {| textContent := []; className := []; attributes := []; href := JUndefined;
     closest_a_href := JUndefined; src := Some address; content := None;
     dataset_src := None; dataset_lazySrc := None;
     naturalWidth := 0; width := w; naturalHeight := 0; height := h;
     children := []; selected := [] |}.

(** A listing card: a heading, a price in dollars and a photograph. *)
Definition listing_card (n : N) : node :=
  let heading := js "Sunseeker Manhattan " ++ print_N n in
  container (heading ++ js " $450,000 Call us today")
    [ (SEL_HEADINGS, [text_node heading]);
      (SEL_IMG, [img_node (js "https://broker.example/img/" ++ print_N n ++ js ".jpg")
                   400 300]) ].

(** A page of five such cards under the class [card]. *)
Definition page_card_grid : page :=
  {| html := js "<html><body>Yacht brokerage: boats for sale</body></html>";
     doc := container (js "Yacht brokerage: boats for sale")
              [ (js ".card", List.map listing_card [1; 2; 3; 4; 5]) ];
     ld_scripts := [] |}.

(** A page in the markup of the WordPress listing theme: two listings,
    the second of them sold. *)
Definition page_wp_theme : page :=
  let title_link (t : string) (address : string) : node :=
    {| textContent := js t; className := []; attributes := [];
       href := JStr (js address); closest_a_href := JStr (js address);
       src := None; content := None; dataset_src := None; dataset_lazySrc := None;
       naturalWidth := 0; width := 0; naturalHeight := 0; height := 0;
       children := []; selected := [] |} in
  let listing (t address p : string) : node :=
    container (js t ++ js " " ++ js p)
      [ (js "h4 a, .listing-title a, .property-title a", [title_link t address]);
        (js ".price_wrapper, .listing_unit_price_wrapper span, .price, [class*="
         ++ dq "price" ++ js "]", [text_node (js p)]);
        (js ".listing-unit-img-wrapper img, .property-img img, img",
         [img_node (js "/photos/boat.jpg") 640 480]) ] in
  let cards :=
    [ listing "Princess V48 motor yacht 2016" "/boats/princess-v48" "$27,950";
      listing "Fairline Targa 38 2008" "/boats/fairline-targa-38" "SOLD" ]%string in
  {| html := js "<html><body>Motor yacht brokerage: boats for sale</body></html>";
     doc := container (js "Motor yacht brokerage: boats for sale")
              [ (js ".listing_wrapper, .property_listing, .listing-unit-img-wrapper, .listing_unit_price_wrapper",
                 cards);
                (js ".listing_wrapper, .property_listing", cards) ];
     ld_scripts := [] |}.

(** A document the first adapter of the registry detects without finding a
    record in it (its cards have no title link), and in which the third
    adapter finds one. *)
Definition doc_detected_but_empty : node :=
  let untitled := text_node (js "Enquire about this listing") in
  let titled :=
    container (js "Azimut 55 Flybridge")
      [ (js "h2, h3, .title, .listing-title, [class*=" ++ dq "title"
         ++ js "], a[class*=" ++ dq "name" ++ js "]",
         [text_node (js "Azimut 55 Flybridge")]) ] in
  container (js "Enquire about this listing Azimut 55 Flybridge")
    [ (js ".listing_wrapper, .property_listing, .listing-unit-img-wrapper, .listing_unit_price_wrapper",
       [untitled]);
      (js ".listing_wrapper, .property_listing", [untitled]);
      (js ".listing-card, .yacht-listing, .boat-listing, .search-result-item", [titled]);
      (js ".listing-card, .yacht-listing, .boat-listing, .search-result-item, [class*="
       ++ dq "listing-card" ++ js "], [class*=" ++ dq "boat-card" ++ js "]", [titled]) ].

(** A card with a price in range and no heading or link. *)
Definition priced_card_without_title : node :=
  text_node (js "Lovely cruiser, one owner, offered at $250,000 or near offer").

(** What the claims about the generic fallback speak of: a text length in
    the plausible window, a candidate that yields a title, a candidate that
    yields a valid price. *)
Definition in_window (text : jsstring) : bool :=
  (20 <=? length text)%nat && (length text <=? 5000)%nat.

Definition yields_title (card : node) : bool :=
  existsb (fun h => acceptable_title (cleanText (textContent h)))
    (querySelectorAll card SEL_HEADINGS).

Definition yields_valid_price (card : node) : bool :=
  match raw (extractPrice (textContent card)) with
  | Some r => truthy_num r && num_ge r CONFIG.MIN_YACHT_PRICE
              && num_le r CONFIG.MAX_YACHT_PRICE
  | None => false
  end.

(** The deduplication key of a record as a value: the detail address
    when it is not empty, else the lower-cased trimmed title with the
    price, [null] counting as 0. *)
Inductive dedup_key : Type :=
| UrlKey (u : jsstring)
| TitlePriceKey (t : jsstring) (p : jsnum).

#[global] Instance uint_eq_decision : EqDecision uint := Decimal.uint_eq_dec.

#[global] Instance jsnum_eq_decision : EqDecision jsnum.
Proof. solve_decision. Defined.

#[global] Instance dedup_key_eq_decision : EqDecision dedup_key.
Proof. solve_decision. Defined.

Definition key_of (y : yacht) : dedup_key :=
  match detailUrl y with
  | Some (c :: u) => UrlKey (c :: u)
  | _ => TitlePriceKey (trim (toLowerCase (title y))) (priceRaw_or_0 y)
  end.

Definition has_key (k : dedup_key) (y : yacht) : bool :=
  bool_decide (key_of y = k).

(** The digits after the point, with the point. *)
Definition print_fraction (fp : uint) : jsstring :=
  match fp with Nil => [] | _ => 46 :: print_uint fp end.

(** The numbers a key is made of: a truthy number, or zero itself. *)
Definition key_number (x : jsnum) : Prop :=
  truthy_num x = true \/ x = num_of_N 0.

(** A code unit other than the bar. *)
Definition not_bar (c : N) : bool := negb (c =? 124).

(** Whether the two sets of [deduplicateYachts] hold the key already. *)
Definition key_seen (seenUrls seenTitles : gset jsstring) (k : dedup_key) : Prop :=
  match k with
  | UrlKey u => u ∈ seenUrls
  | TitlePriceKey t p => t ++ js "|" ++ num_to_string p ∈ seenTitles
  end.

#[global] Instance key_seen_decision U T k : Decision (key_seen U T k).
Proof. destruct k; cbn [key_seen]; apply _. Defined.

(** A record with no title and no price, as the filter sees it. *)
Definition no_title_no_price (y : yacht) : Prop :=
  title y = [] /\
  (priceRaw y = None \/ exists v, priceRaw y = Some v /\ num_is_zero v = true).

(** The adapters tried before one that yields: each fails to detect, or
    detects and parses to nothing; the clock moves from [clk] to [clk']. *)
Inductive passed_over (d : node) (sourceUrl : jsstring)
  : list adapter -> Clock -> Clock -> Prop :=
| passed_nil clk : passed_over d sourceUrl [] clk clk
| passed_undetected a rest clk clk' :
    detect a d sourceUrl = false ->
    passed_over d sourceUrl rest clk clk' ->
    passed_over d sourceUrl (a :: rest) clk clk'
| passed_empty a rest clk clk1 clk' :
    detect a d sourceUrl = true ->
    parse a d sourceUrl clk = ([], clk1) ->
    passed_over d sourceUrl rest clk1 clk' ->
    passed_over d sourceUrl (a :: rest) clk clk'.

(** Three adapters for examples: one that detects and finds nothing, one
    that does not detect, one that detects and finds a record. *)
Definition adapter_empty : adapter :=
  {| name := js "detects-empty";
     detect := fun _ _ => true;
     parse := fun _ _ => ret [] |}.

Definition adapter_blind : adapter :=
  {| name := js "never-detects";
     detect := fun _ _ => false;
     parse := fun _ _ => y ← createEmptyYacht 0; ret [set_title (js "Phantom") y] |}.

Definition adapter_one (label : string) : adapter :=
  {| name := js label;
     detect := fun _ _ => true;
     parse := fun _ _ =>
                y ← createEmptyYacht 0;
                ret [set_source (js label) (set_title (js "Found by " ++ js label) y)] |}.

(** The categories of the keyword table. *)
Definition is_category (t : jsstring) : bool :=
  existsb (jsstring_eqb t) [js "motor"; js "sail"; js "catamaran"; js "superyacht"].

(** What the filter of the orchestrator makes of a record it keeps: the
    recomputed confidence, the issues, the address of the page. *)
Definition stamped (pageUrl : jsstring) (x : yacht) : yacht :=
  let y1 := set_overall (calculateConfidence x) x in
  set_sourceUrl pageUrl (set_issues (validateYacht y1) y1).

(** A record as a strategy of the program leaves it: labelled by one of
    the two structured-data readers, which never fill in length, type or
    location, or labelled by an adapter or by the generic fallback. *)
Definition strategy_record (y : yacht) : Prop :=
  (In (source y) [js "json-ld"; js "microdata"]
   /\ ylength y = [] /\ ytype y = [] /\ location y = [])
  \/ In (source y)
       [js "wp-listing-theme"; js "nyb-style"; js "yachtworld-style";
        js "card-grid"; js "detail-page"; js "generic"].

(** A text in which every white-space unit is a plain space with no white
    space after it. *)
Fixpoint single_spaced (s : jsstring) : bool :=
  match s with
  | [] => true
  | c :: s' =>
      (if is_space c
       then (c =? 32) && match s' with d :: _ => negb (is_space d) | [] => true end
       else true)
      && single_spaced s'
  end.

(** A text that does not start with white space. *)
Definition starts_clean (s : jsstring) : bool :=
  match s with c :: _ => negb (is_space c) | [] => true end.

(* ====================================================================== *)
(** * The result list and the selection *)
(* ====================================================================== *)

(** The module variables the handlers of the result list share:
    [parsedYachts], [totalYachtsFound], [selectedYachts] (a [Set] of ids)
    and [currentEditIndex].  Rendering reads them and changes none; a card
    is shown as selected when the id of its record is in the set. *)
Record ui_state : Type :=
  { parsedYachts : list yacht;
    totalYachtsFound : nat;
    selectedYachts : gset jsstring;
    currentEditIndex : option nat }.

(** [parsedYachts.forEach(y => selectedYachts.add(y.id))] *)
Definition add_all_ids (yachts : list yacht) (selected : gset jsstring)
  : gset jsstring :=
  fold_left (fun sel y => {[ yid y ]} ∪ sel) yachts selected.

(** [toggleYachtSelection(id)] *)
Definition toggleYachtSelection (id : jsstring) (s : ui_state) : ui_state :=
  {| parsedYachts := parsedYachts s;
     totalYachtsFound := totalYachtsFound s;
     selectedYachts :=
       if bool_decide (id ∈ selectedYachts s)
       then selectedYachts s ∖ {[ id ]}
       else {[ id ]} ∪ selectedYachts s;
     currentEditIndex := currentEditIndex s |}.

(** [toggleSelectAll()] *)
Definition toggleSelectAll (s : ui_state) : ui_state :=
  {| parsedYachts := parsedYachts s;
     totalYachtsFound := totalYachtsFound s;
     selectedYachts :=
       if (size (selectedYachts s) =? length (parsedYachts s))%nat
       then ∅
       else add_all_ids (parsedYachts s) (selectedYachts s);
     currentEditIndex := currentEditIndex s |}.

(** [removeYacht(index)]: out of range, [parsedYachts[index]] is
    [undefined] and reading its [id] throws. *)
Definition removeYacht (index : nat) (s : ui_state) : completion ui_state :=
  match parsedYachts s !! index with
  | None => Throw
  | Some y =>
      Normal {| parsedYachts := delete index (parsedYachts s);
                totalYachtsFound := totalYachtsFound s;
                selectedYachts := selectedYachts s ∖ {[ yid y ]};
                currentEditIndex := currentEditIndex s |}
  end.

(** [importSelectedYachts()], the answer to [confirm] being a parameter:
    the records handed over, or [None] when the function returns early. *)
Definition importSelectedYachts (confirmed : bool) (s : ui_state)
  : option (list yacht) :=
  if (size (selectedYachts s) =? 0)%nat then None
  else
    let yachtsToImport :=
      List.filter (fun y => bool_decide (yid y ∈ selectedYachts s)) (parsedYachts s) in
    let hasErrors :=
      existsb
        (fun y =>
           existsb (fun i => match severity i with error => true | warning => false end)
             (issues y))
        yachtsToImport in
    if hasErrors && negb confirmed then None else Some yachtsToImport.

(** The end of [handleFetch] on a non-empty list of records: the total is
    stored, the first [MAX_LISTINGS_DISPLAY] records are shown, and the
    selection is cleared and filled with their ids. *)
Definition handleFetch_show (allYachts : list yacht) (s : ui_state) : ui_state :=
  let shown := take CONFIG.MAX_LISTINGS_DISPLAY allYachts in
  {| parsedYachts := shown;
     totalYachtsFound := length allYachts;
     selectedYachts := add_all_ids shown ∅;
     currentEditIndex := currentEditIndex s |}.

(** The values of the fields of the edit form. *)
Record edit_form : Type :=
  { edit_title : jsstring; edit_price : jsstring; edit_year : jsstring;
    edit_length : jsstring; edit_length_unit : jsstring; edit_type : jsstring;
    edit_location : jsstring; edit_description : jsstring }.

(** [saveYachtEdit()], given what the form holds.  The record is changed
    in place; [closeModal] then clears [currentEditIndex].  With an index
    out of range the first assignment to [undefined] throws. *)
Definition saveYachtEdit (form : edit_form) (s : ui_state) : completion ui_state :=
  match currentEditIndex s with
  | None => Normal s
  | Some index =>
      match parsedYachts s !! index with
      | None => Throw
      | Some y =>
          let y1 :=
            set_description (trim (edit_description form))
              (set_location (trim (edit_location form))
                 (set_type (edit_type form)
                    (set_length (trim (edit_length form)) (edit_length_unit form)
                       (set_year (trim (edit_year form))
                          (set_price (trim (edit_price form))
                             (set_title (trim (edit_title form)) y)))))) in
          let y2 :=
            if truthy_str (price y1) && negb (truthy_onum (priceRaw y1)) then
              let parsed := extractPrice (price y1) in
              set_price (if truthy_str (formatted parsed) then formatted parsed
                         else price y1)
                (set_priceRaw (raw parsed) y1)
            else y1 in
          let y3 := set_issues (validateYacht y2) y2 in
          let y4 := set_overall (calculateConfidence y3) y3 in
          Normal {| parsedYachts := <[ index := y4 ]> (parsedYachts s);
                    totalYachtsFound := totalYachtsFound s;
                    selectedYachts := selectedYachts s;
                    currentEditIndex := None |}
      end
  end.

(* ====================================================================== *)
(** * Link discovery *)
(* ====================================================================== *)

Definition ci_pattern (r : regex) : pattern := {| pat_re := r; pat_ci := true |}.

(** The sixteen [inventoryPatterns] of [discoverInventoryLinks], all under
    the [i] flag. *)
Definition inventoryPatterns : list pattern :=
  List.map ci_pattern
    [ (* /\/boats?\/?$/ *)
      Seqs [Char 47; LitOptLast (js "boats"); Opt (Char 47); Eol];
      (* /\/yachts?\/?$/ *)
      Seqs [Char 47; LitOptLast (js "yachts"); Opt (Char 47); Eol];
      (* /\/inventory\/?$/ *)
      Seqs [Char 47; Lit (js "inventory"); Opt (Char 47); Eol];
      (* /\/listings?\/?$/ *)
      Seqs [Char 47; LitOptLast (js "listings"); Opt (Char 47); Eol];
      (* /\/for-?sale\/?$/ *)
      Seqs [Char 47; Lit (js "for"); Opt (Char 45); Lit (js "sale"); Opt (Char 47); Eol];
      (* /\/brokerage\/?$/ *)
      Seqs [Char 47; Lit (js "brokerage"); Opt (Char 47); Eol];
      (* /\/used-?(boats?|yachts?)/ *)
      Seqs [Char 47; Lit (js "used"); Opt (Char 45);
            Group (Alt (LitOptLast (js "boats")) (LitOptLast (js "yachts")))];
      (* /\/new-?(boats?|yachts?)/ *)
      Seqs [Char 47; Lit (js "new"); Opt (Char 45);
            Group (Alt (LitOptLast (js "boats")) (LitOptLast (js "yachts")))];
      (* /\/motor-?yacht/ *)
      Seqs [Char 47; Lit (js "motor"); Opt (Char 45); Lit (js "yacht")];
      (* /\/sail(ing)?-?yacht/ *)
      Seqs [Char 47; Lit (js "sail"); Opt (Group (Lit (js "ing"))); Opt (Char 45);
            Lit (js "yacht")];
      (* /\/search/ *)
      Seqs [Char 47; Lit (js "search")];
      (* /\/browse/ *)
      Seqs [Char 47; Lit (js "browse")];
      (* /\/fleet/ *)
      Seqs [Char 47; Lit (js "fleet")];
      (* /\/vessels?/ *)
      Seqs [Char 47; LitOptLast (js "vessels")];
      (* /\/results\/?$/ *)
      Seqs [Char 47; Lit (js "results"); Opt (Char 47); Eol];
      (* /\/boats[_-]for[_-]sale/ *)
      Seqs [Char 47; Lit (js "boats"); Class (cls_of (js "_-")); Lit (js "for");
            Class (cls_of (js "_-")); Lit (js "sale")] ].

Definition inventoryKeywords : list jsstring :=
  List.map js
    [ "boats for sale"; "yachts for sale"; "inventory"; "our boats";
      "our yachts"; "browse"; "search boats"; "search yachts";
      "view all"; "see all"; "all boats"; "all yachts"; "fleet";
      "brokerage"; "for sale"; "listings"; "motor yachts"; "sailing yachts";
      "search"; "find a boat"; "find a yacht"; "results" ]%string.

(** /\.(jpg|png|gif|pdf|doc|css|js)$/i *)
Definition resource_pattern : pattern :=
  ci_pattern
    (Seqs [Char 46;
           Group (Alts [Lit (js "jpg"); Lit (js "png"); Lit (js "gif"); Lit (js "pdf");
                        Lit (js "doc"); Lit (js "css"); Lit (js "js")]);
           Eol]).

(** The patterns of [discoverPaginationLinks].  The third and fourth
    alternatives of the first, and of the second, are stored in the file
    as the code units written out below (guillemets and angle quotes in a
    wrong encoding). *)
Definition previous_pattern : pattern :=
  ci_pattern
    (Alts [Lit (js "prev"); Lit (js "previous"); Lit [0xAC; 0xB4];
           Lit [0x201A; 0xC4; 0x3C0]]).

Definition next_pattern : pattern :=
  ci_pattern
    (Alts [Seqs [Bol; Class (cls_range 50 57); Eol];
           Seqs [Bol; Lit (js "next"); Eol];
           Seqs [Bol; Lit [0x201A; 0xC4; 0x222B]; Eol];
           Seqs [Bol; Lit [0xAC; 0xAA]; Eol]]).

(** /\/page\/\d+/i *)
Definition page_path_pattern : pattern :=
  ci_pattern (Seqs [Char 47; Lit (js "page"); Char 47; Plus re_d]).

(** /[?&/]page[=/]?\d+/i and /\/\d+\/?$/ *)
Definition page_query_pattern : pattern :=
  ci_pattern (Seqs [Class (cls_of (js "?&/")); Lit (js "page");
                    Opt (Class (cls_of (js "=/"))); Plus re_d]).

Definition trailing_number_pattern : pattern :=
  {| pat_re := Seqs [Char 47; Plus re_d; Opt (Char 47); Eol]; pat_ci := false |}.

Definition SEL_LINKS : jsstring := js "a[href]".

Definition SEL_PAGINATION : jsstring :=
  js ".pagination, .paging, .page-numbers, .wp-pagenavi, nav[aria-label*="
  ++ dq "pagination" ++ js "], [class*=" ++ dq "pagination" ++ js "]".

(** The tokens of a class attribute: split on ASCII white space. *)
Definition is_ascii_space (c : N) : bool :=
  (c =? 9) || (c =? 10) || (c =? 12) || (c =? 13) || (c =? 32).

Fixpoint class_tokens (s cur : jsstring) : list jsstring :=
  match s with
  | [] => match cur with [] => [] | _ => [rev cur] end
  | c :: s' =>
      if is_ascii_space c
      then match cur with
           | [] => class_tokens s' []
           | _ => rev cur :: class_tokens s' []
           end
      else class_tokens s' (c :: cur)
  end.

(** [el.classList.contains(token)] *)
Definition classList_contains (el : node) (token : jsstring) : bool :=
  existsb (jsstring_eqb token) (class_tokens (className el) []).

(** A [Map] from addresses to scores, in insertion order. *)
Definition map_get (key : jsstring) (m : list (jsstring * Z)) : option Z :=
  assoc key m.

Fixpoint map_set (key : jsstring) (v : Z) (m : list (jsstring * Z))
  : list (jsstring * Z) :=
  match m with
  | [] => [(key, v)]
  | (k, w) :: rest =>
      if jsstring_eqb k key then (k, v) :: rest
      else (k, w) :: map_set key v rest
  end.

(** [entries.sort((a, b) => b[1] - a[1])]: a stable sort, highest score
    first. *)
Fixpoint insert_by_score (x : jsstring * Z) (l : list (jsstring * Z))
  : list (jsstring * Z) :=
  match l with
  | [] => [x]
  | h :: t => if (snd x <? snd h)%Z then h :: insert_by_score x t else x :: l
  end.

Definition sort_by_score (l : list (jsstring * Z)) : list (jsstring * Z) :=
  fold_right insert_by_score [] l.

Section LinkDiscovery.

(** The host, [new URL(u).hostname] (throwing as [new URL] does) and
    [el.closest(selector)]. *)
Context (host : Host) (hostname : jsstring -> completion jsstring)
  (closest : node -> jsstring -> option node).

(** The score of a link whose resolved address is [address]. *)
Definition link_score (link : node) (address : jsstring) : Z :=
  let linkText := trim (toLowerCase (textContent link)) in
  let hrefLower := toLowerCase address in
  let score := 0%Z in
  let score :=
    if existsb (fun p => regex_test p hrefLower) inventoryPatterns
    then (score + 10)%Z else score in
  let score :=
    if existsb (fun keyword => includes linkText keyword) inventoryKeywords
    then (score + 5)%Z else score in
  let score :=
    match closest link (js "nav, header, .nav, .menu, .navigation") with
    | Some _ => (score + 3)%Z
    | None => score
    end in
  let score :=
    match closest link (js "h1, h2, h3, .hero, .banner, .cta") with
    | Some _ => (score + 2)%Z
    | None => score
    end in
  score.

(** [link.href || link.getAttribute('href')] *)
Definition link_href (link : node) : jsval :=
  or_val (href link) (of_attr (getAttribute link (js "href"))).

(** The address a link of [discoverInventoryLinks] is filed under, when it
    passes every test of the loop body before the scoring.  On an object
    that is not a string [href.startsWith] is not a function and the body
    throws, outside its [try] blocks. *)
Definition inventory_address (baseUrl baseHost : jsstring) (link : node)
  : completion (option jsstring) :=
  match link_href link with
  | JObj _ => Throw
  | JStr (c :: t) =>
      if startsWith (c :: t) (js "#") || startsWith (c :: t) (js "javascript:")
      then Normal None
      else
        match new_URL_rel host (c :: t) baseUrl with
        | Throw => Normal None
        | Normal u =>
            let address := href_of u in
            match hostname address with
            | Throw => Normal None
            | Normal linkHost =>
                if negb (jsstring_eqb linkHost baseHost) then Normal None
                else if regex_test resource_pattern address then Normal None
                else if jsstring_eqb address baseUrl
                        || jsstring_eqb address (baseUrl ++ js "/")
                then Normal None
                else Normal (Some address)
            end
        end
  | _ => Normal None
  end.

(** One turn of [links.forEach] on the map of scores. *)
Definition inventory_step (baseUrl baseHost : jsstring)
    (seen : list (jsstring * Z)) (link : node) : completion (list (jsstring * Z)) :=
  match inventory_address baseUrl baseHost link with
  | Throw => Throw
  | Normal None => Normal seen
  | Normal (Some address) =>
      let score := link_score link address in
      if (0 <? score)%Z then
        let existing := default 0%Z (map_get address seen) in
        Normal (map_set address (Z.max existing score) seen)
      else Normal seen
  end.

(** [links.forEach] with a body that may throw: the loop ends at the
    first turn that throws. *)
Fixpoint forEach_links {S : Type} (body : S -> node -> completion S)
    (links : list node) (s : S) : completion S :=
  match links with
  | [] => Normal s
  | link :: rest =>
      match body s link with
      | Throw => Throw
      | Normal s' => forEach_links body rest s'
      end
  end.

(** [discoverInventoryLinks(html, baseUrl)], on the document the parser
    makes of [html]; [new URL(baseUrl)] may throw, and so may the loop. *)
Definition discoverInventoryLinks (d : node) (baseUrl : jsstring)
  : completion (list jsstring) :=
  let links := querySelectorAll d SEL_LINKS in
  match hostname baseUrl with
  | Throw => Throw
  | Normal baseHost =>
      match forEach_links (inventory_step baseUrl baseHost) links [] with
      | Throw => Throw
      | Normal seen => Normal (take 10 (fst <$> sort_by_score seen))
      end
  end.

(** What the map of scores holds once the links [done] went through the
    loop: one entry per address a link with a positive score is filed
    under, with the best score of those links. *)
Definition inventory_map_of (baseUrl baseHost : jsstring) (done : list node)
    (seen : list (jsstring * Z)) : Prop :=
  NoDup (fst <$> seen)
  /\ (forall a v, (a, v) ∈ seen ->
        (0 < v)%Z
        /\ (exists link, link ∈ done
                         /\ inventory_address baseUrl baseHost link = Normal (Some a)
                         /\ link_score link a = v)
        /\ (forall link, link ∈ done ->
                         inventory_address baseUrl baseHost link = Normal (Some a) ->
                         (link_score link a <= v)%Z))
  /\ (forall link a, link ∈ done ->
                     inventory_address baseUrl baseHost link = Normal (Some a) ->
                     (0 < link_score link a)%Z -> a ∈ (fst <$> seen)).

(** One link of a pagination container.  The pattern test and [new URL]
    convert the value of [href] to a string. *)
Definition pagination_step (baseUrl baseHost : jsstring)
    (paginationUrls : list jsstring) (link : node) : list jsstring :=
  let text := trim (textContent link) in
  let h := link_href link in
  if regex_test previous_pattern text then paginationUrls
  else if classList_contains link (js "current") || classList_contains link (js "active")
  then paginationUrls
  else if regex_test next_pattern text
          || regex_test page_path_pattern (String_of h)
  then
    match new_URL_rel host (String_of h) baseUrl with
    | Throw => paginationUrls
    | Normal u =>
        let fullUrl := href_of u in
        if includes fullUrl baseHost
           && negb (existsb (jsstring_eqb fullUrl) paginationUrls)
        then paginationUrls ++ [fullUrl]
        else paginationUrls
    end
  else paginationUrls.

(** One link of the fallback over every link of the document. *)
Definition pagination_fallback_step (baseUrl baseHost : jsstring)
    (paginationUrls : list jsstring) (link : node) : list jsstring :=
  let h := link_href link in
  if negb (truthy_val h) then paginationUrls
  else if regex_test page_query_pattern (String_of h)
          || regex_test trailing_number_pattern (String_of h)
  then
    match new_URL_rel host (String_of h) baseUrl with
    | Throw => paginationUrls
    | Normal u =>
        let fullUrl := href_of u in
        if includes fullUrl baseHost
           && negb (jsstring_eqb fullUrl baseUrl)
           && negb (existsb (jsstring_eqb fullUrl) paginationUrls)
        then paginationUrls ++ [fullUrl]
        else paginationUrls
    end
  else paginationUrls.

(** [discoverPaginationLinks(html, baseUrl)] *)
Definition discoverPaginationLinks (d : node) (baseUrl : jsstring)
  : completion (list jsstring) :=
  match hostname baseUrl with
  | Throw => Throw
  | Normal baseHost =>
      let paginationContainers := querySelectorAll d SEL_PAGINATION in
      let fromContainers :=
        fold_left
          (fun urls container =>
             fold_left (pagination_step baseUrl baseHost)
               (querySelectorAll container SEL_LINKS) urls)
          paginationContainers [] in
      Normal
        (match fromContainers with
         | [] =>
             fold_left (pagination_fallback_step baseUrl baseHost)
               (querySelectorAll d SEL_LINKS) []
         | _ => fromContainers
         end)
  end.

(** The links of a pagination container the loop takes as pages, and the
    links the fallback takes. *)
Definition taken_as_page (link : node) : bool :=
  negb (regex_test previous_pattern (trim (textContent link)))
  && negb (classList_contains link (js "current")
           || classList_contains link (js "active"))
  && (regex_test next_pattern (trim (textContent link))
      || regex_test page_path_pattern (String_of (link_href link))).

Definition taken_by_fallback (link : node) : bool :=
  truthy_val (link_href link)
  && (regex_test page_query_pattern (String_of (link_href link))
      || regex_test trailing_number_pattern (String_of (link_href link))).

End LinkDiscovery.

(** ** A document with links, for examples *)

(** [new URL(u).hostname] for the small parser of the examples. *)
Definition simple_hostname (u : jsstring) : completion jsstring :=
  match simple_new_URL u with
  | Normal r => Normal (drop (length (protocol r) + 2) (origin r))
  | Throw => Throw
  end.

(** An HTML anchor with the address its [href] gives and a text. *)
Definition link_node (address text : string) : node :=
  {| textContent := js text; className := []; attributes := [];
     href := JStr (js address); closest_a_href := JUndefined; src := None;
     content := None; dataset_src := None; dataset_lazySrc := None;
     naturalWidth := 0; width := 0; naturalHeight := 0; height := 0;
     children := []; selected := [] |}.

(** No link of the examples lies in a navigation bar or a heading. *)
Definition outside_any : node -> jsstring -> option node := fun _ _ => None.

Definition home_url : jsstring := js "https://broker.example/".

Definition home_page : node :=
  container []
    [ (SEL_LINKS,
       [ link_node "https://broker.example/boats/" "Boats for sale";
         link_node "https://broker.example/about" "About us";
         link_node "https://broker.example/img/logo.png" "inventory";
         link_node "javascript:void(0)" "Search" ]) ].

(** An SVG anchor: its [href] is an object, the attribute holds the
    address. *)
Definition svg_link_node (address text : string) : node :=
  {| textContent := js text; className := [];
     attributes := [(js "href", js address)];
     href := JObj (js "[object SVGAnimatedString]"); closest_a_href := JUndefined;
     src := None; content := None; dataset_src := None; dataset_lazySrc := None;
     naturalWidth := 0; width := 0; naturalHeight := 0; height := 0;
     children := []; selected := [] |}.

Definition home_page_with_svg : node :=
  container []
    [ (SEL_LINKS,
       [ link_node "https://broker.example/boats/" "Boats for sale";
         svg_link_node "/yachts/" "Yachts" ]) ].

(** A document whose pagination container holds an SVG anchor that says
    [next]. *)
Definition page_with_svg_next : node :=
  container []
    [ (SEL_PAGINATION,
       [ container [] [ (SEL_LINKS, [ svg_link_node "page/2" "next" ]) ] ]) ].

(* ====================================================================== *)
(** * The crawl of [handleFetch] *)
(* ====================================================================== *)

(** The network: what the call number [n] of [fetchWithProxy] returns for
    an address, the page behind it or nothing when every proxy fails (the
    function then throws). *)
Definition Net : Type := nat -> jsstring -> option page.

(** Computations that fetch pages and read the clock; the state is the
    number of calls of [fetchWithProxy] so far and the clock. *)
Definition W (A : Type) : Type := nat * Clock -> A * (nat * Clock).

#[global] Instance W_ret : MRet W := fun A (a : A) st => (a, st).
#[global] Instance W_bind : MBind W :=
  fun A B (f : A -> W B) (m : W A) st => let '(a, st') := m st in f a st'.

Definition lift {A : Type} (m : M A) : W A :=
  fun st => let '(a, clk') := m (snd st) in (a, (fst st, clk')).

(** [allYachts] and [pagesScanned] of [handleFetch].  The array
    [result.yachts] of the entered page is [allYachts] itself: what is
    pushed on one is seen through the other. *)
Record crawl : Type :=
  { allYachts : list yacht; pagesScanned : list jsstring }.

Section Crawl.

Context (host : Host) (hostname : jsstring -> completion jsstring)
  (closest : node -> jsstring -> option node) (net : Net).

Definition fetchWithProxy (url : jsstring) : W (completion page) :=
  fun st =>
    (match net (fst st) url with Some p => Normal p | None => Throw end,
     (S (fst st), snd st)).

(** The body of the loops over pagination links: a page not scanned yet is
    fetched and parsed inside a [try]; it counts as scanned when it yields
    a record. *)
Definition scan_page (pageUrl : jsstring) (c : crawl) : W crawl :=
  if existsb (jsstring_eqb pageUrl) (pagesScanned c) then mret c
  else
    r ← fetchWithProxy pageUrl;
    match r with
    | Throw => mret c
    | Normal p =>
        pageResult ← lift (parseYachtListings host p pageUrl);
        mret (match yachts_of pageResult with
              | [] => c
              | ys => {| allYachts := allYachts c ++ ys;
                         pagesScanned := pagesScanned c ++ [pageUrl] |}
              end)
    end.

Fixpoint scan_pages (urls : list jsstring) (c : crawl) : W crawl :=
  match urls with
  | [] => mret c
  | pageUrl :: rest => c' ← scan_page pageUrl c; scan_pages rest c'
  end.

(** The body of the loop over the inventory links. *)
Definition scan_inventory (invUrl : jsstring) (c : crawl) : W crawl :=
  if existsb (jsstring_eqb invUrl) (pagesScanned c) then mret c
  else
    r ← fetchWithProxy invUrl;
    match r with
    | Throw => mret c
    | Normal p =>
        invResult ← lift (parseYachtListings host p invUrl);
        match yachts_of invResult with
        | [] => mret c
        | ys =>
            let c1 := {| allYachts := allYachts c ++ ys;
                         pagesScanned := pagesScanned c ++ [invUrl] |} in
            match discoverPaginationLinks host hostname (doc p) invUrl with
            | Throw => mret c1
            | Normal invPagination => scan_pages (take 3 invPagination) c1
            end
        end
    end.

Fixpoint scan_inventories (urls : list jsstring) (c : crawl) : W crawl :=
  match urls with
  | [] => mret c
  | invUrl :: rest => c' ← scan_inventory invUrl c; scan_inventories rest c'
  end.

(** The [try] block of [handleFetch] up to the deduplication; [Throw] is
    what its [catch] receives. *)
Definition handleFetch_try (url : jsstring) : W (completion crawl) :=
  r ← fetchWithProxy url;
  match r with
  | Throw => mret Throw
  | Normal p =>
      result ← lift (parseYachtListings host p url);
      let c0 := {| allYachts := yachts_of result; pagesScanned := [url] |} in
      match discoverInventoryLinks host hostname closest (doc p) url with
      | Throw => mret Throw
      | Normal inventoryLinks =>
          c1 ← scan_inventories (take 5 inventoryLinks) c0;
          (* [result.yachts.length > 0], on the array the pushes went to *)
          match allYachts c1 with
          | [] => mret (Normal c1)
          | _ =>
              match discoverPaginationLinks host hostname (doc p) url with
              | Throw => mret Throw
              | Normal paginationLinks =>
                  c2 ← scan_pages (take 3 paginationLinks) c1;
                  mret (Normal c2)
              end
          end
      end
  end.

(** [handleFetch()], given what the address box holds.  Every early
    return and the [catch] leave the result list as it was. *)
Definition handleFetch (input : jsstring) (s : ui_state) : W ui_state :=
  let url := trim input in
  if negb (truthy_str url) then mret s
  else
    match new_URL host url with
    | Throw => mret s
    | Normal _ =>
        r ← handleFetch_try url;
        mret (match r with
              | Throw => s
              | Normal c =>
                  match deduplicateYachts (allYachts c) with
                  | [] => s
                  | found => handleFetch_show found s
                  end
              end)
    end.

End Crawl.

(** What holds of a crawl that started at [url]: the entered page comes
    first among the scanned pages, no page is scanned twice, every record
    was read on a scanned page, and every scanned page but the entered one
    gave a record. *)
Definition crawl_ok (url : jsstring) (c : crawl) : Prop :=
  head (pagesScanned c) = Some url
  /\ NoDup (pagesScanned c)
  /\ Forall (fun y => sourceUrl y ∈ pagesScanned c) (allYachts c)
  /\ (forall u, u ∈ pagesScanned c -> u <> url ->
                exists y, y ∈ allYachts c /\ sourceUrl y = u).

(** The units of a string with every unit that is not an ASCII one
    replaced by one marker, and what a unit becomes under [toLowerCase]
    seen that way: the parts of a lower-cased string that tests against
    ASCII texts depend on. *)
Definition ascii_view (s : jsstring) : jsstring :=
  List.map (fun c => if c <? 128 then c else 128) s.

(** One unit under [toLowerCase], seen through [ascii_view]. *)
Definition ascii_lower (c : N) : jsstring :=
  if c <? 128 then [if is_upper c then c + 32 else c]
  else if c =? 0x130 then [0x69; 128]
  else if c =? 0x212A then [0x6B]
  else if c <? 0x10000 then [128]
  else [128; 128].

(** The check of one entry of the table of lowercase mappings: the entry
    stays within its plane and, lying outside ASCII, maps outside ASCII,
    the Kelvin sign apart. *)
Definition lowercase_range_ok (e : N * N * N * N) : bool :=
  let '(first, last, step, image) := e in
  ((last <? 0x10000) || (0x10000 <=? first))
  && ((0x10000 <=? first) || (image + (last - first) <? 0x10000))
  && ((first <? 0x10000) || (0x10000 <=? image))
  && ((last <? 128) || ((first =? 0x212A) && (last =? 0x212A)) || (128 <=? image))
  && (first <=? last).

(** Whether two records have the same price, [null] treated as 0: both
    have none, or one has none and the other is zero, or both have the
    same number, the two zeros being one number. *)
Definition same_price (p1 p2 : option jsnum) : bool :=
  match p1, p2 with
  | None, None => true
  | None, Some v | Some v, None => num_is_zero v
  | Some v1, Some v2 => bool_decide (v1 = v2) || (num_is_zero v1 && num_is_zero v2)
  end.

(** Whether two records share a key, in the words of the claim: both have
    a non-empty detail address and it is the same, or both have none (or
    an empty one) and they have the same lower-cased trimmed title and the
    same price. *)
Definition same_key (y1 y2 : yacht) : bool :=
  match truthy_ostr (detailUrl y1), truthy_ostr (detailUrl y2) with
  | true, true => bool_decide (detailUrl y1 = detailUrl y2)
  | false, false =>
      bool_decide (trim (toLowerCase (title y1)) = trim (toLowerCase (title y2)))
      && same_price (priceRaw y1) (priceRaw y2)
  | _, _ => false
  end.

(** The small letter of a capital letter [A] to [Z]; any other unit is
    left as it is. *)
Definition small_letter (c : N) : N := if is_upper c then c + 32 else c.

(** Two records in Cyrillic capitals and small letters. *)
Definition cyrillic_duplicates : list yacht :=
  [ set_title [0x42F; 0x425; 0x422; 0x410] (blank_yacht 0 0);
    set_title [0x44F; 0x445; 0x442; 0x430] (blank_yacht 0 1) ].

(** The first run of exactly four digits that stands alone in a text, no
    letter, digit or underscore next to it on either side: the first
    four-digit match of a text.  [prev] is the unit before the text. *)
Definition stands_alone4 (prev : option N) (s : jsstring) : bool :=
  negb (match prev with Some p => is_word p | None => false end)
  && match s with
     | a :: b :: c :: d :: rest =>
         is_digit a && is_digit b && is_digit c && is_digit d
         && negb (match rest with x :: _ => is_word x | [] => false end)
     | _ => false
     end.

Fixpoint first_four_digits_from (prev : option N) (s : jsstring)
  : option jsstring :=
  match s with
  | [] => None
  | x :: s' =>
      if stands_alone4 prev s then Some (take 4 s)
      else first_four_digits_from (Some x) s'
  end.

Definition first_four_digits (text : jsstring) : option jsstring :=
  first_four_digits_from None text.

(** The four-digit texts the pattern of the year covers: 1950 to 2029. *)
Definition year_shaped (digits : jsstring) : bool :=
  match digits with
  | [a; b; c; d] =>
      (((a =? 49) && (b =? 57) && in_range 53 57 c)
       || ((a =? 50) && (b =? 48) && in_range 48 50 c))
      && is_digit d
  | _ => false
  end.

(** The pattern of the year, its sequences written out. *)
Definition year_re : regex :=
  Seq WordB
    (Seq (Group (Alt (Seq (Seq (Char 49) (Seq (Char 57) Empty))
                       (Seq (Class (cls_range 53 57)) (Seq re_d Empty)))
                     (Seq (Seq (Char 50) (Seq (Char 48) Empty))
                       (Seq (Class (cls_range 48 50)) (Seq re_d Empty)))))
       (Seq WordB Empty)).

(* ====================================================================== *)
(** * Properties: the clock monad *)
(* ====================================================================== *)

Lemma bind_createEmptyYacht {B : Type} (index : nat) (k : yacht -> M B)
    (clk : Clock) :
  (createEmptyYacht index ≫= k) clk
  = k (blank_yacht (clk O) index) (fun n => clk (S n)).
Proof. reflexivity. Qed.

(* ====================================================================== *)
(** * Properties: case conversion *)
(* ====================================================================== *)

Lemma range_image_cases (ranges : list (N * N * N * N)) (c : N) :
  range_image ranges c = c
  \/ exists first last step image,
       In (first, last, step, image) ranges
       /\ first <= c <= last
       /\ range_image ranges c = image + (c - first).
Proof.
  induction ranges as [|[[[first last] step] image] rest IH];
    cbn [range_image]; [auto|].
  destruct (c <? first) eqn:E1; [auto|].
  destruct (c <=? last) eqn:E2.
  - destruct (_ =? 0); [|auto]. right. exists first, last, step, image.
    apply N.ltb_ge in E1. apply N.leb_le in E2.
    split; [left; reflexivity|]. split; [lia|reflexivity].
  - destruct IH as [IH|(f & l & s & i & Hin & Hc & IH)]; [auto|].
    right. exists f, l, s, i. split; [right; exact Hin|]. auto.
Qed.

Lemma lowercase_ranges_ok : forallb lowercase_range_ok lowercase_ranges = true.
Proof. vm_compute. reflexivity. Qed.

(** The image of a code point of the basic plane other than an ASCII one
    and the Kelvin sign is one too; the image of a code point beyond the
    basic plane is beyond it. *)
Lemma lower_code_point_planes (c : N) :
  (128 <= c < 0x10000 -> c <> 0x212A -> 128 <= lower_code_point c < 0x10000)
  /\ (0x10000 <= c -> 0x10000 <= lower_code_point c).
Proof.
  unfold lower_code_point.
  destruct (range_image_cases lowercase_ranges c)
    as [->|(first & last & step & image & Hin & Hc & ->)]; [lia|].
  pose proof (proj1 (forallb_forall _ _) lowercase_ranges_ok _ Hin) as Hok.
  cbn beta iota in Hok.
  repeat (apply andb_true_iff in Hok as [Hok ?]).
  repeat match goal with
         | H : _ \/ _ |- _ => destruct H
         | H : _ /\ _ |- _ => destruct H
         | H : (_ || _) = true |- _ => apply orb_true_iff in H
         | H : (_ && _) = true |- _ => apply andb_true_iff in H
         | H : (_ <? _) = true |- _ => apply N.ltb_lt in H
         | H : (_ <=? _) = true |- _ => apply N.leb_le in H
         | H : (_ =? _) = true |- _ => apply N.eqb_eq in H
         end; lia.
Qed.

Lemma lower_code_point_ascii (c : N) :
  c < 128 -> lower_code_point c = if is_upper c then c + 32 else c.
Proof.
  intros Hc. unfold lower_code_point.
  assert (E : lowercase_ranges
              = (0x41, 0x5A, 1, 0x61) :: (0xC0, 0xD6, 1, 0xE0)
                  :: tl (tl lowercase_ranges)) by reflexivity.
  rewrite E. cbn [range_image]. unfold is_upper.
  destruct (c <? 0x41) eqn:E1.
  { apply N.ltb_lt in E1. replace (65 <=? c) with false; [reflexivity|].
    symmetry. apply N.leb_gt. lia. }
  apply N.ltb_ge in E1. replace (65 <=? c) with true by (symmetry; apply N.leb_le; lia).
  cbn [andb]. change 0x5A with 90.
  destruct (c <=? 90) eqn:E2.
  - rewrite N.mod_1_r. cbn [N.eqb]. apply N.leb_le in E2. lia.
  - replace (c <? 0xC0) with true; [reflexivity|].
    symmetry. apply N.ltb_lt. lia.
Qed.

Lemma lower_code_point_kelvin : lower_code_point 0x212A = 0x6B.
Proof. vm_compute. reflexivity. Qed.

Lemma ascii_view_app (s t : jsstring) :
  ascii_view (s ++ t) = ascii_view s ++ ascii_view t.
Proof. apply List.map_app. Qed.

(** The units a code point becomes, seen through [ascii_view]. *)
Lemma ascii_view_lowered (before : list N) (c : N) (r : list N) :
  ascii_view
    (flat_map units_of
       (if c =? 0x3A3
        then [if cased_next before && negb (cased_next r) then 0x3C2 else 0x3C3]
        else if c =? 0x130 then [0x69; 0x307]
        else [lower_code_point c]))
  = ascii_lower c.
Proof.
  unfold ascii_lower.
  destruct (c =? 0x3A3) eqn:Es.
  { apply N.eqb_eq in Es. subst c.
    destruct (_ && _); vm_compute; reflexivity. }
  destruct (c =? 0x130) eqn:Ei.
  { apply N.eqb_eq in Ei. subst c. vm_compute. reflexivity. }
  apply N.eqb_neq in Es, Ei.
  cbn [flat_map]. rewrite app_nil_r.
  destruct (c <? 128) eqn:Ea.
  { apply N.ltb_lt in Ea. rewrite lower_code_point_ascii by exact Ea.
    unfold units_of, is_upper.
    destruct ((65 <=? c) && (c <=? 90)) eqn:Eu.
    - apply andb_true_iff in Eu as [E1 E2]. apply N.leb_le in E1, E2.
      replace (c + 32 <? 0x10000) with true by (symmetry; apply N.ltb_lt; lia).
      cbn [ascii_view List.map].
      replace (c + 32 <? 128) with true by (symmetry; apply N.ltb_lt; lia).
      reflexivity.
    - replace (c <? 0x10000) with true by (symmetry; apply N.ltb_lt; lia).
      cbn [ascii_view List.map].
      replace (c <? 128) with true by (symmetry; apply N.ltb_lt; lia).
      reflexivity. }
  apply N.ltb_ge in Ea.
  destruct (c =? 0x212A) eqn:Ek.
  { apply N.eqb_eq in Ek. subst c. vm_compute. reflexivity. }
  apply N.eqb_neq in Ek.
  destruct (lower_code_point_planes c) as [Hb Hs].
  destruct (c <? 0x10000) eqn:Ep.
  - apply N.ltb_lt in Ep. specialize (Hb (conj Ea Ep) Ek).
    unfold units_of.
    replace (lower_code_point c <? 0x10000) with true
      by (symmetry; apply N.ltb_lt; lia).
    cbn [ascii_view List.map].
    replace (lower_code_point c <? 128) with false
      by (symmetry; apply N.ltb_ge; lia).
    reflexivity.
  - apply N.ltb_ge in Ep. specialize (Hs Ep).
    unfold units_of.
    replace (lower_code_point c <? 0x10000) with false
      by (symmetry; apply N.ltb_ge; lia).
    cbn [ascii_view List.map].
    generalize ((lower_code_point c - 0x10000) / 0x400)
               ((lower_code_point c - 0x10000) mod 0x400).
    intros q r'.
    replace (0xD800 + q <? 128) with false by (symmetry; apply N.ltb_ge; lia).
    replace (0xDC00 + r' <? 128) with false by (symmetry; apply N.ltb_ge; lia).
    reflexivity.
Qed.

Lemma ascii_view_lower_code_points (after : list N) :
  forall before,
    ascii_view (flat_map units_of (lower_code_points before after))
    = flat_map ascii_lower after.
Proof.
  induction after as [|c r IH]; intros before; [reflexivity|].
  cbn [lower_code_points flat_map].
  rewrite flat_map_app, ascii_view_app, IH, ascii_view_lowered. reflexivity.
Qed.

(** Through [ascii_view], the code points of a string give what its units
    give. *)
Lemma ascii_lower_code_points (n : nat) :
  forall s : jsstring,
    (length s <= n)%nat ->
    flat_map ascii_lower (code_points s) = flat_map ascii_lower s.
Proof.
  induction n as [|n IH]; intros s Hn.
  { destruct s; [reflexivity|cbn [length] in Hn; lia]. }
  destruct s as [|h [|l r]]; [reflexivity|reflexivity|].
  cbn [code_points length] in *.
  destruct (is_high_surrogate h && is_low_surrogate l) eqn:Ep.
  - cbn [flat_map]. rewrite IH by lia.
    apply andb_true_iff in Ep as [Eh El].
    unfold is_high_surrogate, is_low_surrogate, in_range in Eh, El.
    apply andb_true_iff in Eh as [Eh1 Eh2]. apply andb_true_iff in El as [El1 El2].
    apply N.leb_le in Eh1, Eh2, El1, El2.
    rewrite app_assoc. f_equal.
    unfold ascii_lower, code_point_of.
    repeat match goal with
           | |- context [?a <? ?b] =>
               first [ replace (a <? b) with false by (symmetry; apply N.ltb_ge; lia)
                     | replace (a <? b) with true by (symmetry; apply N.ltb_lt; lia) ]
           | |- context [?a =? ?b] =>
               replace (a =? b) with false by (symmetry; apply N.eqb_neq; lia)
           end.
    reflexivity.
  - cbn [flat_map]. f_equal. apply (IH (l :: r)). cbn [length]. lia.
Qed.

(** What [toLowerCase] gives, seen through [ascii_view], is made unit by
    unit. *)
Lemma ascii_view_toLowerCase (s : jsstring) :
  ascii_view (toLowerCase s) = flat_map ascii_lower s.
Proof.
  unfold toLowerCase.
  rewrite ascii_view_lower_code_points.
  apply (ascii_lower_code_points (length s)). lia.
Qed.

Lemma startsWith_ascii_view (p : jsstring) :
  forall s, forallb (fun c => c <? 128) p = true ->
            startsWith (ascii_view s) p = startsWith s p.
Proof.
  induction p as [|x p IH]; intros s Hp; [destruct s; reflexivity|].
  cbn [forallb] in Hp. apply andb_true_iff in Hp as [Hx Hp].
  destruct s as [|y s]; [reflexivity|].
  cbn [ascii_view List.map startsWith].
  fold (ascii_view s). rewrite (IH s Hp). f_equal.
  apply N.ltb_lt in Hx.
  destruct (y <? 128) eqn:Ey; [reflexivity|].
  apply N.ltb_ge in Ey.
  transitivity false; [apply N.eqb_neq; lia|symmetry; apply N.eqb_neq; lia].
Qed.

Lemma includes_ascii_view (p : jsstring) (s : jsstring) :
  forallb (fun c => c <? 128) p = true ->
  includes (ascii_view s) p = includes s p.
Proof.
  intros Hp. induction s as [|y s IH].
  - cbn [ascii_view List.map includes].
    rewrite <- (startsWith_ascii_view p [] Hp). reflexivity.
  - cbn [ascii_view List.map includes]. fold (ascii_view s).
    rewrite <- IH.
    rewrite <- (startsWith_ascii_view p (y :: s) Hp). reflexivity.
Qed.

(** On a string of ASCII units, lower-casing replaces each capital letter
    [A] to [Z] by its small letter and leaves every other unit as it
    is. *)
Lemma toLowerCase_ascii (s : jsstring) :
  forallb (fun c => c <? 128) s = true ->
  toLowerCase s = List.map (fun c => if is_upper c then c + 32 else c) s.
Proof.
  intros Hs. unfold toLowerCase.
  assert (Hcp : code_points s = s).
  { induction s as [|h t IH]; [reflexivity|].
    cbn [forallb] in Hs. apply andb_true_iff in Hs as [Hh Ht].
    cbn [code_points]. destruct t as [|l r]; [reflexivity|].
    replace (is_high_surrogate h) with false.
    - cbn [andb]. f_equal. apply IH, Ht.
    - symmetry. unfold is_high_surrogate, in_range.
      apply N.ltb_lt in Hh. apply andb_false_iff. left. apply N.leb_gt. lia. }
  rewrite Hcp. clear Hcp.
  generalize (@nil N) as before.
  induction s as [|c r IH]; intros before; [reflexivity|].
  cbn [forallb] in Hs. apply andb_true_iff in Hs as [Hc Hr].
  apply N.ltb_lt in Hc.
  cbn [lower_code_points List.map].
  replace (c =? 0x3A3) with false by (symmetry; apply N.eqb_neq; lia).
  replace (c =? 0x130) with false by (symmetry; apply N.eqb_neq; lia).
  cbn [app flat_map]. rewrite (IH Hr).
  rewrite lower_code_point_ascii by exact Hc.
  unfold units_of, is_upper.
  destruct ((65 <=? c) && (c <=? 90)) eqn:Eu.
  - apply andb_true_iff in Eu as [E1 E2]. apply N.leb_le in E1, E2.
    replace (c + 32 <? 0x10000) with true by (symmetry; apply N.ltb_lt; lia).
    reflexivity.
  - replace (c <? 0x10000) with true by (symmetry; apply N.ltb_lt; lia).
    reflexivity.
Qed.

Example toLowerCase_cyrillic :
  toLowerCase [0x42F; 0x425; 0x422; 0x410] = [0x44F; 0x445; 0x442; 0x430].
Proof. vm_compute. reflexivity. Qed.

Example toLowerCase_final_sigma :
  toLowerCase [0x39F; 0x394; 0x39F; 0x3A3; 0x20; 0x3A3; 0x395]
  = [0x3BF; 0x3B4; 0x3BF; 0x3C2; 0x20; 0x3C3; 0x3B5].
Proof. vm_compute. reflexivity. Qed.

Example toLowerCase_deseret :
  toLowerCase [0xD801; 0xDC00; 0xD801] = [0xD801; 0xDC28; 0xD801].
Proof. vm_compute. reflexivity. Qed.

(* ====================================================================== *)
(** * Properties: price parser *)
(* ====================================================================== *)

Lemma clean_amount_european :
  clean_amount (js "1.234.567,00") = js "123456700".
Proof. reflexivity. Qed.

Lemma extractPrice_us_grouping :
  raw (extractPrice (js "Asking $1,234,567 ono")) = Some (num_of_N 1234567)
  /\ currency (extractPrice (js "Asking $1,234,567 ono")) = Some USD.
Proof. split; vm_compute; reflexivity. Qed.

Lemma extractPrice_boundary_999_1000 :
  raw (extractPrice (js "$999")) = None
  /\ raw (extractPrice (js "$1000")) = Some (num_of_N 1000).
Proof. split; vm_compute; reflexivity. Qed.

(** C1: on text with the European-grouped price [<euro>1.234.567,00] the price
    parser does not return 1234567.  With the euro sign read as one code
    unit, and with the sign as the file stores it, the amount comes out as
    123456700, currency EUR: the comma is deleted before the dots are
    looked at, so the two cents digits are appended.  As the file stands,
    the bare text with a real euro sign matches no pattern at all; followed
    by [EUR] it is read through the suffix pattern, again as 123456700. *)
Theorem extractPrice_european_grouping_misread :
  let amount := js "1.234.567,00" in
  extractPrice_with EURO_SIGN POUND_SIGN (EURO_SIGN ++ amount)
    = {| raw := Some (num_of_N 123456700);
         formatted := EURO_SIGN ++ js "123,456,700";
         currency := Some EUR |}
  /\ extractPrice (EURO_LIT ++ amount)
    = {| raw := Some (num_of_N 123456700);
         formatted := EURO_LIT ++ js "123,456,700";
         currency := Some EUR |}
  /\ extractPrice (EURO_SIGN ++ amount) = no_price
  /\ extractPrice (EURO_SIGN ++ amount ++ js " EUR")
    = {| raw := Some (num_of_N 123456700);
         formatted := EURO_LIT ++ js "123,456,700";
         currency := Some EUR |}.
Proof. repeat split; vm_compute; reflexivity. Qed.

(* ====================================================================== *)
(** * Properties: confidence *)
(* ====================================================================== *)

Lemma round_percent_100 (score : Z) : round_percent score 100 = score.
Proof.
  unfold round_percent. symmetry.
  apply Z.div_unique with (r := 100%Z); lia.
Qed.

(** The score is between 0 and 110, and at most 100 without the bonus. *)
Lemma calculateConfidence_range (y : yacht) :
  (0 <= calculateConfidence y <= 110)%Z
  /\ (has_bonus_source y = false -> (calculateConfidence y <= 100)%Z).
Proof.
  unfold calculateConfidence.
  change (0 + 35 + 25 + 15 + 10 + 5 + 5 + 5)%Z with 100%Z.
  rewrite round_percent_100.
  destruct (truthy_str (title y)), (0 <? length (images y))%nat,
    (truthy_onum (priceRaw y) &&
       match priceRaw y with Some v => num_gt0 v | None => false end),
    (truthy_str (year y)), (truthy_str (ylength y)), (truthy_str (ytype y)),
    (truthy_str (location y)), (has_bonus_source y);
    split; try lia; intros; try discriminate; lia.
Qed.

(** C4: the recomputed confidence is not always in 0..100: a record from
    the linked-data strategy with every scored field present scores 110. *)
Theorem calculateConfidence_exceeds_100 :
  source completed_json_ld_record = js "json-ld"
  /\ calculateConfidence completed_json_ld_record = 110%Z.
Proof. split; vm_compute; reflexivity. Qed.

(* ====================================================================== *)
(** * Properties: structured-data records *)
(* ====================================================================== *)

Lemma image_urls_strings (addresses : list jsstring) :
  image_urls (List.map ImgString addresses) = Normal (List.map Some addresses).
Proof.
  induction addresses as [|a l IH]; cbn [image_urls List.map]; [reflexivity|].
  rewrite IH. reflexivity.
Qed.

(** The linked-data strategy copies the image addresses of a product as
    they are: every non-empty address is in [images], whatever it is. *)
Lemma parseJsonLdProduct_images_copied (data : ld_node) (clk : Clock) (y : yacht)
    (addresses : list jsstring) :
  ld_image_of data = ManyImages (List.map ImgString addresses) ->
  fst (parseJsonLdProduct data clk) = Normal y ->
  images y = filter_Boolean (List.map Some addresses).
Proof.
  intros Himg.
  unfold parseJsonLdProduct. rewrite bind_createEmptyYacht.
  unfold mret, M_ret, ret. cbn [fst]. cbv zeta.
  destruct (ld_read_offers data _) as [y2|]; [|discriminate].
  unfold ld_read_images. rewrite Himg, image_urls_strings.
  intros [= <-]. unfold ld_read_year.
  destruct (str_match _ _); reflexivity.
Qed.

(** C7: the images of a record in the orchestrator's output can hold an
    inline [data:] address and an address the image-validity rule rejects:
    the linked-data strategy copies the addresses as they are. *)
Theorem json_ld_images_unfiltered :
  List.map images
    (yachts_of (fst (parseYachtListings (simple_host 2025) page_inline_image
                       page_url (still_clock 1700000000000))))
  = [[Some inline_image; Some logo_image]]
  /\ startsWith inline_image (js "data:") = true
  /\ resolveUrl (simple_host 2025) (JStr inline_image) page_url = Normal None
  /\ excluded_src logo_image = true.
Proof. repeat split; vm_compute; reflexivity. Qed.

(** Every record of the linked-data strategy has the clock reading and the
    index 0 for id, whatever the product is. *)
Lemma parseJsonLdProduct_id (data : ld_node) (clk : Clock) (y : yacht) :
  fst (parseJsonLdProduct data clk) = Normal y ->
  yid y = js "yacht-" ++ print_N (clk O) ++ js "-0".
Proof.
  unfold parseJsonLdProduct. rewrite bind_createEmptyYacht.
  unfold mret, M_ret, ret. cbn [fst]. cbv zeta.
  match goal with
  | |- context [ld_read_offers data ?t] =>
      assert (H1 : yid t = js "yacht-" ++ print_N (clk O) ++ js "-0")
        by reflexivity;
      generalize dependent t
  end.
  intros y1 H1.
  destruct (ld_read_offers data y1) as [y2|] eqn:E2; [|discriminate].
  destruct (ld_read_images data y2) as [y3|] eqn:E3; [|discriminate].
  intros [= <-].
  assert (H2 : yid y2 = yid y1).
  { unfold ld_read_offers in E2.
    destruct (ld_offers_of data) as [|o|[|o l]]; cbn in E2;
      try discriminate; injection E2 as <-; reflexivity. }
  assert (H3 : yid y3 = yid y2).
  { unfold ld_read_images in E3.
    destruct (ld_image_of data) as [|[[|c s]|u|]|l];
      try (injection E3 as <-; reflexivity);
      match type of E3 with
      | context [image_urls ?l] => destruct (image_urls l)
      end;
      try discriminate; injection E3 as <-; reflexivity. }
  unfold ld_read_year.
  destruct (str_match _ _); cbn [yid set_year]; congruence.
Qed.

(** C8: two records of one run can carry the same id: the linked-data
    strategy creates every record with index 0, so two products read
    within one millisecond get the same id. *)
Theorem json_ld_ids_collide :
  List.map yid
    (yachts_of (fst (parseYachtListings (simple_host 2025) page_two_products
                       page_url (still_clock 1700000000000))))
  = [js "yacht-1700000000000-0"; js "yacht-1700000000000-0"].
Proof. vm_compute; reflexivity. Qed.

(** With a clock that moves between the two reads the ids differ. *)
Lemma json_ld_ids_with_ticking_clock :
  List.map yid
    (yachts_of (fst (parseYachtListings (simple_host 2025) page_two_products
                       page_url (ticking_clock 1700000000000))))
  = [js "yacht-1700000000000-0"; js "yacht-1700000000001-0"].
Proof. vm_compute; reflexivity. Qed.

(* ====================================================================== *)
(** * Properties: spec extractor *)
(* ====================================================================== *)

Lemma extractSpecs_length_keeps pats text y :
  year (extractSpecs_length pats text y) = year y
  /\ title (extractSpecs_length pats text y) = title y.
Proof.
  induction pats as [|[source_text p] rest IH]; simpl; [tauto|].
  destruct (str_match text p) as [m|]; [|exact IH].
  destruct (parseFloat _) as [len|]; [|exact IH].
  destruct (num_ge len 15 && num_le len 500); [split; reflexivity|exact IH].
Qed.

Lemma extractSpecs_type_keeps kws text y :
  year (extractSpecs_type kws text y) = year y
  /\ title (extractSpecs_type kws text y) = title y.
Proof.
  induction kws as [|[keyword type] rest IH]; simpl; [tauto|].
  destruct (includes text keyword); [split; reflexivity|exact IH].
Qed.

Lemma extractSpecs_location_keeps pats text y :
  year (extractSpecs_location pats text y) = year y
  /\ title (extractSpecs_location pats text y) = title y.
Proof.
  induction pats as [|p rest IH]; simpl; [tauto|].
  destruct (str_match text p) as [m|]; [|exact IH].
  destruct (_ && _); [split; reflexivity|exact IH].
Qed.

Lemma extractSpecs_year_keeps_title (host : Host) text y :
  title (extractSpecs_year host text y) = title y.
Proof.
  unfold extractSpecs_year.
  destruct (str_match text year_pattern) as [m|]; [|reflexivity].
  destruct (parseInt _) as [yr|]; [|reflexivity].
  destruct ((1950 <=? yr)%Z && _); reflexivity.
Qed.

(** The year of the record after [extractSpecs] is the one its year step
    leaves. *)
Lemma extractSpecs_year_field (host : Host) element y :
  year (extractSpecs host element y)
  = year (extractSpecs_year host (textContent element) y).
Proof.
  unfold extractSpecs.
  rewrite (proj1 (extractSpecs_location_keeps _ _ _)).
  rewrite (proj1 (extractSpecs_type_keeps _ _ _)).
  rewrite (proj1 (extractSpecs_length_keeps _ _ _)).
  reflexivity.
Qed.

Lemma extractSpecs_keeps_title (host : Host) element y :
  title (extractSpecs host element y) = title y.
Proof.
  unfold extractSpecs.
  rewrite (proj2 (extractSpecs_location_keeps _ _ _)).
  rewrite (proj2 (extractSpecs_type_keeps _ _ _)).
  rewrite (proj2 (extractSpecs_length_keeps _ _ _)).
  apply extractSpecs_year_keeps_title.
Qed.

(** In context: the first standalone four-digit run in 1950..2029 is the
    one that is tested. *)
Lemma extractSpecs_year_in_context :
  year (extractSpecs (simple_host 2025)
          (text_node (js "Hull no. 1949, built 1987, refit 2019")) (empty_yacht 0 0))
  = js "1987".
Proof. vm_compute; reflexivity. Qed.

(** The claim C9 as stated fails: with the current year 2025, the text
    [2026] sets the year of a fresh record. *)
Lemma extractSpecs_accepts_next_year :
  year (empty_yacht 0 0) = []
  /\ year (extractSpecs (simple_host 2025) (text_node (js "2026")) (empty_yacht 0 0))
     = js "2026".
Proof. split; vm_compute; reflexivity. Qed.

(* ====================================================================== *)
(** * Properties: generic heuristic fallback *)
(* ====================================================================== *)

Lemma acceptable_title_nonempty (t : jsstring) :
  acceptable_title t = true -> truthy_str t = true.
Proof.
  unfold acceptable_title. destruct t as [|c t]; [|reflexivity].
  simpl. discriminate.
Qed.

(** The title after the title step: that of the first acceptable heading,
    or the one the record had. *)
Lemma pick_title_title (headings : list node) (y : yacht) :
  truthy_str (title (pick_title headings y))
  = existsb (fun h => acceptable_title (cleanText (textContent h))) headings
    || truthy_str (title y).
Proof.
  induction headings as [|h rest IH]; simpl; [reflexivity|].
  destruct (acceptable_title (cleanText (textContent h))) eqn:E; simpl.
  - apply acceptable_title_nonempty, E.
  - exact IH.
Qed.

(** The claim C5 as stated fails: a card in the window with a valid price
    and no title is dropped. *)
Lemma generic_card_price_without_title_dropped :
  in_window (textContent priced_card_without_title) = true
  /\ yields_valid_price priced_card_without_title = true
  /\ yields_title priced_card_without_title = false
  /\ fst (extractFromGenericCard (simple_host 2025) priced_card_without_title
            page_url 0 (still_clock 1700000000000)) = None.
Proof. repeat split; vm_compute; reflexivity. Qed.

(** C5 (amended): in the generic heuristic fallback, a candidate card
    whose text length is within the plausible window is kept exactly when
    it yields a title; a valid price is neither needed nor enough. *)
Theorem generic_card_kept_iff_title (host : Host) (card : node)
    (baseUrl : jsstring) (index : nat) (clk : Clock) :
  in_window (textContent card) = true ->
  (fst (extractFromGenericCard host card baseUrl index clk) <> None
   <-> yields_title card = true).
Proof.
  unfold in_window, yields_title, extractFromGenericCard. intros Hw.
  apply andb_true_iff in Hw as [Hlo Hhi].
  apply Nat.leb_le in Hlo, Hhi.
  rewrite bind_createEmptyYacht.
  replace (length (textContent card) <? 20)%nat with false
    by (symmetry; apply Nat.ltb_ge; lia).
  replace (5000 <? length (textContent card))%nat with false
    by (symmetry; apply Nat.ltb_ge; lia).
  cbn [orb]. cbv zeta.
  rewrite extractSpecs_keeps_title.
  match goal with
  | |- context [title (match ?o with Some x => @?a x | None => ?y end)] =>
      replace (title (match o with Some x => a x | None => y end)) with (title y)
        by (destruct o; reflexivity)
  end.
  cbn [title set_conf_images set_images set_confidence].
  rewrite pick_title_title.
  match goal with
  | |- context [existsb ?f ?l || truthy_str (title ?y)] =>
      replace (truthy_str (title y)) with false
  end.
  - rewrite orb_false_r.
    destruct (existsb _ _); unfold mret, M_ret, ret; cbn [negb fst];
      split; congruence.
  - destruct (raw (extractPrice (textContent card))) as [r|]; [|reflexivity].
    destruct (truthy_num r && _ && _); reflexivity.
Qed.

Lemma generic_card_kept_iff_title_witness :
  fst (extractFromGenericCard (simple_host 2025) (listing_card 1)
         page_url 0 (still_clock 1700000000000)) <> None
  <-> yields_title (listing_card 1) = true.
Proof.
  apply (generic_card_kept_iff_title (simple_host 2025) (listing_card 1)
           page_url 0 (still_clock 1700000000000)).
  vm_compute; reflexivity.
Defined.

(** A card with a title and no price is kept. *)
Lemma generic_card_title_without_price_kept :
  let card :=
    container (js "Sunseeker Manhattan 52, price on request")
      [(SEL_HEADINGS, [text_node (js "Sunseeker Manhattan 52")])] in
  yields_valid_price card = false
  /\ option_map title
       (fst (extractFromGenericCard (simple_host 2025) card page_url 0
               (still_clock 1700000000000)))
     = Some (js "Sunseeker Manhattan 52").
Proof. split; vm_compute; reflexivity. Qed.

(* ====================================================================== *)
(** * Properties: address resolution *)
(* ====================================================================== *)

Lemma data_and_http_exclusive (u : jsstring) :
  startsWith u (js "data:") = true -> startsWith u (js "http") = true -> False.
Proof.
  destruct u as [|c u]; [discriminate|].
  cbn [js List.map list_ascii_of_string startsWith].
  intros H1 H2.
  apply andb_true_iff in H1 as [H1 _], H2 as [H2 _].
  apply N.eqb_eq in H1, H2. rewrite <- H1 in H2. discriminate.
Qed.

(** [resolveUrl] completes normally on every string and on an absent
    value.  It returns [null] when the address is absent or empty or
    starts with [data:]; it returns the address itself when it starts
    with [http], whatever the base address is; and it returns [null] when
    the base address, or the relative address against it, cannot be
    parsed. *)
Lemma resolveUrl_on_strings (host : Host) (url : option jsstring)
    (baseUrl : jsstring) :
  exists v : option jsstring,
    resolveUrl host (of_prop url) baseUrl = Normal v
    /\ (truthy_ostr url = false -> v = None)
    /\ (forall u, url = Some u -> startsWith u (js "data:") = true -> v = None)
    /\ (forall u, url = Some u -> startsWith u (js "http") = true -> v = Some u)
    /\ (forall u, url = Some u -> truthy_str u = true ->
        startsWith u (js "data:") = false -> startsWith u (js "http") = false ->
        new_URL host baseUrl = Throw
        \/ (startsWith u (js "//") = false /\ startsWith u (js "/") = false
            /\ new_URL_rel host u baseUrl = Throw) ->
        v = None).
Proof.
  unfold resolveUrl, of_prop.
  destruct url as [[|c u]|].
  - exists None. repeat split; intros; simplify_eq; try done; congruence.
  - cbn [truthy_str negb].
    destruct (startsWith (c :: u) (js "data:")) eqn:Ed.
    { exists None. repeat split; intros; simplify_eq; try done.
      exfalso; eauto using data_and_http_exclusive. }
    destruct (startsWith (c :: u) (js "http")) eqn:Eh.
    { exists (Some (c :: u)). repeat split; intros; simplify_eq; try done; congruence. }
    destruct (new_URL host baseUrl) as [base|] eqn:Eb; cbn [try_catch].
    2:{ exists None. repeat split; intros; simplify_eq; try done; congruence. }
    destruct (startsWith (c :: u) (js "//")) eqn:E2.
    { eexists. split; [reflexivity|].
      repeat split; intros; simplify_eq; try done;
        destruct_or?; destruct_and?; congruence. }
    destruct (startsWith (c :: u) (js "/")) eqn:E1.
    { eexists. split; [reflexivity|].
      repeat split; intros; simplify_eq; try done;
        destruct_or?; destruct_and?; congruence. }
    destruct (new_URL_rel host (c :: u) baseUrl) as [r|] eqn:Er.
    + eexists. split; [reflexivity|].
      repeat split; intros; simplify_eq; try done;
        destruct_or?; destruct_and?; congruence.
    + exists None. repeat split; intros; simplify_eq; try done; congruence.
  - exists None. repeat split; intros; simplify_eq; try done; congruence.
Qed.

(** [null] and [undefined] are absent values alike. *)
Lemma resolveUrl_on_null (host : Host) (baseUrl : jsstring) :
  resolveUrl host JNull baseUrl = Normal None
  /\ resolveUrl host JUndefined baseUrl = Normal None.
Proof. split; reflexivity. Qed.

(** C10: [resolveUrl] does not complete normally on every input.  On a
    value that is truthy and not a string, whatever the base address, the
    guard on absent values lets it through and the call of [startsWith]
    on it throws: so it is with the [href] of an SVG anchor, which the
    adapter of the listing theme passes for the title link of a card. *)
Theorem resolveUrl_throws_on_object (host : Host) (baseUrl : jsstring) :
  (forall shown, resolveUrl host (JObj shown) baseUrl = Throw)
  /\ resolveUrl host (href (svg_link_node "/boats/1" "Sea Breeze")) baseUrl = Throw.
Proof. split; reflexivity. Qed.

(** The value used by the callers is the one [resolveUrl] completes with. *)
Lemma resolveUrl_value_spec (host : Host) (url : option jsstring)
    (baseUrl : jsstring) :
  resolveUrl host (of_prop url) baseUrl = Normal (resolveUrl_value host url baseUrl).
Proof.
  unfold resolveUrl_value, resolveUrl, of_prop.
  destruct url as [u|]; [|reflexivity].
  destruct (negb (truthy_str u)); [reflexivity|].
  destruct (startsWith u (js "data:")); [reflexivity|].
  destruct (startsWith u (js "http")); [reflexivity|].
  destruct (new_URL host baseUrl) as [base|]; [|reflexivity].
  destruct (startsWith u (js "//")); [reflexivity|].
  destruct (startsWith u (js "/")); [reflexivity|].
  destruct (new_URL_rel host u baseUrl); reflexivity.
Qed.

Lemma resolveUrl_examples :
  let host := simple_host 2025 in
  let base := js "https://broker.example/boats/list.html" in
  resolveUrl host JUndefined base = Normal None
  /\ resolveUrl host (JStr inline_image) base = Normal None
  /\ resolveUrl host (JStr (js "http://cdn.example/a.jpg")) (js "::") =
       Normal (Some (js "http://cdn.example/a.jpg"))
  /\ resolveUrl host (JStr (js "//cdn.example/a.jpg")) base =
       Normal (Some (js "https://cdn.example/a.jpg"))
  /\ resolveUrl host (JStr (js "/img/a.jpg")) base =
       Normal (Some (js "https://broker.example/img/a.jpg"))
  /\ resolveUrl host (JStr (js "img/a.jpg")) base =
       Normal (Some (js "https://broker.example/boats/img/a.jpg"))
  /\ resolveUrl host (JStr (js "img/a.jpg")) (js "not an address") = Normal None.
Proof. repeat split; vm_compute; reflexivity. Qed.

(* ====================================================================== *)
(** * Properties: adapter dispatch *)
(* ====================================================================== *)

(** When every adapter is passed over, dispatch yields no record. *)
Lemma dispatch_all_passed_over (d : node) (sourceUrl : jsstring)
    (adapters : list adapter) (clk clk' : Clock) :
  passed_over d sourceUrl adapters clk clk' ->
  dispatch adapters d sourceUrl clk = ([], clk').
Proof.
  induction 1 as [clk|a rest clk clk' Hd _ IH|a rest clk clk1 clk' Hd Hp _ IH];
    cbn [dispatch].
  - reflexivity.
  - rewrite Hd. exact IH.
  - rewrite Hd. unfold mbind, M_bind, bind. rewrite Hp. exact IH.
Qed.

(** C2: dispatch selects the first adapter, in registration order, whose
    [detect] returns true and whose [parse] returns at least one record:
    when every adapter before [a] either does not detect or detects and
    parses to nothing, and [a] detects and parses to a non-empty list, the
    result is that list.  An adapter that detects and parses to nothing
    does not stop the loop. *)
Theorem dispatch_first_productive (d : node) (sourceUrl : jsstring)
    (pre post : list adapter) (a : adapter) (clk clk' : Clock) :
  passed_over d sourceUrl pre clk clk' ->
  detect a d sourceUrl = true ->
  fst (parse a d sourceUrl clk') <> [] ->
  dispatch (pre ++ a :: post) d sourceUrl clk = parse a d sourceUrl clk'.
Proof.
  intros Hpre Hdet Hne.
  induction Hpre as [clk|b rest clk clk' Hd _ IH|b rest clk clk1 clk' Hd Hp _ IH];
    cbn [dispatch app].
  - rewrite Hdet. unfold mbind, M_bind, bind.
    destruct (parse a d sourceUrl clk) as [[|y ys] c]; [|reflexivity].
    exfalso. apply Hne. reflexivity.
  - rewrite Hd. apply IH, Hne.
  - rewrite Hd. unfold mbind, M_bind, bind. rewrite Hp. apply IH, Hne.
Qed.

Lemma dispatch_first_productive_witness :
  let d := text_node [] in
  let clk := still_clock 1700000000000 in
  dispatch ([adapter_empty; adapter_blind] ++ adapter_one "second" :: [adapter_one "third"])
    d page_url clk
  = parse (adapter_one "second") d page_url clk.
Proof.
  apply (dispatch_first_productive (text_node []) page_url
           [adapter_empty; adapter_blind] [adapter_one "third"]
           (adapter_one "second")
           (still_clock 1700000000000) (still_clock 1700000000000)).
  - apply passed_empty with (clk1 := still_clock 1700000000000);
      [reflexivity|reflexivity|].
    apply passed_undetected; [reflexivity|]. apply passed_nil.
  - reflexivity.
  - vm_compute. discriminate.
Defined.

Lemma dispatch_example :
  List.map source
    (fst (dispatch [adapter_empty; adapter_blind; adapter_one "second"; adapter_one "third"]
            (text_node []) page_url (still_clock 1700000000000)))
  = [js "second"].
Proof. vm_compute; reflexivity. Qed.

(** On the registry of the program: the first adapter detects and finds
    nothing, the second does not detect, the third is used. *)
Lemma dispatch_registry_example :
  let host := simple_host 2025 in
  let clk := still_clock 1700000000000 in
  List.map (fun a => detect a doc_detected_but_empty page_url) (SITE_ADAPTERS host)
  = [true; false; true; false; false]
  /\ fst (parse (wp_listing_theme host) doc_detected_but_empty page_url clk) = []
  /\ List.map (fun y => (title y, source y))
       (fst (dispatch (SITE_ADAPTERS host) doc_detected_but_empty page_url clk))
     = [(js "Azimut 55 Flybridge", js "yachtworld-style")].
Proof. repeat split; vm_compute; reflexivity. Qed.

(* ====================================================================== *)
(** * Properties: the filter of the orchestrator *)
(* ====================================================================== *)

Lemma dedupe_from_incl (yachts : list yacht) :
  forall (seenUrls seenTitles : gset jsstring) (y : yacht),
    In y (dedupe_from seenUrls seenTitles yachts) -> In y yachts.
Proof.
  induction yachts as [|x rest IH]; intros U T y; cbn [dedupe_from];
    [intros []|].
  destruct (detailUrl x) as [[|c u]|]; case_bool_decide; intros Hin;
    try (right; eapply IH; exact Hin);
    (destruct Hin as [->|Hin]; [left; reflexivity|right; eapply IH; exact Hin]).
Qed.

Lemma filter_step_kept (sourceUrl : jsstring) (yachts : list yacht) :
  forall (dbg : debug_t) (y : yacht),
    In y (fst (filter_step sourceUrl yachts dbg)) ->
    truthy_str (title y) || truthy_onum (priceRaw y) = true.
Proof.
  induction yachts as [|x rest IH]; intros dbg y; cbn [filter_step fst];
    [intros []|].
  cbv zeta.
  destruct (_ <? _)%Z; [apply IH|].
  destruct (negb (truthy_str _) && negb (truthy_onum _)) eqn:E; [apply IH|].
  destruct (filter_step sourceUrl rest _) as [kept dbg'] eqn:Er.
  cbn [fst]. intros [<-|H].
  - cbn [title priceRaw set_sourceUrl set_issues set_overall set_confidence] in *.
    destruct (truthy_str (title x)), (truthy_onum (priceRaw x)); cbn in *; congruence.
  - eapply IH. rewrite Er. exact H.
Qed.

Lemma truthy_excludes_no_title_no_price (y : yacht) :
  truthy_str (title y) || truthy_onum (priceRaw y) = true ->
  ~ no_title_no_price y.
Proof.
  intros H [Ht Hp]. rewrite Ht in H. cbn in H.
  destruct Hp as [Hp|(v & Hp & Hz)]; rewrite Hp in H; cbn in H; [discriminate|].
  unfold truthy_num in H. rewrite Hz in H. discriminate.
Qed.

(** The filter does its work whatever the registry of adapters is. *)
Lemma parseYachtListings_with_filtered (host : Host) (adapters : list adapter)
    (p : page) (sourceUrl : jsstring) (clk : Clock) :
  Forall (fun y => truthy_str (title y) || truthy_onum (priceRaw y) = true)
    (yachts_of (fst (parseYachtListings_with host adapters p sourceUrl clk))).
Proof.
  unfold parseYachtListings_with. cbv zeta.
  destruct (negb (valid (validateYachtSite (html p)))).
  { constructor. }
  unfold mbind, M_bind, bind.
  destruct (extractStructuredData p clk) as [structured clk1].
  match goal with
  | |- context [let '(a, c) := ?m clk1 in _] => destruct (m clk1) as [yachts1 clk2]
  end.
  match goal with
  | |- context [let '(a, c) := ?m clk2 in _] => destruct (m clk2) as [yachts2 clk3]
  end.
  destruct (filter_step sourceUrl yachts2 _) as [kept dbg] eqn:Ef.
  cbn [ret fst yachts_of].
  apply Forall_forall. intros y Hy.
  eapply (filter_step_kept sourceUrl yachts2). rewrite Ef. cbn [fst].
  apply list_elem_of_In in Hy.
  exact (dedupe_from_incl kept _ _ y Hy).
Qed.

(** C3: no record with an empty title and a null-or-zero [priceRaw] is in
    the output of [parseYachtListings], whatever the page, the address and
    the clock. *)
Theorem parseYachtListings_drops_untitled_unpriced (host : Host) (p : page)
    (sourceUrl : jsstring) (clk : Clock) :
  Forall (fun y => ~ no_title_no_price y)
    (yachts_of (fst (parseYachtListings host p sourceUrl clk))).
Proof.
  unfold parseYachtListings.
  eapply Forall_impl; [apply parseYachtListings_with_filtered|].
  intros y Hy. apply truthy_excludes_no_title_no_price, Hy.
Qed.

(* ====================================================================== *)
(** * Properties: printing of numbers *)
(* ====================================================================== *)

Lemma js_inj (a b : string) : js a = js b -> a = b.
Proof.
  unfold js. intros H.
  rewrite <- (string_of_list_ascii_of_string a), <- (string_of_list_ascii_of_string b).
  f_equal.
  assert (Hinv : forall l : list ascii,
             List.map ascii_of_N (List.map N_of_ascii l) = l).
  { induction l as [|x l IH]; cbn [List.map]; [reflexivity|].
    rewrite ascii_N_embedding, IH. reflexivity. }
  rewrite <- (Hinv (list_ascii_of_string a)), <- (Hinv (list_ascii_of_string b)).
  rewrite H. reflexivity.
Qed.

Lemma print_uint_inj (u v : uint) : print_uint u = print_uint v -> u = v.
Proof.
  unfold print_uint. intros H. apply js_inj in H.
  assert (E : Some u = Some v)
    by (rewrite <- (NilEmpty.usu u), <- (NilEmpty.usu v), H; reflexivity).
  congruence.
Qed.

Lemma print_uint_digits (u : uint) : forallb is_digit (print_uint u) = true.
Proof.
  induction u; [reflexivity|..]; exact IHu.
Qed.

Lemma print_N_inj (n m : N) : print_N n = print_N m -> n = m.
Proof.
  unfold print_N. intros H. apply print_uint_inj in H.
  apply DecimalN.Unsigned.to_uint_inj, H.
Qed.

Lemma print_N_head (n : N) :
  exists c rest, print_N n = c :: rest /\ is_digit c = true.
Proof.
  pose proof (print_uint_digits (N.to_uint n)) as Hd.
  unfold print_N. destruct (print_uint (N.to_uint n)) as [|c rest] eqn:E.
  - exfalso. change [] with (print_uint Nil) in E. apply print_uint_inj in E.
    pose proof (DecimalN.Unsigned.of_to n) as Hn. rewrite E in Hn.
    cbn in Hn. subst n. discriminate.
  - exists c, rest. split; [reflexivity|].
    cbn [forallb] in Hd. apply andb_true_iff in Hd. tauto.
Qed.

Lemma print_fraction_inj (f g : uint) :
  print_fraction f = print_fraction g -> f = g.
Proof.
  assert (Hne : forall u, u <> Nil -> print_fraction u = 46 :: print_uint u)
    by (intros [] H; [congruence|reflexivity..]).
  destruct (decide (f = Nil)) as [->|Hf], (decide (g = Nil)) as [->|Hg].
  - reflexivity.
  - rewrite (Hne g Hg). discriminate.
  - rewrite (Hne f Hf). discriminate.
  - rewrite (Hne f Hf), (Hne g Hg). intros [= H]. apply print_uint_inj, H.
Qed.

Lemma print_fraction_head (f : uint) :
  match print_fraction f with [] => True | c :: _ => is_digit c = false end.
Proof. destruct f; cbn; auto. Qed.

(** A run of digits followed by something that does not start with a
    digit splits in one way only. *)
Lemma digits_then_rest (a : jsstring) :
  forall (b r1 r2 : jsstring),
    forallb is_digit a = true -> forallb is_digit b = true ->
    match r1 with [] => True | c :: _ => is_digit c = false end ->
    match r2 with [] => True | c :: _ => is_digit c = false end ->
    a ++ r1 = b ++ r2 -> a = b /\ r1 = r2.
Proof.
  induction a as [|x a IH]; intros [|y b] r1 r2 Ha Hb H1 H2 E; cbn in *.
  - auto.
  - subst r1. apply andb_true_iff in Hb as [Hy _]. congruence.
  - subst r2. apply andb_true_iff in Ha as [Hx _]. congruence.
  - apply andb_true_iff in Ha as [_ Ha], Hb as [_ Hb].
    injection E as -> E. destruct (IH b r1 r2 Ha Hb H1 H2 E) as [-> ->]. auto.
Qed.

Lemma priceRaw_or_0_key_number (y : yacht) : key_number (priceRaw_or_0 y).
Proof.
  unfold priceRaw_or_0, key_number.
  destruct (priceRaw y) as [v|]; [|auto].
  destruct (truthy_num v) eqn:E; auto.
Qed.

Lemma num_to_string_Dec (neg : bool) (ip : N) (fp : uint) :
  truthy_num (Dec neg ip fp) = true ->
  num_to_string (Dec neg ip fp)
  = (if neg then [45] else []) ++ print_N ip ++ print_fraction fp.
Proof.
  unfold truthy_num, num_to_string, print_fraction. intros H.
  apply negb_true_iff in H. rewrite H. reflexivity.
Qed.

Lemma num_to_string_zero (x : jsnum) :
  key_number x -> truthy_num x = false -> num_to_string x = js "0" /\ x = num_of_N 0.
Proof.
  intros [H| ->] E; [congruence|]. split; reflexivity.
Qed.

(** A signed digit string starts with [-] exactly when it is negative. *)
Lemma signed_body_inj (n1 n2 : bool) (i1 i2 : N) (f1 f2 : uint) :
  (if n1 then [45] else []) ++ print_N i1 ++ print_fraction f1
  = (if n2 then [45] else []) ++ print_N i2 ++ print_fraction f2 ->
  n1 = n2 /\ i1 = i2 /\ f1 = f2.
Proof.
  destruct (print_N_head i1) as (c1 & r1 & E1 & D1).
  destruct (print_N_head i2) as (c2 & r2 & E2 & D2).
  intros H.
  assert (Hn : n1 = n2).
  { destruct n1, n2; [reflexivity| | |reflexivity]; exfalso;
      rewrite ?E1, ?E2 in H; cbn in H; injection H as H _; subst;
      discriminate. }
  subst n2. apply app_inv_head in H.
  destruct (digits_then_rest (print_N i1) (print_N i2)
              (print_fraction f1) (print_fraction f2)
              (print_uint_digits _) (print_uint_digits _)
              (print_fraction_head f1) (print_fraction_head f2) H) as [Hi Hf].
  apply print_N_inj in Hi. apply print_fraction_inj in Hf. auto.
Qed.

(** [String(x)] tells the numbers of keys apart. *)
Lemma num_to_string_inj (x y : jsnum) :
  key_number x -> key_number y -> num_to_string x = num_to_string y -> x = y.
Proof.
  intros Kx Ky H.
  destruct (truthy_num x) eqn:Tx, (truthy_num y) eqn:Ty.
  - destruct x as [n1 i1 f1|n1], y as [n2 i2 f2|n2].
    + rewrite !num_to_string_Dec in H by assumption.
      apply signed_body_inj in H as (-> & -> & ->). reflexivity.
    + rewrite num_to_string_Dec in H by assumption.
      destruct (print_N_head i1) as (c1 & r1 & E1 & D1).
      rewrite E1 in H.
      destruct n1, n2; cbn in H; simplify_eq; vm_compute in D1; discriminate.
    + rewrite num_to_string_Dec in H by assumption.
      destruct (print_N_head i2) as (c2 & r2 & E2 & D2).
      rewrite E2 in H.
      destruct n1, n2; cbn in H; simplify_eq; vm_compute in D2; discriminate.
    + destruct n1, n2; cbn in H; try discriminate; reflexivity.
  - destruct (num_to_string_zero y Ky Ty) as [Hy ->].
    exfalso. destruct x as [n1 i1 f1|n1].
    + rewrite num_to_string_Dec in H by assumption.
      change (num_to_string (num_of_N 0))
        with ((if false then [45] else []) ++ print_N 0 ++ print_fraction Nil) in H.
      apply signed_body_inj in H as (-> & -> & ->). discriminate.
    + destruct n1; discriminate.
  - destruct (num_to_string_zero x Kx Tx) as [Hx ->].
    exfalso. destruct y as [n2 i2 f2|n2].
    + rewrite num_to_string_Dec in H by assumption.
      change (num_to_string (num_of_N 0))
        with ((if false then [45] else []) ++ print_N 0 ++ print_fraction Nil) in H.
      apply signed_body_inj in H as (E1 & E2 & E3). subst. discriminate.
    + destruct n2; discriminate.
  - destruct (num_to_string_zero x Kx Tx) as [_ ->].
    destruct (num_to_string_zero y Ky Ty) as [_ ->]. reflexivity.
Qed.

Lemma digits_not_bar (s : jsstring) :
  forallb is_digit s = true -> forallb not_bar s = true.
Proof.
  induction s as [|c s IH]; cbn [forallb]; [reflexivity|].
  intros H. apply andb_true_iff in H as [Hc Hs]. rewrite (IH Hs), andb_true_r.
  unfold is_digit in Hc. unfold not_bar.
  apply andb_true_iff in Hc as [_ Hc]. apply N.leb_le in Hc.
  apply negb_true_iff, N.eqb_neq. lia.
Qed.

(** The text of a number holds no bar. *)
Lemma num_to_string_no_bar (x : jsnum) : forallb not_bar (num_to_string x) = true.
Proof.
  destruct x as [neg ip fp|neg].
  - unfold num_to_string. destruct (num_is_zero _); [reflexivity|].
    rewrite !forallb_app.
    assert (forallb not_bar (print_N ip) = true) as ->
        by apply digits_not_bar, print_uint_digits.
    assert (forallb not_bar (match fp with Nil => [] | _ => 46 :: print_uint fp end)
            = true) as ->.
    { pose proof (digits_not_bar _ (print_uint_digits fp)) as Hf.
      destruct fp; cbn [forallb]; rewrite ?Hf; reflexivity. }
    destruct neg; reflexivity.
  - destruct neg; reflexivity.
Qed.

(** Two texts joined by a bar, the second without bars, split in one way. *)
Lemma bar_separates (t1 : jsstring) :
  forall (t2 s1 s2 : jsstring),
    forallb not_bar s1 = true -> forallb not_bar s2 = true ->
    t1 ++ 124 :: s1 = t2 ++ 124 :: s2 -> t1 = t2 /\ s1 = s2.
Proof.
  induction t1 as [|x t1 IH]; intros [|y t2] s1 s2 H1 H2 E; cbn in E.
  - injection E as ->. auto.
  - injection E as <- ->. rewrite forallb_app in H1. cbn in H1.
    rewrite andb_false_r in H1. discriminate.
  - injection E as -> <-. rewrite forallb_app in H2. cbn in H2.
    rewrite andb_false_r in H2. discriminate.
  - injection E as -> E. destruct (IH t2 s1 s2 H1 H2 E) as [-> ->]. auto.
Qed.

(** The fallback key of the program tells apart the records that differ in
    lower-cased trimmed title or in price. *)
Lemma title_price_key_inj (y1 y2 : yacht) :
  title_price_key y1 = title_price_key y2 ->
  trim (toLowerCase (title y1)) = trim (toLowerCase (title y2))
  /\ priceRaw_or_0 y1 = priceRaw_or_0 y2.
Proof.
  unfold title_price_key. change (js "|") with [124]. cbn [app]. intros H.
  apply bar_separates in H as [Ht Hp]; auto using num_to_string_no_bar.
  split; [exact Ht|].
  apply num_to_string_inj; auto using priceRaw_or_0_key_number.
Qed.

(* ====================================================================== *)
(** * Properties: deduplication *)
(* ====================================================================== *)

Lemma has_key_true (k : dedup_key) (y : yacht) :
  has_key k y = true <-> key_of y = k.
Proof. unfold has_key. apply bool_decide_eq_true. Qed.

Lemma has_key_false (k : dedup_key) (y : yacht) :
  has_key k y = false <-> key_of y <> k.
Proof. unfold has_key. apply bool_decide_eq_false. Qed.

(** The step of the filter on a record with a detail address. *)
Lemma dedupe_from_url (U T : gset jsstring) (x : yacht) (rest : list yacht)
    (c : N) (u : jsstring) :
  detailUrl x = Some (c :: u) ->
  key_of x = UrlKey (c :: u)
  /\ dedupe_from U T (x :: rest)
     = if bool_decide (c :: u ∈ U) then dedupe_from U T rest
       else x :: dedupe_from ({[ c :: u ]} ∪ U) T rest.
Proof.
  intros E. unfold key_of. cbn [dedupe_from]. rewrite E. auto.
Qed.

(** The step of the filter on a record without a detail address. *)
Lemma dedupe_from_title (U T : gset jsstring) (x : yacht) (rest : list yacht) :
  truthy_ostr (detailUrl x) = false ->
  key_of x = TitlePriceKey (trim (toLowerCase (title x))) (priceRaw_or_0 x)
  /\ dedupe_from U T (x :: rest)
     = if bool_decide (title_price_key x ∈ T) then dedupe_from U T rest
       else x :: dedupe_from U ({[ title_price_key x ]} ∪ T) rest.
Proof.
  intros E. unfold key_of. cbn [dedupe_from].
  destruct (detailUrl x) as [[|c u]|]; try discriminate; auto.
Qed.

(** The part of a step of the filter that does not depend on the kind of
    key: the record is dropped when its key was seen, kept when it carries
    the key looked for, and what is left to show is that the key looked
    for is seen after the step exactly when it was before. *)
Ltac dedupe_step IH Kx k x :=
  let Hin := fresh "Hin" in
  let Hs := fresh "Hs" in
  let Ek := fresh "Ek" in
  cbn [List.filter];
  case_bool_decide as Hin;
  [ rewrite IH; destruct (decide (key_seen _ _ k)) as [Hs|Hs]; [reflexivity|];
    destruct (has_key k x) eqn:Ek; [|reflexivity];
    apply has_key_true in Ek; exfalso; apply Hs; rewrite <- Ek, Kx; exact Hin
  | cbn [List.filter]; destruct (has_key k x) eqn:Ek;
    [ apply has_key_true in Ek; rewrite IH;
      rewrite decide_True
        by (rewrite <- Ek, Kx; cbn [key_seen];
            apply elem_of_union_l, elem_of_singleton; reflexivity);
      rewrite decide_False by (rewrite <- Ek, Kx; exact Hin);
      reflexivity
    | apply has_key_false in Ek; rewrite IH ] ].

(** With the sets [U] and [T] as they stand, the filter keeps of the
    records with the key of [y0] the first one, unless the key was seen. *)
Lemma dedupe_from_first (y0 : yacht) (yachts : list yacht) :
  forall U T : gset jsstring,
    List.filter (has_key (key_of y0)) (dedupe_from U T yachts)
    = if decide (key_seen U T (key_of y0)) then []
      else take 1 (List.filter (has_key (key_of y0)) yachts).
Proof.
  set (k := key_of y0).
  assert (Hk : forall x, truthy_ostr (detailUrl x) = false ->
                 key_of x <> k ->
                 forall t p, k = TitlePriceKey t p ->
                   t ++ js "|" ++ num_to_string p <> title_price_key x).
  { intros x Ex Hne t p Ek Es. apply Hne.
    assert (Hy0 : truthy_ostr (detailUrl y0) = false
                  /\ title_price_key y0 = t ++ js "|" ++ num_to_string p).
    { unfold k, key_of in Ek.
      destruct (detailUrl y0) as [[|c u]|]; try discriminate;
        injection Ek as <- <-; auto. }
    destruct Hy0 as [Ey0 Hs].
    destruct (title_price_key_inj y0 x) as [Ht Hp]; [congruence|].
    rewrite (proj1 (dedupe_from_title ∅ ∅ x [] Ex)).
    unfold k. rewrite (proj1 (dedupe_from_title ∅ ∅ y0 [] Ey0)).
    congruence. }
  induction yachts as [|x rest IH]; intros U T.
  { cbn. destruct (decide _); reflexivity. }
  destruct (truthy_ostr (detailUrl x)) eqn:Ex.
  - (* a detail address *)
    destruct (detailUrl x) as [[|c u]|] eqn:Eu; try discriminate.
    destruct (dedupe_from_url U T x rest c u Eu) as [Kx ->].
    dedupe_step IH Kx k x.
    apply decide_ext. destruct k as [u'|t p] eqn:Ek'; cbn [key_seen]; [|tauto].
    rewrite elem_of_union, elem_of_singleton.
    split; [intros [->|H]; [congruence|exact H]|tauto].
  - (* no detail address, or an empty one *)
    destruct (dedupe_from_title U T x rest Ex) as [Kx ->].
    specialize (Hk x Ex).
    dedupe_step IH Kx k x.
    apply decide_ext. destruct k as [u'|t p] eqn:Ek'; cbn [key_seen]; [tauto|].
    rewrite elem_of_union, elem_of_singleton.
    specialize (Hk Ek t p eq_refl).
    split; [intros [E|H]; [congruence|exact H]|tauto].
Qed.

Lemma filter_has_key_nil (k : dedup_key) (l : list yacht) :
  (forall y, In y l -> key_of y <> k) -> List.filter (has_key k) l = [].
Proof.
  induction l as [|x l IH]; intros H; cbn [List.filter]; [reflexivity|].
  rewrite (proj2 (has_key_false k x)) by (apply H; left; reflexivity).
  apply IH. intros y Hy. apply H. right. exact Hy.
Qed.

Lemma same_price_priceRaw_or_0 (y1 y2 : yacht) :
  same_price (priceRaw y1) (priceRaw y2) = true
  <-> priceRaw_or_0 y1 = priceRaw_or_0 y2.
Proof.
  unfold same_price, priceRaw_or_0, truthy_num.
  destruct (priceRaw y1) as [v1|], (priceRaw y2) as [v2|].
  - destruct (num_is_zero v1) eqn:E1, (num_is_zero v2) eqn:E2; cbn [negb andb].
    + rewrite orb_true_r. tauto.
    + rewrite orb_false_r, bool_decide_eq_true.
      split; intros H; exfalso; [subst v2|rewrite <- H in E2; cbn in E2];
        congruence.
    + rewrite orb_false_r, bool_decide_eq_true.
      split; intros H; exfalso; [subst v2|rewrite H in E1; cbn in E1];
        congruence.
    + rewrite orb_false_r. apply bool_decide_eq_true.
  - destruct (num_is_zero v1) eqn:E1; cbn [negb]; [tauto|].
    split; [discriminate|]. intros H. rewrite H in E1. cbn in E1. discriminate.
  - destruct (num_is_zero v2) eqn:E2; cbn [negb]; [tauto|].
    split; [discriminate|]. intros H. rewrite <- H in E2. cbn in E2. discriminate.
  - tauto.
Qed.

(** Two records share a key, in the words of the claim, exactly when they
    have the same [key_of]. *)
Lemma same_key_key_of (y1 y2 : yacht) :
  same_key y1 y2 = true <-> key_of y1 = key_of y2.
Proof.
  unfold same_key, key_of.
  destruct (detailUrl y1) as [[|c1 u1]|] eqn:E1,
           (detailUrl y2) as [[|c2 u2]|] eqn:E2; cbn [truthy_ostr];
    try (split; [discriminate|intros H; discriminate H]);
    try (rewrite andb_true_iff, bool_decide_eq_true, same_price_priceRaw_or_0;
         split; [intros [-> ->]; reflexivity|intros H; injection H; auto]).
  rewrite bool_decide_eq_true.
  split; [intros H; injection H as -> ->; reflexivity|intros H; injection H as -> ->; reflexivity].
Qed.

Lemma filter_same_key (y0 : yacht) (l : list yacht) :
  List.filter (same_key y0) l = List.filter (has_key (key_of y0)) l.
Proof.
  induction l as [|x l IH]; cbn [List.filter]; [reflexivity|].
  rewrite IH.
  destruct (same_key y0 x) eqn:E1, (has_key (key_of y0) x) eqn:E2; try reflexivity.
  - apply same_key_key_of in E1. apply has_key_false in E2. congruence.
  - apply has_key_true in E2. symmetry in E2. apply same_key_key_of in E2. congruence.
Qed.

(* ====================================================================== *)
(** * End to end *)
(* ====================================================================== *)

(** The linked-data example of the specification: one record, with the
    title, the price, the provenance and a confidence of 95. *)
Lemma parseYachtListings_sunseeker :
  List.map (fun y => (title y, priceRaw y, source y, overall (confidence y)))
    (yachts_of (fst (parseYachtListings (simple_host 2025) page_sunseeker
                       page_url (still_clock 1700000000000))))
  = [(js "2023 Sunseeker 68", Some (num_of_N 2850000), js "json-ld", 95%Z)].
Proof. vm_compute; reflexivity. Qed.

(** A page without yacht vocabulary fails site validation. *)
Lemma parseYachtListings_not_a_yacht_site :
  let p := {| html := js "<html><body>Fresh bread daily</body></html>";
              doc := text_node []; ld_scripts := [] |} in
  let r := fst (parseYachtListings (simple_host 2025) p page_url
                  (still_clock 1700000000000)) in
  yachts_of r = [] /\ valid (pd_validation (lastParseDebug r)) = false.
Proof. split; vm_compute; reflexivity. Qed.

(** The card example of the specification: five cards, five records
    from the generic fallback, each with confidence 75 and no issue of
    severity [error]. *)
Lemma parseYachtListings_card_grid :
  List.map (fun y => (title y, source y, overall (confidence y),
                      existsb (fun i => match severity i with error => true | warning => false end)
                        (issues y)))
    (yachts_of (fst (parseYachtListings (simple_host 2025) page_card_grid
                       page_url (still_clock 1700000000000))))
  = List.map (fun n => (js "Sunseeker Manhattan " ++ print_N n, js "generic", 75%Z, false))
      [1; 2; 3; 4; 5].
Proof. vm_compute; reflexivity. Qed.

(** A page the first adapter of the registry handles: the sold listing
    keeps a symbolic price with [priceRaw] 0. *)
Lemma parseYachtListings_wp_theme :
  List.map (fun y => (title y, price y, priceRaw y, source y, detailUrl y))
    (yachts_of (fst (parseYachtListings (simple_host 2025) page_wp_theme
                       page_url (still_clock 1700000000000))))
  = [ (js "Princess V48 motor yacht 2016", js "$27,950", Some (num_of_N 27950),
       js "wp-listing-theme", Some (js "https://broker.example/boats/princess-v48"));
      (js "Fairline Targa 38 2008", js "Sold", Some (num_of_N 0),
       js "wp-listing-theme", Some (js "https://broker.example/boats/fairline-targa-38")) ].
Proof. vm_compute; reflexivity. Qed.

(* ====================================================================== *)
(** * Further properties: price parser *)
(* ====================================================================== *)

Lemma num_ge_1000_truthy (r : jsnum) : num_ge r 1000 = true -> truthy_num r = true.
Proof.
  destruct r as [[|] ip fp|[|]]; cbn [num_ge negb]; try discriminate.
  - rewrite andb_false_r. discriminate.
  - intros H. apply N.leb_le in H. unfold truthy_num, num_is_zero.
    replace (ip =? 0) with false by (symmetry; apply N.eqb_neq; lia).
    reflexivity.
  - reflexivity.
Qed.

Lemma extractPrice_from_shape (euro pound : jsstring) (pats : list price_pattern)
    (text : jsstring) :
  match raw (extractPrice_from euro pound pats text) with
  | Some r =>
      num_ge r 1000 = true
      /\ exists c, currency (extractPrice_from euro pound pats text) = Some c
                   /\ formatted (extractPrice_from euro pound pats text)
                      = currency_symbol_with euro pound c ++ toLocaleString0 r
  | None =>
      formatted (extractPrice_from euro pound pats text) = []
      /\ currency (extractPrice_from euro pound pats text) = None
  end.
Proof.
  induction pats as [|p rest IH]; cbn [extractPrice_from]; [cbn; auto|].
  destruct (str_match text (pp_regex p)) as [m|]; [|exact IH].
  destruct (parseFloat _) as [r|]; [|exact IH].
  destruct (num_ge r 1000) eqn:E; [|exact IH].
  cbn [raw currency formatted]. split; [exact E|].
  exists (pp_currency p). split; [reflexivity|].
  unfold formatPrice_with. rewrite (num_ge_1000_truthy r E). reflexivity.
Qed.

(** X1: whatever the text, a price the parser returns is at least 1000,
    comes with its currency and with the display text made of the
    currency symbol and the grouped amount; when no price is returned the
    display text is empty and the currency is [null]. *)
Theorem extractPrice_result_shape (text : jsstring) :
  match raw (extractPrice text) with
  | Some r =>
      num_ge r 1000 = true
      /\ exists c, currency (extractPrice text) = Some c
                   /\ formatted (extractPrice text)
                      = currency_symbol_with EURO_LIT POUND_LIT c ++ toLocaleString0 r
  | None => formatted (extractPrice text) = [] /\ currency (extractPrice text) = None
  end.
Proof. apply extractPrice_from_shape. Qed.

(* ====================================================================== *)
(** * Further properties: confidence *)
(* ====================================================================== *)

Lemma calculateConfidence_sum (y : yacht) :
  calculateConfidence y
  = ((if truthy_str (title y) then 35 else 0)
     + (if (0 <? length (images y))%nat then 25 else 0)
     + (if truthy_onum (priceRaw y)
           && match priceRaw y with Some v => num_gt0 v | None => false end
        then 15 else 0)
     + (if truthy_str (year y) then 10 else 0)
     + (if truthy_str (ylength y) then 5 else 0)
     + (if truthy_str (ytype y) then 5 else 0)
     + (if truthy_str (location y) then 5 else 0)
     + (if has_bonus_source y then 10 else 0))%Z.
Proof.
  unfold calculateConfidence.
  change (0 + 35 + 25 + 15 + 10 + 5 + 5 + 5)%Z with 100%Z.
  rewrite round_percent_100.
  destruct (truthy_str (title y)), (0 <? length (images y))%nat,
    (truthy_onum (priceRaw y) &&
       match priceRaw y with Some v => num_gt0 v | None => false end),
    (truthy_str (year y)), (truthy_str (ylength y)), (truthy_str (ytype y)),
    (truthy_str (location y)), (has_bonus_source y); reflexivity.
Qed.

(** X2: filling in a field never lowers the confidence: setting the
    title, year, length, type or location to a non-empty text, adding an
    image, or giving a price to a record that had none, leaves
    [calculateConfidence] equal or higher. *)
Theorem calculateConfidence_monotone (y : yacht) (v unit : jsstring)
    (img : option jsstring) (p : option jsnum) :
  v <> [] ->
  (calculateConfidence y <= calculateConfidence (set_title v y))%Z
  /\ (calculateConfidence y <= calculateConfidence (set_year v y))%Z
  /\ (calculateConfidence y <= calculateConfidence (set_length v unit y))%Z
  /\ (calculateConfidence y <= calculateConfidence (set_type v y))%Z
  /\ (calculateConfidence y <= calculateConfidence (set_location v y))%Z
  /\ (calculateConfidence y <= calculateConfidence (set_images (images y ++ [img]) y))%Z
  /\ (priceRaw y = None ->
      (calculateConfidence y <= calculateConfidence (set_priceRaw p y))%Z).
Proof.
  intros Hv. assert (Tv : truthy_str v = true) by (destruct v; [done|reflexivity]).
  rewrite !calculateConfidence_sum.
  unfold has_bonus_source.
  cbn [title images priceRaw year ylength ytype location source
       set_title set_year set_length set_type set_location set_images set_priceRaw].
  rewrite Tv.
  assert (Hi : (0 <? length (images y ++ [img]))%nat = true)
    by (apply Nat.ltb_lt; rewrite length_app; cbn; lia).
  rewrite Hi.
  repeat split; try (intros ->; cbn [truthy_onum andb]);
    repeat match goal with
      | |- context [if ?b then _ else _] => destruct b
      end; lia.
Qed.

Lemma calculateConfidence_monotone_witness :
  let y := blank_yacht 0 0 in
  (calculateConfidence y <= calculateConfidence (set_year (js "2020") y))%Z.
Proof.
  apply (calculateConfidence_monotone (blank_yacht 0 0) (js "2020") [] None None).
  vm_compute. discriminate.
Defined.

(* ====================================================================== *)
(** * Further properties: the filter and its counters *)
(* ====================================================================== *)

(** What the filter leaves on a record it keeps. *)
Lemma filter_step_kept_fields (pageUrl : jsstring) (yachts : list yacht) :
  forall (dbg : debug_t) (y : yacht),
    In y (fst (filter_step pageUrl yachts dbg)) ->
    overall (confidence y) = calculateConfidence y
    /\ (CONFIG.MIN_LISTING_CONFIDENCE <= overall (confidence y))%Z
    /\ sourceUrl y = pageUrl
    /\ issues y = validateYacht y.
Proof.
  induction yachts as [|x rest IH]; intros dbg y; cbn [filter_step fst];
    [intros []|].
  cbv zeta.
  destruct (_ <? _)%Z eqn:Elow; [apply IH|].
  destruct (negb (truthy_str _) && negb (truthy_onum _)); [apply IH|].
  destruct (filter_step pageUrl rest _) as [kept dbg'] eqn:Er.
  cbn [fst]. intros [<-|H].
  - apply Z.ltb_ge in Elow.
    cbn [overall confidence set_sourceUrl set_issues set_overall set_confidence
         issues sourceUrl] in *.
    repeat split; try reflexivity. exact Elow.
  - eapply IH. rewrite Er. exact H.
Qed.

(** The counters after the filter. *)
Lemma filter_step_counters (sourceUrl : jsstring) (yachts : list yacht) :
  forall dbg : debug_t,
    let r := filter_step sourceUrl yachts dbg in
    attempted (snd r) = attempted dbg
    /\ (accepted (snd r) = accepted dbg + length (fst r))%nat
    /\ (accepted (snd r) + rejected (snd r)
        = accepted dbg + rejected dbg + length yachts)%nat
    /\ (length (rejectionReasons (snd r))
        = length (rejectionReasons dbg) + (rejected (snd r) - rejected dbg))%nat
    /\ (rejected dbg <= rejected (snd r))%nat.
Proof.
  induction yachts as [|x rest IH]; intros dbg; cbv zeta; cbn [filter_step].
  - cbn. lia.
  - cbv zeta.
    destruct (_ <? _)%Z; [|destruct (negb (truthy_str _) && negb (truthy_onum _))];
      match goal with
      | |- context [filter_step sourceUrl rest ?d] =>
          specialize (IH d); cbv zeta in IH;
          cbn [attempted accepted rejected rejectionReasons] in IH;
          rewrite ?length_app in IH;
          destruct (filter_step sourceUrl rest d) as [kept dbg']
      end;
      cbn [fst snd length] in *; lia.
Qed.

Lemma dedupe_from_sublist (yachts : list yacht) :
  forall U T : gset jsstring, sublist (dedupe_from U T yachts) yachts.
Proof.
  induction yachts as [|x rest IH]; intros U T; cbn [dedupe_from];
    [constructor|].
  destruct (detailUrl x) as [[|c u]|]; case_bool_decide;
    solve [apply sublist_cons, IH | apply sublist_skip, IH].
Qed.

(** X3: deduplication only removes records: its output is the input with
    some records left out, in the same order. *)
Theorem deduplicateYachts_sublist (yachts : list yacht) :
  sublist (deduplicateYachts yachts) yachts.
Proof. apply dedupe_from_sublist. Qed.

(** What a run is made of: the records the strategies gave, the filter on
    them, the deduplication of what it kept. *)
Lemma parseYachtListings_with_anatomy (host : Host) (adapters : list adapter)
    (p : page) (sourceUrl : jsstring) (clk : Clock) :
  let r := fst (parseYachtListings_with host adapters p sourceUrl clk) in
  (valid (validateYachtSite (html p)) = false
   /\ yachts_of r = [] /\ error_of r = reason (validateYachtSite (html p))
   /\ pd_debug (lastParseDebug r)
      = {| attempted := 0; accepted := 0; rejected := 0; rejectionReasons := [] |})
  \/ (valid (validateYachtSite (html p)) = true
      /\ error_of r = None
      /\ exists found : list yacht,
          let f := filter_step sourceUrl found
                     {| attempted := length found; accepted := 0; rejected := 0;
                        rejectionReasons := [] |} in
          yachts_of r = deduplicateYachts (fst f)
          /\ pd_debug (lastParseDebug r) = snd f).
Proof.
  unfold parseYachtListings_with. cbv zeta.
  destruct (valid (validateYachtSite (html p))); cbn [negb].
  2:{ left. cbn. auto. }
  right. split; [reflexivity|].
  unfold mbind, M_bind, bind.
  destruct (extractStructuredData p clk) as [structured clk1].
  match goal with
  | |- context [let '(a, c) := ?m clk1 in _] => destruct (m clk1) as [yachts1 clk2]
  end.
  match goal with
  | |- context [let '(a, c) := ?m clk2 in _] => destruct (m clk2) as [yachts2 clk3]
  end.
  destruct (filter_step sourceUrl yachts2 _) as [kept dbg] eqn:Ef.
  cbn [ret fst yachts_of error_of lastParseDebug pd_debug].
  split; [reflexivity|].
  exists yachts2. rewrite Ef. cbn [fst snd]. auto.
Qed.

(** X4: every record a run returns carries the confidence
    [calculateConfidence] gives it, which is at least the configured
    minimum of 40, the address of the page it was read from, and the
    issues [validateYacht] finds on it. *)
Theorem parseYachtListings_output_scored (host : Host) (p : page)
    (pageUrl : jsstring) (clk : Clock) :
  Forall (fun y =>
            overall (confidence y) = calculateConfidence y
            /\ (40 <= overall (confidence y))%Z
            /\ sourceUrl y = pageUrl
            /\ issues y = validateYacht y)
    (yachts_of (fst (parseYachtListings host p pageUrl clk))).
Proof.
  unfold parseYachtListings.
  destruct (parseYachtListings_with_anatomy host (SITE_ADAPTERS host) p pageUrl clk)
    as [(_ & -> & _)|(_ & _ & found & -> & _)]; [constructor|].
  apply Forall_forall. intros y Hy. apply list_elem_of_In in Hy.
  apply dedupe_from_incl in Hy.
  exact (filter_step_kept_fields pageUrl found _ y Hy).
Qed.

(** X5: the counters of the report add up: every record the strategies
    gave is either accepted or rejected, there is one rejection reason per
    rejected record, and the run returns at most as many records as were
    accepted (deduplication drops the rest without a reason). *)
Theorem parseYachtListings_counters (host : Host) (p : page)
    (sourceUrl : jsstring) (clk : Clock) :
  let r := fst (parseYachtListings host p sourceUrl clk) in
  let dbg := pd_debug (lastParseDebug r) in
  attempted dbg = (accepted dbg + rejected dbg)%nat
  /\ length (rejectionReasons dbg) = rejected dbg
  /\ (length (yachts_of r) <= accepted dbg)%nat.
Proof.
  unfold parseYachtListings. cbv zeta.
  destruct (parseYachtListings_with_anatomy host (SITE_ADAPTERS host) p sourceUrl clk)
    as [(_ & -> & _ & ->)|(_ & _ & found & -> & ->)]; [cbn; lia|].
  pose proof (filter_step_counters sourceUrl found
                {| attempted := length found; accepted := 0; rejected := 0;
                   rejectionReasons := [] |}) as H.
  cbv zeta in H. cbn [attempted accepted rejected rejectionReasons length] in H.
  pose proof (sublist_length _ _ (dedupe_from_sublist
                (fst (filter_step sourceUrl found
                        {| attempted := length found; accepted := 0; rejected := 0;
                           rejectionReasons := [] |})) ∅ ∅)) as Hl.
  unfold deduplicateYachts. lia.
Qed.

(* ====================================================================== *)
(** * Further properties: deduplication *)
(* ====================================================================== *)

(** A record is dropped when its key was seen and kept otherwise, and
    after a record is kept the keys seen are its key and those seen
    before. *)
Lemma dedupe_from_step (U T : gset jsstring) (x : yacht) (rest : list yacht) :
  exists U' T' : gset jsstring,
    dedupe_from U T (x :: rest)
    = (if decide (key_seen U T (key_of x)) then dedupe_from U T rest
       else x :: dedupe_from U' T' rest)
    /\ forall y, key_seen U' T' (key_of y)
                 <-> key_of y = key_of x \/ key_seen U T (key_of y).
Proof.
  destruct (truthy_ostr (detailUrl x)) eqn:Ex.
  - destruct (detailUrl x) as [[|c u]|] eqn:Eu; try discriminate.
    destruct (dedupe_from_url U T x rest c u Eu) as [Kx ->].
    exists ({[ c :: u ]} ∪ U), T. rewrite Kx. split.
    + cbn [key_seen]. case_bool_decide; destruct (decide _); done.
    + intros y. destruct (key_of y) as [u'|t p]; cbn [key_seen].
      * rewrite elem_of_union, elem_of_singleton.
        split; (intros [H|H]; [left; congruence|right; exact H]).
      * split; [auto|]. intros [H|H]; [discriminate|exact H].
  - destruct (dedupe_from_title U T x rest Ex) as [Kx ->].
    exists U, ({[ title_price_key x ]} ∪ T). split.
    + rewrite Kx. cbn [key_seen].
      change (trim (toLowerCase (title x)) ++ js "|" ++ num_to_string (priceRaw_or_0 x))
        with (title_price_key x).
      case_bool_decide; destruct (decide _); done.
    + intros y. destruct (truthy_ostr (detailUrl y)) eqn:Ey.
      * destruct (detailUrl y) as [[|c u]|] eqn:Eu; try discriminate.
        rewrite (proj1 (dedupe_from_url ∅ ∅ y [] c u Eu)), Kx. cbn [key_seen].
        split; [auto|]. intros [H|H]; [discriminate|exact H].
      * rewrite (proj1 (dedupe_from_title ∅ ∅ y [] Ey)), Kx. cbn [key_seen].
        change (trim (toLowerCase (title y)) ++ js "|" ++ num_to_string (priceRaw_or_0 y))
          with (title_price_key y).
        rewrite elem_of_union, elem_of_singleton.
        split; (intros [H|H]; [left|right; exact H]).
        -- destruct (title_price_key_inj y x H) as [-> ->]. reflexivity.
        -- injection H as H1 H2. unfold title_price_key. rewrite H1, H2. reflexivity.
Qed.

(** The records the filter keeps have keys that were not seen, all
    different. *)
Lemma dedupe_from_distinct (yachts : list yacht) :
  forall U T : gset jsstring,
    NoDup (List.map key_of (dedupe_from U T yachts))
    /\ forall y, In y (dedupe_from U T yachts) -> ~ key_seen U T (key_of y).
Proof.
  induction yachts as [|x rest IH]; intros U T.
  { split; [constructor|intros y []]. }
  destruct (dedupe_from_step U T x rest) as (U' & T' & -> & Hseen).
  destruct (decide (key_seen U T (key_of x))) as [Hs|Hs]; [apply IH|].
  destruct (IH U' T') as [Hnd Hnot]. split.
  - cbn [List.map]. constructor; [|exact Hnd].
    intros Hin. apply list_elem_of_In, in_map_iff in Hin as (y & Hk & Hy).
    apply (Hnot y Hy). apply Hseen. left. exact Hk.
  - intros y [<-|Hy]; [exact Hs|].
    intros Hy'. apply (Hnot y Hy). apply Hseen. right. exact Hy'.
Qed.

(** Records with keys that were not seen, all different, are all kept. *)
Lemma dedupe_from_fixed (yachts : list yacht) :
  forall U T : gset jsstring,
    NoDup (List.map key_of yachts) ->
    (forall y, In y yachts -> ~ key_seen U T (key_of y)) ->
    dedupe_from U T yachts = yachts.
Proof.
  induction yachts as [|x rest IH]; intros U T Hnd Hnot; [reflexivity|].
  destruct (dedupe_from_step U T x rest) as (U' & T' & -> & Hseen).
  rewrite decide_False by (apply Hnot; left; reflexivity).
  cbn [List.map] in Hnd. apply NoDup_cons in Hnd as [Hx Hnd].
  f_equal. apply IH; [exact Hnd|].
  intros y Hy Hs. apply Hseen in Hs as [Hk|Hs].
  - apply Hx. apply list_elem_of_In, in_map_iff. exists y. auto.
  - apply (Hnot y); [right; exact Hy|exact Hs].
Qed.

(** X6: deduplication is idempotent: a list that went through
    [deduplicateYachts] comes out of it unchanged. *)
Theorem deduplicateYachts_idempotent (yachts : list yacht) :
  deduplicateYachts (deduplicateYachts yachts) = deduplicateYachts yachts.
Proof.
  unfold deduplicateYachts.
  destruct (dedupe_from_distinct yachts ∅ ∅) as [Hnd Hnot].
  apply dedupe_from_fixed; [exact Hnd|].
  intros y _. destruct (key_of y); cbn [key_seen]; apply not_elem_of_empty.
Qed.

(* ====================================================================== *)
(** * Further properties: spec extractor *)
(* ====================================================================== *)

Lemma extractSpecs_year_cases (host : Host) (text : jsstring) (y : yacht) :
  extractSpecs_year host text y = y
  \/ exists (digits : jsstring) (yr : Z),
       extractSpecs_year host text y = add_conf_specs 20 (set_year digits y)
       /\ parseInt digits = Some yr
       /\ (1950 <= yr <= thisYear host + 1)%Z.
Proof.
  unfold extractSpecs_year.
  destruct (str_match text year_pattern) as [m|]; [|auto].
  destruct (parseInt _) as [yr|] eqn:Ep; [|auto].
  destruct ((1950 <=? yr)%Z && (yr <=? thisYear host + 1)%Z) eqn:E; [|auto].
  right. exists (default [] (m_group1 m)), yr.
  apply andb_true_iff in E as [E1 E2]. apply Z.leb_le in E1, E2. auto.
Qed.

Lemma extractSpecs_length_cases (pats : list (jsstring * pattern))
    (text : jsstring) (y : yacht) :
  extractSpecs_length pats text y = y
  \/ exists (digits unit : jsstring) (len : jsnum),
       extractSpecs_length pats text y = add_conf_specs 20 (set_length digits unit y)
       /\ parseFloat digits = Some len
       /\ num_ge len 15 = true /\ num_le len 500 = true
       /\ (unit = js "ft" \/ unit = js "m").
Proof.
  induction pats as [|[source_text p] rest IH]; cbn [extractSpecs_length]; [auto|].
  destruct (str_match text p) as [m|]; [|exact IH].
  destruct (parseFloat _) as [len|] eqn:Ep; [|exact IH].
  destruct (num_ge len 15 && num_le len 500) eqn:E; [|exact IH].
  right. apply andb_true_iff in E as [E1 E2].
  eexists _, _, len. split; [reflexivity|].
  repeat split; try assumption.
  destruct (includes source_text (js "meter")); auto.
Qed.

Lemma extractSpecs_type_cases (kws : list (jsstring * jsstring))
    (lowerText : jsstring) (y : yacht) :
  forallb (fun kv => is_category (snd kv)) kws = true ->
  extractSpecs_type kws lowerText y = y
  \/ exists t, extractSpecs_type kws lowerText y = add_conf_specs 15 (set_type t y)
               /\ is_category t = true.
Proof.
  induction kws as [|[keyword type] rest IH]; cbn [extractSpecs_type forallb]; [auto|].
  intros H. apply andb_true_iff in H as [Ht Hrest].
  destruct (includes lowerText keyword); [|exact (IH Hrest)].
  right. exists type. auto.
Qed.

Lemma extractSpecs_location_cases (pats : list pattern) (text : jsstring) (y : yacht) :
  extractSpecs_location pats text y = y
  \/ exists l, extractSpecs_location pats text y = add_conf_specs 15 (set_location l y).
Proof.
  induction pats as [|p rest IH]; cbn [extractSpecs_location]; [auto|].
  destruct (str_match text p) as [m|]; [|exact IH].
  destruct (_ && _); [|exact IH].
  right. eexists. reflexivity.
Qed.

Lemma type_keywords_categories :
  forallb (fun kv => is_category (snd kv)) type_keywords = true.
Proof. vm_compute. reflexivity. Qed.

(** Case analysis of the four steps of [extractSpecs] in a goal. *)
Ltac extractSpecs_steps :=
  unfold extractSpecs;
  match goal with
  | |- context [extractSpecs_year ?h ?t ?z] =>
      let E := fresh "E" in
      destruct (extractSpecs_year_cases h t z) as [E|(?d & ?yr & E & ?Hyr & ?Hrange)];
      rewrite E; clear E
  end;
  match goal with
  | |- context [extractSpecs_length lengthPatterns ?t ?z] =>
      let E := fresh "E" in
      destruct (extractSpecs_length_cases lengthPatterns t z)
        as [E|(?d & ?u & ?len & E & ?Hlen & ?Hlo & ?Hhi & ?Hunit)];
      rewrite E; clear E
  end;
  match goal with
  | |- context [extractSpecs_type type_keywords ?t ?z] =>
      let E := fresh "E" in
      destruct (extractSpecs_type_cases type_keywords t z type_keywords_categories)
        as [E|(?ty & E & ?Hcat)];
      rewrite E; clear E
  end;
  match goal with
  | |- context [extractSpecs_location locationPatterns ?t ?z] =>
      let E := fresh "E" in
      destruct (extractSpecs_location_cases locationPatterns t z)
        as [E|(?loc & E)];
      rewrite E; clear E
  end.

(** X7: the spec extractor changes nothing of a record but its year,
    length, length unit, type, location and the specs score: the id, title,
    price, images, addresses, provenance and the other scores stay, and
    the specs score rises by at most 70. *)
Theorem extractSpecs_frame (host : Host) (element : node) (y : yacht) :
  let y' := extractSpecs host element y in
  yid y' = yid y /\ title y' = title y /\ price y' = price y
  /\ priceRaw y' = priceRaw y /\ images y' = images y
  /\ detailUrl y' = detailUrl y /\ sourceUrl y' = sourceUrl y
  /\ source y' = source y /\ description y' = description y
  /\ issues y' = issues y
  /\ overall (confidence y') = overall (confidence y)
  /\ conf_title (confidence y') = conf_title (confidence y)
  /\ conf_price (confidence y') = conf_price (confidence y)
  /\ conf_images (confidence y') = conf_images (confidence y)
  /\ (conf_specs (confidence y) <= conf_specs (confidence y')
      <= conf_specs (confidence y) + 70)%Z.
Proof.
  cbv zeta. extractSpecs_steps; cbn; repeat split; lia.
Qed.

(** X8: the spec extractor never stores a year outside 1950 to the current
    year plus one, a length outside 15 to 500 or with a unit other than
    [ft] and [m], or a type outside the four categories: each of these
    fields is left as it was or set to a value in range. *)
Theorem extractSpecs_values_in_range (host : Host) (element : node) (y : yacht) :
  let y' := extractSpecs host element y in
  (year y' = year y
   \/ exists yr, parseInt (year y') = Some yr /\ (1950 <= yr <= thisYear host + 1)%Z)
  /\ ((ylength y' = ylength y /\ lengthUnit y' = lengthUnit y)
      \/ exists len, parseFloat (ylength y') = Some len
                     /\ num_ge len 15 = true /\ num_le len 500 = true
                     /\ (lengthUnit y' = js "ft" \/ lengthUnit y' = js "m"))
  /\ (ytype y' = ytype y \/ is_category (ytype y') = true).
Proof.
  cbv zeta. extractSpecs_steps;
  cbn [year ylength lengthUnit ytype add_conf_specs set_confidence set_year
       set_length set_type set_location];
  ((split; [|split]);
  [ first [left; reflexivity | right; eexists; split; eassumption]
  | first [left; split; reflexivity
          | right; eexists; split;
            [eassumption | split; [eassumption | split; assumption]]]
  | first [left; reflexivity | right; assumption] ]).
Qed.

(* ====================================================================== *)
(** * Further properties: what the strategies put in a record *)
(* ====================================================================== *)

(** Projections of a record under the field assignments. *)
Ltac fields :=
  cbn [yid title price priceRaw year ylength lengthUnit ytype make model
       location description images detailUrl sourceUrl source confidence
       issues overall conf_title conf_price conf_images conf_specs
       set_title set_price set_priceRaw set_year set_length set_type
       set_location set_description set_images set_detailUrl set_sourceUrl
       set_source set_confidence set_issues set_overall set_conf_title
       set_conf_price set_conf_images add_conf_specs blank_yacht].

Ltac fields_in H :=
  cbn [yid title price priceRaw year ylength lengthUnit ytype make model
       location description images detailUrl sourceUrl source confidence
       issues overall conf_title conf_price conf_images conf_specs
       set_title set_price set_priceRaw set_year set_length set_type
       set_location set_description set_images set_detailUrl set_sourceUrl
       set_source set_confidence set_issues set_overall set_conf_title
       set_conf_price set_conf_images add_conf_specs blank_yacht] in H.

Lemma extractSpecs_keeps (host : Host) (element : node) (y : yacht) :
  let y' := extractSpecs host element y in
  yid y' = yid y /\ source y' = source y /\ title y' = title y
  /\ price y' = price y /\ priceRaw y' = priceRaw y /\ images y' = images y.
Proof. cbv zeta. extractSpecs_steps; fields; repeat split; reflexivity. Qed.

Lemma extractSpecs_yid (host : Host) (element : node) (y : yacht) :
  yid (extractSpecs host element y) = yid y.
Proof. apply (extractSpecs_keeps host element y). Qed.

Lemma extractSpecs_source (host : Host) (element : node) (y : yacht) :
  source (extractSpecs host element y) = source y.
Proof. apply (extractSpecs_keeps host element y). Qed.

Lemma extractSpecs_priceRaw (host : Host) (element : node) (y : yacht) :
  priceRaw (extractSpecs host element y) = priceRaw y.
Proof. apply (extractSpecs_keeps host element y). Qed.

Lemma extractSpecs_images (host : Host) (element : node) (y : yacht) :
  images (extractSpecs host element y) = images y.
Proof. apply (extractSpecs_keeps host element y). Qed.

Lemma adapter_price_keeps (poa : bool) (priceText : jsstring) (y : yacht) :
  yid (adapter_price poa priceText y) = yid y
  /\ source (adapter_price poa priceText y) = source y.
Proof.
  unfold adapter_price.
  destruct (regex_test sold_pattern priceText); [split; reflexivity|].
  destruct (poa && regex_test poa_pattern priceText); [split; reflexivity|].
  cbv zeta. destruct (truthy_onum _); split; reflexivity.
Qed.

Lemma adapter_price_yid (poa : bool) (priceText : jsstring) (y : yacht) :
  yid (adapter_price poa priceText y) = yid y.
Proof. apply adapter_price_keeps. Qed.

Lemma adapter_price_source (poa : bool) (priceText : jsstring) (y : yacht) :
  source (adapter_price poa priceText y) = source y.
Proof. apply adapter_price_keeps. Qed.

Lemma adapter_image_yid (host : Host) (url : jsstring) (imgEl : option node)
    (conf : Z) (y : yacht) :
  yid (adapter_image host url imgEl conf y) = yid y.
Proof. unfold adapter_image. destruct imgEl as [el|]; [destruct (isValidImage el)|]; reflexivity. Qed.

Lemma adapter_image_source (host : Host) (url : jsstring) (imgEl : option node)
    (conf : Z) (y : yacht) :
  source (adapter_image host url imgEl conf y) = source y.
Proof. unfold adapter_image. destruct imgEl as [el|]; [destruct (isValidImage el)|]; reflexivity. Qed.

Lemma detail_page_price_keeps (d : node) (sels : list jsstring) (y : yacht) :
  yid (detail_page_price d sels y) = yid y
  /\ source (detail_page_price d sels y) = source y.
Proof.
  induction sels as [|sel rest IH]; cbn [detail_page_price]; [split; reflexivity|].
  destruct (querySelector d sel) as [el|]; [|exact IH].
  cbv zeta. destruct (raw (extractPrice (textContent el))) as [r|]; [|exact IH].
  destruct (truthy_num r && _); [split; reflexivity|exact IH].
Qed.

Lemma detail_page_price_yid (d : node) (sels : list jsstring) (y : yacht) :
  yid (detail_page_price d sels y) = yid y.
Proof. apply detail_page_price_keeps. Qed.

Lemma detail_page_price_source (d : node) (sels : list jsstring) (y : yacht) :
  source (detail_page_price d sels y) = source y.
Proof. apply detail_page_price_keeps. Qed.

Create Rewrite HintDb origin.

#[local] Hint Rewrite extractSpecs_yid extractSpecs_source adapter_price_yid
  adapter_price_source adapter_image_yid adapter_image_source
  detail_page_price_yid detail_page_price_source : origin.

(** The title step sets the title to an acceptable one, or leaves the
    record as it was. *)
Lemma pick_title_cases (headings : list node) (y : yacht) :
  pick_title headings y = y
  \/ exists (t : jsstring) (link : option jsstring),
       acceptable_title t = true
       /\ pick_title headings y
          = set_detailUrl link (set_conf_title 65 (set_title t y)).
Proof.
  induction headings as [|h rest IH]; cbn [pick_title]; [auto|].
  cbv zeta. destruct (acceptable_title (cleanText (textContent h))) eqn:E; [|exact IH].
  right. eauto.
Qed.

Lemma background_images_truthy (host : Host) (baseUrl : jsstring)
    (bgElements : list node) :
  forall acc : list (option jsstring),
    Forall (fun u => truthy_ostr u = true) acc ->
    Forall (fun u => truthy_ostr u = true)
      (background_images host baseUrl bgElements acc).
Proof.
  induction bgElements as [|el rest IH]; intros acc Hacc;
    cbn [background_images]; [exact Hacc|].
  cbv zeta. apply IH.
  destruct (str_match _ background_url) as [m|]; [|exact Hacc].
  destruct (length acc <? 3)%nat; [|exact Hacc].
  destruct (resolveUrl_value host (m_group1 m) baseUrl) as [imgUrl|]; [|exact Hacc].
  destruct (truthy_str imgUrl && _) eqn:E; [|exact Hacc].
  apply Forall_app. split; [exact Hacc|].
  constructor; [|constructor].
  apply andb_true_iff in E as [E _]. destruct imgUrl; [discriminate|reflexivity].
Qed.

Lemma filter_Boolean_truthy (l : list (option jsstring)) :
  Forall (fun u => truthy_ostr u = true) (filter_Boolean l).
Proof.
  unfold filter_Boolean. induction l as [|u l IH]; cbn [List.filter]; [constructor|].
  destruct (truthy_ostr u) eqn:E; [constructor; assumption|exact IH].
Qed.

(** What [extractFromGenericCard] returns when it returns a record. *)
Lemma extractFromGenericCard_fields (host : Host) (card : node)
    (baseUrl : jsstring) (index : nat) (clk : Clock) (y : yacht) :
  fst (extractFromGenericCard host card baseUrl index clk) = Some y ->
  yid y = yid (blank_yacht (clk O) index)
  /\ source y = js "generic"
  /\ acceptable_title (title y) = true
  /\ (priceRaw y = None /\ price y = []
      \/ exists r, priceRaw y = Some r
                   /\ raw (extractPrice (textContent card)) = Some r
                   /\ price y = formatted (extractPrice (textContent card))
                   /\ num_ge r CONFIG.MIN_YACHT_PRICE = true
                   /\ num_le r CONFIG.MAX_YACHT_PRICE = true)
  /\ Forall (fun u => truthy_ostr u = true) (images y)
  /\ (20 <= length (textContent card) <= 5000)%nat.
Proof.
  unfold extractFromGenericCard. rewrite bind_createEmptyYacht.
  destruct ((length (textContent card) <? 20)%nat
            || (5000 <? length (textContent card))%nat) eqn:Ew;
    [unfold mret, M_ret, ret; cbn [fst]; discriminate|].
  apply orb_false_iff in Ew as [Ew1 Ew2].
  apply Nat.ltb_ge in Ew1, Ew2.
  cbv zeta.
  match goal with
  | |- context [extractSpecs host card ?y4] => set (Y4 := y4)
  end.
  destruct (negb (truthy_str (title (extractSpecs host card Y4)))) eqn:Et;
    unfold mret, M_ret, ret; cbn [fst]; [discriminate|].
  intros [= <-].
  apply negb_false_iff in Et.
  destruct (extractSpecs_keeps host card Y4) as (-> & -> & K3 & -> & -> & ->).
  rewrite K3 in *. clear K3.
  subst Y4.
  match goal with
  | |- context [set_images ?i (pick_title ?hs ?y1)] =>
      set (imgs := i) in *; set (Y1 := y1) in *;
      assert (Himgs : Forall (fun u => truthy_ostr u = true) imgs);
      [|assert (H1 : yid Y1 = yid (blank_yacht (clk O) index)
                     /\ source Y1 = js "generic" /\ title Y1 = []
                     /\ (priceRaw Y1 = None /\ price Y1 = []
                         \/ exists r, priceRaw Y1 = Some r
                              /\ raw (extractPrice (textContent card)) = Some r
                              /\ price Y1 = formatted (extractPrice (textContent card))
                              /\ num_ge r CONFIG.MIN_YACHT_PRICE = true
                              /\ num_le r CONFIG.MAX_YACHT_PRICE = true));
       [|destruct (pick_title_cases hs Y1) as [E|(t & link & Ht & E)];
         rewrite E in *; clear E]]
  end.
  - subst imgs.
    match goal with
    | |- context [match ?l with [] => _ | _ :: _ => ?l end] =>
        pose proof (filter_Boolean_truthy
                      (List.map
                         (fun img =>
                            resolveUrl_value host
                              (or_ostr (or_ostr (src img) (dataset_src img))
                                 (dataset_lazySrc img)) baseUrl)
                         (List.filter isValidImage (querySelectorAll card SEL_IMG)))) as Hf
    end.
    destruct (filter_Boolean _); [|exact Hf].
    apply background_images_truthy. constructor.
  - subst Y1.
    destruct (raw (extractPrice (textContent card))) as [r|] eqn:Er;
      [|fields; repeat split; auto].
    destruct (truthy_num r && num_ge r CONFIG.MIN_YACHT_PRICE
              && num_le r CONFIG.MAX_YACHT_PRICE) eqn:Ep;
      [|fields; repeat split; auto].
    apply andb_true_iff in Ep as [Ep Ehi]. apply andb_true_iff in Ep as [_ Elo].
    fields. repeat split; try reflexivity.
    right. exists r. repeat split; assumption.
  - exfalso. destruct H1 as (_ & _ & Ht & _).
    destruct (querySelector card SEL_LOCATION); fields_in Et;
      rewrite Ht in Et; discriminate.
  - destruct H1 as (Hid & Hs & _ & Hp).
    destruct (querySelector card SEL_LOCATION); fields;
      (split; [exact Hid|split; [exact Hs|split; [exact Ht|split; [exact Hp|]]]]);
      (split; [exact Himgs|lia]).
Qed.

(** Two fresh ids with different indices differ, whatever the clock
    read. *)
Lemma blank_yacht_id_inj (t1 t2 : N) (i j : nat) :
  yid (blank_yacht t1 i) = yid (blank_yacht t2 j) -> i = j.
Proof.
  cbn [yid blank_yacht]. intros H. apply app_inv_head in H.
  change (js "-") with [45] in H.
  apply digits_then_rest in H as [_ H];
    try apply print_uint_digits; try reflexivity.
  injection H as H. apply print_N_inj in H. lia.
Qed.

(** A loop whose step yields at most one record, created by the step with
    the index of the loop and labelled [nm]. *)
Lemma forEachM_origin {A : Type} (nm : jsstring) (f : A -> nat -> M (list yacht)) :
  (forall x i clk,
      match fst (f x i clk) with
      | [] => True
      | [y] => yid y = yid (blank_yacht (clk O) i) /\ source y = nm
      | _ => False
      end) ->
  forall xs i clk,
    Forall (fun y => source y = nm
                     /\ exists t j, (i <= j)%nat /\ yid y = yid (blank_yacht t j))
      (fst (forEachM f xs i clk))
    /\ NoDup (yid <$> fst (forEachM f xs i clk)).
Proof.
  intros Hf. induction xs as [|x xs IH]; intros i clk; cbn [forEachM].
  - cbn. split; constructor.
  - unfold mbind, M_bind, bind.
    pose proof (Hf x i clk) as Hx.
    destruct (f x i clk) as [ys clk1]. cbn [fst] in Hx.
    specialize (IH (S i) clk1).
    destruct (forEachM f xs (S i) clk1) as [zs clk2]. cbn [fst] in IH.
    unfold ret. cbn [fst].
    destruct IH as [IHf IHn].
    assert (Hz : Forall (fun y => source y = nm
                   /\ exists t j, (i <= j)%nat /\ yid y = yid (blank_yacht t j)) zs).
    { eapply Forall_impl; [exact IHf|].
      intros y (Hs & t & j & Hj & Hy). split; [exact Hs|].
      exists t, j. split; [lia|exact Hy]. }
    destruct ys as [|y [|y' ys]]; [|destruct Hx as [Hid Hs]|destruct Hx]; cbn [app].
    + split; assumption.
    + split.
      * constructor; [|exact Hz]. split; [exact Hs|].
        exists (clk O), i. split; [lia|exact Hid].
      * rewrite fmap_cons. apply NoDup_cons. split; [|exact IHn].
        intros Hin. apply list_elem_of_fmap in Hin as (z & Ez & Hz').
        rewrite Forall_forall in IHf.
        destruct (IHf z Hz') as (_ & t & j & Hj & Ej).
        rewrite Hid, Ej in Ez. apply blank_yacht_id_inj in Ez. lia.
Qed.

(** The step of an adapter loop: a fresh record, a chain of assignments
    that keep its id and label, and a test that keeps or drops it.  The
    chain is followed one [let] at a time. *)
Ltac fields0 :=
  cbn [yid source set_title set_price set_priceRaw set_year set_length set_type
       set_location set_description set_images set_detailUrl set_sourceUrl
       set_source set_confidence set_issues set_overall set_conf_title
       set_conf_price set_conf_images add_conf_specs].

Ltac origin_steps :=
  autorewrite with origin; fields0;
  first
    [ reflexivity
    | assumption
    | match goal with
      | |- context [match ?o with Some _ => _ | None => _ end] => destruct o
      | |- context [match ?l with [] => _ | _ :: _ => _ end] => destruct l
      | |- context [if ?b then _ else _] => destruct b
      end; origin_steps ].

Ltac let_step ID NM :=
  lazymatch goal with
  | |- context C [let x := ?a in @?b x] =>
      let v := fresh "y" in
      let Hi := fresh "Hid" in
      let Hs := fresh "Hsrc" in
      assert (Hi : yid a = ID) by origin_steps;
      assert (Hs : source a = NM) by origin_steps;
      let t := eval cbv beta in (b a) in
      let g := context C [t] in
      change g;
      set (v := a) in *; clearbody v
  end.

Ltac adapter_step NM :=
  let x := fresh "card" in
  let i := fresh "i" in
  let c := fresh "clk" in
  intros x i c; rewrite bind_createEmptyYacht; cbv beta;
  repeat let_step (yid (blank_yacht (c O) i)) NM;
  unfold mret, M_ret, ret; cbn [fst];
  match goal with
  | |- context [if ?b then [?Y] else []] => destruct b
  end;
  [ split; assumption | exact I ].

Lemma wp_listing_theme_origin (host : Host) (d : node) (url : jsstring) (clk : Clock) :
  let out := fst (parse (wp_listing_theme host) d url clk) in
  Forall (fun y => source y = js "wp-listing-theme"
                   /\ exists t j, (0 <= j)%nat /\ yid y = yid (blank_yacht t j)) out
  /\ NoDup (yid <$> out).
Proof.
  cbv zeta. cbv beta iota delta [parse wp_listing_theme].
  apply forEachM_origin. adapter_step (js "wp-listing-theme").
Qed.

Lemma nyb_style_origin (host : Host) (d : node) (url : jsstring) (clk : Clock) :
  let out := fst (parse (nyb_style host) d url clk) in
  Forall (fun y => source y = js "nyb-style"
                   /\ exists t j, (0 <= j)%nat /\ yid y = yid (blank_yacht t j)) out
  /\ NoDup (yid <$> out).
Proof.
  cbv zeta. cbv beta iota delta [parse nyb_style].
  apply forEachM_origin. adapter_step (js "nyb-style").
Qed.

Lemma yachtworld_style_origin (host : Host) (d : node) (url : jsstring) (clk : Clock) :
  let out := fst (parse (yachtworld_style host) d url clk) in
  Forall (fun y => source y = js "yachtworld-style"
                   /\ exists t j, (0 <= j)%nat /\ yid y = yid (blank_yacht t j)) out
  /\ NoDup (yid <$> out).
Proof.
  cbv zeta. cbv beta iota delta [parse yachtworld_style].
  apply forEachM_origin. adapter_step (js "yachtworld-style").
Qed.

Lemma genericHeuristicParse_origin (host : Host) (d : node) (url : jsstring)
    (clk : Clock) :
  let out := fst (genericHeuristicParse host d url clk) in
  Forall (fun y => source y = js "generic"
                   /\ exists t j, (0 <= j)%nat /\ yid y = yid (blank_yacht t j)) out
  /\ NoDup (yid <$> out).
Proof.
  cbv zeta. unfold genericHeuristicParse. cbv zeta.
  apply forEachM_origin. intros el i c.
  unfold mbind, M_bind, bind.
  pose proof (extractFromGenericCard_fields host el url i c) as H.
  destruct (extractFromGenericCard host el url i c) as [[y|] c'];
    unfold mret, M_ret, ret; cbn [fst] in *; [|exact I].
  destruct (H y eq_refl) as (Hid & Hs & _). auto.
Qed.

(** X9: within what the generic fallback returns, and within what each of
    the adapters wp-listing-theme, nyb-style and yachtworld-style returns,
    no two records carry the same id, whatever the clock reads: the id
    ends in the index of the card in the loop. *)
Theorem card_loops_ids_distinct (host : Host) (d : node) (url : jsstring)
    (clk : Clock) :
  NoDup (yid <$> fst (genericHeuristicParse host d url clk))
  /\ NoDup (yid <$> fst (parse (wp_listing_theme host) d url clk))
  /\ NoDup (yid <$> fst (parse (nyb_style host) d url clk))
  /\ NoDup (yid <$> fst (parse (yachtworld_style host) d url clk)).
Proof.
  repeat split.
  - apply genericHeuristicParse_origin.
  - apply wp_listing_theme_origin.
  - apply nyb_style_origin.
  - apply yachtworld_style_origin.
Qed.

(** What the test on a candidate title says of the title: its length, and
    its first unit, which is none of the six units of the class. *)
Lemma acceptable_title_first_unit (t : jsstring) :
  acceptable_title t = true ->
  (5 <= length t <= 150)%nat
  /\ exists c rest, t = c :: rest /\ c ∉ [0x24; 0x201A; 0xC7; 0xA8; 0xAC; 0xA3].
Proof.
  unfold acceptable_title. intros H.
  apply andb_true_iff in H as [H Hm]. apply andb_true_iff in H as [H1 H2].
  apply Nat.leb_le in H1, H2. split; [lia|].
  destruct t as [|c rest]; [cbn [length] in H1; lia|].
  exists c, rest. split; [reflexivity|].
  apply negb_true_iff in Hm.
  unfold regex_test, str_match, starts_with_currency in Hm.
  cbn [pat_re pat_ci search_from rmatch before after] in Hm.
  unfold class_matches in Hm.
  destruct (cls_of (js "$" ++ EURO_LIT ++ POUND_LIT) c) eqn:Ec;
    [cbn in Hm; discriminate|].
  clear Hm. intros Hin.
  unfold cls_of in Ec. apply not_true_iff_false in Ec. apply Ec.
  apply existsb_exists. exists c. split; [|apply N.eqb_refl].
  apply list_elem_of_In. exact Hin.
Qed.

(** A title that starts with the euro sign itself passes the test. *)
Lemma acceptable_title_euro_sign :
  acceptable_title (EURO_SIGN ++ js "1,200,000 Sunseeker") = true.
Proof. vm_compute; reflexivity. Qed.

(** X10: a record the generic card extractor returns has a title of 5 to
    150 units that passed the test of the program on its first unit: it
    starts neither with the dollar sign nor with one of the five units the
    euro and pound literals of the file are made of (U+201A, U+00C7,
    U+00A8, U+00AC, U+00A3; the pound sign is one of them, the euro sign
    U+20AC is not).  The record has a text of 20 to 5000 units behind it,
    images that are all non-empty addresses, and either no price at all
    or the price [extractPrice] reads in the text of the card, which is
    then between the configured minimum and maximum. *)
Theorem extractFromGenericCard_record (host : Host) (card : node)
    (baseUrl : jsstring) (index : nat) (clk : Clock) (y : yacht) :
  fst (extractFromGenericCard host card baseUrl index clk) = Some y ->
  acceptable_title (title y) = true
  /\ (5 <= length (title y) <= 150)%nat
  /\ (exists c rest,
        title y = c :: rest
        /\ c ∉ [0x24; 0x201A; 0xC7; 0xA8; 0xAC; 0xA3])
  /\ (20 <= length (textContent card) <= 5000)%nat
  /\ Forall (fun u => truthy_ostr u = true) (images y)
  /\ (priceRaw y = None /\ price y = []
      \/ exists r, priceRaw y = Some r
                   /\ raw (extractPrice (textContent card)) = Some r
                   /\ price y = formatted (extractPrice (textContent card))
                   /\ num_ge r 5000 = true
                   /\ num_le r 100000000 = true).
Proof.
  intros H.
  destruct (extractFromGenericCard_fields host card baseUrl index clk y H)
    as (_ & _ & Ht & Hp & Hi & Hw).
  destruct (acceptable_title_first_unit _ Ht) as [Hlen Hfirst].
  auto 10.
Qed.

Lemma extractFromGenericCard_record_witness :
  exists y,
    fst (extractFromGenericCard (simple_host 2025) (listing_card 1) page_url 0
           (still_clock 1700000000000)) = Some y
    /\ acceptable_title (title y) = true
    /\ (5 <= length (title y) <= 150)%nat
    /\ (exists c rest,
          title y = c :: rest
          /\ c ∉ [0x24; 0x201A; 0xC7; 0xA8; 0xAC; 0xA3])
    /\ (20 <= length (textContent (listing_card 1)) <= 5000)%nat
    /\ Forall (fun u => truthy_ostr u = true) (images y)
    /\ (priceRaw y = None /\ price y = []
        \/ exists r, priceRaw y = Some r
                     /\ raw (extractPrice (textContent (listing_card 1))) = Some r
                     /\ price y = formatted (extractPrice (textContent (listing_card 1)))
                     /\ num_ge r 5000 = true
                     /\ num_le r 100000000 = true).
Proof.
  eexists. split; [vm_compute; reflexivity|].
  apply (extractFromGenericCard_record (simple_host 2025) (listing_card 1)
           page_url 0 (still_clock 1700000000000)).
  vm_compute. reflexivity.
Defined.

(* ====================================================================== *)
(** * Further properties: the records of a run *)
(* ====================================================================== *)

Lemma forEachM_Forall {A B : Type} (P : B -> Prop) (f : A -> nat -> M (list B)) :
  (forall x i clk, Forall P (fst (f x i clk))) ->
  forall xs i clk, Forall P (fst (forEachM f xs i clk)).
Proof.
  intros Hf. induction xs as [|x xs IH]; intros i clk; cbn [forEachM].
  - constructor.
  - unfold mbind, M_bind, bind.
    pose proof (Hf x i clk) as Hx.
    destruct (f x i clk) as [ys clk1]. cbn [fst] in Hx.
    specialize (IH (S i) clk1).
    destruct (forEachM f xs (S i) clk1) as [zs clk2]. cbn [fst] in IH.
    unfold ret. cbn [fst]. apply Forall_app. split; assumption.
Qed.

(** A linked-data record: the label, and the fields the reader never
    fills in. *)
Lemma parseJsonLdProduct_label (data : ld_node) (clk : Clock) (y : yacht) :
  fst (parseJsonLdProduct data clk) = Normal y ->
  source y = js "json-ld" /\ ylength y = [] /\ ytype y = [] /\ location y = [].
Proof.
  unfold parseJsonLdProduct. rewrite bind_createEmptyYacht.
  unfold mret, M_ret, ret. cbn [fst]. cbv zeta.
  match goal with
  | |- context [ld_read_offers data ?t] =>
      assert (H1 : source t = js "json-ld" /\ ylength t = [] /\ ytype t = []
                   /\ location t = [])
        by (repeat split; reflexivity);
      generalize dependent t
  end.
  intros y1 H1.
  destruct (ld_read_offers data y1) as [y2|] eqn:E2; [|discriminate].
  destruct (ld_read_images data y2) as [y3|] eqn:E3; [|discriminate].
  intros [= <-].
  assert (H2 : source y2 = source y1 /\ ylength y2 = ylength y1
               /\ ytype y2 = ytype y1 /\ location y2 = location y1).
  { unfold ld_read_offers in E2.
    destruct (ld_offers_of data) as [|o|[|o l]]; cbn in E2;
      try discriminate; injection E2 as <-; repeat split; reflexivity. }
  assert (H3 : source y3 = source y2 /\ ylength y3 = ylength y2
               /\ ytype y3 = ytype y2 /\ location y3 = location y2).
  { unfold ld_read_images in E3.
    destruct (ld_image_of data) as [|[[|c s]|u|]|l];
      try (injection E3 as <-; repeat split; reflexivity);
      match type of E3 with
      | context [image_urls ?l] => destruct (image_urls l)
      end;
      try discriminate; injection E3 as <-; repeat split; reflexivity. }
  destruct H1 as (A1 & B1 & C1 & D1), H2 as (A2 & B2 & C2 & D2),
    H3 as (A3 & B3 & C3 & D3).
  unfold ld_read_year.
  destruct (str_match _ _); fields; repeat split; congruence.
Qed.

(** A microdata record: the label, and what the reader never fills in;
    in particular it has a price text and never a numeric price. *)
Lemma parseMicrodataProduct_label (element : node) (clk : Clock) :
  let y := fst (parseMicrodataProduct element clk) in
  source y = js "microdata" /\ ylength y = [] /\ ytype y = [] /\ location y = []
  /\ priceRaw y = None /\ year y = [].
Proof.
  cbv zeta. unfold parseMicrodataProduct. rewrite bind_createEmptyYacht.
  unfold mret, M_ret, ret. cbn [fst]. cbv zeta.
  destruct (querySelector element (SEL_ITEMPROP "image")); fields;
    repeat split; reflexivity.
Qed.

Lemma push_products_Forall (P : yacht -> Prop) :
  (forall p clk y, fst (parseJsonLdProduct p clk) = Normal y -> P y) ->
  forall products clk, Forall P (fst (fst (push_products products clk))).
Proof.
  intros HP. induction products as [|p rest IH]; intros clk; cbn [push_products].
  - constructor.
  - destruct (is_product_type (ld_type p)); [|apply IH].
    unfold mbind, M_bind, bind.
    pose proof (HP p clk) as Hp.
    destruct (parseJsonLdProduct p clk) as [[y|] clk1]; cbn [fst] in Hp.
    + specialize (IH clk1).
      destruct (push_products rest clk1) as [[ys threw] clk2]. cbn [fst] in *.
      unfold ret. cbn [fst]. constructor; [apply Hp; reflexivity|exact IH].
    + constructor.
Qed.

Lemma push_items_Forall (P : yacht -> Prop) :
  (forall p clk y, fst (parseJsonLdProduct p clk) = Normal y -> P y) ->
  forall items clk, Forall P (fst (fst (push_items items clk))).
Proof.
  intros HP. induction items as [|item rest IH]; intros clk; cbn [push_items].
  - constructor.
  - destruct (is_item_type (ld_type item) || _); [|apply IH].
    cbv zeta. unfold mbind, M_bind, bind.
    match goal with
    | |- context [push_products ?l clk] =>
        pose proof (push_products_Forall P HP l clk) as Hp;
        destruct (push_products l clk) as [[ys threw] clk1]
    end.
    cbn [fst] in Hp. destruct threw; [exact Hp|].
    specialize (IH clk1).
    destruct (push_items rest clk1) as [[zs threw'] clk2]. cbn [fst] in *.
    apply Forall_app. split; assumption.
Qed.

Lemma extractStructuredData_Forall (P : yacht -> Prop) (p : page) (clk : Clock) :
  (forall data c y, fst (parseJsonLdProduct data c) = Normal y -> P y) ->
  (forall item c, P (fst (parseMicrodataProduct item c))) ->
  Forall P (fst (extractStructuredData p clk)).
Proof.
  intros Hld Hmd. unfold extractStructuredData.
  unfold mbind, M_bind, bind.
  match goal with
  | |- context [forEachM ?f (ld_scripts p) O clk] =>
      pose proof (forEachM_Forall P f) as H1;
      destruct (forEachM f (ld_scripts p) O clk) as [fromScripts clk1] eqn:E1
  end.
  match goal with
  | |- context [forEachM ?f ?l O clk1] =>
      pose proof (forEachM_Forall P f) as H2;
      destruct (forEachM f l O clk1) as [fromMicrodata clk2] eqn:E2
  end.
  unfold mret, M_ret, ret. cbn [fst].
  apply Forall_app. split.
  - change fromScripts with (fst (fromScripts, clk1)). rewrite <- E1. apply H1.
    intros [data|] i c; [|constructor].
    unfold mbind, M_bind, bind.
    match goal with
    | |- context [push_items ?l c] =>
        pose proof (push_items_Forall P Hld l c) as Hp;
        destruct (push_items l c) as [[ys threw] c1]
    end.
    exact Hp.
  - change fromMicrodata with (fst (fromMicrodata, clk2)). rewrite <- E2. apply H2.
    intros item i c. unfold mbind, M_bind, bind.
    pose proof (Hmd item c) as Hm.
    destruct (parseMicrodataProduct item c) as [y c1]. cbn [fst] in *.
    unfold mret, M_ret, ret. cbn [fst]. constructor; [exact Hm|constructor].
Qed.

Lemma card_grid_containers_source (host : Host) (url : jsstring)
    (containers : list node) :
  forall (yachts : list yacht) (clk : Clock),
    Forall (fun y => source y = js "card-grid") yachts ->
    Forall (fun y => source y = js "card-grid")
      (fst (card_grid_containers host url containers yachts clk)).
Proof.
  induction containers as [|container rest IH]; intros yachts clk Hy;
    cbn [card_grid_containers]; [exact Hy|].
  cbv zeta. destruct (_ && _); [|apply IH, Hy].
  unfold mbind, M_bind, bind.
  match goal with
  | |- context [forEachM ?f (children container) O clk] =>
      pose proof (forEachM_Forall (fun y => source y = js "card-grid") f) as Hf;
      destruct (forEachM f (children container) O clk) as [found clk1] eqn:E
  end.
  assert (Hfound : Forall (fun y => source y = js "card-grid") found).
  { change found with (fst (found, clk1)). rewrite <- E. apply Hf.
    intros card i c. unfold mbind, M_bind, bind.
    destruct (extractFromGenericCard host card url i c) as [[y|] c1];
      unfold ret; cbn [fst]; [|constructor].
    destruct (truthy_str (title y) || truthy_onum (priceRaw y));
      constructor; [reflexivity|constructor]. }
  assert (Hall : Forall (fun y => source y = js "card-grid") (yachts ++ found))
    by (apply Forall_app; split; assumption).
  destruct (2 <=? length (yachts ++ found))%nat; [exact Hall|apply IH, Hall].
Qed.

(** The chain of the detail-page adapter, followed as that of a card
    adapter; the lists of images are taken as they come. *)
Ltac detail_step ID NM :=
  lazymatch goal with
  | |- context C [let x := ?a in @?b x] =>
      lazymatch type of a with
      | yacht => let_step ID NM
      | _ =>
          let v := fresh "l" in
          let t := eval cbv beta in (b a) in
          let g := context C [t] in
          change g;
          set (v := a) in *; clearbody v
      end
  end.

Lemma detail_page_origin (host : Host) (d : node) (url : jsstring) (clk : Clock) :
  match fst (parse (detail_page host) d url clk) with
  | [] => True
  | [y] => yid y = yid (blank_yacht (clk O) 0) /\ source y = js "detail-page"
  | _ => False
  end.
Proof.
  cbv beta iota delta [parse detail_page].
  rewrite bind_createEmptyYacht. cbv beta.
  repeat detail_step (yid (blank_yacht (clk O) 0)) (js "detail-page").
  unfold mret, M_ret, ret. cbn [fst].
  match goal with
  | |- context [if ?b then [?Y] else []] => destruct b
  end; [split; assumption|exact I].
Qed.

Lemma SITE_ADAPTERS_labels (host : Host) (d : node) (url : jsstring)
    (a : adapter) (clk : Clock) :
  In a (SITE_ADAPTERS host) ->
  Forall strategy_record (fst (parse a d url clk)).
Proof.
  assert (Hlab : forall (nm : jsstring) (l : list yacht),
             In nm [js "wp-listing-theme"; js "nyb-style"; js "yachtworld-style";
                    js "card-grid"; js "detail-page"; js "generic"] ->
             Forall (fun y => source y = nm) l -> Forall strategy_record l).
  { intros nm l Hnm Hl. eapply Forall_impl; [exact Hl|].
    intros y Hy. right. rewrite Hy. exact Hnm. }
  unfold SITE_ADAPTERS. intros [<-|[<-|[<-|[<-|[<-|[]]]]]].
  - apply (Hlab (js "wp-listing-theme")); [cbn; tauto|].
    eapply Forall_impl; [apply (wp_listing_theme_origin host d url clk)|].
    intros y Hy. apply Hy.
  - apply (Hlab (js "nyb-style")); [cbn; tauto|].
    eapply Forall_impl; [apply (nyb_style_origin host d url clk)|].
    intros y Hy. apply Hy.
  - apply (Hlab (js "yachtworld-style")); [cbn; tauto|].
    eapply Forall_impl; [apply (yachtworld_style_origin host d url clk)|].
    intros y Hy. apply Hy.
  - apply (Hlab (js "card-grid")); [cbn; tauto|].
    cbv beta iota delta [parse card_grid].
    apply card_grid_containers_source. constructor.
  - apply (Hlab (js "detail-page")); [cbn; tauto|].
    pose proof (detail_page_origin host d url clk) as H.
    destruct (fst (parse (detail_page host) d url clk)) as [|y [|y' l]];
      [constructor| |destruct H].
    constructor; [apply H|constructor].
Qed.

Lemma dispatch_Forall (P : yacht -> Prop) (d : node) (url : jsstring)
    (adapters : list adapter) :
  (forall a clk, In a adapters -> Forall P (fst (parse a d url clk))) ->
  forall clk, Forall P (fst (dispatch adapters d url clk)).
Proof.
  induction adapters as [|a rest IH]; intros HP clk; cbn [dispatch].
  - constructor.
  - assert (Hrest : forall c, Forall P (fst (dispatch rest d url c))).
    { apply IH. intros b c Hb. apply HP. right. exact Hb. }
    destruct (detect a d url); [|apply Hrest].
    unfold mbind, M_bind, bind.
    pose proof (HP a clk (or_introl eq_refl)) as Ha.
    destruct (parse a d url clk) as [[|y ys] clk1]; cbn [fst] in Ha.
    + apply Hrest.
    + exact Ha.
Qed.

Lemma filter_step_stamped (pageUrl : jsstring) (yachts : list yacht) :
  forall (dbg : debug_t) (y : yacht),
    In y (fst (filter_step pageUrl yachts dbg)) ->
    exists x, In x yachts /\ y = stamped pageUrl x.
Proof.
  induction yachts as [|x rest IH]; intros dbg y; cbn [filter_step fst];
    [intros []|].
  cbv zeta.
  assert (Hrest : forall dbg', In y (fst (filter_step pageUrl rest dbg')) ->
                               exists x0, In x0 (x :: rest) /\ y = stamped pageUrl x0).
  { intros dbg' H. destruct (IH dbg' y H) as (x0 & Hx0 & E).
    exists x0. split; [right; exact Hx0|exact E]. }
  destruct (_ <? _)%Z; [apply Hrest|].
  destruct (negb (truthy_str _) && negb (truthy_onum _)); [apply Hrest|].
  destruct (filter_step pageUrl rest _) as [kept dbg'] eqn:Er.
  cbn [fst]. intros [<-|H].
  - exists x. split; [left; reflexivity|reflexivity].
  - eapply Hrest. rewrite Er. exact H.
Qed.

(** Where the records of a run come from: each is the stamped form of a
    record one of the three sources of records gave. *)
Lemma parseYachtListings_with_found (host : Host) (adapters : list adapter)
    (p : page) (pageUrl : jsstring) (clk : Clock) (P : yacht -> Prop) :
  (forall c, Forall P (fst (extractStructuredData p c))) ->
  (forall a c, In a adapters -> Forall P (fst (parse a (doc p) pageUrl c))) ->
  (forall c, Forall P (fst (genericHeuristicParse host (doc p) pageUrl c))) ->
  Forall (fun y => exists x, P x /\ y = stamped pageUrl x)
    (yachts_of (fst (parseYachtListings_with host adapters p pageUrl clk))).
Proof.
  intros Hs Ha Hg.
  unfold parseYachtListings_with. cbv zeta.
  destruct (negb (valid (validateYachtSite (html p)))).
  { constructor. }
  unfold mbind, M_bind, bind.
  pose proof (Hs clk) as H1.
  destruct (extractStructuredData p clk) as [structured clk1]. cbn [fst] in H1.
  assert (H2 : Forall P
                 (fst (match structured with
                       | _ :: _ => ret structured
                       | [] => dispatch adapters (doc p) pageUrl
                       end clk1))).
  { destruct structured; [apply dispatch_Forall, Ha|exact H1]. }
  match goal with
  | |- context [let '(a, c) := ?m clk1 in _] => destruct (m clk1) as [yachts1 clk2]
  end.
  cbn [fst] in H2.
  assert (H3 : Forall P
                 (fst (match yachts1 with
                       | _ :: _ => ret yachts1
                       | [] => genericHeuristicParse host (doc p) pageUrl
                       end clk2))).
  { destruct yachts1; [apply Hg|exact H2]. }
  match goal with
  | |- context [let '(a, c) := ?m clk2 in _] => destruct (m clk2) as [yachts2 clk3]
  end.
  cbn [fst] in H3.
  destruct (filter_step pageUrl yachts2 _) as [kept dbg] eqn:Ef.
  cbn [ret fst yachts_of].
  apply Forall_forall. intros y Hy.
  apply list_elem_of_In in Hy. apply dedupe_from_incl in Hy.
  pose proof (filter_step_stamped pageUrl yachts2
                {| attempted := length yachts2; accepted := 0; rejected := 0;
                   rejectionReasons := [] |} y) as Hst.
  rewrite Ef in Hst. destruct (Hst Hy) as (x & Hx & E).
  exists x. split; [|exact E].
  rewrite Forall_forall in H3. apply H3, list_elem_of_In, Hx.
Qed.

Lemma parseYachtListings_found (host : Host) (p : page) (pageUrl : jsstring)
    (clk : Clock) :
  Forall (fun y => exists x, strategy_record x /\ y = stamped pageUrl x)
    (yachts_of (fst (parseYachtListings host p pageUrl clk))).
Proof.
  unfold parseYachtListings. apply parseYachtListings_with_found.
  - intros c. apply extractStructuredData_Forall.
    + intros data c' y H. left.
      destruct (parseJsonLdProduct_label data c' y H) as (-> & ? & ? & ?).
      cbn [In]. auto.
    + intros item c'. left.
      destruct (parseMicrodataProduct_label item c') as (-> & ? & ? & ? & _).
      cbn [In]. auto.
  - intros a c Ha. apply (SITE_ADAPTERS_labels host), Ha.
  - intros c.
    eapply Forall_impl; [apply (genericHeuristicParse_origin host (doc p) pageUrl c)|].
    intros y [Hy _]. right. rewrite Hy. cbn [In]. tauto.
Qed.

Lemma strategy_record_score (x : yacht) :
  strategy_record x -> (calculateConfidence x <= 100)%Z.
Proof.
  intros [(Hs & Hl & Ht & Ho)|Hs].
  - rewrite calculateConfidence_sum, Hl, Ht, Ho. cbn [truthy_str].
    repeat match goal with
      | |- context [if ?b then _ else _] => destruct b
      end; lia.
  - apply calculateConfidence_range. unfold has_bonus_source.
    cbn [In] in Hs.
    destruct Hs as [<-|[<-|[<-|[<-|[<-|[<-|[]]]]]]]; vm_compute; reflexivity.
Qed.

(** X11: the confidence of every record a run returns is between 40 and
    100: the two structured-data readers, whose records get the bonus of
    10, never fill in length, type or location, and no other strategy of
    the program labels its records with a source that gets the bonus. *)
Theorem parseYachtListings_confidence_range (host : Host) (p : page)
    (pageUrl : jsstring) (clk : Clock) :
  Forall (fun y => (40 <= overall (confidence y) <= 100)%Z)
    (yachts_of (fst (parseYachtListings host p pageUrl clk))).
Proof.
  pose proof (parseYachtListings_found host p pageUrl clk) as Hf.
  assert (Hk : Forall (fun y => (40 <= overall (confidence y))%Z)
                 (yachts_of (fst (parseYachtListings host p pageUrl clk)))).
  { unfold parseYachtListings.
    destruct (parseYachtListings_with_anatomy host (SITE_ADAPTERS host) p pageUrl clk)
      as [(_ & -> & _)|(_ & _ & found & -> & _)]; [constructor|].
    apply Forall_forall. intros y Hy. apply list_elem_of_In in Hy.
    apply dedupe_from_incl in Hy.
    apply (filter_step_kept_fields pageUrl found _ y Hy). }
  rewrite Forall_forall in Hf, Hk. apply Forall_forall. intros y Hy.
  split; [apply Hk, Hy|].
  destruct (Hf y Hy) as (x & Hx & ->).
  unfold stamped. cbv zeta. fields. apply strategy_record_score, Hx.
Qed.

(** X12: the source label of every record a run returns is one of eight:
    [json-ld], [microdata], the names of the five adapters, or [generic];
    in particular no record is labelled [red-ensign], the third label
    [calculateConfidence] gives the bonus to. *)
Theorem parseYachtListings_source_labels (host : Host) (p : page)
    (pageUrl : jsstring) (clk : Clock) :
  Forall (fun y =>
            In (source y)
              [js "json-ld"; js "microdata"; js "wp-listing-theme";
               js "nyb-style"; js "yachtworld-style"; js "card-grid";
               js "detail-page"; js "generic"])
    (yachts_of (fst (parseYachtListings host p pageUrl clk))).
Proof.
  eapply Forall_impl; [apply parseYachtListings_found|].
  intros y (x & Hx & ->). unfold stamped. cbv zeta. fields.
  destruct Hx as [(Hs & _)|Hs]; cbn [In] in *; tauto.
Qed.

(** X13: a microdata record never has a numeric price, a year, a length,
    a type or a location, whatever the element holds: its price is text
    only, and its confidence is at most 70. *)
Theorem parseMicrodataProduct_unpriced (element : node) (clk : Clock) :
  let y := fst (parseMicrodataProduct element clk) in
  priceRaw y = None /\ year y = [] /\ ylength y = [] /\ ytype y = []
  /\ location y = [] /\ (calculateConfidence y <= 70)%Z.
Proof.
  cbv zeta.
  destruct (parseMicrodataProduct_label element clk) as (Hs & Hl & Ht & Ho & Hp & Hy).
  repeat split; try assumption.
  rewrite calculateConfidence_sum, Hl, Ht, Ho, Hp, Hy. cbn [truthy_str truthy_onum andb].
  repeat match goal with
    | |- context [if ?b then _ else _] => destruct b
    end; lia.
Qed.

(* ====================================================================== *)
(** * Further properties: record validation *)
(* ====================================================================== *)

Lemma truthy_str_nil (s : jsstring) : truthy_str s = false <-> s = [].
Proof. destruct s; split; intros H; try reflexivity; discriminate. Qed.

(** X14: [validateYacht] reports an issue of severity error exactly when
    the title or the price text is empty, reports at most one issue per
    field, and a record on which it reports nothing scores at least 85. *)
Theorem validateYacht_issues (y : yacht) :
  existsb (fun i => match severity i with error => true | warning => false end)
    (validateYacht y)
  = negb (truthy_str (title y)) || negb (truthy_str (price y))
  /\ NoDup (field <$> validateYacht y)
  /\ (validateYacht y = [] -> (85 <= calculateConfidence y)%Z).
Proof.
  rewrite calculateConfidence_sum. unfold validateYacht.
  destruct (title y) as [|c1 t1], (price y) as [|c2 t2];
    cbn [truthy_str negb];
    try destruct (jsstring_eqb (c2 :: t2) (js "See Details")
                  || jsstring_eqb (c2 :: t2) (js "POA")
                  || match priceRaw y with Some v => num_is_zero v | None => false end);
    destruct (images y) as [|i1 il], (year y) as [|c3 t3], (ylength y) as [|c4 t4],
      (ytype y) as [|c5 t5], (location y) as [|c6 t6];
    cbn [truthy_str negb length Nat.eqb Nat.ltb Nat.leb app];
    (split; [reflexivity|split; [apply (bool_decide_unpack _); vm_compute; reflexivity|]]);
    try discriminate;
    intros _;
    repeat match goal with
      | |- context [if ?b then _ else _] => destruct b
      end; lia.
Qed.

(* ====================================================================== *)
(** * Further properties: order of the strategies *)
(* ====================================================================== *)

(** X15: structured data takes precedence: when the page yields a
    structured-data record, the adapters and the generic fallback are not
    consulted; the run returns the deduplicated filter of the structured
    records, whatever the registry of adapters holds. *)
Theorem structured_data_precedence (host : Host) (adapters1 adapters2 : list adapter)
    (p : page) (pageUrl : jsstring) (clk : Clock) :
  valid (validateYachtSite (html p)) = true ->
  fst (extractStructuredData p clk) <> [] ->
  let found := fst (extractStructuredData p clk) in
  parseYachtListings_with host adapters1 p pageUrl clk
  = parseYachtListings_with host adapters2 p pageUrl clk
  /\ yachts_of (fst (parseYachtListings host p pageUrl clk))
     = deduplicateYachts
         (fst (filter_step pageUrl found
                 {| attempted := length found; accepted := 0; rejected := 0;
                    rejectionReasons := [] |})).
Proof.
  cbv zeta. unfold parseYachtListings, parseYachtListings_with. cbv zeta.
  intros -> Hne. cbn [negb].
  unfold mbind, M_bind, bind.
  destruct (extractStructuredData p clk) as [[|y ys] clk1]; [contradiction|].
  cbn [fst ret]. split; [reflexivity|].
  destruct (filter_step pageUrl (y :: ys) _) as [kept dbg]. reflexivity.
Qed.

Lemma structured_data_precedence_witness :
  yachts_of (fst (parseYachtListings (simple_host 2025) page_sunseeker page_url
                    (still_clock 1700000000000)))
  = deduplicateYachts
      (fst (filter_step page_url
              (fst (extractStructuredData page_sunseeker (still_clock 1700000000000)))
              {| attempted :=
                   length (fst (extractStructuredData page_sunseeker
                                  (still_clock 1700000000000)));
                 accepted := 0; rejected := 0; rejectionReasons := [] |})).
Proof.
  apply (structured_data_precedence (simple_host 2025) [] [] page_sunseeker page_url
           (still_clock 1700000000000)).
  - vm_compute. reflexivity.
  - vm_compute. discriminate.
Defined.

(* ====================================================================== *)
(** * Further properties: site validation *)
(* ====================================================================== *)

Lemma startsWith_app (s t p : jsstring) :
  startsWith s p = true -> startsWith (s ++ t) p = true.
Proof.
  revert s. induction p as [|x p IH]; intros s.
  - intros _. destruct (s ++ t); reflexivity.
  - destruct s as [|c s]; cbn; [discriminate|].
    intros H. apply andb_true_iff in H as [-> H]. cbn. apply IH, H.
Qed.

Lemma includes_app_r (s t p : jsstring) :
  includes s p = true -> includes (s ++ t) p = true.
Proof.
  induction s as [|c s IH]; cbn [includes app].
  - rewrite orb_false_r. intros H.
    destruct p; [destruct t; reflexivity|discriminate].
  - intros H. apply orb_true_iff in H as [H|H]; apply orb_true_iff.
    + left. apply (startsWith_app (c :: s) t p H).
    + right. apply IH, H.
Qed.

Lemma includes_app_l (a s p : jsstring) :
  includes s p = true -> includes (a ++ s) p = true.
Proof.
  intros H. induction a as [|c a IH]; [exact H|].
  cbn [includes app]. rewrite IH. apply orb_true_r.
Qed.

(** An ASCII text found in a lower-cased string is found in the
    lower-cased string with text before and after it: the units of the
    text come from units of the string that lower-casing maps one by one,
    whatever stands around them. *)
Lemma includes_within (a s b p : jsstring) :
  forallb (fun c => c <? 128) p = true ->
  includes (toLowerCase s) p = true ->
  includes (toLowerCase (a ++ s ++ b)) p = true.
Proof.
  intros Hp H.
  rewrite <- (includes_ascii_view p _ Hp) in H.
  rewrite <- (includes_ascii_view p _ Hp).
  rewrite ascii_view_toLowerCase in *.
  rewrite !flat_map_app.
  apply includes_app_l, includes_app_r, H.
Qed.

Lemma YACHT_KEYWORDS_ascii :
  forallb (forallb (fun c => c <? 128)) YACHT_KEYWORDS = true.
Proof. vm_compute. reflexivity. Qed.

Lemma filter_length_le {A : Type} (f g : A -> bool) (l : list A) :
  (forall x, In x l -> f x = true -> g x = true) ->
  (length (List.filter f l) <= length (List.filter g l))%nat.
Proof.
  intros Hfg. induction l as [|x l IH]; cbn [List.filter]; [lia|].
  assert (IH' : (length (List.filter f l) <= length (List.filter g l))%nat)
    by (apply IH; intros y Hy; apply Hfg; right; exact Hy).
  destruct (f x) eqn:Ef.
  - rewrite (Hfg x (or_introl eq_refl) Ef). cbn [length]. lia.
  - destruct (g x); cbn [length]; lia.
Qed.

(** When a page passes. *)
Lemma validateYachtSite_valid (html : jsstring) :
  valid (validateYachtSite html)
  = (CONFIG.MIN_YACHT_KEYWORDS <=? count (countYachtKeywords html))%nat
    && (includes (toLowerCase html) (js "/boats/")
        || includes (toLowerCase html) (js "/yachts/")
        || includes (toLowerCase html) (js "/inventory/")
        || includes (toLowerCase html) (js "/listings/")
        || includes (toLowerCase html) (js "for sale")
        || includes (toLowerCase html) (js "brokerage")).
Proof.
  unfold validateYachtSite. cbv zeta.
  rewrite Nat.ltb_antisym.
  destruct (CONFIG.MIN_YACHT_KEYWORDS <=? count (countYachtKeywords html))%nat;
    cbn [negb andb]; [|reflexivity].
  destruct (_ || _); reflexivity.
Qed.

(** X16: site validation survives added text: a page that passes
    [validateYachtSite] still passes with any text put before and after
    it, and the count of keywords found does not go down. *)
Theorem validateYachtSite_monotone (before html after : jsstring) :
  valid (validateYachtSite html) = true ->
  valid (validateYachtSite (before ++ html ++ after)) = true
  /\ (count (countYachtKeywords html)
      <= count (countYachtKeywords (before ++ html ++ after)))%nat.
Proof.
  assert (Hc : (count (countYachtKeywords html)
                <= count (countYachtKeywords (before ++ html ++ after)))%nat).
  { unfold countYachtKeywords. cbv zeta. cbn [count].
    apply filter_length_le. intros kw Hkw. apply includes_within.
    apply (proj1 (forallb_forall _ _) YACHT_KEYWORDS_ascii kw Hkw). }
  rewrite !validateYachtSite_valid.
  intros Hv. split; [|exact Hc].
  apply andb_true_iff in Hv as [Hn Hm]. apply andb_true_iff. split.
  - apply Nat.leb_le in Hn. apply Nat.leb_le. lia.
  - repeat (apply orb_true_iff in Hm as [Hm|Hm]);
      (apply (includes_within before html after) in Hm; [|reflexivity]);
      rewrite Hm; rewrite ?orb_true_r; reflexivity.
Qed.

Lemma validateYachtSite_monotone_witness :
  valid (validateYachtSite
           (js "<!doctype html>" ++ html page_card_grid ++ js "<!-- end -->"))
  = true.
Proof.
  apply (validateYachtSite_monotone (js "<!doctype html>") (html page_card_grid)
           (js "<!-- end -->")).
  vm_compute. reflexivity.
Defined.
(* ====================================================================== *)
(** * Further properties: repeated structures *)
(* ====================================================================== *)

Lemma group_insert_grouped (P : node -> Prop) (el : node)
    (seen : list (jsstring * list node)) :
  P el ->
  Forall (fun g => Forall (fun e => P e /\ class_signature (className e) = fst g)
                     (snd g)) seen ->
  Forall (fun g => Forall (fun e => P e /\ class_signature (className e) = fst g)
                     (snd g))
    (group_insert (class_signature (className el)) el seen).
Proof.
  intros Hel. induction seen as [|[k els] rest IH]; intros Hs; cbn [group_insert].
  - repeat constructor. exact Hel.
  - apply Forall_cons in Hs as [Hk Hrest].
    unfold jsstring_eqb. case_bool_decide as E.
    + constructor; [|exact Hrest]. cbn [fst snd] in *.
      apply Forall_app. split; [exact Hk|].
      constructor; [|constructor]. split; [exact Hel|]. symmetry. exact E.
    + constructor; [exact Hk|]. apply IH, Hrest.
Qed.

Lemma first_priced_group_cases (groups : list (jsstring * list node)) :
  first_priced_group groups = []
  \/ exists k, In (k, first_priced_group groups) groups
       /\ (2 <= length (first_priced_group groups) <= 50)%nat
       /\ (length (first_priced_group groups)
           <= 2 * length (List.filter
                            (fun el => regex_test currency_amount (textContent el))
                            (first_priced_group groups)))%nat.
Proof.
  induction groups as [|[k elements] rest IH]; cbn [first_priced_group]; [auto|].
  assert (Hrest : first_priced_group rest = []
            \/ exists k0, In (k0, first_priced_group rest) ((k, elements) :: rest)
                 /\ (2 <= length (first_priced_group rest) <= 50)%nat
                 /\ (length (first_priced_group rest)
                     <= 2 * length (List.filter
                                      (fun el => regex_test currency_amount (textContent el))
                                      (first_priced_group rest)))%nat).
  { destruct IH as [IH|(k0 & Hin & H)]; [auto|].
    right. exists k0. split; [right; exact Hin|exact H]. }
  destruct ((2 <=? length elements)%nat && (length elements <=? 50)%nat) eqn:E;
    [|exact Hrest].
  cbv zeta.
  destruct (length elements <=? 2 * _)%nat eqn:E2; [|exact Hrest].
  right. exists k.
  apply andb_true_iff in E as [Ea Eb].
  apply Nat.leb_le in Ea, Eb, E2.
  split; [left; reflexivity|]. split; [lia|exact E2].
Qed.

Lemma fold_groups_grouped (P : node -> Prop) (l : list node) :
  (forall el, In el l -> P el) ->
  forall acc : list (jsstring * list node),
    Forall (fun g => Forall (fun e => (P e /\ (5 < length (className e))%nat)
                                      /\ class_signature (className e) = fst g)
                       (snd g)) acc ->
    Forall (fun g => Forall (fun e => (P e /\ (5 < length (className e))%nat)
                                      /\ class_signature (className e) = fst g)
                       (snd g))
      (fold_left
         (fun seen el =>
            let classes := className el in
            if truthy_str classes && (5 <? length classes)%nat
            then group_insert (class_signature classes) el seen
            else seen)
         l acc).
Proof.
  induction l as [|el l IH]; intros Hall acc Hacc; cbn [fold_left]; [exact Hacc|].
  apply IH; [intros e He; apply Hall; right; exact He|].
  cbv zeta.
  destruct (truthy_str (className el) && (5 <? length (className el))%nat) eqn:E;
    [|exact Hacc].
  apply andb_true_iff in E as [_ E]. apply Nat.ltb_lt in E.
  apply (group_insert_grouped (fun e => P e /\ (5 < length (className e))%nat));
    [|exact Hacc].
  split; [apply Hall; left; reflexivity|exact E].
Qed.

(** X17: what [findRepeatedStructures] returns is empty or one group of
    block elements of the document: between 2 and 50 of them, all with a
    class attribute longer than five units and with one and the same
    class signature, and at least half of them showing a currency
    amount. *)
Theorem findRepeatedStructures_group (d : node) :
  let g := findRepeatedStructures d in
  g = []
  \/ ((2 <= length g <= 50)%nat
      /\ (length g
          <= 2 * length (List.filter
                           (fun el => regex_test currency_amount (textContent el)) g))%nat
      /\ exists sig,
          Forall (fun el => In el (querySelectorAll d SEL_BLOCKS)
                            /\ (5 < length (className el))%nat
                            /\ class_signature (className el) = sig) g).
Proof.
  cbv zeta. unfold findRepeatedStructures. cbv zeta.
  match goal with
  | |- context [first_priced_group ?s] => set (seen := s)
  end.
  assert (Hseen :
            Forall (fun g =>
                      Forall (fun e => (In e (querySelectorAll d SEL_BLOCKS)
                                        /\ (5 < length (className e))%nat)
                                       /\ class_signature (className e) = fst g)
                        (snd g)) seen).
  { subst seen.
    apply (fold_groups_grouped (fun e => In e (querySelectorAll d SEL_BLOCKS)));
      [auto|constructor]. }
  destruct (first_priced_group_cases seen) as [->|(k & Hin & Hlen & Hprice)]; [auto|].
  right. split; [exact Hlen|]. split; [exact Hprice|].
  exists k. rewrite Forall_forall in Hseen.
  apply list_elem_of_In in Hin. specialize (Hseen _ Hin). cbn [fst snd] in Hseen.
  eapply Forall_impl; [exact Hseen|].
  intros e ((H1 & H2) & H3). auto.
Qed.

(* ====================================================================== *)
(** * Further properties: text cleaning *)
(* ====================================================================== *)

Lemma collapse_spaces_single (s : jsstring) :
  forall in_run : bool,
    single_spaced (collapse_spaces in_run s) = true
    /\ (in_run = true -> starts_clean (collapse_spaces in_run s) = true).
Proof.
  induction s as [|c s IH]; intros b; cbn [collapse_spaces].
  - split; reflexivity.
  - destruct (is_space c) eqn:Ec.
    + destruct b.
      * apply IH.
      * destruct (IH true) as [I1 I2]. split; [|discriminate].
        cbn [single_spaced]. change (is_space 32) with true. cbn [N.eqb Pos.eqb andb].
        rewrite I1, andb_true_r. apply (I2 eq_refl).
    + destruct (IH false) as [I1 _]. split.
      * cbn [single_spaced]. rewrite Ec, I1. reflexivity.
      * intros _. cbn [starts_clean]. rewrite Ec. reflexivity.
Qed.

Lemma single_spaced_tail (c : N) (s : jsstring) :
  single_spaced (c :: s) = true -> single_spaced s = true.
Proof. cbn [single_spaced]. intros H. apply andb_true_iff in H. tauto. Qed.

Lemma single_spaced_tabs (s : jsstring) :
  single_spaced s = true ->
  List.map (fun c => if (c =? 10) || (c =? 13) || (c =? 9) then 32 else c) s = s.
Proof.
  induction s as [|c s IH]; [reflexivity|].
  intros H. cbn [List.map]. rewrite (IH (single_spaced_tail c s H)). f_equal.
  cbn [single_spaced] in H. apply andb_true_iff in H as [H _].
  destruct ((c =? 10) || (c =? 13) || (c =? 9)) eqn:E; [|reflexivity].
  assert (Hs : is_space c = true).
  { unfold is_space.
    repeat (apply orb_true_iff in E as [E|E]); apply N.eqb_eq in E; subst c;
      reflexivity. }
  rewrite Hs in H. apply andb_true_iff in H as [H _].
  apply N.eqb_eq in H. symmetry. exact H.
Qed.

Lemma single_spaced_collapse (s : jsstring) :
  forall in_run : bool,
    single_spaced s = true ->
    (in_run = true -> starts_clean s = true) ->
    collapse_spaces in_run s = s.
Proof.
  induction s as [|c s IH]; intros b Hs Hb; [reflexivity|].
  cbn [collapse_spaces].
  pose proof (single_spaced_tail c s Hs) as Ht.
  cbn [single_spaced] in Hs. apply andb_true_iff in Hs as [Hc _].
  destruct (is_space c) eqn:Ec.
  - destruct b.
    + specialize (Hb eq_refl). cbn [starts_clean] in Hb. rewrite Ec in Hb. discriminate.
    + apply andb_true_iff in Hc as [Hc Hn]. apply N.eqb_eq in Hc. subst c.
      f_equal. apply IH; [exact Ht|]. intros _. exact Hn.
  - f_equal. apply IH; [exact Ht|discriminate].
Qed.

Lemma drop_spaces_clean (s : jsstring) : starts_clean (drop_spaces s) = true.
Proof.
  induction s as [|c s IH]; [reflexivity|].
  cbn [drop_spaces]. destruct (is_space c) eqn:E; [exact IH|].
  cbn [starts_clean]. rewrite E. reflexivity.
Qed.

Lemma drop_spaces_fixed (s : jsstring) :
  starts_clean s = true -> drop_spaces s = s.
Proof.
  destruct s as [|c s]; [reflexivity|].
  cbn [starts_clean drop_spaces]. destruct (is_space c); [discriminate|reflexivity].
Qed.

Lemma drop_spaces_suffix (s : jsstring) : exists u, s = u ++ drop_spaces s.
Proof.
  induction s as [|c s [u IH]]; [exists []; reflexivity|].
  cbn [drop_spaces]. destruct (is_space c).
  - exists (c :: u). cbn [app]. f_equal. exact IH.
  - exists []. reflexivity.
Qed.

Lemma single_spaced_suffix (u s : jsstring) :
  single_spaced (u ++ s) = true -> single_spaced s = true.
Proof.
  induction u as [|c u IH]; [auto|].
  cbn [app]. intros H. apply IH, (single_spaced_tail c _ H).
Qed.

Lemma single_spaced_prefix (s t : jsstring) :
  single_spaced (s ++ t) = true -> single_spaced s = true.
Proof.
  induction s as [|c s IH]; [reflexivity|].
  cbn [app single_spaced]. intros H. apply andb_true_iff in H as [Hc Hs].
  rewrite (IH Hs), andb_true_r.
  destruct (is_space c); [|reflexivity].
  apply andb_true_iff in Hc as [-> Hn]. cbn [andb].
  destruct s as [|d s]; [reflexivity|exact Hn].
Qed.

(** [trim] keeps a middle part of the text. *)
Lemma trim_middle (s : jsstring) : exists u v, s = u ++ trim s ++ v.
Proof.
  unfold trim.
  destruct (drop_spaces_suffix s) as [u Hu].
  destruct (drop_spaces_suffix (rev (drop_spaces s))) as [v Hv].
  exists u, (rev v).
  rewrite <- rev_app_distr, <- Hv, rev_involutive. exact Hu.
Qed.

Lemma single_spaced_trim (s : jsstring) :
  single_spaced s = true -> single_spaced (trim s) = true.
Proof.
  destruct (trim_middle s) as (u & v & E). intros H. rewrite E in H.
  apply single_spaced_suffix in H. apply single_spaced_prefix in H. exact H.
Qed.

Lemma starts_clean_app (a b : jsstring) :
  a <> [] -> starts_clean (a ++ b) = starts_clean a.
Proof. destruct a; [congruence|reflexivity]. Qed.

(** What [trim] returns neither starts nor ends with white space. *)
Lemma trim_clean (s : jsstring) :
  starts_clean (trim s) = true /\ starts_clean (rev (trim s)) = true.
Proof.
  unfold trim. rewrite rev_involutive. split; [|apply drop_spaces_clean].
  destruct (drop_spaces_suffix (rev (drop_spaces s))) as [u Hu].
  remember (drop_spaces (rev (drop_spaces s))) as w eqn:Ew.
  destruct (decide (w = [])) as [->|Hne]; [reflexivity|].
  assert (E : drop_spaces s = rev w ++ rev u).
  { rewrite <- rev_app_distr, <- Hu, rev_involutive. reflexivity. }
  assert (Hr : rev w <> []).
  { intros H. apply Hne. rewrite <- (rev_involutive w), H. reflexivity. }
  rewrite <- (starts_clean_app (rev w) (rev u) Hr), <- E.
  apply drop_spaces_clean.
Qed.

Lemma trim_fixed (s : jsstring) :
  starts_clean s = true -> starts_clean (rev s) = true -> trim s = s.
Proof.
  intros H1 H2. unfold trim.
  rewrite (drop_spaces_fixed s H1), (drop_spaces_fixed (rev s) H2).
  apply rev_involutive.
Qed.

(** X18: [cleanText] is idempotent, and what it returns is in normal
    form: every white-space unit in it is a plain space standing alone,
    and it neither starts nor ends with white space. *)
Theorem cleanText_idempotent (text : jsstring) :
  cleanText (cleanText text) = cleanText text
  /\ single_spaced (cleanText text) = true
  /\ starts_clean (cleanText text) = true
  /\ starts_clean (rev (cleanText text)) = true.
Proof.
  assert (Hn : single_spaced (cleanText text) = true).
  { unfold cleanText. apply single_spaced_trim.
    destruct (collapse_spaces_single text false) as [H _].
    rewrite (single_spaced_tabs _ H). exact H. }
  assert (Hc : starts_clean (cleanText text) = true
               /\ starts_clean (rev (cleanText text)) = true)
    by apply trim_clean.
  split; [|split; [exact Hn|exact Hc]].
  unfold cleanText at 1.
  rewrite (single_spaced_collapse _ false Hn) by discriminate.
  rewrite (single_spaced_tabs _ Hn).
  apply trim_fixed; apply Hc.
Qed.

(* ====================================================================== *)
(** * Further properties: reading back a printed price *)
(* ====================================================================== *)

(** ** The matcher on a run of class units *)

Lemma rmatch_Seq (ci : bool) (r1 r2 : regex) (c : cursor) (g : option jsstring)
    (k : cursor -> option jsstring -> option mresult) :
  rmatch ci (Seq r1 r2) c g k
  = rmatch ci r1 c g (fun c' g' => rmatch ci r2 c' g' k).
Proof. reflexivity. Qed.

Lemma rmatch_Char_hit (x : N) (b t : jsstring) (g : option jsstring)
    (k : cursor -> option jsstring -> option mresult) :
  rmatch false (Char x) {| before := b; after := x :: t |} g k
  = k {| before := x :: b; after := t |} g.
Proof. cbn [rmatch after unit_matches]. rewrite N.eqb_refl. reflexivity. Qed.

Lemma rmatch_Class_hit (p : N -> bool) (x : N) (b t : jsstring)
    (g : option jsstring) (k : cursor -> option jsstring -> option mresult) :
  p x = true ->
  rmatch false (Class p) {| before := b; after := x :: t |} g k
  = k {| before := x :: b; after := t |} g.
Proof. intros H. cbn [rmatch after class_matches]. rewrite H. reflexivity. Qed.

(** A greedy repetition of a class before a unit outside the class
    matches nothing. *)
Lemma rmatch_Star_skip (p : N -> bool) (x : N) (b t : jsstring)
    (g : option jsstring) (k : cursor -> option jsstring -> option mresult) :
  p x = false ->
  rmatch false (Star true (Class p)) {| before := b; after := x :: t |} g k
  = k {| before := b; after := x :: t |} g.
Proof.
  intros H.
  change (rmatch false (Star true (Class p)) {| before := b; after := x :: t |} g k)
    with (match (if p x
                 then (if (length t <? length (x :: t))%nat
                       then rmatch false (Star true (Class p))
                              {| before := x :: b; after := t |} g k
                       else None)
                 else None)
          with
          | Some m => Some m
          | None => k {| before := b; after := x :: t |} g
          end).
  rewrite H. reflexivity.
Qed.

(** A greedy repetition of a class on a run of class units that ends the
    text takes all of it, when what follows the repetition accepts the
    end of the text. *)
Lemma rmatch_Star_all (p : N -> bool) (run : jsstring) :
  forall (b : jsstring) (g : option jsstring)
         (k : cursor -> option jsstring -> option mresult) (m : mresult),
    Forall (fun x => p x = true) run ->
    k {| before := rev run ++ b; after := [] |} g = Some m ->
    rmatch false (Star true (Class p)) {| before := b; after := run |} g k = Some m.
Proof.
  induction run as [|x t IH]; intros b g k m Hrun Hk.
  - cbn [rev app] in Hk. cbn. exact Hk.
  - apply Forall_cons in Hrun as [Hx Ht].
    change (rmatch false (Star true (Class p)) {| before := b; after := x :: t |} g k)
      with (match (if p x
                   then (if (length t <? length (x :: t))%nat
                         then rmatch false (Star true (Class p))
                                {| before := x :: b; after := t |} g k
                         else None)
                   else None)
            with
            | Some m => Some m
            | None => k {| before := b; after := x :: t |} g
            end).
    rewrite Hx.
    replace (length t <? length (x :: t))%nat with true
      by (symmetry; apply Nat.ltb_lt; cbn [length]; lia).
    rewrite (IH (x :: b) g k m Ht); [reflexivity|].
    cbn [rev] in Hk. rewrite <- app_assoc in Hk. exact Hk.
Qed.

(** The first pattern of [PRICE_PATTERNS] on a dollar sign followed by a
    run of digits and commas that ends the text. *)
Lemma dollar_pattern_matches (euro pound : jsstring) (d : N) (run : jsstring) :
  Forall (fun x => cls_or cls_d (cls_of (js ",")) x = true) (d :: run) ->
  is_space d = false ->
  match PRICE_PATTERNS_with euro pound with
  | p :: _ =>
      exists m, str_match (36 :: d :: run) (pp_regex p) = Some m
                /\ m_group1 m = Some (d :: run) /\ pp_currency p = USD
  | [] => False
  end.
Proof.
  intros Hrun Hd. apply Forall_cons in Hrun as [Hdc Hrun].
  cbn [PRICE_PATTERNS_with pp_regex pp_currency].
  unfold str_match. cbn [pat_ci pat_re search_from].
  assert (R : rmatch false
                (Seqs [ Char 36; re_ws;
                        Group (Seq digits_commas (Opt (Seqs [Char 46; re_d; re_d])));
                        re_ws; Opt (Alt (Lit (js "USD")) (Lit (js "usd"))) ])
                {| before := []; after := 36 :: d :: run |} None
                (fun c' g' => Some (c', g'))
              = Some ({| before := rev run ++ [d; 36]; after := [] |},
                      Some (d :: run))).
  { unfold Seqs. cbn [fold_right].
    rewrite rmatch_Seq, rmatch_Char_hit.
    rewrite rmatch_Seq. unfold re_ws at 1, cls_s.
    rewrite (rmatch_Star_skip is_space d [36] run) by exact Hd.
    rewrite rmatch_Seq.
    change (rmatch false (Group ?r) ?c ?g ?k)
      with (rmatch false r c g
              (fun c' _ =>
                 k c' (Some (take (length (after c) - length (after c'))%nat (after c))))).
    rewrite rmatch_Seq. unfold digits_commas at 1, Plus.
    rewrite rmatch_Seq, rmatch_Class_hit by exact Hdc.
    apply rmatch_Star_all; [exact Hrun|].
    transitivity (Some ({| before := rev run ++ [d; 36]; after := [] |},
                        Some (d :: take (length run) run))); [reflexivity|].
    rewrite firstn_all. reflexivity. }
  rewrite R. eexists. split; [reflexivity|]. split; reflexivity.
Qed.

(** ** Digits *)

Lemma is_digit_cases (c : N) :
  is_digit c = true ->
  c = 48 \/ c = 49 \/ c = 50 \/ c = 51 \/ c = 52 \/ c = 53 \/ c = 54 \/ c = 55
  \/ c = 56 \/ c = 57.
Proof.
  unfold is_digit. intros H. apply andb_true_iff in H as [H1 H2].
  apply N.leb_le in H1, H2. lia.
Qed.

Ltac digit_cases H :=
  apply is_digit_cases in H;
  destruct H as [->|[->|[->|[->|[->|[->|[->|[->|[->| ->]]]]]]]]].

Lemma print_uint_cons (u : uint) :
  print_uint (D0 u) = 48 :: print_uint u /\ print_uint (D1 u) = 49 :: print_uint u
  /\ print_uint (D2 u) = 50 :: print_uint u /\ print_uint (D3 u) = 51 :: print_uint u
  /\ print_uint (D4 u) = 52 :: print_uint u /\ print_uint (D5 u) = 53 :: print_uint u
  /\ print_uint (D6 u) = 54 :: print_uint u /\ print_uint (D7 u) = 55 :: print_uint u
  /\ print_uint (D8 u) = 56 :: print_uint u /\ print_uint (D9 u) = 57 :: print_uint u.
Proof. repeat split; reflexivity. Qed.

Lemma digits_value_acc (u : uint) :
  forall acc : positive,
    fold_left (fun a d => a * 10 + d) (List.map digit_val (print_uint u)) (Npos acc)
    = Npos (Pos.of_uint_acc u acc).
Proof.
  induction u as [|u IH|u IH|u IH|u IH|u IH|u IH|u IH|u IH|u IH|u IH]; intros acc;
    [reflexivity|..];
    destruct (print_uint_cons u) as (E0 & E1 & E2 & E3 & E4 & E5 & E6 & E7 & E8 & E9);
    rewrite ?E0, ?E1, ?E2, ?E3, ?E4, ?E5, ?E6, ?E7, ?E8, ?E9;
    cbn [List.map fold_left Pos.of_uint_acc];
    rewrite <- IH; f_equal; unfold digit_val; lia.
Qed.

Lemma digits_value (u : uint) :
  N_of_digits (List.map digit_val (print_uint u)) = N.of_uint u.
Proof.
  unfold N_of_digits, N.of_uint.
  induction u as [|u IH|u IH|u IH|u IH|u IH|u IH|u IH|u IH|u IH|u IH];
    [reflexivity|..];
    destruct (print_uint_cons u) as (E0 & E1 & E2 & E3 & E4 & E5 & E6 & E7 & E8 & E9);
    rewrite ?E0, ?E1, ?E2, ?E3, ?E4, ?E5, ?E6, ?E7, ?E8, ?E9;
    cbn [List.map fold_left Pos.of_uint];
    try exact IH;
    rewrite <- digits_value_acc; f_equal.
Qed.

Lemma print_N_value (n : N) : N_of_digits (List.map digit_val (print_N n)) = n.
Proof.
  unfold print_N. rewrite digits_value. apply DecimalN.Unsigned.of_to.
Qed.

Lemma span_digits_all (l : jsstring) :
  forallb is_digit l = true -> span_digits l = (List.map digit_val l, []).
Proof.
  induction l as [|c l IH]; [reflexivity|].
  cbn [forallb span_digits List.map]. intros H. apply andb_true_iff in H as [Hc Hl].
  rewrite Hc, (IH Hl). reflexivity.
Qed.

(** [parseFloat] on a non-empty run of digits. *)
Lemma parseFloat_digits (l : jsstring) :
  l <> [] -> forallb is_digit l = true ->
  parseFloat l = Some (num_of_N (N_of_digits (List.map digit_val l))).
Proof.
  destruct l as [|c l]; [congruence|]. intros _ H.
  pose proof (span_digits_all (c :: l) H) as Hs.
  cbn [forallb] in H. apply andb_true_iff in H as [Hc Hl].
  unfold parseFloat.
  digit_cases Hc; cbn [drop_spaces]; cbv zeta;
    match goal with
    | |- context [is_space ?x] => change (is_space x) with false
    end; cbv iota;
    match goal with
    | |- context [startsWith ?s (js "Infinity")] =>
        change (startsWith s (js "Infinity")) with false
    end; cbv iota beta;
    rewrite Hs; cbv iota beta;
    cbn [List.map];
    unfold shift_point, exponent_part; cbn; rewrite app_nil_r; reflexivity.
Qed.

(** ** Thousands grouping *)

Lemma group3_rev_shape (P : jsstring -> jsstring -> Prop) :
  (forall ds, (length ds <= 3)%nat -> P ds ds) ->
  (forall a b c d rest,
      P (d :: rest) (group3_rev (d :: rest)) ->
      P (a :: b :: c :: d :: rest) (a :: b :: c :: 44 :: group3_rev (d :: rest))) ->
  forall ds, P ds (group3_rev ds).
Proof.
  intros Hsmall Hstep ds.
  remember (length ds) as n eqn:En. revert ds En.
  induction n as [n IH] using lt_wf_ind. intros ds En.
  destruct ds as [|a [|b [|c [|d rest]]]];
    try (cbn [group3_rev]; apply Hsmall; cbn [length]; lia).
  change (group3_rev (a :: b :: c :: d :: rest))
    with (a :: b :: c :: 44 :: group3_rev (d :: rest)).
  apply Hstep. apply (IH (length (d :: rest))); [|reflexivity].
  subst n. cbn [length]. lia.
Qed.

Lemma group3_rev_Forall (Q : N -> Prop) (ds : jsstring) :
  Q 44 -> Forall Q ds -> Forall Q (group3_rev ds).
Proof.
  intros Hc. revert ds.
  apply (group3_rev_shape (fun ds out => Forall Q ds -> Forall Q out)); [auto|].
  intros a b c d rest IH H.
  apply Forall_cons in H as [Ha H]. apply Forall_cons in H as [Hb H].
  apply Forall_cons in H as [Hc' H].
  repeat (constructor; [assumption|]). apply IH, H.
Qed.

Lemma group3_rev_filter (ds : jsstring) :
  Forall (fun x => (x =? 44) = false) ds ->
  List.filter (fun c => negb (c =? 44)) (group3_rev ds) = ds.
Proof.
  revert ds.
  apply (group3_rev_shape
           (fun ds out => Forall (fun x => (x =? 44) = false) ds ->
                          List.filter (fun c => negb (c =? 44)) out = ds)).
  - intros ds _ H. induction H as [|x l Hx Hl IH]; [reflexivity|].
    cbn [List.filter]. rewrite Hx, IH. reflexivity.
  - intros a b c d rest IH H.
    apply Forall_cons in H as [Ha H]. apply Forall_cons in H as [Hb H].
    apply Forall_cons in H as [Hc H].
    cbn [List.filter]. rewrite Ha, Hb, Hc. cbn [negb N.eqb Pos.eqb].
    rewrite (IH H). reflexivity.
Qed.

Lemma group3_rev_nonempty (ds : jsstring) : ds <> [] -> group3_rev ds <> [].
Proof. destruct ds as [|a [|b [|c [|d rest]]]]; cbn; congruence. Qed.

Lemma filter_all {A : Type} (f : A -> bool) (l : list A) :
  Forall (fun x => f x = true) l -> List.filter f l = l.
Proof.
  induction 1 as [|x l Hx Hl IH]; [reflexivity|].
  cbn [List.filter]. rewrite Hx, IH. reflexivity.
Qed.

Lemma indexOf_absent (l : jsstring) (c : N) :
  Forall (fun x => (x =? c) = false) l -> indexOf l c = None.
Proof.
  induction 1 as [|x l Hx Hl IH]; [reflexivity|].
  cbn [indexOf]. rewrite Hx, IH. reflexivity.
Qed.

Lemma print_N_digits (n : N) : Forall (fun x => is_digit x = true) (print_N n).
Proof.
  apply Forall_forall. intros x Hx.
  pose proof (print_uint_digits (N.to_uint n)) as H.
  rewrite forallb_forall in H. apply H, list_elem_of_In, Hx.
Qed.

(** The grouped digits of a number: a digit first, digits and commas
    only, and the digits of the number once the commas are gone. *)
Lemma group_thousands_shape (n : N) :
  exists d run,
    group_thousands n = d :: run
    /\ is_digit d = true
    /\ Forall (fun x => cls_or cls_d (cls_of (js ",")) x = true) (d :: run)
    /\ Forall (fun x => is_space x = false) (d :: run)
    /\ List.filter (fun c => negb (c =? 44)) (d :: run) = print_N n.
Proof.
  pose proof (print_N_digits n) as Hd.
  assert (Hrev : Forall (fun x => is_digit x = true) (rev (print_N n)))
    by (apply Forall_rev, Hd).
  assert (Hg : Forall (fun x => is_digit x = true \/ x = 44)
                 (group3_rev (rev (print_N n)))).
  { apply group3_rev_Forall; [right; reflexivity|].
    eapply Forall_impl; [exact Hrev|]. intros x Hx. left. exact Hx. }
  assert (Hall : Forall (fun x => is_digit x = true \/ x = 44) (group_thousands n))
    by (apply Forall_rev, Hg).
  assert (Hf : List.filter (fun c => negb (c =? 44)) (group_thousands n) = print_N n).
  { unfold group_thousands. rewrite filter_rev, group3_rev_filter, rev_involutive;
      [reflexivity|].
    eapply Forall_impl; [exact Hrev|]. intros x Hx.
    digit_cases Hx; reflexivity. }
  destruct (group_thousands n) as [|d run] eqn:E.
  { exfalso. destruct (print_N_head n) as (c & rest & Hc & _).
    cbn [List.filter] in Hf. congruence. }
  exists d, run. split; [reflexivity|].
  assert (Hhead : is_digit d = true).
  { destruct (print_N_head n) as (c & rest & Hc & Hcd).
    rewrite Hc in Hf. cbn [List.filter] in Hf.
    destruct (negb (d =? 44)) eqn:E44.
    - injection Hf as -> _. exact Hcd.
    - exfalso.
      (* the grouped text would end, reversed, with a comma *)
      unfold group_thousands in E.
      apply negb_false_iff, N.eqb_eq in E44. subst d.
      assert (Hr : group3_rev (rev (print_N n)) = rev (44 :: run)).
      { rewrite <- E, rev_involutive. reflexivity. }
      cbn [rev] in Hr.
      assert (Hlast : forall ds,
                 ds <> [] -> Forall (fun x => is_digit x = true) ds ->
                 forall pre, group3_rev ds <> pre ++ [44]).
      { apply (group3_rev_shape
                 (fun ds out => ds <> [] -> Forall (fun x => is_digit x = true) ds ->
                                forall pre, out <> pre ++ [44])).
        - intros ds _ Hne Hds pre Hout. subst ds.
          apply Forall_app in Hds as [_ Hds]. apply Forall_cons in Hds as [Hds _].
          discriminate.
        - intros a b c0 d0 rest0 IH _ Hds pre Hout.
          apply Forall_cons in Hds as [_ Hds]. apply Forall_cons in Hds as [_ Hds].
          apply Forall_cons in Hds as [_ Hds].
          destruct pre as [|p1 [|p2 [|p3 [|p4 pre]]]];
            try (cbn [app] in Hout; congruence).
          + cbn [app] in Hout. injection Hout as _ _ _ Hout.
            apply (group3_rev_nonempty (d0 :: rest0)); [discriminate|exact Hout].
          + cbn [app] in Hout. injection Hout as _ _ _ _ Hout.
            apply (IH ltac:(discriminate) Hds pre Hout). }
      apply (Hlast (rev (print_N n))) in Hr; [exact Hr| |exact Hrev].
      rewrite Hc. cbn [rev]. destruct (rev rest); discriminate. }
  split; [exact Hhead|]. split; [|split; [|exact Hf]].
  - eapply Forall_impl; [exact Hall|]. intros x [Hx| ->]; [|reflexivity].
    unfold cls_or, cls_d. rewrite Hx. reflexivity.
  - eapply Forall_impl; [exact Hall|]. intros x [Hx| ->]; [|reflexivity].
    digit_cases Hx; reflexivity.
Qed.

(** ** The round trip *)

Lemma clean_amount_grouped (n : N) (grouped : jsstring) :
  Forall (fun x => is_space x = false) grouped ->
  List.filter (fun c => negb (c =? 44)) grouped = print_N n ->
  clean_amount grouped = print_N n.
Proof.
  intros Hsp Hf. unfold clean_amount. cbv zeta.
  rewrite (filter_all (fun c => negb (is_space c)) grouped), Hf.
  - rewrite indexOf_absent; [reflexivity|].
    eapply Forall_impl; [apply print_N_digits|].
    intros x Hx. digit_cases Hx; reflexivity.
  - eapply Forall_impl; [exact Hsp|]. intros x Hx. rewrite Hx. reflexivity.
Qed.

Lemma parseFloat_print_N (n : N) : parseFloat (print_N n) = Some (num_of_N n).
Proof.
  rewrite parseFloat_digits, print_N_value; [reflexivity| |].
  - destruct (print_N_head n) as (c & rest & -> & _). discriminate.
  - apply print_uint_digits.
Qed.

Lemma extractPrice_from_first (euro pound : jsstring) (p : price_pattern)
    (rest : list price_pattern) (text : jsstring) (m : match_result) (r : jsnum) :
  str_match text (pp_regex p) = Some m ->
  parseFloat (clean_amount (default [] (m_group1 m))) = Some r ->
  num_ge r 1000 = true ->
  extractPrice_from euro pound (p :: rest) text
  = {| raw := Some r;
       formatted := formatPrice_with euro pound r (pp_currency p);
       currency := Some (pp_currency p) |}.
Proof.
  intros Hm Hr Hge. cbn [extractPrice_from]. rewrite Hm. cbv zeta.
  rewrite Hr, Hge. reflexivity.
Qed.

(** X19: a dollar price the program printed reads back as itself: for
    a non-negative amount of 1000 or more, [extractPrice] on the text
    [formatPrice] gives for it returns the amount rounded to a whole
    number, the currency USD, and the very same text. *)
Theorem extractPrice_reads_back (ip : N) (fp : uint) :
  1000 <= ip ->
  let shown := formatPrice (Dec false ip fp) USD in
  extractPrice shown
  = {| raw := Some (num_of_N (if first_frac_ge5 fp then ip + 1 else ip));
       formatted := shown;
       currency := Some USD |}.
Proof.
  intros Hip. cbv zeta.
  set (n := if first_frac_ge5 fp then ip + 1 else ip).
  assert (Hn : 1000 <= n) by (subst n; destruct (first_frac_ge5 fp); lia).
  assert (Ef : formatPrice (Dec false ip fp) USD = 36 :: group_thousands n).
  { unfold formatPrice, formatPrice_with, truthy_num, num_is_zero.
    replace (ip =? 0) with false by (symmetry; apply N.eqb_neq; lia).
    reflexivity. }
  assert (En : formatPrice_with EURO_LIT POUND_LIT (num_of_N n) USD
               = 36 :: group_thousands n).
  { unfold formatPrice_with, truthy_num, num_is_zero, num_of_N.
    replace (n =? 0) with false by (symmetry; apply N.eqb_neq; lia).
    reflexivity. }
  rewrite Ef.
  destruct (group_thousands_shape n) as (d & run & E & Hd & Hdc & Hsp & Hfilt).
  rewrite E in *.
  pose proof (dollar_pattern_matches EURO_LIT POUND_LIT d run Hdc) as Hm.
  unfold extractPrice, extractPrice_with.
  unfold PRICE_PATTERNS_with in *. cbv beta iota in Hm.
  destruct Hm as (m & Hm & Hg & Hc).
  { apply Forall_cons in Hsp as [Hsp _]. exact Hsp. }
  rewrite (extractPrice_from_first _ _ _ _ _ m (num_of_N n) Hm).
  - rewrite Hc, En. reflexivity.
  - rewrite Hg. cbn [default id].
    rewrite (clean_amount_grouped n (d :: run) Hsp Hfilt).
    apply parseFloat_print_N.
  - apply N.leb_le. exact Hn.
Qed.

Lemma extractPrice_reads_back_witness :
  extractPrice (formatPrice (Dec false 2849999 (D5 Nil)) USD)
  = {| raw := Some (num_of_N 2850000);
       formatted := formatPrice (Dec false 2849999 (D5 Nil)) USD;
       currency := Some USD |}.
Proof.
  apply (extractPrice_reads_back 2849999 (D5 Nil)). lia.
Defined.

(* ====================================================================== *)
(** * Further properties: the selection *)
(* ====================================================================== *)

#[local] Set Warnings "-clear-no-such-hyp".

Lemma add_all_ids_elem (yachts : list yacht) :
  forall (selected : gset jsstring) (id : jsstring),
    id ∈ add_all_ids yachts selected
    <-> id ∈ selected \/ id ∈ (yid <$> yachts).
Proof.
  unfold add_all_ids.
  induction yachts as [|y rest IH]; intros selected id; cbn [fold_left].
  - rewrite fmap_nil. set_solver.
  - rewrite IH, fmap_cons. set_solver.
Qed.

Lemma add_all_ids_union (yachts : list yacht) (selected : gset jsstring) :
  add_all_ids yachts selected = selected ∪ list_to_set (yid <$> yachts).
Proof.
  apply set_eq. intros id. rewrite add_all_ids_elem. set_solver.
Qed.

(** The ids of a list as a set: as many as the list is long exactly when
    no two records share an id. *)
Lemma size_ids (ids : list jsstring) :
  (size (list_to_set ids : gset jsstring) <= length ids)%nat
  /\ (size (list_to_set ids : gset jsstring) = length ids <-> NoDup ids).
Proof.
  induction ids as [|x ids [IHle IHeq]].
  - cbn. rewrite size_empty. split; [lia|]. split; [constructor|reflexivity].
  - cbn [list_to_set length]. destruct (decide (x ∈ ids)) as [Hin|Hnot].
    + replace ({[x]} ∪ list_to_set ids : gset jsstring) with (list_to_set ids : gset jsstring)
        by (apply set_eq; intros z; set_solver).
      split; [lia|]. split; [lia|].
      intros H. apply NoDup_cons in H as [H _]. contradiction.
    + rewrite size_union by set_solver. rewrite size_singleton.
      split; [lia|]. rewrite NoDup_cons. split.
      * intros H. split; [exact Hnot|]. apply IHeq. lia.
      * intros [_ H]. apply IHeq in H. lia.
Qed.

(** X20: ticking the box of a record twice restores the selection, and one
    tick changes the state of that id only. *)
Theorem toggleYachtSelection_involutive (id : jsstring) (s : ui_state) :
  toggleYachtSelection id (toggleYachtSelection id s) = s
  /\ (id ∈ selectedYachts (toggleYachtSelection id s) <-> id ∉ selectedYachts s)
  /\ forall other, other <> id ->
       (other ∈ selectedYachts (toggleYachtSelection id s)
        <-> other ∈ selectedYachts s).
Proof.
  destruct s as [parsed total selected editing].
  unfold toggleYachtSelection. cbn [parsedYachts totalYachtsFound selectedYachts
                                     currentEditIndex].
  destruct (decide (id ∈ selected)) as [Hin|Hnot].
  - rewrite (bool_decide_eq_true_2 _ Hin).
    rewrite bool_decide_eq_false_2 by set_solver.
    split; [f_equal; apply set_eq; intros z; destruct (decide (z = id)); set_solver|].
    split; [set_solver|]. intros other Ho. set_solver.
  - rewrite (bool_decide_eq_false_2 _ Hnot).
    rewrite bool_decide_eq_true_2 by set_solver.
    split; [f_equal; apply set_eq; intros z; set_solver|].
    split; [set_solver|]. intros other Ho. set_solver.
Qed.

(** X21: select-all, on a selection made of ids of the listed records.
    When no two listed records share an id, it clears the selection if
    every record is selected and selects every record otherwise.  When two
    listed records share an id, it never clears the selection: the set
    can then not have as many ids as there are records. *)
Theorem toggleSelectAll_spec (s : ui_state) :
  let ids := yid <$> parsedYachts s in
  selectedYachts s ⊆ list_to_set ids ->
  (NoDup ids ->
   selectedYachts (toggleSelectAll s)
   = if bool_decide (selectedYachts s = list_to_set ids) then ∅ else list_to_set ids)
  /\ (~ NoDup ids -> selectedYachts (toggleSelectAll s) = list_to_set ids).
Proof.
  cbv zeta. intros Hsub.
  destruct (size_ids (yid <$> parsedYachts s)) as [Hle Heq].
  rewrite length_fmap in Hle, Heq.
  pose proof (subseteq_size _ _ Hsub) as Hsize.
  unfold toggleSelectAll. cbn [selectedYachts].
  assert (Hall : add_all_ids (parsedYachts s) (selectedYachts s)
                 = list_to_set (yid <$> parsedYachts s)).
  { rewrite add_all_ids_union. apply set_eq. intros z. set_solver. }
  rewrite Hall. split.
  - intros Hnd. apply Heq in Hnd.
    destruct (size (selectedYachts s) =? length (parsedYachts s))%nat eqn:E.
    + apply Nat.eqb_eq in E.
      rewrite bool_decide_eq_true_2; [reflexivity|].
      apply set_eq. apply set_subseteq_size_equiv; [exact Hsub|lia].
    + apply Nat.eqb_neq in E.
      rewrite bool_decide_eq_false_2; [reflexivity|].
      intros Hs. rewrite Hs in E. lia.
  - intros Hdup.
    destruct (size (selectedYachts s) =? length (parsedYachts s))%nat eqn:E;
      [|reflexivity].
    apply Nat.eqb_eq in E. exfalso. apply Hdup, Heq. lia.
Qed.

Lemma toggleSelectAll_spec_witness :
  selectedYachts
    (toggleSelectAll {| parsedYachts := duplicates;
                        totalYachtsFound := length duplicates;
                        selectedYachts := ∅; currentEditIndex := None |})
  = list_to_set (yid <$> duplicates).
Proof.
  refine (proj2 (toggleSelectAll_spec
                   {| parsedYachts := duplicates;
                      totalYachtsFound := length duplicates;
                      selectedYachts := ∅; currentEditIndex := None |} _) _).
  - cbn [selectedYachts]. apply empty_subseteq.
  - cbn [parsedYachts]. apply (bool_decide_unpack _). vm_compute. reflexivity.
Defined.

(** X22: removing a record.  With an index in range the record at that
    index leaves the list, the others keep their order, and its id leaves
    the selection, which loses nothing else.  A selection made of ids of
    listed records stays one, whether or not two records share an id.  A
    record that stays is selected afterwards exactly when it was selected
    and does not have the id of the record removed: so when no two listed
    records share an id every record that stays keeps its state, and a
    record that shares its id with the one removed is left unselected.
    With an index out of range the handler throws. *)
Theorem removeYacht_spec (index : nat) (s : ui_state) :
  match removeYacht index s with
  | Throw => (length (parsedYachts s) <= index)%nat
  | Normal s' =>
      exists y, parsedYachts s !! index = Some y
        /\ parsedYachts s = take index (parsedYachts s') ++ y :: drop index (parsedYachts s')
        /\ (yid y ∉ selectedYachts s')
        /\ selectedYachts s' ⊆ selectedYachts s
        /\ (forall id, id ∈ selectedYachts s -> id <> yid y -> id ∈ selectedYachts s')
        /\ (selectedYachts s ⊆ list_to_set (yid <$> parsedYachts s) ->
            selectedYachts s' ⊆ list_to_set (yid <$> parsedYachts s'))
        /\ (forall z, z ∈ parsedYachts s' ->
              (yid z ∈ selectedYachts s'
               <-> (yid z ∈ selectedYachts s) /\ yid z <> yid y))
        /\ (NoDup (yid <$> parsedYachts s) ->
            forall z, z ∈ parsedYachts s' ->
              (yid z ∈ selectedYachts s' <-> yid z ∈ selectedYachts s))
  end.
Proof.
  unfold removeYacht.
  destruct (parsedYachts s !! index) as [y|] eqn:E.
  2:{ apply lookup_ge_None in E. exact E. }
  cbn [parsedYachts selectedYachts].
  exists y. split; [reflexivity|].
  pose proof (take_drop_middle _ _ _ E) as Hmid.
  assert (Hdel : delete index (parsedYachts s)
                 = take index (parsedYachts s) ++ drop (S index) (parsedYachts s))
    by apply delete_take_drop.
  pose proof (lookup_lt_Some _ _ _ E) as Hlt.
  split.
  { rewrite Hdel. rewrite take_app_le by (rewrite length_take; lia).
    rewrite take_take, Nat.min_id.
    rewrite drop_app_ge by (rewrite length_take; lia).
    rewrite length_take, Nat.min_l, Nat.sub_diag by lia. cbn [drop].
    symmetry. exact Hmid. }
  split; [set_solver|]. split; [set_solver|]. split; [set_solver|].
  split.
  { intros Hsub z Hz. apply elem_of_difference in Hz as [Hz Hzy].
    apply Hsub in Hz. rewrite <- Hmid in Hz. rewrite Hdel.
    rewrite fmap_app, fmap_cons in Hz. rewrite fmap_app. set_solver. }
  split; [intros z _; set_solver|].
  intros Hnd.
  rewrite <- Hmid in Hnd. rewrite Hdel.
  rewrite fmap_app, fmap_cons in Hnd.
  apply NoDup_app in Hnd as (Hnd1 & Hnd2 & Hnd3).
  apply NoDup_cons in Hnd3 as [Hnd3 Hnd4].
  assert (Hy1 : yid y ∉ (yid <$> take index (parsedYachts s)))
    by (intros H; apply (Hnd2 _ H); left).
  intros z Hz. apply elem_of_app in Hz.
  assert (Hne : yid z <> yid y).
  { intros Heq. destruct Hz as [Hz|Hz].
    - apply Hy1. rewrite <- Heq. apply list_elem_of_fmap. eauto.
    - apply Hnd3. rewrite <- Heq. apply list_elem_of_fmap. eauto. }
  set_solver.
Qed.

(** X23: what [handleFetch] shows and selects, and what an import right
    after it hands over: the first ten records at most are listed, the
    total is the number of all the records, every listed record is
    selected and nothing else is, and confirming the import hands over
    every listed record. *)
Theorem handleFetch_show_selects_all (allYachts : list yacht) (s : ui_state) :
  let s' := handleFetch_show allYachts s in
  parsedYachts s' = take 10 allYachts
  /\ totalYachtsFound s' = length allYachts
  /\ (length (parsedYachts s') <= 10)%nat
  /\ (length (parsedYachts s') <= totalYachtsFound s')%nat
  /\ selectedYachts s' = list_to_set (yid <$> parsedYachts s')
  /\ (allYachts <> [] -> importSelectedYachts true s' = Some (parsedYachts s')).
Proof.
  cbv zeta. unfold handleFetch_show. cbv zeta.
  cbn [parsedYachts totalYachtsFound selectedYachts].
  change CONFIG.MAX_LISTINGS_DISPLAY with 10%nat.
  assert (Hsel : add_all_ids (take 10 allYachts) ∅
                 = list_to_set (yid <$> take 10 allYachts)).
  { rewrite add_all_ids_union. apply set_eq. intros z. set_solver. }
  split; [reflexivity|]. split; [reflexivity|].
  split; [rewrite length_take; lia|].
  split; [rewrite length_take; lia|]. split; [exact Hsel|].
  intros Hne. unfold importSelectedYachts.
  cbn [parsedYachts selectedYachts]. rewrite Hsel.
  destruct allYachts as [|y rest]; [congruence|].
  replace (size (list_to_set (yid <$> take 10 (y :: rest)) : gset jsstring) =? 0)%nat
    with false.
  2:{ symmetry. apply Nat.eqb_neq. intros H. apply size_empty_inv in H.
      cbn [take fmap list_fmap list_to_set] in H.
      assert (Hy : yid y ∈ (∅ : gset jsstring)); [|set_solver].
      rewrite <- (leibniz_equiv _ _ H). set_solver. }
  cbv zeta. rewrite andb_false_r.
  f_equal. apply filter_all.
  apply Forall_forall. intros z Hz. apply bool_decide_eq_true_2.
  apply elem_of_list_to_set, list_elem_of_fmap. eauto.
Qed.

Lemma handleFetch_show_selects_all_witness :
  let s := {| parsedYachts := []; totalYachtsFound := 0; selectedYachts := ∅;
              currentEditIndex := None |} in
  importSelectedYachts true (handleFetch_show duplicates s)
  = Some (parsedYachts (handleFetch_show duplicates s)).
Proof.
  cbv zeta.
  apply (handleFetch_show_selects_all duplicates
           {| parsedYachts := []; totalYachtsFound := 0; selectedYachts := ∅;
              currentEditIndex := None |}).
  vm_compute. discriminate.
Defined.

Lemma validateYacht_set_overall (v : Z) (y : yacht) :
  validateYacht (set_overall v y) = validateYacht y.
Proof. reflexivity. Qed.

Lemma validateYacht_set_issues (i : list issue) (y : yacht) :
  validateYacht (set_issues i y) = validateYacht y.
Proof. reflexivity. Qed.

Lemma calculateConfidence_set_overall (v : Z) (y : yacht) :
  calculateConfidence (set_overall v y) = calculateConfidence y.
Proof. reflexivity. Qed.

(** X24: saving an edit.  Without a record being edited nothing changes;
    with an index out of range the handler throws; otherwise exactly the
    record at the index changes and the edit is closed.  The record takes
    the text fields of the form, trimmed, keeps its id, images, addresses
    and provenance, and gets its issues and confidence recomputed.  Its
    numeric price is read from the price box only when it had none (null
    or 0) and the box is not empty: a record that has a numeric price
    keeps it whatever the box holds, and one whose price was 0 gets null
    when the box holds no readable amount. *)
Theorem saveYachtEdit_spec (form : edit_form) (s : ui_state) :
  match currentEditIndex s with
  | None => saveYachtEdit form s = Normal s
  | Some index =>
      match parsedYachts s !! index with
      | None => saveYachtEdit form s = Throw
      | Some y =>
          exists y',
            saveYachtEdit form s
            = Normal {| parsedYachts := <[ index := y' ]> (parsedYachts s);
                        totalYachtsFound := totalYachtsFound s;
                        selectedYachts := selectedYachts s;
                        currentEditIndex := None |}
            /\ (yid y' = yid y /\ images y' = images y /\ detailUrl y' = detailUrl y
                /\ sourceUrl y' = sourceUrl y /\ source y' = source y)
            /\ (title y' = trim (edit_title form) /\ year y' = trim (edit_year form)
                /\ ylength y' = trim (edit_length form)
                /\ lengthUnit y' = edit_length_unit form
                /\ ytype y' = edit_type form
                /\ location y' = trim (edit_location form)
                /\ description y' = trim (edit_description form))
            /\ (issues y' = validateYacht y'
                /\ overall (confidence y') = calculateConfidence y')
            /\ (if truthy_onum (priceRaw y) || negb (truthy_str (trim (edit_price form)))
                then priceRaw y' = priceRaw y /\ price y' = trim (edit_price form)
                else
                  let parsed := extractPrice (trim (edit_price form)) in
                  priceRaw y' = raw parsed
                  /\ price y' = if truthy_str (formatted parsed)
                                then formatted parsed
                                else trim (edit_price form))
      end
  end.
Proof.
  unfold saveYachtEdit.
  destruct (currentEditIndex s) as [index|]; [|reflexivity].
  destruct (parsedYachts s !! index) as [y|]; [|reflexivity].
  cbv zeta.
  match goal with
  | |- context [set_issues (validateYacht ?y2) ?y2] => set (Y2 := y2)
  end.
  eexists. split; [reflexivity|].
  rewrite validateYacht_set_overall, validateYacht_set_issues,
    calculateConfidence_set_overall.
  fields.
  split; [|split; [|split; [split; reflexivity|]]]; subst Y2; fields;
    destruct (truthy_onum (priceRaw y)), (truthy_str (trim (edit_price form)));
    cbn [andb orb negb]; fields; repeat split; reflexivity.
Qed.

(* ====================================================================== *)
(** * Further properties: link discovery *)
(* ====================================================================== *)

Lemma map_get_Some (key : jsstring) (m : list (jsstring * Z)) (v : Z) :
  map_get key m = Some v -> (key, v) ∈ m.
Proof.
  unfold map_get, assoc.
  induction m as [|[k w] rest IH]; cbn [List.find option_map fst]; [discriminate|].
  unfold jsstring_eqb at 1. case_bool_decide as E.
  - cbn. intros [= <-]. subst k. left.
  - intros H. right. apply IH, H.
Qed.

Lemma map_get_None (key : jsstring) (m : list (jsstring * Z)) :
  map_get key m = None -> key ∉ (fst <$> m).
Proof.
  unfold map_get, assoc.
  induction m as [|[k w] rest IH]; cbn [List.find option_map fst];
    [intros _; rewrite fmap_nil; apply not_elem_of_nil|].
  unfold jsstring_eqb at 1. case_bool_decide as E; [discriminate|].
  intros H. rewrite fmap_cons. cbn [fst]. apply not_elem_of_cons.
  split; [congruence|exact (IH H)].
Qed.

Lemma map_set_keys (key : jsstring) (v : Z) (m : list (jsstring * Z)) :
  ((key ∈ (fst <$> m)) /\ fst <$> map_set key v m = fst <$> m)
  \/ ((key ∉ (fst <$> m)) /\ fst <$> map_set key v m = (fst <$> m) ++ [key]).
Proof.
  induction m as [|[k w] rest IH]; cbn [map_set].
  - right. split; [apply not_elem_of_nil|reflexivity].
  - unfold jsstring_eqb. case_bool_decide as E.
    + subst k. left. split; [rewrite fmap_cons; left|reflexivity].
    + rewrite !fmap_cons. cbn [fst].
      destruct IH as [[Hin ->]|[Hnot ->]].
      * left. split; [right; exact Hin|reflexivity].
      * right. split; [|reflexivity].
        apply not_elem_of_cons. split; [congruence|exact Hnot].
Qed.

Lemma map_set_entries (key : jsstring) (v : Z) (m : list (jsstring * Z))
    (a : jsstring) (w : Z) :
  NoDup (fst <$> m) ->
  (a, w) ∈ map_set key v m ->
  (a = key /\ w = v) \/ (a <> key /\ (a, w) ∈ m).
Proof.
  induction m as [|[k x] rest IH]; cbn [map_set]; intros Hnd Hin.
  - apply list_elem_of_singleton in Hin. injection Hin as -> ->. left. auto.
  - rewrite fmap_cons in Hnd. cbn [fst] in Hnd.
    apply NoDup_cons in Hnd as [Hk Hnd].
    unfold jsstring_eqb in Hin. case_bool_decide as E.
    + subst k. apply elem_of_cons in Hin as [Hin|Hin].
      * injection Hin as -> ->. left. auto.
      * right. split; [|right; exact Hin].
        intros ->. apply Hk. apply list_elem_of_fmap. exists (key, w). auto.
    + apply elem_of_cons in Hin as [Hin|Hin].
      * injection Hin as -> ->. right. split; [exact E|left].
      * destruct (IH Hnd Hin) as [H|[H1 H2]]; [left; exact H|].
        right. split; [exact H1|right; exact H2].
Qed.

Lemma map_set_key_in (key : jsstring) (v : Z) (m : list (jsstring * Z)) :
  key ∈ (fst <$> map_set key v m)
  /\ forall a, a ∈ (fst <$> m) -> a ∈ (fst <$> map_set key v m).
Proof.
  destruct (map_set_keys key v m) as [[Hin ->]|[Hnot ->]].
  - auto.
  - split; [apply elem_of_app; right; left|].
    intros a Ha. apply elem_of_app. left. exact Ha.
Qed.

Lemma map_set_NoDup (key : jsstring) (v : Z) (m : list (jsstring * Z)) :
  NoDup (fst <$> m) -> NoDup (fst <$> map_set key v m).
Proof.
  intros Hnd. destruct (map_set_keys key v m) as [[Hin ->]|[Hnot ->]]; [exact Hnd|].
  apply NoDup_app. split; [exact Hnd|]. split.
  - intros x Hx Hx'. apply list_elem_of_singleton in Hx'. subst x. contradiction.
  - apply NoDup_singleton.
Qed.

(** One turn of the loop keeps the map what it should be. *)
Lemma inventory_step_map (host : Host) (hostname : jsstring -> completion jsstring)
    (closest : node -> jsstring -> option node) (baseUrl baseHost : jsstring)
    (done : list node) (seen seen' : list (jsstring * Z)) (link : node) :
  inventory_map_of host hostname closest baseUrl baseHost done seen ->
  inventory_step host hostname closest baseUrl baseHost seen link = Normal seen' ->
  inventory_map_of host hostname closest baseUrl baseHost (done ++ [link]) seen'.
Proof.
  intros (Hnd & Hent & Hall).
  assert (Hold : forall a v, (a, v) ∈ seen ->
            inventory_address host hostname baseUrl baseHost link <> Normal (Some a)
            \/ (link_score closest link a <= v)%Z ->
            (0 < v)%Z
            /\ (exists l, l ∈ done ++ [link]
                  /\ inventory_address host hostname baseUrl baseHost l = Normal (Some a)
                  /\ link_score closest l a = v)
            /\ (forall l, l ∈ done ++ [link] ->
                  inventory_address host hostname baseUrl baseHost l = Normal (Some a) ->
                  (link_score closest l a <= v)%Z)).
  { intros a v Hin Hlink. destruct (Hent a v Hin) as (Hpos & (l & Hl & Hla & Hlv) & Hmax).
    split; [exact Hpos|]. split.
    - exists l. split; [apply elem_of_app; left; exact Hl|auto].
    - intros l' Hl' Ha'. apply elem_of_app in Hl' as [Hl'|Hl'].
      + apply Hmax; assumption.
      + apply list_elem_of_singleton in Hl'. subst l'.
        destruct Hlink as [Hne|Hle]; [contradiction|exact Hle]. }
  unfold inventory_step.
  destruct (inventory_address host hostname baseUrl baseHost link) as [[a0|]|] eqn:Ea;
    [| |discriminate].
  2:{ intros [= <-]. split; [exact Hnd|]. split.
      - intros a v Hin. apply Hold; [exact Hin|left; discriminate].
      - intros l a Hl Hla Hpos. apply elem_of_app in Hl as [Hl|Hl].
        + exact (Hall l a Hl Hla Hpos).
        + apply list_elem_of_singleton in Hl. subst l. congruence. }
  cbv zeta.
  destruct (0 <? link_score closest link a0)%Z eqn:Es.
  2:{ intros [= <-]. apply Z.ltb_ge in Es. split; [exact Hnd|]. split.
      - intros a v Hin. apply Hold; [exact Hin|].
        destruct (decide (a = a0)) as [->|Hne]; [|left; congruence].
        right. destruct (Hent a0 v Hin) as (Hpos & _). lia.
      - intros l a Hl Hla Hpos. apply elem_of_app in Hl as [Hl|Hl].
        + exact (Hall l a Hl Hla Hpos).
        + apply list_elem_of_singleton in Hl. subst l.
          rewrite Ea in Hla. injection Hla as <-. lia. }
  intros [= <-]. apply Z.ltb_lt in Es.
  split; [apply map_set_NoDup, Hnd|]. split.
  - intros a v Hin. apply map_set_entries in Hin as [[-> ->]|[Hne Hin]]; [| |exact Hnd].
    + split; [lia|].
      destruct (map_get a0 seen) as [e|] eqn:Eg; cbn [default from_option id].
      * apply map_get_Some in Eg.
        destruct (Hent a0 e Eg) as (Hpos & (l & Hl & Hla & Hlv) & Hmax).
        split.
        -- destruct (Z.max_spec e (link_score closest link a0)) as [[_ ->]|[_ ->]].
           ++ exists link. split; [apply elem_of_app; right; left|auto].
           ++ exists l. split; [apply elem_of_app; left; exact Hl|auto].
        -- intros l' Hl' Ha'. apply elem_of_app in Hl' as [Hl'|Hl'].
           ++ specialize (Hmax l' Hl' Ha'). lia.
           ++ apply list_elem_of_singleton in Hl'. subst l'. lia.
      * apply map_get_None in Eg. rewrite Z.max_r by lia. split.
        -- exists link. split; [apply elem_of_app; right; left|auto].
        -- intros l' Hl' Ha'. apply elem_of_app in Hl' as [Hl'|Hl'].
           ++ destruct (decide (0 < link_score closest l' a0)%Z) as [Hp|Hp]; [|lia].
              exfalso. apply Eg. exact (Hall l' a0 Hl' Ha' Hp).
           ++ apply list_elem_of_singleton in Hl'. subst l'. lia.
    + apply Hold; [exact Hin|left; congruence].
  - intros l a Hl Hla Hpos. apply elem_of_app in Hl as [Hl|Hl].
    + apply (proj2 (map_set_key_in _ _ _)). exact (Hall l a Hl Hla Hpos).
    + apply list_elem_of_singleton in Hl. subst l.
      rewrite Ea in Hla. injection Hla as <-.
      apply (proj1 (map_set_key_in _ _ _)).
Qed.

Lemma inventory_fold_map (host : Host) (hostname : jsstring -> completion jsstring)
    (closest : node -> jsstring -> option node) (baseUrl baseHost : jsstring)
    (links : list node) :
  forall (done : list node) (seen seen' : list (jsstring * Z)),
    inventory_map_of host hostname closest baseUrl baseHost done seen ->
    forEach_links (inventory_step host hostname closest baseUrl baseHost) links seen
    = Normal seen' ->
    inventory_map_of host hostname closest baseUrl baseHost (done ++ links) seen'.
Proof.
  induction links as [|link rest IH]; intros done seen seen' H; cbn [forEach_links].
  - intros [= <-]. rewrite app_nil_r. exact H.
  - destruct (inventory_step host hostname closest baseUrl baseHost seen link)
      as [s1|] eqn:Es; [|discriminate].
    intros Hrest.
    replace (done ++ link :: rest) with ((done ++ [link]) ++ rest)
      by (rewrite <- app_assoc; reflexivity).
    apply (IH _ s1 seen'); [|exact Hrest].
    apply (inventory_step_map _ _ _ _ _ _ seen); assumption.
Qed.

(** The map the loop ends with, from the empty map. *)
Lemma inventory_loop_map (host : Host) (hostname : jsstring -> completion jsstring)
    (closest : node -> jsstring -> option node) (baseUrl baseHost : jsstring)
    (links : list node) (seen : list (jsstring * Z)) :
  forEach_links (inventory_step host hostname closest baseUrl baseHost) links []
  = Normal seen ->
  inventory_map_of host hostname closest baseUrl baseHost links seen.
Proof.
  intros H.
  apply (inventory_fold_map host hostname closest baseUrl baseHost links [] [] seen);
    [|exact H].
  split; [rewrite fmap_nil; constructor|].
  split; [intros a v Hin; apply elem_of_nil in Hin; destruct Hin|].
  intros l a Hl. apply elem_of_nil in Hl. destruct Hl.
Qed.

(** The body of the loop throws on the links whose [href] is an object,
    and on no other. *)
Lemma inventory_step_throws (host : Host) (hostname : jsstring -> completion jsstring)
    (closest : node -> jsstring -> option node) (baseUrl baseHost : jsstring)
    (seen : list (jsstring * Z)) (link : node) :
  inventory_step host hostname closest baseUrl baseHost seen link = Throw
  <-> exists shown, link_href link = JObj shown.
Proof.
  unfold inventory_step, inventory_address. cbv zeta.
  destruct (link_href link) as [| |[|c t]|shown];
    try (split; [discriminate|intros [? [=]]]).
  - destruct (startsWith (c :: t) (js "#") || startsWith (c :: t) (js "javascript:")).
    { split; [discriminate|intros [? [=]]]. }
    destruct (new_URL_rel host (c :: t) baseUrl) as [u|];
      [|split; [discriminate|intros [? [=]]]].
    destruct (hostname (href_of u)) as [linkHost|];
      [|split; [discriminate|intros [? [=]]]].
    destruct (negb (jsstring_eqb linkHost baseHost));
      [split; [discriminate|intros [? [=]]]|].
    destruct (regex_test resource_pattern (href_of u));
      [split; [discriminate|intros [? [=]]]|].
    destruct (jsstring_eqb (href_of u) baseUrl
              || jsstring_eqb (href_of u) (baseUrl ++ js "/"));
      [split; [discriminate|intros [? [=]]]|].
    destruct (0 <? link_score closest link (href_of u))%Z;
      split; try discriminate; intros [? [=]].
  - split; [eauto|reflexivity].
Qed.

Lemma forEach_links_throws (host : Host) (hostname : jsstring -> completion jsstring)
    (closest : node -> jsstring -> option node) (baseUrl baseHost : jsstring)
    (links : list node) :
  forall seen,
    forEach_links (inventory_step host hostname closest baseUrl baseHost) links seen
    = Throw
    <-> exists link shown, link ∈ links /\ link_href link = JObj shown.
Proof.
  induction links as [|link rest IH]; intros seen; cbn [forEach_links].
  - split; [discriminate|]. intros (l & s & Hl & _). apply elem_of_nil in Hl. destruct Hl.
  - destruct (inventory_step host hostname closest baseUrl baseHost seen link)
      as [s1|] eqn:Es.
    + rewrite IH. split.
      * intros (l & s & Hl & Hs). exists l, s. split; [right; exact Hl|exact Hs].
      * intros (l & s & Hl & Hs). apply elem_of_cons in Hl as [->|Hl].
        -- assert (Ht : inventory_step host hostname closest baseUrl baseHost seen link
                         = Throw)
             by (apply inventory_step_throws; eauto).
           congruence.
        -- eauto.
    + split; [|reflexivity]. intros _.
      apply inventory_step_throws in Es as [shown Hs].
      exists link, shown. split; [left|exact Hs].
Qed.

Lemma insert_by_score_perm (x : jsstring * Z) (l : list (jsstring * Z)) :
  insert_by_score x l ≡ₚ x :: l.
Proof.
  induction l as [|h t IH]; cbn [insert_by_score]; [reflexivity|].
  destruct (snd x <? snd h)%Z; [|reflexivity].
  rewrite IH. apply Permutation_swap.
Qed.

Lemma sort_by_score_perm (l : list (jsstring * Z)) : sort_by_score l ≡ₚ l.
Proof.
  unfold sort_by_score. induction l as [|x l IH]; cbn [fold_right]; [reflexivity|].
  rewrite insert_by_score_perm, IH. reflexivity.
Qed.

Lemma insert_by_score_sorted (x : jsstring * Z) (l : list (jsstring * Z)) :
  StronglySorted (fun a b => (snd b <= snd a)%Z) l ->
  StronglySorted (fun a b => (snd b <= snd a)%Z) (insert_by_score x l).
Proof.
  induction 1 as [|h t Ht IH Hh]; cbn [insert_by_score].
  - repeat constructor.
  - destruct (snd x <? snd h)%Z eqn:E.
    + apply Z.ltb_lt in E. constructor; [exact IH|].
      rewrite insert_by_score_perm. constructor; [lia|exact Hh].
    + apply Z.ltb_ge in E. constructor; [constructor; assumption|].
      constructor; [exact E|].
      eapply Forall_impl; [exact Hh|]. intros y Hy. cbn in Hy. lia.
Qed.

Lemma sort_by_score_sorted (l : list (jsstring * Z)) :
  StronglySorted (fun a b => (snd b <= snd a)%Z) (sort_by_score l).
Proof.
  unfold sort_by_score. induction l as [|x l IH]; cbn [fold_right]; [constructor|].
  apply insert_by_score_sorted, IH.
Qed.

Lemma sorted_take_drop {A : Type} (R : A -> A -> Prop) (l : list A) (n : nat) :
  StronglySorted R l ->
  forall x y, x ∈ take n l -> y ∈ drop n l -> R x y.
Proof.
  intros Hs. revert n. induction Hs as [|h t Ht IH Hh]; intros n x y Hx Hy.
  - rewrite take_nil in Hx. apply elem_of_nil in Hx. destruct Hx.
  - destruct n as [|n]; [apply elem_of_nil in Hx; destruct Hx|].
    cbn [take drop] in Hx, Hy. apply elem_of_cons in Hx as [->|Hx].
    + rewrite Forall_forall in Hh. apply Hh.
      apply (subseteq_drop n t). exact Hy.
    + exact (IH n x y Hx Hy).
Qed.

(** What an address of [discoverInventoryLinks] went through. *)
Lemma inventory_address_Some (host : Host) (hostname : jsstring -> completion jsstring)
    (baseUrl baseHost : jsstring) (link : node) (a : jsstring) :
  inventory_address host hostname baseUrl baseHost link = Normal (Some a) ->
  hostname a = Normal baseHost /\ a <> baseUrl /\ a <> baseUrl ++ js "/"
  /\ regex_test resource_pattern a = false
  /\ exists h r, link_href link = JStr h
                 /\ new_URL_rel host h baseUrl = Normal r /\ href_of r = a.
Proof.
  unfold inventory_address. cbv zeta.
  destruct (link_href link) as [| |[|c t]|shown]; try discriminate.
  destruct (startsWith (c :: t) (js "#") || startsWith (c :: t) (js "javascript:"));
    [discriminate|].
  destruct (new_URL_rel host (c :: t) baseUrl) as [u|] eqn:Eu; [|discriminate].
  destruct (hostname (href_of u)) as [linkHost|] eqn:Eh; [|discriminate].
  unfold jsstring_eqb.
  case_bool_decide as E1; cbn [negb]; [|discriminate].
  destruct (regex_test resource_pattern (href_of u)) eqn:Er; [discriminate|].
  case_bool_decide as E2; [discriminate|].
  case_bool_decide as E3; [discriminate|].
  cbn [orb]. intros [= <-]. subst linkHost.
  repeat (split; [assumption|]). eauto.
Qed.

(** X25: what [discoverInventoryLinks] returns.  It throws exactly when
    the address of the page does not parse or a link of the document
    gives an object for its [href], as an SVG anchor does.  Otherwise it
    returns at most ten addresses, no address twice, each on the host of
    the page, none the page itself (with or without a final slash), none
    ending in one of the resource extensions, and each the address that
    the [href] of a link of the document, a string, resolves to against
    the address of the page, for a link that scores above zero. *)
Theorem discoverInventoryLinks_spec (host : Host)
    (hostname : jsstring -> completion jsstring)
    (closest : node -> jsstring -> option node) (d : node) (baseUrl : jsstring) :
  match discoverInventoryLinks host hostname closest d baseUrl with
  | Throw =>
      hostname baseUrl = Throw
      \/ exists link shown,
           link ∈ querySelectorAll d SEL_LINKS /\ link_href link = JObj shown
  | Normal urls =>
      exists baseHost,
        hostname baseUrl = Normal baseHost
        /\ (forall link shown,
              link ∈ querySelectorAll d SEL_LINKS -> link_href link <> JObj shown)
        /\ (length urls <= 10)%nat
        /\ NoDup urls
        /\ Forall (fun u =>
                     hostname u = Normal baseHost
                     /\ u <> baseUrl /\ u <> baseUrl ++ js "/"
                     /\ regex_test resource_pattern u = false
                     /\ exists link h r,
                         link ∈ querySelectorAll d SEL_LINKS
                         /\ link_href link = JStr h
                         /\ new_URL_rel host h baseUrl = Normal r
                         /\ href_of r = u
                         /\ inventory_address host hostname baseUrl baseHost link
                            = Normal (Some u)
                         /\ (0 < link_score closest link u)%Z)
             urls
  end.
Proof.
  unfold discoverInventoryLinks. cbv zeta.
  destruct (hostname baseUrl) as [baseHost|]; [|left; reflexivity].
  destruct (forEach_links (inventory_step host hostname closest baseUrl baseHost)
              (querySelectorAll d SEL_LINKS) []) as [seen|] eqn:Eloop.
  2:{ right. apply (forEach_links_throws host hostname closest baseUrl baseHost) in Eloop.
      exact Eloop. }
  exists baseHost. split; [reflexivity|].
  split.
  { intros link shown Hl Hs.
    assert (Ht : forEach_links (inventory_step host hostname closest baseUrl baseHost)
                   (querySelectorAll d SEL_LINKS) [] = Throw)
      by (apply forEach_links_throws; eauto).
    congruence. }
  destruct (inventory_loop_map host hostname closest baseUrl baseHost _ _ Eloop)
    as (Hnd & Hent & _).
  pose proof (sort_by_score_perm seen) as Hperm.
  split; [rewrite length_take; lia|]. split.
  - apply (sublist_NoDup _ (fst <$> sort_by_score seen)); [|apply sublist_take].
    rewrite Hperm. exact Hnd.
  - apply Forall_forall. intros u Hu.
    apply (subseteq_take 10) in Hu.
    apply list_elem_of_fmap in Hu as ([a v] & -> & Hin). cbn [fst].
    rewrite Hperm in Hin.
    destruct (Hent a v Hin) as (Hpos & (l & Hl & Hla & Hlv) & _).
    destruct (inventory_address_Some host hostname baseUrl baseHost l a Hla)
      as (H1 & H2 & H3 & H4 & h & r & H5 & H6 & H7).
    repeat (split; [assumption|]).
    exists l, h, r. repeat (split; [assumption|]). lia.
Qed.

(** X26: [discoverInventoryLinks] returns the best-scored addresses: the
    address of a link that scores above zero is returned, unless ten
    addresses are returned that each have a link scoring at least as
    much. *)
Theorem discoverInventoryLinks_ranked (host : Host)
    (hostname : jsstring -> completion jsstring)
    (closest : node -> jsstring -> option node) (d : node)
    (baseUrl baseHost : jsstring) (urls : list jsstring) (link : node)
    (a : jsstring) :
  discoverInventoryLinks host hostname closest d baseUrl = Normal urls ->
  hostname baseUrl = Normal baseHost ->
  link ∈ querySelectorAll d SEL_LINKS ->
  inventory_address host hostname baseUrl baseHost link = Normal (Some a) ->
  (0 < link_score closest link a)%Z ->
  a ∈ urls
  \/ (length urls = 10%nat
      /\ Forall (fun u =>
                   exists other,
                     other ∈ querySelectorAll d SEL_LINKS
                     /\ inventory_address host hostname baseUrl baseHost other
                        = Normal (Some u)
                     /\ (link_score closest link a <= link_score closest other u)%Z)
           urls).
Proof.
  unfold discoverInventoryLinks. cbv zeta. intros Hrun Hhost Hlink Ha Hpos.
  rewrite Hhost in Hrun.
  destruct (forEach_links (inventory_step host hostname closest baseUrl baseHost)
              (querySelectorAll d SEL_LINKS) []) as [seen|] eqn:Eloop; [|discriminate].
  injection Hrun as <-.
  destruct (inventory_loop_map host hostname closest baseUrl baseHost _ _ Eloop)
    as (Hnd & Hent & Hall).
  pose proof (sort_by_score_perm seen) as Hperm.
  pose proof (sort_by_score_sorted seen) as Hsorted.
  assert (Hkey : a ∈ (fst <$> sort_by_score seen))
    by (rewrite Hperm; exact (Hall link a Hlink Ha Hpos)).
  rewrite <- (take_drop 10 (fst <$> sort_by_score seen)) in Hkey.
  apply elem_of_app in Hkey as [Hkey|Hkey]; [left; exact Hkey|].
  right.
  rewrite <- fmap_drop in Hkey.
  apply list_elem_of_fmap in Hkey as ([a' v] & Ea & Hdrop). cbn [fst] in Ea. subst a'.
  assert (Hv : (link_score closest link a <= v)%Z).
  { apply (subseteq_drop 10) in Hdrop. rewrite Hperm in Hdrop.
    destruct (Hent a v Hdrop) as (_ & _ & Hmax). apply Hmax; assumption. }
  split.
  - rewrite length_take, length_fmap.
    assert (Hlen : (10 < length (sort_by_score seen))%nat); [|lia].
    destruct (decide (10 < length (sort_by_score seen))%nat) as [H|H]; [exact H|].
    rewrite drop_ge in Hdrop by lia. apply elem_of_nil in Hdrop. destruct Hdrop.
  - apply Forall_forall. intros u Hu. rewrite <- fmap_take in Hu.
    apply list_elem_of_fmap in Hu as ([u' w] & Eu & Htake). cbn [fst] in Eu. subst u'.
    pose proof (sorted_take_drop _ _ 10 Hsorted _ _ Htake Hdrop) as Hle.
    cbn [snd] in Hle.
    apply (subseteq_take 10) in Htake. rewrite Hperm in Htake.
    destruct (Hent u w Htake) as (_ & (l & Hl & Hla & Hlv) & _).
    exists l. split; [exact Hl|]. split; [exact Hla|lia].
Qed.

Lemma existsb_eqb_false (u : jsstring) (l : list jsstring) :
  existsb (jsstring_eqb u) l = false -> u ∉ l.
Proof.
  induction l as [|x l IH]; cbn [existsb]; [intros _; apply not_elem_of_nil|].
  intros H. apply orb_false_iff in H as [Hx Hl].
  unfold jsstring_eqb in Hx. apply bool_decide_eq_false_1 in Hx.
  apply not_elem_of_cons. split; [exact Hx|exact (IH Hl)].
Qed.

Lemma push_new (P : jsstring -> Prop) (urls : list jsstring) (u : jsstring) :
  NoDup urls /\ Forall P urls ->
  existsb (jsstring_eqb u) urls = false -> P u ->
  NoDup (urls ++ [u]) /\ Forall P (urls ++ [u]).
Proof.
  intros [Hnd Hall] Hnew Hu. apply existsb_eqb_false in Hnew. split.
  - apply NoDup_app. split; [exact Hnd|]. split; [|apply NoDup_singleton].
    intros x Hx Hx'. apply list_elem_of_singleton in Hx'. subst x. contradiction.
  - apply Forall_app. split; [exact Hall|]. constructor; [exact Hu|constructor].
Qed.

(** An address the loop over a pagination container adds is the address
    the [href] of a link it takes as a page resolves to. *)
Lemma pagination_step_keeps (host : Host) (baseUrl baseHost : jsstring)
    (P : jsstring -> Prop) (urls : list jsstring) (link : node) :
  (forall r, taken_as_page link = true ->
             new_URL_rel host (String_of (link_href link)) baseUrl = Normal r ->
             includes (href_of r) baseHost = true -> P (href_of r)) ->
  NoDup urls /\ Forall P urls ->
  NoDup (pagination_step host baseUrl baseHost urls link)
  /\ Forall P (pagination_step host baseUrl baseHost urls link).
Proof.
  intros HP H. unfold pagination_step. cbv zeta.
  unfold taken_as_page in HP.
  destruct (regex_test previous_pattern _); [exact H|].
  destruct (classList_contains link (js "current") || _); [exact H|].
  destruct (regex_test next_pattern _ || _); [|exact H].
  destruct (new_URL_rel host _ baseUrl) as [r|] eqn:Er; [|exact H].
  destruct (includes (href_of r) baseHost) eqn:Ei; [|exact H].
  destruct (existsb (jsstring_eqb (href_of r)) urls) eqn:Ee; [exact H|].
  cbn [andb negb]. apply push_new; [exact H|exact Ee|].
  apply HP; [reflexivity|reflexivity|exact Ei].
Qed.

Lemma pagination_fallback_step_keeps (host : Host) (baseUrl baseHost : jsstring)
    (P : jsstring -> Prop) (urls : list jsstring) (link : node) :
  (forall r, taken_by_fallback link = true ->
             new_URL_rel host (String_of (link_href link)) baseUrl = Normal r ->
             includes (href_of r) baseHost = true -> href_of r <> baseUrl ->
             P (href_of r)) ->
  NoDup urls /\ Forall P urls ->
  NoDup (pagination_fallback_step host baseUrl baseHost urls link)
  /\ Forall P (pagination_fallback_step host baseUrl baseHost urls link).
Proof.
  intros HP H. unfold pagination_fallback_step. cbv zeta.
  unfold taken_by_fallback in HP.
  destruct (truthy_val (link_href link)); cbn [negb]; [|exact H].
  destruct (regex_test page_query_pattern _ || _); [|exact H].
  destruct (new_URL_rel host _ baseUrl) as [r|] eqn:Er; [|exact H].
  destruct (includes (href_of r) baseHost) eqn:Ei; [|exact H].
  destruct (jsstring_eqb (href_of r) baseUrl) eqn:Eb; [exact H|].
  unfold jsstring_eqb in Eb. apply bool_decide_eq_false_1 in Eb.
  destruct (existsb (jsstring_eqb (href_of r)) urls) eqn:Ee; [exact H|].
  cbn [andb negb]. apply push_new; [exact H|exact Ee|].
  apply HP; [reflexivity|reflexivity|exact Ei|exact Eb].
Qed.

(** A fold over a list keeps what each turn keeps for the elements of
    the list. *)
Lemma fold_left_keeps_in {A B : Type} (Q : A -> Prop) (f : A -> B -> A) (l : list B) :
  (forall a b, b ∈ l -> Q a -> Q (f a b)) -> forall a, Q a -> Q (fold_left f l a).
Proof.
  induction l as [|b l IH]; intros Hf a Ha; cbn [fold_left]; [exact Ha|].
  apply IH; [intros a' b' Hb'; apply Hf; right; exact Hb'|].
  apply Hf; [left|exact Ha].
Qed.

(** X27: what [discoverPaginationLinks] returns.  It throws exactly when
    the address of the page does not parse.  Otherwise no address is
    returned twice and each has the host name of the page somewhere in it
    (a substring test).  When the loop over the pagination containers
    finds an address, each address returned is what the [href] of a link
    of a container resolves to against the address of the page, the link
    being one the loop takes as a page: not marked as previous or current,
    and with a text that says next or an [href] that has a page number in
    its path.  When it finds none, each address returned is what the
    [href] of a link of the document resolves to, the [href] being truthy
    and showing a page number, and none is the address of the page
    itself.  The [href] is used as the text it converts to. *)
Theorem discoverPaginationLinks_spec (host : Host)
    (hostname : jsstring -> completion jsstring) (d : node) (baseUrl : jsstring) :
  match discoverPaginationLinks host hostname d baseUrl with
  | Throw => hostname baseUrl = Throw
  | Normal urls =>
      exists baseHost,
        hostname baseUrl = Normal baseHost
        /\ NoDup urls
        /\ Forall (fun u => includes u baseHost = true) urls
        /\ (Forall (fun u =>
                      exists container link r,
                        container ∈ querySelectorAll d SEL_PAGINATION
                        /\ link ∈ querySelectorAll container SEL_LINKS
                        /\ taken_as_page link = true
                        /\ new_URL_rel host (String_of (link_href link)) baseUrl
                           = Normal r
                        /\ href_of r = u) urls
            \/ Forall (fun u =>
                         u <> baseUrl
                         /\ exists link r,
                             link ∈ querySelectorAll d SEL_LINKS
                             /\ taken_by_fallback link = true
                             /\ new_URL_rel host (String_of (link_href link)) baseUrl
                                = Normal r
                             /\ href_of r = u) urls)
        /\ (querySelectorAll d SEL_PAGINATION = [] ->
            Forall (fun u => u <> baseUrl) urls)
  end.
Proof.
  unfold discoverPaginationLinks.
  destruct (hostname baseUrl) as [baseHost|]; [|reflexivity].
  cbv zeta. exists baseHost. split; [reflexivity|].
  set (P := fun u => includes u baseHost = true
                     /\ exists container link r,
                          container ∈ querySelectorAll d SEL_PAGINATION
                          /\ link ∈ querySelectorAll container SEL_LINKS
                          /\ taken_as_page link = true
                          /\ new_URL_rel host (String_of (link_href link)) baseUrl
                             = Normal r
                          /\ href_of r = u).
  set (Q := fun u => includes u baseHost = true
                     /\ u <> baseUrl
                     /\ exists link r,
                          link ∈ querySelectorAll d SEL_LINKS
                          /\ taken_by_fallback link = true
                          /\ new_URL_rel host (String_of (link_href link)) baseUrl
                             = Normal r
                          /\ href_of r = u).
  assert (Hc : NoDup (fold_left
                        (fun urls container =>
                           fold_left (pagination_step host baseUrl baseHost)
                             (querySelectorAll container SEL_LINKS) urls)
                        (querySelectorAll d SEL_PAGINATION) [])
               /\ Forall P (fold_left
                              (fun urls container =>
                                 fold_left (pagination_step host baseUrl baseHost)
                                   (querySelectorAll container SEL_LINKS) urls)
                              (querySelectorAll d SEL_PAGINATION) [])).
  { apply (fold_left_keeps_in (fun urls => NoDup urls /\ Forall P urls));
      [|split; constructor].
    intros urls container Hcont.
    apply (fold_left_keeps_in (fun urls => NoDup urls /\ Forall P urls)).
    intros urls' link Hlink. apply pagination_step_keeps.
    intros r Ht Hr Hi. split; [exact Hi|]. exists container, link, r. auto. }
  assert (Hf : NoDup (fold_left (pagination_fallback_step host baseUrl baseHost)
                        (querySelectorAll d SEL_LINKS) [])
               /\ Forall Q
                    (fold_left (pagination_fallback_step host baseUrl baseHost)
                       (querySelectorAll d SEL_LINKS) [])).
  { apply (fold_left_keeps_in (fun urls => NoDup urls /\ Forall Q urls));
      [|split; constructor].
    intros urls link Hlink. apply pagination_fallback_step_keeps.
    intros r Ht Hr Hi Hb. split; [exact Hi|]. split; [exact Hb|].
    exists link, r. auto. }
  destruct (fold_left _ (querySelectorAll d SEL_PAGINATION) []) as [|u urls] eqn:E.
  - destruct Hf as [Hf1 Hf2]. split; [exact Hf1|]. split; [|split].
    + eapply Forall_impl; [exact Hf2|]. intros x [Hx _]. exact Hx.
    + right. eapply Forall_impl; [exact Hf2|]. intros x (_ & Hx). exact Hx.
    + intros _. eapply Forall_impl; [exact Hf2|]. intros x (_ & Hx & _). exact Hx.
  - destruct Hc as [Hc1 Hc2]. split; [exact Hc1|]. split; [|split].
    + eapply Forall_impl; [exact Hc2|]. intros x [Hx _]. exact Hx.
    + left. eapply Forall_impl; [exact Hc2|]. intros x [_ Hx]. exact Hx.
    + intros Hnone. rewrite Hnone in E. discriminate.
Qed.

(** An example: from the home page, the link to the boats is returned;
    the link without an inventory word, the image and the fragment are
    not. *)
Lemma discoverInventoryLinks_example :
  discoverInventoryLinks (simple_host 2025) simple_hostname outside_any home_page
    home_url
  = Normal [js "https://broker.example/boats/"].
Proof. vm_compute. reflexivity. Qed.

(** With an SVG anchor among the links of the page the function
    throws. *)
Lemma discoverInventoryLinks_svg_anchor :
  discoverInventoryLinks (simple_host 2025) simple_hostname outside_any
    home_page_with_svg home_url
  = Throw.
Proof. vm_compute. reflexivity. Qed.

(** [discoverPaginationLinks] does not throw on an SVG anchor: the
    conversions turn the object into its text, which is resolved as a
    relative address and returned. *)
Lemma discoverPaginationLinks_svg_anchor :
  exists u,
    discoverPaginationLinks (simple_host 2025) simple_hostname
      page_with_svg_next home_url
    = Normal [u]
    /\ includes u (js "SVGAnimatedString") = true.
Proof. eexists. split; vm_compute; reflexivity. Qed.

Lemma discoverInventoryLinks_ranked_witness :
  js "https://broker.example/boats/" ∈ [js "https://broker.example/boats/"]
  \/ (length [js "https://broker.example/boats/"] = 10%nat
      /\ Forall (fun u =>
                   exists other,
                     other ∈ querySelectorAll home_page SEL_LINKS
                     /\ inventory_address (simple_host 2025) simple_hostname home_url
                          (js "broker.example") other = Normal (Some u)
                     /\ (link_score outside_any
                           (link_node "https://broker.example/boats/" "Boats for sale")
                           (js "https://broker.example/boats/")
                         <= link_score outside_any other u)%Z)
           [js "https://broker.example/boats/"]).
Proof.
  apply (discoverInventoryLinks_ranked (simple_host 2025) simple_hostname outside_any
           home_page home_url (js "broker.example") _
           (link_node "https://broker.example/boats/" "Boats for sale")).
  - vm_compute. reflexivity.
  - vm_compute. reflexivity.
  - vm_compute. left.
  - vm_compute. reflexivity.
  - vm_compute. reflexivity.
Defined.

(* ====================================================================== *)
(** * Further properties: the crawl *)
(* ====================================================================== *)

Lemma parseYachtListings_sourceUrl (host : Host) (p : page) (pageUrl : jsstring)
    (clk : Clock) :
  Forall (fun y => sourceUrl y = pageUrl)
    (yachts_of (fst (parseYachtListings host p pageUrl clk))).
Proof.
  unfold parseYachtListings.
  destruct (parseYachtListings_with_anatomy host (SITE_ADAPTERS host) p pageUrl clk)
    as [(_ & -> & _)|(_ & _ & found & -> & _)]; [constructor|].
  apply Forall_forall. intros y Hy. apply list_elem_of_In in Hy.
  apply dedupe_from_incl in Hy.
  apply (filter_step_kept_fields pageUrl found _ y Hy).
Qed.

(** Records of a page not scanned yet, pushed with the page. *)
Lemma crawl_push (url pageUrl : jsstring) (c : crawl) (y : yacht) (ys : list yacht) :
  crawl_ok url c ->
  existsb (jsstring_eqb pageUrl) (pagesScanned c) = false ->
  Forall (fun z => sourceUrl z = pageUrl) (y :: ys) ->
  crawl_ok url {| allYachts := allYachts c ++ y :: ys;
                  pagesScanned := pagesScanned c ++ [pageUrl] |}.
Proof.
  intros (Hhead & Hnd & Hsrc & Hcontrib) Hnew Hys.
  apply existsb_eqb_false in Hnew.
  unfold crawl_ok. cbn [allYachts pagesScanned].
  split; [|split; [|split]].
  - destruct (pagesScanned c); [discriminate|exact Hhead].
  - apply NoDup_app. split; [exact Hnd|]. split; [|apply NoDup_singleton].
    intros x Hx Hx'. apply list_elem_of_singleton in Hx'. subst x. contradiction.
  - apply Forall_app. split.
    + eapply Forall_impl; [exact Hsrc|]. intros z Hz. apply elem_of_app. left. exact Hz.
    + eapply Forall_impl; [exact Hys|]. intros z ->. apply elem_of_app. right. left.
  - intros u Hu Hne. apply elem_of_app in Hu as [Hu|Hu].
    + destruct (Hcontrib u Hu Hne) as (z & Hz & Ez).
      exists z. split; [apply elem_of_app; left; exact Hz|exact Ez].
    + apply list_elem_of_singleton in Hu. subst u.
      exists y. split; [apply elem_of_app; right; left|].
      apply Forall_cons in Hys as [Hy _]. exact Hy.
Qed.

Lemma scan_page_ok (host : Host) (net : Net) (url pageUrl : jsstring) (c : crawl)
    (st : nat * Clock) :
  crawl_ok url c ->
  crawl_ok url (fst (scan_page host net pageUrl c st))
  /\ (fst st <= fst (snd (scan_page host net pageUrl c st)) <= fst st + 1)%nat.
Proof.
  intros Hc. unfold scan_page.
  destruct (existsb (jsstring_eqb pageUrl) (pagesScanned c)) eqn:Es.
  { unfold mret, W_ret. cbn [fst snd]. split; [exact Hc|lia]. }
  unfold mbind, W_bind, fetchWithProxy, mret, W_ret, lift. cbn [fst snd].
  destruct (net (fst st) pageUrl) as [p|]; [|cbn [fst snd]; split; [exact Hc|lia]].
  cbn [fst snd].
  pose proof (parseYachtListings_sourceUrl host p pageUrl (snd st)) as Hsrc.
  destruct (parseYachtListings host p pageUrl (snd st)) as [res clk'].
  cbn [fst snd] in *. split; [|lia].
  destruct (yachts_of res) as [|y ys]; [exact Hc|].
  apply crawl_push; assumption.
Qed.

Lemma scan_pages_ok (host : Host) (net : Net) (url : jsstring) (urls : list jsstring) :
  forall (c : crawl) (st : nat * Clock),
    crawl_ok url c ->
    crawl_ok url (fst (scan_pages host net urls c st))
    /\ (fst st <= fst (snd (scan_pages host net urls c st))
        <= fst st + length urls)%nat.
Proof.
  induction urls as [|u rest IH]; intros c st Hc; cbn [scan_pages length].
  - unfold mret, W_ret. cbn [fst snd]. split; [exact Hc|lia].
  - unfold mbind, W_bind.
    destruct (scan_page_ok host net url u c st Hc) as [H1 H2].
    destruct (scan_page host net u c st) as [c' st']. cbn [fst snd] in *.
    destruct (IH c' st' H1) as [H3 H4]. split; [exact H3|lia].
Qed.

Lemma scan_inventory_ok (host : Host) (hostname : jsstring -> completion jsstring)
    (net : Net) (url invUrl : jsstring) (c : crawl) (st : nat * Clock) :
  crawl_ok url c ->
  crawl_ok url (fst (scan_inventory host hostname net invUrl c st))
  /\ (fst st <= fst (snd (scan_inventory host hostname net invUrl c st))
      <= fst st + 4)%nat.
Proof.
  intros Hc. unfold scan_inventory.
  destruct (existsb (jsstring_eqb invUrl) (pagesScanned c)) eqn:Es.
  { unfold mret, W_ret. cbn [fst snd]. split; [exact Hc|lia]. }
  unfold mbind, W_bind, fetchWithProxy, mret, W_ret, lift. cbn [fst snd].
  destruct (net (fst st) invUrl) as [p|]; [|cbn [fst snd]; split; [exact Hc|lia]].
  cbn [fst snd].
  pose proof (parseYachtListings_sourceUrl host p invUrl (snd st)) as Hsrc.
  destruct (parseYachtListings host p invUrl (snd st)) as [res clk'].
  cbn [fst snd] in *.
  destruct (yachts_of res) as [|y ys]; [cbn [fst snd]; split; [exact Hc|lia]|].
  cbv zeta.
  pose proof (crawl_push url invUrl c y ys Hc Es Hsrc) as Hc1.
  destruct (discoverPaginationLinks host hostname (doc p) invUrl) as [links|];
    [|cbn [fst snd]; split; [exact Hc1|lia]].
  pose proof (scan_pages_ok host net url (take 3 links) _ (S (fst st), clk') Hc1)
    as [H1 H2].
  rewrite length_take in H2. cbn [fst] in H2. split; [exact H1|lia].
Qed.

Lemma scan_inventories_ok (host : Host) (hostname : jsstring -> completion jsstring)
    (net : Net) (url : jsstring) (urls : list jsstring) :
  forall (c : crawl) (st : nat * Clock),
    crawl_ok url c ->
    crawl_ok url (fst (scan_inventories host hostname net urls c st))
    /\ (fst st <= fst (snd (scan_inventories host hostname net urls c st))
        <= fst st + 4 * length urls)%nat.
Proof.
  induction urls as [|u rest IH]; intros c st Hc; cbn [scan_inventories length].
  - unfold mret, W_ret. cbn [fst snd]. split; [exact Hc|lia].
  - unfold mbind, W_bind.
    destruct (scan_inventory_ok host hostname net url u c st Hc) as [H1 H2].
    destruct (scan_inventory host hostname net u c st) as [c' st']. cbn [fst snd] in *.
    destruct (IH c' st' H1) as [H3 H4]. split; [exact H3|lia].
Qed.

Lemma handleFetch_try_ok (host : Host) (hostname : jsstring -> completion jsstring)
    (closest : node -> jsstring -> option node) (net : Net) (url : jsstring)
    (st : nat * Clock) :
  let r := handleFetch_try host hostname closest net url st in
  (fst st <= fst (snd r) <= fst st + 24)%nat
  /\ match fst r with
     | Normal c => crawl_ok url c
     | Throw => True
     end.
Proof.
  cbv zeta. unfold handleFetch_try.
  unfold mbind, W_bind, fetchWithProxy, mret, W_ret, lift. cbn [fst snd].
  destruct (net (fst st) url) as [p|]; [|cbn [fst snd]; split; [lia|exact I]].
  cbn [fst snd].
  pose proof (parseYachtListings_sourceUrl host p url (snd st)) as Hsrc.
  destruct (parseYachtListings host p url (snd st)) as [res clk'].
  cbn [fst snd] in *. cbv zeta.
  assert (Hc0 : crawl_ok url {| allYachts := yachts_of res; pagesScanned := [url] |}).
  { unfold crawl_ok. cbn [allYachts pagesScanned head].
    split; [reflexivity|]. split; [apply NoDup_singleton|]. split.
    - eapply Forall_impl; [exact Hsrc|]. intros y ->. left.
    - intros u Hu Hne. apply list_elem_of_singleton in Hu. contradiction. }
  destruct (discoverInventoryLinks host hostname closest (doc p) url) as [inv|];
    [|cbn [fst snd]; split; [lia|exact I]].
  pose proof (scan_inventories_ok host hostname net url (take 5 inv) _
                (S (fst st), clk') Hc0) as [H1 H2].
  rewrite length_take in H2. cbn [fst] in H2.
  destruct (scan_inventories host hostname net (take 5 inv) _ (S (fst st), clk'))
    as [c1 st1].
  cbn [fst snd] in *.
  destruct (allYachts c1) as [|y ys] eqn:Ea; [cbn [fst snd]; split; [lia|exact H1]|].
  destruct (discoverPaginationLinks host hostname (doc p) url) as [links|];
    [|cbn [fst snd]; split; [lia|exact I]].
  pose proof (scan_pages_ok host net url (take 3 links) c1 st1 H1) as [H3 H4].
  rewrite length_take in H4.
  destruct (scan_pages host net (take 3 links) c1 st1) as [c2 st2].
  cbn [fst snd] in *. split; [lia|exact H3].
Qed.

(** X28: one press of the fetch button calls [fetchWithProxy] at most 24
    times, whatever the pages hold: the entered page, five inventory
    links with three pagination links each, and three pagination links of
    the entered page. *)
Theorem handleFetch_fetch_bound (host : Host)
    (hostname : jsstring -> completion jsstring)
    (closest : node -> jsstring -> option node) (net : Net) (input : jsstring)
    (s : ui_state) (st : nat * Clock) :
  let after := snd (handleFetch host hostname closest net input s st) in
  (fst st <= fst after <= fst st + 24)%nat.
Proof.
  cbv zeta. unfold handleFetch. cbv zeta.
  destruct (negb (truthy_str (trim input))); [unfold mret, W_ret; cbn [fst snd]; lia|].
  destruct (new_URL host (trim input)); [|unfold mret, W_ret; cbn [fst snd]; lia].
  unfold mbind, W_bind, mret, W_ret.
  destruct (handleFetch_try_ok host hostname closest net (trim input) st) as [H _].
  destruct (handleFetch_try host hostname closest net (trim input) st) as [r st'].
  cbn [fst snd] in *. exact H.
Qed.

(** X29: what a crawl collects.  When the [try] block of [handleFetch]
    runs to its end, the entered page is the first of the scanned pages,
    no page is scanned twice, every record collected carries as
    [sourceUrl] the address of a scanned page, and every scanned page but
    the entered one gave at least one of the records. *)
Theorem handleFetch_try_provenance (host : Host)
    (hostname : jsstring -> completion jsstring)
    (closest : node -> jsstring -> option node) (net : Net) (url : jsstring)
    (st : nat * Clock) :
  match fst (handleFetch_try host hostname closest net url st) with
  | Normal c =>
      head (pagesScanned c) = Some url
      /\ NoDup (pagesScanned c)
      /\ Forall (fun y => sourceUrl y ∈ pagesScanned c) (allYachts c)
      /\ (forall u, u ∈ pagesScanned c -> u <> url ->
                    exists y, y ∈ allYachts c /\ sourceUrl y = u)
  | Throw => True
  end.
Proof.
  destruct (handleFetch_try_ok host hostname closest net url st) as [_ H].
  destruct (fst (handleFetch_try host hostname closest net url st)); exact H.
Qed.

(** What every record of a run satisfies, in one statement. *)
Lemma parseYachtListings_records (host : Host) (p : page) (pageUrl : jsstring)
    (clk : Clock) :
  Forall (fun y => (40 <= overall (confidence y) <= 100)%Z
                   /\ issues y = validateYacht y
                   /\ truthy_str (title y) || truthy_onum (priceRaw y) = true)
    (yachts_of (fst (parseYachtListings host p pageUrl clk))).
Proof.
  pose proof (parseYachtListings_found host p pageUrl clk) as Hf.
  assert (Hk : Forall (fun y => truthy_str (title y) || truthy_onum (priceRaw y) = true)
                 (yachts_of (fst (parseYachtListings host p pageUrl clk))))
    by (unfold parseYachtListings;
        exact (parseYachtListings_with_filtered host (SITE_ADAPTERS host) p pageUrl clk)).
  assert (Hs : Forall (fun y => (40 <= overall (confidence y))%Z
                               /\ issues y = validateYacht y)
                 (yachts_of (fst (parseYachtListings host p pageUrl clk)))).
  { unfold parseYachtListings.
    destruct (parseYachtListings_with_anatomy host (SITE_ADAPTERS host) p pageUrl clk)
      as [(_ & -> & _)|(_ & _ & found & -> & _)]; [constructor|].
    apply Forall_forall. intros y Hy. apply list_elem_of_In in Hy.
    apply dedupe_from_incl in Hy.
    pose proof (filter_step_kept_fields pageUrl found _ y Hy) as (_ & H1 & _ & H2).
    split; [exact H1|exact H2]. }
  rewrite Forall_forall in Hf, Hk, Hs. apply Forall_forall. intros y Hy.
  destruct (Hs y Hy) as [H1 H2]. split; [|split; [exact H2|exact (Hk y Hy)]].
  split; [exact H1|].
  destruct (Hf y Hy) as (x & Hx & ->).
  unfold stamped. cbv zeta. fields. apply strategy_record_score, Hx.
Qed.

(** A property of every record of every run holds of every record a crawl
    collects. *)
Lemma scan_page_Forall (host : Host) (net : Net) (P : yacht -> Prop)
    (pageUrl : jsstring) (c : crawl) (st : nat * Clock) :
  (forall p u clk, Forall P (yachts_of (fst (parseYachtListings host p u clk)))) ->
  Forall P (allYachts c) ->
  Forall P (allYachts (fst (scan_page host net pageUrl c st))).
Proof.
  intros HP Hc. unfold scan_page.
  destruct (existsb (jsstring_eqb pageUrl) (pagesScanned c)); [exact Hc|].
  unfold mbind, W_bind, fetchWithProxy, mret, W_ret, lift. cbn [fst snd].
  destruct (net (fst st) pageUrl) as [p|]; [|exact Hc]. cbn [fst snd].
  pose proof (HP p pageUrl (snd st)) as Hp.
  destruct (parseYachtListings host p pageUrl (snd st)) as [res clk'].
  cbn [fst snd] in *.
  destruct (yachts_of res) as [|y ys]; [exact Hc|].
  cbn [allYachts]. apply Forall_app. split; assumption.
Qed.

Lemma scan_pages_Forall (host : Host) (net : Net) (P : yacht -> Prop)
    (urls : list jsstring) :
  (forall p u clk, Forall P (yachts_of (fst (parseYachtListings host p u clk)))) ->
  forall (c : crawl) (st : nat * Clock),
    Forall P (allYachts c) ->
    Forall P (allYachts (fst (scan_pages host net urls c st))).
Proof.
  intros HP. induction urls as [|u rest IH]; intros c st Hc; cbn [scan_pages];
    [exact Hc|].
  unfold mbind, W_bind.
  pose proof (scan_page_Forall host net P u c st HP Hc) as H1.
  destruct (scan_page host net u c st) as [c' st']. cbn [fst] in H1.
  apply IH, H1.
Qed.

Lemma scan_inventory_Forall (host : Host) (hostname : jsstring -> completion jsstring)
    (net : Net) (P : yacht -> Prop) (invUrl : jsstring) (c : crawl)
    (st : nat * Clock) :
  (forall p u clk, Forall P (yachts_of (fst (parseYachtListings host p u clk)))) ->
  Forall P (allYachts c) ->
  Forall P (allYachts (fst (scan_inventory host hostname net invUrl c st))).
Proof.
  intros HP Hc. unfold scan_inventory.
  destruct (existsb (jsstring_eqb invUrl) (pagesScanned c)); [exact Hc|].
  unfold mbind, W_bind, fetchWithProxy, mret, W_ret, lift. cbn [fst snd].
  destruct (net (fst st) invUrl) as [p|]; [|exact Hc]. cbn [fst snd].
  pose proof (HP p invUrl (snd st)) as Hp.
  destruct (parseYachtListings host p invUrl (snd st)) as [res clk'].
  cbn [fst snd] in *.
  destruct (yachts_of res) as [|y ys]; [exact Hc|].
  cbv zeta.
  assert (Hc1 : Forall P (allYachts c ++ y :: ys))
    by (apply Forall_app; split; assumption).
  destruct (discoverPaginationLinks host hostname (doc p) invUrl) as [links|];
    [|exact Hc1].
  apply scan_pages_Forall; assumption.
Qed.

Lemma scan_inventories_Forall (host : Host)
    (hostname : jsstring -> completion jsstring) (net : Net) (P : yacht -> Prop)
    (urls : list jsstring) :
  (forall p u clk, Forall P (yachts_of (fst (parseYachtListings host p u clk)))) ->
  forall (c : crawl) (st : nat * Clock),
    Forall P (allYachts c) ->
    Forall P (allYachts (fst (scan_inventories host hostname net urls c st))).
Proof.
  intros HP. induction urls as [|u rest IH]; intros c st Hc; cbn [scan_inventories];
    [exact Hc|].
  unfold mbind, W_bind.
  pose proof (scan_inventory_Forall host hostname net P u c st HP Hc) as H1.
  destruct (scan_inventory host hostname net u c st) as [c' st']. cbn [fst] in H1.
  apply IH, H1.
Qed.

Lemma handleFetch_try_Forall (host : Host)
    (hostname : jsstring -> completion jsstring)
    (closest : node -> jsstring -> option node) (net : Net) (P : yacht -> Prop)
    (url : jsstring) (st : nat * Clock) :
  (forall p u clk, Forall P (yachts_of (fst (parseYachtListings host p u clk)))) ->
  match fst (handleFetch_try host hostname closest net url st) with
  | Normal c => Forall P (allYachts c)
  | Throw => True
  end.
Proof.
  intros HP. unfold handleFetch_try.
  unfold mbind, W_bind, fetchWithProxy, mret, W_ret, lift. cbn [fst snd].
  destruct (net (fst st) url) as [p|]; [|exact I]. cbn [fst snd].
  pose proof (HP p url (snd st)) as Hp.
  destruct (parseYachtListings host p url (snd st)) as [res clk'].
  cbn [fst snd] in *. cbv zeta.
  destruct (discoverInventoryLinks host hostname closest (doc p) url) as [inv|];
    [|exact I].
  pose proof (scan_inventories_Forall host hostname net P (take 5 inv) HP
                {| allYachts := yachts_of res; pagesScanned := [url] |}
                (S (fst st), clk') Hp) as H1.
  destruct (scan_inventories host hostname net (take 5 inv) _ (S (fst st), clk'))
    as [c1 st1].
  cbn [fst snd] in *.
  destruct (allYachts c1) as [|y ys] eqn:Ea; [cbn [fst]; rewrite Ea; constructor|].
  destruct (discoverPaginationLinks host hostname (doc p) url) as [links|];
    [|exact I].
  assert (Hc1 : Forall P (allYachts c1)) by (rewrite Ea; exact H1).
  pose proof (scan_pages_Forall host net P (take 3 links) HP c1 st1 Hc1) as H2.
  destruct (scan_pages host net (take 3 links) c1 st1) as [c2 st2].
  exact H2.
Qed.

Lemma Forall_sublist_of {A : Type} (P : A -> Prop) (l1 l2 : list A) :
  Forall P l2 -> sublist l1 l2 -> Forall P l1.
Proof.
  intros H Hs. rewrite Forall_forall in H. apply Forall_forall.
  intros x Hx. apply H. eapply elem_of_sublist; eassumption.
Qed.

(** X30: what a press of the fetch button leaves in the result list.
    Either the list is left as it was, or it shows between one and ten
    records, the total being at least that number; no two of the records
    shown have the same deduplication key, across all the pages read; all
    of them are selected; and each has a confidence between 40 and 100,
    the issues [validateYacht] finds on it, and a title or a price. *)
Theorem handleFetch_shows (host : Host) (hostname : jsstring -> completion jsstring)
    (closest : node -> jsstring -> option node) (net : Net) (input : jsstring)
    (s : ui_state) (st : nat * Clock) :
  let s' := fst (handleFetch host hostname closest net input s st) in
  s' = s
  \/ ((1 <= length (parsedYachts s') <= 10)%nat
      /\ (length (parsedYachts s') <= totalYachtsFound s')%nat
      /\ NoDup (key_of <$> parsedYachts s')
      /\ selectedYachts s' = list_to_set (yid <$> parsedYachts s')
      /\ Forall (fun y => (40 <= overall (confidence y) <= 100)%Z
                          /\ issues y = validateYacht y
                          /\ truthy_str (title y) || truthy_onum (priceRaw y) = true)
           (parsedYachts s')).
Proof.
  cbv zeta. unfold handleFetch. cbv zeta.
  destruct (negb (truthy_str (trim input))); [left; reflexivity|].
  destruct (new_URL host (trim input)); [|left; reflexivity].
  unfold mbind, W_bind, mret, W_ret.
  pose proof (handleFetch_try_Forall host hostname closest net _ (trim input) st
                (parseYachtListings_records host)) as Hrec.
  destruct (handleFetch_try host hostname closest net (trim input) st) as [[c|] st'];
    cbn [fst] in *; [|left; reflexivity].
  pose proof (dedupe_from_distinct (allYachts c) ∅ ∅) as [Hnd _].
  pose proof (dedupe_from_sublist (allYachts c) ∅ ∅) as Hsub.
  fold (deduplicateYachts (allYachts c)) in Hnd, Hsub.
  change (List.map key_of (deduplicateYachts (allYachts c)))
    with (key_of <$> deduplicateYachts (allYachts c)) in Hnd.
  destruct (deduplicateYachts (allYachts c)) as [|y ys] eqn:Ed; [left; reflexivity|].
  right.
  assert (Hall : Forall (fun y => (40 <= overall (confidence y) <= 100)%Z
                                  /\ issues y = validateYacht y
                                  /\ truthy_str (title y) || truthy_onum (priceRaw y)
                                     = true) (y :: ys))
    by (eapply Forall_sublist_of; [exact Hrec|exact Hsub]).
  unfold handleFetch_show. cbv zeta.
  cbn [parsedYachts totalYachtsFound selectedYachts].
  change CONFIG.MAX_LISTINGS_DISPLAY with 10%nat.
  split; [rewrite length_take; cbn [length]; lia|].
  split; [rewrite length_take; lia|].
  split.
  { rewrite fmap_take. eapply sublist_NoDup; [exact Hnd|apply sublist_take]. }
  split.
  { rewrite add_all_ids_union. apply set_eq. intros z. set_solver. }
  eapply Forall_sublist_of; [exact Hall|apply sublist_take].
Qed.

(* ====================================================================== *)
(** * Further properties: the bounds of the year *)
(* ====================================================================== *)

Lemma year_re_eq : pat_re year_pattern = year_re.
Proof. reflexivity. Qed.

Lemma stands_alone4_parts (prev : option N) (a b c d : N) (rest : jsstring) :
  stands_alone4 prev (a :: b :: c :: d :: rest) = true ->
  match prev with Some p => is_word p | None => false end = false
  /\ is_digit a = true /\ is_digit b = true /\ is_digit c = true
  /\ is_digit d = true
  /\ match rest with x :: _ => is_word x | [] => false end = false.
Proof.
  unfold stands_alone4. intros H.
  repeat match goal with
         | H : _ && _ = true |- _ => apply andb_true_iff in H as [? ?]
         | H : negb _ = true |- _ => apply negb_true_iff in H
         end.
  auto 10.
Qed.

Lemma is_digit_word (c : N) : is_digit c = true -> is_word c = true.
Proof. unfold is_word. intros ->. reflexivity. Qed.

Lemma year_match_here (bef : jsstring) (a b c d : N) (rest : jsstring) :
  stands_alone4 (head bef) (a :: b :: c :: d :: rest) = true ->
  year_shaped [a; b; c; d] = true ->
  rmatch false (pat_re year_pattern)
    {| before := bef; after := a :: b :: c :: d :: rest |} None
    (fun c' g' => Some (c', g'))
  = Some ({| before := d :: c :: b :: a :: bef; after := rest |}, Some [a; b; c; d]).
Proof.
  intros Hs Hy. rewrite year_re_eq.
  apply stands_alone4_parts in Hs as (Hp & Ha & Hb & Hc & Hd & Hn).
  assert (Hp' : match bef with x :: _ => is_word x | [] => false end = false)
    by (destruct bef; exact Hp).
  pose proof (is_digit_word _ Ha) as Wa. pose proof (is_digit_word _ Hd) as Wd.
  unfold year_shaped in Hy. apply andb_true_iff in Hy as [Hy _].
  assert (Hlen : forall n : nat, (S (S (S (S n))) - n = 4)%nat) by (intros; lia).
  unfold year_re.
  cbn [rmatch before after advance].
  unfold at_word_boundary, unit_matches, class_matches, cls_range, re_d, cls_d.
  cbn [before after]. rewrite Hp', Wa. cbn [xorb].
  apply orb_true_iff in Hy as [Hy|Hy];
    apply andb_true_iff in Hy as [Hy Hc'];
    apply andb_true_iff in Hy as [Ea Eb];
    apply N.eqb_eq in Ea, Eb; subst a b;
    cbn [N.eqb Pos.eqb]; rewrite Hc';
    cbn [rmatch before after advance]; unfold class_matches; rewrite Hd;
    cbn [before after length]; rewrite Wd, Hn; cbn [xorb]; rewrite Hlen;
    reflexivity.
Qed.

(** Where four digits do not stand alone the pattern does not match. *)
Lemma year_no_match_here (bef aft : jsstring) :
  stands_alone4 (head bef) aft = false ->
  rmatch false (pat_re year_pattern) {| before := bef; after := aft |} None
    (fun c' g' => Some (c', g'))
  = None.
Proof.
  intros Hs. rewrite year_re_eq. unfold year_re.
  cbn [rmatch before after advance].
  unfold at_word_boundary at 1. cbn [before after].
  unfold unit_matches, class_matches, cls_range, re_d, cls_d.
  destruct (xorb _ _) eqn:Ex; [|reflexivity].
  destruct aft as [|a aft]; [reflexivity|].
  cbn [rmatch before after advance].
  assert (Hpw : is_word a = true ->
                match head bef with Some p => is_word p | None => false end = false).
  { intros Wa. rewrite Wa in Ex. destruct bef as [|x bef']; [reflexivity|].
    cbn [head]. destruct (is_word x); [discriminate|reflexivity]. }
  assert (H19 : forall x y : N, (x =? y) = true -> is_digit x = true -> is_digit y = true)
    by (intros x y E; apply N.eqb_eq in E; subst; auto).
  destruct aft as [|b aft];
    [cbn [after]; destruct (49 =? a), (50 =? a); reflexivity|].
  destruct aft as [|c aft];
    [cbn [after rmatch advance before];
     destruct (49 =? a), (50 =? a), (57 =? b), (48 =? b); reflexivity|].
  destruct aft as [|d rest];
    [cbn [after rmatch advance before];
     destruct (49 =? a), (50 =? a), (57 =? b), (48 =? b),
       (in_range 53 57 c), (in_range 48 50 c); reflexivity|].
  cbn [after rmatch advance before length].
  unfold class_matches, at_word_boundary. cbn [before after].
  unfold stands_alone4 in Hs.
  assert (Hr : forall lo hi x, in_range lo hi x = true -> 48 <= lo -> hi <= 57 ->
                               is_digit x = true).
  { unfold in_range, is_digit. intros lo hi x H Hlo Hhi.
    apply andb_true_iff in H as [H1 H2]. apply N.leb_le in H1, H2.
    apply andb_true_iff. split; apply N.leb_le; lia. }
  destruct (49 =? a) eqn:E1.
  - apply N.eqb_eq in E1. subst a.
    replace (50 =? 49) with false by reflexivity.
    rewrite (Hpw eq_refl) in Hs. cbn [negb andb is_digit N.leb] in Hs.
    destruct (57 =? b) eqn:E2; [|reflexivity].
    apply N.eqb_eq in E2. subst b.
    destruct (in_range 53 57 c) eqn:E3; [|reflexivity].
    rewrite (Hr _ _ _ E3) in Hs by lia.
    destruct (is_digit d) eqn:E4; [|reflexivity].
    rewrite (is_digit_word _ E4). cbn [xorb andb] in *.
    change (is_digit 49) with true in Hs. change (is_digit 57) with true in Hs.
    cbn [andb] in Hs. apply negb_false_iff in Hs. rewrite Hs. reflexivity.
  - destruct (50 =? a) eqn:E1'; [|reflexivity].
    apply N.eqb_eq in E1'. subst a.
    rewrite (Hpw eq_refl) in Hs. cbn [negb andb] in Hs.
    destruct (48 =? b) eqn:E2; [|reflexivity].
    apply N.eqb_eq in E2. subst b.
    destruct (in_range 48 50 c) eqn:E3; [|reflexivity].
    rewrite (Hr _ _ _ E3) in Hs by lia.
    destruct (is_digit d) eqn:E4; [|reflexivity].
    rewrite (is_digit_word _ E4). cbn [xorb andb] in *.
    change (is_digit 50) with true in Hs. change (is_digit 48) with true in Hs.
    cbn [andb] in Hs. apply negb_false_iff in Hs. rewrite Hs. reflexivity.
Qed.

(** The first four-digit match of a text, when the pattern of the year
    covers it, is the first match of the pattern. *)
Lemma year_first_match (aft : jsstring) :
  forall (bef digits : jsstring),
    first_four_digits_from (head bef) aft = Some digits ->
    year_shaped digits = true ->
    exists m, search_from false (pat_re year_pattern) bef aft = Some m
              /\ m_group1 m = Some digits.
Proof.
  induction aft as [|x aft IH]; intros bef digits Hf Hy; [discriminate|].
  cbn [first_four_digits_from] in Hf.
  destruct (stands_alone4 (head bef) (x :: aft)) eqn:Es.
  - injection Hf as <-.
    destruct aft as [|b [|c [|d rest]]];
      try (unfold stands_alone4 in Es; rewrite andb_false_r in Es; discriminate).
    cbn [take] in Hy |- *.
    cbn [search_from]. rewrite (year_match_here bef x b c d rest Es Hy).
    eexists. split; reflexivity.
  - cbn [search_from]. rewrite (year_no_match_here bef (x :: aft) Es).
    apply (IH (x :: bef) digits Hf Hy).
Qed.

Lemma str_match_year (text digits : jsstring) :
  first_four_digits text = Some digits ->
  year_shaped digits = true ->
  exists m, str_match text year_pattern = Some m /\ m_group1 m = Some digits.
Proof. intros Hf Hy. apply (year_first_match text [] digits Hf Hy). Qed.

(** The year step on a text whose first four-digit match the pattern
    covers: the year is stored when it is in range and the record is left
    as it was when it is not. *)
Lemma extractSpecs_year_first (host : Host) (text digits : jsstring) (yr : Z)
    (y : yacht) :
  first_four_digits text = Some digits ->
  year_shaped digits = true ->
  parseInt digits = Some yr ->
  extractSpecs_year host text y
  = if (1950 <=? yr)%Z && (yr <=? thisYear host + 1)%Z
    then add_conf_specs 20 (set_year digits y) else y.
Proof.
  intros Hf Hy Hp. unfold extractSpecs_year.
  destruct (str_match_year text digits Hf Hy) as (m & -> & Hg).
  rewrite Hg. cbn [default id from_option]. rewrite Hp. reflexivity.
Qed.

Lemma parseInt_signed_digits (neg : bool) (l : jsstring) :
  l <> [] -> forallb is_digit l = true ->
  parseInt ((if neg then [45] else []) ++ l)
  = Some (if neg then (- Z.of_N (N_of_digits (List.map digit_val l)))%Z
          else Z.of_N (N_of_digits (List.map digit_val l))).
Proof.
  destruct l as [|c l]; [congruence|]. intros _ H.
  pose proof (span_digits_all (c :: l) H) as Hs.
  cbn [forallb] in H. apply andb_true_iff in H as [Hc Hl].
  assert (Hx : forall x t, l = x :: t -> (x =? 120) || (x =? 88) = false).
  { intros x t ->. cbn [forallb] in Hl. apply andb_true_iff in Hl as [Hx _].
    unfold is_digit in Hx. apply andb_true_iff in Hx as [H1 H2].
    apply N.leb_le in H1, H2. apply orb_false_iff.
    split; apply N.eqb_neq; lia. }
  unfold parseInt.
  destruct neg; cbn [app drop_spaces].
  - change (is_space 45) with false. cbv iota beta.
    digit_cases Hc; cbv iota beta zeta;
      try (rewrite Hs; reflexivity).
    destruct l as [|x t]; [rewrite Hs; reflexivity|].
    rewrite (Hx x t eq_refl), Hs. reflexivity.
  - digit_cases Hc;
      match goal with
      | |- context [is_space ?x] => change (is_space x) with false
      end; cbv iota beta zeta;
      try (rewrite Hs; reflexivity).
    destruct l as [|x t]; [rewrite Hs; reflexivity|].
    rewrite (Hx x t eq_refl), Hs. reflexivity.
Qed.

Lemma parseInt_print_Z (z : Z) : parseInt (print_Z z) = Some z.
Proof.
  unfold print_Z.
  rewrite (parseInt_signed_digits (z <? 0)%Z (print_N (Z.abs_N z))).
  - rewrite print_N_value. f_equal.
    destruct (z <? 0)%Z eqn:E; [apply Z.ltb_lt in E|apply Z.ltb_ge in E]; lia.
  - destruct (print_N_head (Z.abs_N z)) as (c & rest & -> & _). discriminate.
  - apply print_uint_digits.
Qed.

Lemma print_Z_inj (a b : Z) : print_Z a = print_Z b -> a = b.
Proof.
  intros H. apply (f_equal parseInt) in H. rewrite !parseInt_print_Z in H.
  congruence.
Qed.

Lemma year_shaped_print_Z (z : Z) :
  (1950 <= z <= 2029)%Z -> year_shaped (print_Z z) = true.
Proof.
  intros H.
  assert (Hn : exists n : nat, (n < 80)%nat /\ z = (1950 + Z.of_nat n)%Z).
  { exists (Z.to_nat (z - 1950)). lia. }
  destruct Hn as (n & Hn & ->).
  do 80 (destruct n as [|n]; [vm_compute; reflexivity|]).
  lia.
Qed.

(** A year the record gets from [extractSpecs] is within the bounds. *)
Lemma extractSpecs_year_stored (host : Host) (element : node) (y0 : yacht) (z : Z) :
  year (extractSpecs host element y0) = print_Z z ->
  year y0 = print_Z z \/ (1950 <= z <= thisYear host + 1)%Z.
Proof.
  rewrite extractSpecs_year_field.
  destruct (extractSpecs_year_cases host (textContent element) y0)
    as [->|(digits & yr & -> & Hp & Hr)]; [auto|].
  intros E. right.
  change (year (add_conf_specs 20 (set_year digits y0))) with digits in E.
  subst digits. rewrite parseInt_print_Z in Hp. injection Hp as <-. exact Hr.
Qed.

(** C9 (amended): the spec extractor rejects the year 1949, accepts the
    year 1950, accepts the current year plus one and rejects the current
    year plus two, for a text whose first four-digit match is that year.
    A rejected year is never stored, whatever the text: a record that has
    it after [extractSpecs] had it before.  An accepted year is stored
    when the pattern of the program covers it, which goes from 1950 to
    2029; and when the pattern covers the current year plus two, a text
    whose first four-digit match it is leaves the year of the record as
    it was. *)
Theorem extractSpecs_year_boundaries (host : Host) (element : node) (y0 : yacht) :
  (year (extractSpecs host element y0) = js "1949" -> year y0 = js "1949")
  /\ (first_four_digits (textContent element) = Some (js "1950") ->
      (1949 <= thisYear host)%Z ->
      year (extractSpecs host element y0) = js "1950")
  /\ (first_four_digits (textContent element) = Some (print_Z (thisYear host + 1)) ->
      (1949 <= thisYear host <= 2028)%Z ->
      year (extractSpecs host element y0) = print_Z (thisYear host + 1))
  /\ (year (extractSpecs host element y0) = print_Z (thisYear host + 2) ->
      year y0 = print_Z (thisYear host + 2))
  /\ (first_four_digits (textContent element) = Some (print_Z (thisYear host + 2)) ->
      (1948 <= thisYear host <= 2027)%Z ->
      year (extractSpecs host element y0) = year y0).
Proof.
  split; [|split; [|split; [|split]]].
  - intros E. change (js "1949") with (print_Z 1949) in *.
    destruct (extractSpecs_year_stored host element y0 1949 E) as [H|H];
      [exact H|lia].
  - intros Hf Hc. rewrite extractSpecs_year_field.
    rewrite (extractSpecs_year_first host _ (js "1950") 1950 y0 Hf);
      [|reflexivity|reflexivity].
    replace ((1950 <=? 1950)%Z && (1950 <=? thisYear host + 1)%Z) with true;
      [reflexivity|].
    symmetry. apply andb_true_iff. split; apply Z.leb_le; lia.
  - intros Hf Hc. rewrite extractSpecs_year_field.
    rewrite (extractSpecs_year_first host _ _ (thisYear host + 1) y0 Hf);
      [|apply year_shaped_print_Z; lia|apply parseInt_print_Z].
    replace ((1950 <=? thisYear host + 1)%Z
             && (thisYear host + 1 <=? thisYear host + 1)%Z) with true;
      [reflexivity|].
    symmetry. apply andb_true_iff. split; apply Z.leb_le; lia.
  - intros E.
    destruct (extractSpecs_year_stored host element y0 _ E) as [H|H];
      [exact H|lia].
  - intros Hf Hc. rewrite extractSpecs_year_field.
    rewrite (extractSpecs_year_first host _ _ (thisYear host + 2) y0 Hf);
      [|apply year_shaped_print_Z; lia|apply parseInt_print_Z].
    replace (thisYear host + 2 <=? thisYear host + 1)%Z with false;
      [rewrite andb_false_r; reflexivity|].
    symmetry. apply Z.leb_gt. lia.
Qed.

(** The four years on their own, with the current year 2025. *)
Lemma extractSpecs_year_alone :
  let host := simple_host 2025 in
  let y0 := empty_yacht 0 0 in
  year (extractSpecs host (text_node (js "1949")) y0) = []
  /\ year (extractSpecs host (text_node (js "1950")) y0) = js "1950"
  /\ year (extractSpecs host (text_node (js "2026")) y0) = js "2026"
  /\ year (extractSpecs host (text_node (js "2027")) y0) = [].
Proof. cbv zeta. split; [|split; [|split]]; vm_compute; reflexivity. Qed.

Lemma extractSpecs_year_boundaries_witness :
  let host := simple_host 2025 in
  let y0 := empty_yacht 0 0 in
  year (extractSpecs host (text_node (js "Built 1950, refit 2019")) y0) = js "1950"
  /\ year (extractSpecs host (text_node (js "Delivery: 2026 (hull 1987)")) y0)
     = js "2026"
  /\ year (extractSpecs host (text_node (js "Delivery: 2027 (hull 1987)")) y0) = [].
Proof.
  cbv zeta. split; [|split].
  - apply (proj1 (proj2 (extractSpecs_year_boundaries (simple_host 2025)
                           (text_node (js "Built 1950, refit 2019")) (empty_yacht 0 0)))).
    + vm_compute. reflexivity.
    + cbn. lia.
  - apply (proj1 (proj2 (proj2 (extractSpecs_year_boundaries (simple_host 2025)
                           (text_node (js "Delivery: 2026 (hull 1987)"))
                           (empty_yacht 0 0))))).
    + vm_compute. reflexivity.
    + cbn. lia.
  - apply (proj2 (proj2 (proj2 (proj2 (extractSpecs_year_boundaries (simple_host 2025)
                           (text_node (js "Delivery: 2027 (hull 1987)"))
                           (empty_yacht 0 0)))))).
    + vm_compute. reflexivity.
    + cbn. lia.
Defined.

(* ====================================================================== *)
(** * Further properties: one record per key *)
(* ====================================================================== *)

Lemma drop_spaces_app (s b : jsstring) :
  drop_spaces (s ++ b)
  = match drop_spaces s with
    | [] => drop_spaces b
    | _ => drop_spaces s ++ b
    end.
Proof.
  induction s as [|c s IH]; [reflexivity|].
  cbn [app drop_spaces]. destruct (is_space c); [exact IH|reflexivity].
Qed.

Lemma drop_spaces_all (a : jsstring) :
  forallb is_space a = true -> drop_spaces a = [].
Proof.
  induction a as [|c a IH]; [reflexivity|].
  cbn [forallb drop_spaces]. intros H. apply andb_true_iff in H as [-> H].
  exact (IH H).
Qed.

(** White space around a text does not change what [trim] gives. *)
Lemma trim_spaces_around (a s b : jsstring) :
  forallb is_space a = true -> forallb is_space b = true ->
  trim (a ++ s ++ b) = trim s.
Proof.
  intros Ha Hb. unfold trim. f_equal.
  rewrite (drop_spaces_app a), (drop_spaces_all a Ha).
  rewrite (drop_spaces_app s).
  assert (Hrb : forallb is_space (rev b) = true).
  { apply forallb_forall. intros x Hx. apply in_rev in Hx.
    exact (proj1 (forallb_forall _ _) Hb x Hx). }
  destruct (drop_spaces s) as [|c t].
  - rewrite (drop_spaces_all b Hb). reflexivity.
  - rewrite rev_app_distr, (drop_spaces_app (rev b)), (drop_spaces_all _ Hrb).
    reflexivity.
Qed.

(** C6: deduplication keeps exactly one record per key, the first
    encountered.  For every record, the records of the output that share
    its key are the first record of the input that shares it, and no
    other: so among records with the same non-empty [detailUrl] exactly
    the first is kept, and among records with an empty [detailUrl], the
    same lower-cased trimmed title and the same [priceRaw] ([null] as 0)
    exactly the first is kept.  What lower-casing and trimming do is
    fixed on titles of ASCII units: the lower-cased title is the title
    with each capital letter replaced by its small letter, and a title
    with white space put before and after it has the key of the title
    itself. *)
Theorem deduplicateYachts_first_per_key (yachts : list yacht) :
  (forall y0 : yacht,
      List.filter (same_key y0) (deduplicateYachts yachts)
      = take 1 (List.filter (same_key y0) yachts))
  /\ (forall y1 y2 : yacht,
         truthy_ostr (detailUrl y1) = false ->
         truthy_ostr (detailUrl y2) = false ->
         forallb (fun c => c <? 128) (title y1) = true ->
         forallb (fun c => c <? 128) (title y2) = true ->
         (same_key y1 y2 = true
          <-> trim (List.map small_letter (title y1))
              = trim (List.map small_letter (title y2))
              /\ same_price (priceRaw y1) (priceRaw y2) = true))
  /\ (forall (y1 y2 : yacht) (before after : jsstring),
         truthy_ostr (detailUrl y1) = false ->
         truthy_ostr (detailUrl y2) = false ->
         forallb (fun c => c <? 128) (title y1) = true ->
         forallb (fun c => is_space c && (c <? 128)) before = true ->
         forallb (fun c => is_space c && (c <? 128)) after = true ->
         title y2 = before ++ title y1 ++ after ->
         same_price (priceRaw y1) (priceRaw y2) = true ->
         same_key y1 y2 = true).
Proof.
  assert (Hascii : forall y1 y2 : yacht,
             truthy_ostr (detailUrl y1) = false ->
             truthy_ostr (detailUrl y2) = false ->
             forallb (fun c => c <? 128) (title y1) = true ->
             forallb (fun c => c <? 128) (title y2) = true ->
             (same_key y1 y2 = true
              <-> trim (List.map small_letter (title y1))
                  = trim (List.map small_letter (title y2))
                  /\ same_price (priceRaw y1) (priceRaw y2) = true)).
  { intros y1 y2 E1 E2 H1 H2. unfold same_key. rewrite E1, E2.
    rewrite andb_true_iff, bool_decide_eq_true.
    rewrite (toLowerCase_ascii _ H1), (toLowerCase_ascii _ H2).
    reflexivity. }
  split; [|split; [exact Hascii|]].
  - intros y0. rewrite !filter_same_key.
    unfold deduplicateYachts. rewrite dedupe_from_first.
    rewrite decide_False; [reflexivity|].
    destruct (key_of y0); cbn [key_seen]; apply not_elem_of_empty.
  - intros y1 y2 before after E1 E2 H1 Hb Ha Et Hp.
    assert (Hsp : forall l, forallb (fun c => is_space c && (c <? 128)) l = true ->
                    forallb (fun c => c <? 128) l = true
                    /\ forallb is_space l = true
                    /\ List.map small_letter l = l).
    { induction l as [|c l IH]; [auto|].
      cbn [forallb List.map]. intros H. apply andb_true_iff in H as [Hc Hl].
      apply andb_true_iff in Hc as [Hs Hc].
      destruct (IH Hl) as (I1 & I2 & I3). rewrite Hs, Hc, I1, I2, I3.
      repeat split. f_equal. unfold small_letter, is_upper.
      destruct ((65 <=? c) && (c <=? 90)) eqn:Eu; [|reflexivity].
      exfalso. apply andb_true_iff in Eu as [U1 U2]. apply N.leb_le in U1, U2.
      unfold is_space in Hs.
      repeat match type of Hs with
             | (_ || _) = true => apply orb_true_iff in Hs as [Hs|Hs]
             end;
        repeat match goal with
               | H : (_ && _) = true |- _ => apply andb_true_iff in H as [? ?]
               | H : (_ <=? _) = true |- _ => apply N.leb_le in H
               | H : (_ =? _) = true |- _ => apply N.eqb_eq in H
               end; lia. }
    destruct (Hsp _ Hb) as (Hb1 & Hb2 & Hb3).
    destruct (Hsp _ Ha) as (Ha1 & Ha2 & Ha3).
    apply Hascii; [exact E1|exact E2|exact H1| |].
    + rewrite Et, !forallb_app, Hb1, H1, Ha1. reflexivity.
    + split; [|exact Hp].
      rewrite Et, !List.map_app, Hb3, Ha3.
      symmetry. apply trim_spaces_around; assumption.
Qed.

Lemma deduplicateYachts_example :
  List.map title (deduplicateYachts duplicates)
  = [js "Sea Breeze"; js "  SEA Breeze "; js "sea breeze"]
  /\ List.map priceRaw (deduplicateYachts duplicates)
    = [None; None; Some (num_of_N 5000)].
Proof. split; vm_compute; reflexivity. Qed.

(** Lower-casing is not limited to ASCII: of two records whose titles
    differ in the case of Cyrillic letters the first is kept. *)
Lemma deduplicateYachts_cyrillic :
  List.map yid (deduplicateYachts cyrillic_duplicates) = [js "yacht-0-0"].
Proof. vm_compute; reflexivity. Qed.

Lemma deduplicateYachts_first_per_key_witness :
  List.filter (same_key (listed "sea breeze" None None)) (deduplicateYachts duplicates)
  = take 1 (List.filter (same_key (listed "sea breeze" None None)) duplicates)
  /\ same_key (listed "SEA Breeze" None None) (listed "  SEA Breeze " None None) = true.
Proof.
  split.
  - apply (proj1 (deduplicateYachts_first_per_key duplicates)).
  - apply (proj2 (proj2 (deduplicateYachts_first_per_key []))
             _ _ (js "  ") (js " "));
      vm_compute; reflexivity.
Defined.
